(* ===== verification/_CoqProject ===== *)
-Q . S2P
Prelude.v
Wire.v
TextField.v
Framing.v
Codec.v
SessionMessages.v
ContentMessages.v
SocialMessages.v
Fuzz.v
TextTools.v
Hex.v
RateLimit.v
Sodium.v
Noise.v
Config.v
ConfigFile.v
ClientOptions.v
DirectMessages.v
Recovery.v
Files.v
Keystore.v
Connection.v
Database.v
Migrations.v
ClientNet.v
ClientChannel.v
ClientSession.v
ClientCommands.v
ClientMain.v
Startup.v
Repositories.v
SocialRepositories.v
Handlers.v
Server.v
Effects.v
Permissions.v
Integrity.v
Admin.v
Scenario.v
Transactions.v
Reads.v
Mailbox.v
Guarantees.v
Sessions.v
Runtime.v
InputLoop.v
ClientLogin.v
ClientMail.v
MailDelivery.v
CommandLine.v
GraphicalClient.v
GraphicalUse.v
GraphicalTop8.v
I18n.v
Presentation.v
Audio.v
Drawing.v
RenderLoop.v
FrameFacts.v
FirstFrame.v
EventLoop.v
LoopSound.v
ServerMain.v
Tools.v
