(* ===== verification/Prelude.v ===== *)
(** * HyperCom: a verification library for the server, its protocol and its client

    HyperCom is a forum and mail server with its command line and graphical
    clients, in C++. A client opens a TCP connection, through a SOCKS5 proxy
    or not, runs a Noise NK handshake against the server's static key, proves
    its identity by signing a challenge, and exchanges framed requests and
    answers; the server keeps everything in one SQLite database; private
    messages are encrypted end to end by the clients.

    ** The parts, and where they are modelled

    The protocol (common/protocol), shared by both ends:
    - [Wire]: protocol_limits, endian_codec, byte_reader, byte_writer,
      record_list_codec. A reader is a state-passing function that may fail;
      [WireFormat] and [WireLaws] are what a message structure promises.
    - [TextField], [Codec]: text_field_codec, and the fields of messages.
    - [Framing]: message_type, error_code, frame_codec, length_prefixed_stream.
    - [SessionMessages], [ContentMessages], [SocialMessages]: the structures of
      every message, one module each, with its [write_to] and [read_from].
      [Fuzz] has all of them at once, and the harness of tools/fuzz.

    Cryptography (common/crypto). libsodium is a parameter: its primitives are
    the class [Sodium.Sodium], its documented behaviour [Sodium.SodiumLaws],
    which the concrete (insecure) [Sodium.toy_sodium] satisfies.
    - [Noise]: the cipher and symmetric states, both sides of the handshake, the
      transport, and the server's channel (server/net/noise_channel).
    - [DirectMessages]: identities, session keys, the ratchet, the envelope, and
      the client's courier (client/dm).
    - [Recovery]: the recovery phrase and its list of 2048 words.

    The server (server):
    - [Config], [ConfigFile]: hypercom.conf; [Startup]: server_main.cpp and the
      static key; [Migrations]: migration_runner.cpp.
    - [Connection]: connection_socket, session_state, connection_registry;
      [RateLimit]: rate_limiter, rate_tracker.
    - [Database]: the schema with its constraints as finite maps, and the
      execution of statements by an engine in which any call may fail
      ([sql_fails], a field of the class [Environment] with the clock and the
      random generator); [Repositories], [SocialRepositories]: one operation per
      method of server/db/*_repository.
    - [Handlers], [Server]: one definition per handler, the router, the rate
      limits, the loop over the input. The state is a [machine]: the world
      (database, clock, entropy, log), the rate tracker and the connection.
    - [Admin]: the administration socket and its commands.
    - [Runtime]: server_runtime, the server as a whole, as a transition system
      of which the steps are the events a server can see. [EventLoop]: the loop
      itself on Linux, over a table of descriptors and what epoll watches of
      them (event_loop, unique_descriptor, tcp_listener, admin_listener, the
      start, the dispatch of events); [LoopSound] has its theorems.
    - [ServerMain]: server_main.cpp, from the arguments to the exit code.

    The client (client):
    - [ClientOptions]: links, connect files and the command line; [Hex] and
      [TextTools] are what they share with the server.
    - [Files], [Keystore]: secrets at rest, the registry of servers and its
      commands.
    - [ClientNet]: the socket, the SOCKS5 negotiation, the encrypted connection,
      typed messages; [ClientSession]: the login. The network is the list of
      answers [recv] and [send] give.
    - [ClientCommands]: the commands of cli_*_commands.cpp; [ClientMain]:
      cli_main.cpp from the arguments to the exit code.
    - [GraphicalClient]: the state of the window and of its servers, the actions
      of ui_*_actions.cpp and server_actions.cpp, the start and the service of
      a frame in gui_main.cpp; [GraphicalUse] has the steps a person and the
      frames can make it take.
    - [Drawing]: the panels of draw_*.cpp and the frame of gui_main.cpp. A
      drawing function shows widgets in order; what the person does with each
      is an argument ([Person]); it has no result where the sources walk freed
      memory. [I18n] is the table of texts, [Presentation] the scale, the zoom
      and the welcome sequence in floating point, [Audio] the music.
    - [RenderLoop]: the loop of frames and main, down to the exit code.

    The tools (tools): [Tools] has adminctl_main.cpp and keygen_main.cpp.

    Effects are state passing, with the combinators of [Prelude]
    ([state], [fallible], [zoom]); an operation that returns false in the
    sources returns [false], [None] or an error text here. Strings and byte
    vectors are lists of bytes, machine integers are [Z] with the wrap written
    out where the sources can wrap.

    ** What the theorems show

    - Bytes: reading undoes writing, and only canonical encodings are read
      ([SessionMessages], [ContentMessages], [SocialMessages], [ClientOptions],
      [ConfigFile], [Recovery], [Keystore]); the UTF-8 validator is exactly the
      set of encodings of allowed characters ([TextField]).
    - The channel: the handshake gives both ends the same two keys, then
      messages are opened in order, once, and only if the peer sealed them, and
      no nonce is used twice ([Noise]); the same for a client over a network
      that cuts and delays ([ClientChannel]), which dials only its proxy.
    - The database: whatever clients send and whatever calls fail it stays well
      formed ([Integrity], [Guarantees]); a request does a sequence of the
      changes its session is permitted and nothing else ([Permissions]); a
      stranger changes nothing and an account only what is its own
      ([Guarantees]); transactions happen in full or not at all
      ([Transactions], [Migrations]).
    - Sessions: a session is an account's only after a valid signature of its
      challenge, and its identity never changes ([Sessions]).
    - Mail: pages of a mailbox are exact ([Reads], [Mailbox]); a message that is
      sealed is opened by its recipient if its text is a valid field, which the
      sender does not check, and what opens was sealed for it
      ([DirectMessages]).
    - The server as a whole: connection caps, registries and the database are
      sound in every reachable state ([Runtime]); the event loop takes only
      such steps, leaks no descriptor, listens to every connection and stops at
      a signal ([LoopSound]); every start of the program leads there, with the
      key pair of its key file, which it announces ([ServerMain]); the loop over the input ends, and the cutting of the
      stream does not matter ([InputLoop]).
    - Both ends together: the connect file the server writes leads the client to
      it ([Startup]), and the owner of an account logs in ([ClientLogin]); what
      becomes of the mail a client fetches ([ClientMail]), who can read the
      mail it sends and how unreadable mail blocks a mailbox for good
      ([MailDelivery]); two runs of the program exchange a
      message through the server, from the command lines to what is printed
      ([CommandLine]); the first frame of the window logs in and shows the
      forums of the server's database ([FirstFrame]). The rate limits are in
      force in all of these: what is asked of the tracker is room for the
      requests counted ([RateLimit.room], [ClientLogin.admitted]), which a
      server that was just started has under the default configuration.
    - The clients: an identity, once made, is the one of every later run
      ([ClientMain]), and the recovery phrase restores the seed it is derived
      from ([Keystore]); the graphical client leaves a server alone until its
      warning is acknowledged, and several ways in which it falls short of what
      it says ([GraphicalUse], [GraphicalTop8], [FrameFacts]). Whatever a person
      presses and types in the frames of a run, the program takes only the
      steps of [GraphicalUse] ([RenderLoop]), so that what is shown there to
      hold of them holds of the program with its window; left alone it does
      nothing ([FrameFacts]); its scale stays readable ([Presentation]).
    - The tools: what an operator types is what the server runs, and the keys
      generated are those that the server and the clients use ([Tools]).

    [Effects] and [Scenario] are tools: lifting what statements preserve to
    programs, and a concrete environment with a small database on which the
    theorems with hypotheses are instantiated.

    ** Fuel and bounds

    Loops without a structural argument run on fuel that is never exhausted:
    [process_messages] and [drain_loop] on the length of the buffer, as every
    message takes five bytes or more ([InputLoop.input_loop_ends]);
    [parse_lines] on the length of the text plus one, as every line takes a byte
    but the last; [split_loop] and [split_tokens] on the length of the text;
    [decimal] on 20 digits, enough for 64 bits; [thread_rounds] on the depth
    the query itself is limited to. The attempts of the client's reads
    ([MAX_RECEIVE_ATTEMPTS], [MAX_READ_ATTEMPTS]) are those of the sources.

    ** Not modelled

    Positions, colours and the animated backdrop of what is drawn (aero_theme,
    aero_decorations), and the calls of GLFW, OpenGL, Dear ImGui and miniaudio,
    of which the answers are arguments; socket options, directories and the
    permissions of files; the branches for Windows; SQLite's backup and
    pragmas; the SQL text, of which the meaning on the tables is written out;
    the calls of libsodium, the file system, the network and the kernel, of
    which the answers are arguments; prepare_session of gui_startup.cpp, which
    nothing calls; the tests, which drive the code modelled here. *)

From stdpp Require Export base tactics list numbers option gmap strings.
From Stdlib Require Export ZArith Lia.
From Stdlib Require Strings.Byte Strings.String.

#[global] Open Scope Z_scope.

(** ** Bytes *)

(** A [std::uint8_t]; a [std::string] or a [std::vector<std::uint8_t>] is a
    list of them. *)
Abbreviation byte := Init.Byte.byte.
Abbreviation bytes := (list Init.Byte.byte).

Declare Scope hypercom_scope.
Delimit Scope hypercom_scope with hc.
#[global] Open Scope hypercom_scope.

#[export] Instance byte_eq_decision : EqDecision byte := Byte.byte_eq_dec.

#[export] Instance byte_inhabited : Inhabited byte := populate Byte.x00.

Definition byte_val (b : byte) : Z := Z.of_N (Byte.to_N b).

(** [static_cast<std::uint8_t>(z)]: the low eight bits. *)
Definition byte_of (z : Z) : byte :=
  match Byte.of_N (Z.to_N (z mod 256)) with
  | Some b => b
  | None => Byte.x00
  end.

Lemma byte_val_range b : 0 <= byte_val b < 256.
Proof.
  unfold byte_val. pose proof (Byte.to_N_bounded b). lia.
Qed.

Lemma byte_of_val b : byte_of (byte_val b) = b.
Proof.
  pose proof (byte_val_range b) as Hb. unfold byte_of.
  rewrite Z.mod_small by lia. unfold byte_val.
  by rewrite N2Z.id, Byte.of_to_N.
Qed.

Lemma byte_val_of z : byte_val (byte_of z) = z mod 256.
Proof.
  pose proof (Z.mod_pos_bound z 256 ltac:(lia)) as Hz. unfold byte_of.
  destruct (Byte.of_N (Z.to_N (z mod 256))) as [b|] eqn:E.
  - apply Byte.to_of_N in E. unfold byte_val. rewrite E. lia.
  - apply Byte.of_N_None_iff in E. lia.
Qed.

Lemma byte_val_inj b c : byte_val b = byte_val c → b = c.
Proof. intros E. by rewrite <-(byte_of_val b), <-(byte_of_val c), E. Qed.

#[export] Instance byte_countable : Countable byte.
Proof.
  refine (inj_countable byte_val (λ z, Some (byte_of z)) _).
  intros b. by rewrite byte_of_val.
Defined.

(** A C++ string literal. *)
Definition lit (s : String.string) : bytes := String.list_byte_of_string s.
Arguments lit s%_stdpp.

(** The code of a character literal, written as a one-character string. *)
Definition chr (s : String.string) : Z := byte_val (default Byte.x00 (head (lit s))).
Arguments chr s%_stdpp.

(** [low <= character && character <= high]. *)
Definition in_range (low high : Z) (character : byte) : bool :=
  (low <=? byte_val character) && (byte_val character <=? high).

(** [container.size()], a [std::size_t]. *)
Definition size_of {A} (l : list A) : Z := Z.of_nat (length l).

Lemma size_of_nonneg {A} (l : list A) : 0 <= size_of l.
Proof. unfold size_of. lia. Qed.

Lemma size_of_app {A} (l k : list A) : size_of (l ++ k) = size_of l + size_of k.
Proof. unfold size_of. rewrite length_app. lia. Qed.

Lemma size_of_cons {A} (x : A) l : size_of (x :: l) = 1 + size_of l.
Proof. unfold size_of. simpl. lia. Qed.

Lemma size_of_nil {A} : size_of (@nil A) = 0.
Proof. reflexivity. Qed.

Create Rewrite HintDb sizes.
#[export] Hint Rewrite @size_of_app @size_of_cons @size_of_nil @length_app
  @length_take @length_drop @length_replicate : sizes.

(** Normalise sizes of lists, then linear arithmetic. *)
Ltac size_lia := unfold size_of in *; autorewrite with sizes in *; simpl in *; lia.

(** ** Fixed-width integers *)

(** The values of an unsigned integer type of [w] bits. *)
Definition fits (w : Z) (z : Z) : Prop := 0 <= z < 2 ^ w.

Abbreviation u8 := (fits 8).
Abbreviation u16 := (fits 16).
Abbreviation u32 := (fits 32).
Abbreviation u64 := (fits 64).

#[export] Instance fits_dec w z : Decision (fits w z).
Proof. unfold fits. apply _. Defined.

(** [static_cast] to an unsigned type of [w] bits. *)
Definition wrap (w : Z) (z : Z) : Z := z mod 2 ^ w.

(** [static_cast<std::int64_t>] of a 64-bit value (two's complement). *)
Definition to_i64 (z : Z) : Z :=
  let u := wrap 64 z in if u <? 2 ^ 63 then u else u - 2 ^ 64.

(** [static_cast<std::uint64_t>] of a signed 64-bit value. *)
Definition to_u64 (z : Z) : Z := wrap 64 z.

Lemma wrap_fits w z : 0 <= w → fits w (wrap w z).
Proof. intros Hw. apply Z.mod_pos_bound. by apply Z.pow_pos_nonneg. Qed.

Lemma wrap_id w z : fits w z → wrap w z = z.
Proof. intros Hz. by apply Z.mod_small. Qed.

Lemma to_i64_range z : - 2 ^ 63 <= to_i64 z < 2 ^ 63.
Proof.
  unfold to_i64. pose proof (wrap_fits 64 z ltac:(lia)) as [? ?].
  destruct (Z.ltb_spec (wrap 64 z) (2 ^ 63)); lia.
Qed.

Lemma to_u64_to_i64 z : u64 z → to_u64 (to_i64 z) = z.
Proof.
  intros Hz. unfold to_i64. rewrite (wrap_id 64 z) by done.
  unfold to_u64, wrap, fits in *.
  destruct (Z.ltb_spec z (2 ^ 63)).
  - apply Z.mod_small. lia.
  - replace (z - 2 ^ 64) with (z + (-1) * 2 ^ 64) by lia.
    rewrite Z.mod_add by lia. apply Z.mod_small. lia.
Qed.

Lemma to_i64_id z : 0 <= z < 2 ^ 63 → to_i64 z = z.
Proof.
  intros Hz. unfold to_i64. rewrite wrap_id by (unfold fits; lia).
  destruct (Z.ltb_spec z (2 ^ 63)); lia.
Qed.

(** ** A state monad *)

Definition state (S A : Type) : Type := S → A * S.

Definition sret {S A} (a : A) : state S A := λ s, (a, s).
Definition sbind {S A B} (m : state S A) (k : A → state S B) : state S B :=
  λ s, let '(a, s') := m s in k a s'.
Definition sget {S} : state S S := λ s, (s, s).
Definition sput {S} (s : S) : state S unit := λ _, (tt, s).
Definition smodify {S} (f : S → S) : state S unit := λ s, (tt, f s).
Definition sgets {S A} (f : S → A) : state S A := λ s, (f s, s).

Notation "'let*' x ':=' m 'in' k" := (sbind m (λ x, k))
  (at level 10, x binder, m at level 200, k at level 200) : hypercom_scope.
Notation "'do*' m 'in' k" := (sbind m (λ _, k))
  (at level 10, m at level 200, k at level 200) : hypercom_scope.

(** Actions that can fail: a failure ends the sequence and keeps the state
    it was reached in, as an early [return false] does. *)
Definition fallible (S A : Type) : Type := state S (option A).
Definition fret {S A} (a : A) : fallible S A := sret (Some a).
Definition ffail {S A} : fallible S A := sret None.
Definition fbind {S A B} (m : fallible S A) (k : A → fallible S B) : fallible S B :=
  λ s, match m s with
       | (Some a, s') => k a s'
       | (None, s') => (None, s')
       end.
(** [if (!condition) { return false; }] *)
Definition ensure {S} (condition : bool) : fallible S unit :=
  if condition then fret tt else ffail.

Notation "'let!' x ':=' m 'in' k" := (fbind m (λ x, k))
  (at level 10, x binder, m at level 200, k at level 200) : hypercom_scope.
Notation "'do!' m 'in' k" := (fbind m (λ _, k))
  (at level 10, m at level 200, k at level 200) : hypercom_scope.

(** Run an action on a component of the state. *)
Definition zoom {S T A} (get : S → T) (set : T → S → S) (m : state T A) : state S A :=
  λ s, let '(a, t) := m (get s) in (a, set t s).

(** An action keeps to a relation between the state before and the state
    after. With a preorder the relation holds of a whole program as soon as
    it holds of each of its steps. *)
Definition keeps {S A} (R : S → S → Prop) (m : state S A) : Prop :=
  ∀ s, R s (m s).2.

Section keeps.
Context {S : Type} (R : S → S → Prop) `{!PreOrder R}.

Lemma keeps_ret {A} (a : A) : keeps R (sret a).
  Proof. intros s. simpl. reflexivity. Qed.

Lemma keeps_gets {A} (f : S → A) : keeps R (sgets f).
  Proof. intros s. simpl. reflexivity. Qed.

Lemma keeps_get : keeps R sget.
  Proof. intros s. simpl. reflexivity. Qed.

Lemma keeps_bind {A B} (m : state S A) (k : A → state S B) :
    keeps R m → (∀ a, keeps R (k a)) → keeps R (sbind m k).
  Proof.
    intros Hm Hk s. unfold sbind. specialize (Hm s).
    destruct (m s) as [a s'] eqn:E. simpl in *.
    etransitivity; [exact Hm | apply Hk].
  Qed.

Lemma keeps_fbind {A B} (m : fallible S A) (k : A → fallible S B) :
    keeps R m → (∀ a, keeps R (k a)) → keeps R (fbind m k).
  Proof.
    intros Hm Hk s. unfold fbind. specialize (Hm s).
    destruct (m s) as [[a|] s'] eqn:E; simpl in *; [|done].
    etransitivity; [exact Hm | apply Hk].
  Qed.

Lemma keeps_if {A} (b : bool) (m k : state S A) :
    keeps R m → keeps R k → keeps R (if b then m else k).
  Proof. by destruct b. Qed.

Lemma keeps_option {A B} (o : option B) (f : B → state S A) (k : state S A) :
    (∀ b, keeps R (f b)) → keeps R k →
    keeps R (match o with Some b => f b | None => k end).
  Proof. by destruct o. Qed.
End keeps.

Lemma keeps_zoom {S T A} (get : S → T) (set : T → S → S)
    (R : S → S → Prop) (m : state T A) :
  (∀ s, R s (set (m (get s)).2 s)) → keeps R (zoom get set m).
Proof.
  intros H s. specialize (H s). unfold zoom. by destruct (m (get s)).
Qed.

Create HintDb keeps.
#[export] Hint Resolve keeps_ret keeps_gets keeps_get keeps_bind keeps_if
  keeps_option : keeps.

(** Hoare triples over the state monad, for postconditions. *)
Definition triple {S A} (P : S → Prop) (m : state S A) (Q : A → S → Prop) : Prop :=
  ∀ s, P s → Q (m s).1 (m s).2.

Lemma triple_ret {S A} (P : S → Prop) (a : A) (Q : A → S → Prop) :
  (∀ s, P s → Q a s) → triple P (sret a) Q.
Proof. intros H s Hs. by apply H. Qed.

Lemma triple_bind {S A B} (P : S → Prop) (m : state S A) (k : A → state S B) M Q :
  triple P m M → (∀ a, triple (M a) (k a) Q) → triple P (sbind m k) Q.
Proof.
  intros Hm Hk s Hs. unfold sbind. specialize (Hm s Hs).
  destruct (m s) as [a s'] eqn:E. by apply Hk.
Qed.

(** Split a hypothesis on the result of a monadic program into one equation
    per step. *)
Ltac step_state :=
  match goal with
  | H : context [let '(_, _) := ?m ?s in _] |- _ => destruct (m s) as [? ?] eqn:?
  | |- context [let '(_, _) := ?m ?s in _] => destruct (m s) as [? ?] eqn:?
  end.

(** Prove a closed decidable proposition by evaluating its decision. *)
Ltac by_decision :=
  lazymatch goal with |- ?P => apply (bool_decide_unpack P); vm_compute; exact I end.

(** ** Lists *)

Lemma take_app_exact {A} (l k : list A) n : n = length l → take n (l ++ k) = l.
Proof. intros ->. by rewrite take_app_length. Qed.

Lemma drop_app_exact {A} (l k : list A) n : n = length l → drop n (l ++ k) = k.
Proof. intros ->. by rewrite drop_app_length. Qed.

Lemma app_split_lengths {A} (l1 l2 k1 k2 : list A) :
  l1 ++ k1 = l2 ++ k2 → length l1 = length l2 → l1 = l2 ∧ k1 = k2.
Proof. intros E Hl. by apply app_inj_1. Qed.

