(* ===== verification/Wire.v ===== *)
(** The byte layer of the wire protocol (common/protocol): protocol limits,
    the little-endian codec, the bounds-checked [byte_reader], the
    [byte_writer], and the interface [WireFormat]/[WireLaws] through which
    every message structure promises that reading undoes writing. *)

From S2P Require Import Prelude.

(** ** protocol_limits.hpp *)

Definition PROTOCOL_VERSION : Z := 1.
Definition FRAME_LENGTH_FIELD_SIZE : Z := 4.
Definition FRAME_TYPE_FIELD_SIZE : Z := 1.
Definition FRAME_HEADER_SIZE : Z := FRAME_LENGTH_FIELD_SIZE + FRAME_TYPE_FIELD_SIZE.
Definition MAX_FRAME_SIZE : Z := 1024 * 1024.
Definition MAX_BODY_SIZE : Z := MAX_FRAME_SIZE - FRAME_LENGTH_FIELD_SIZE.
Definition MAX_PAYLOAD_SIZE : Z := MAX_FRAME_SIZE - FRAME_HEADER_SIZE.
Definition PUBLIC_KEY_SIZE : Z := 32.
Definition SIGNATURE_SIZE : Z := 64.
Definition AUTH_NONCE_SIZE : Z := 32.
Definition MAX_HANDLE_LENGTH : Z := 32.
Definition MAX_FORUM_NAME_LENGTH : Z := 48.
Definition MAX_FORUM_DESCRIPTION_LENGTH : Z := 512.
Definition MAX_POST_TITLE_LENGTH : Z := 200.
Definition MAX_POST_BODY_LENGTH : Z := 16 * 1024.
Definition MAX_POST_PREVIEW_LENGTH : Z := 280.
Definition MAX_COMMENT_BODY_LENGTH : Z := 8 * 1024.
Definition MAX_DISPLAY_NAME_LENGTH : Z := 48.
Definition MAX_BIO_LENGTH : Z := 2048.
Definition MAX_THEME_JSON_LENGTH : Z := 1024.
Definition MAX_BLOB_REFERENCE_LENGTH : Z := 96.
Definition MAX_ERROR_MESSAGE_LENGTH : Z := 256.
Definition MAX_MOTD_LENGTH : Z := 4096.
Definition MAX_REPORT_REASON_LENGTH : Z := 500.
Definition MAX_DM_CIPHERTEXT_SIZE : Z := 64 * 1024.
Definition MAX_LIST_ITEMS : Z := 200.
Definition DEFAULT_LIST_ITEMS : Z := 50.
Definition MAX_THREAD_COMMENTS : Z := 500.
Definition MAX_DM_BATCH_ITEMS : Z := 100.
Definition MAX_FRIEND_ITEMS : Z := 500.
Definition TOP8_SLOT_COUNT : Z := 8.

(** ** endian_codec.hpp

    The template parameter [T] is represented by [n = sizeof(T)]. *)

Definition load_little_endian (n : nat) (source : bytes) : option Z :=
  if size_of source <? Z.of_nat n then None
  else Some (foldl (λ value index,
               wrap (8 * Z.of_nat n)
                 (Z.lor value
                    (Z.shiftl (byte_val (source !!! index)) (Z.of_nat index * 8))))
             0 (seq 0 n)).

Definition store_byte_at (value : Z) (index : nat) : byte :=
  byte_of (Z.land (Z.shiftr value (Z.of_nat index * 8)) 255).

(** [target] is the span written to; the result is its new content. *)
Definition store_little_endian (n : nat) (value : Z) (target : bytes) : option bytes :=
  if size_of target <? Z.of_nat n then None
  else Some (map (store_byte_at value) (seq 0 n) ++ drop n target).

(** Reference reading of a little-endian integer. *)
Fixpoint le_value (l : bytes) : Z :=
  match l with
  | [] => 0
  | b :: t => byte_val b + 256 * le_value t
  end.

Definition le_bytes (n : nat) (value : Z) : bytes :=
  map (store_byte_at value) (seq 0 n).

#[global] Arguments le_bytes : simpl never.

Lemma le_value_range l : 0 <= le_value l < 2 ^ (8 * size_of l).
Proof.
  induction l as [|b l IH]; [unfold size_of; simpl; lia|].
  pose proof (byte_val_range b). rewrite size_of_cons. simpl le_value.
  replace (8 * (1 + size_of l)) with (8 + 8 * size_of l) by lia.
  rewrite Z.pow_add_r by (pose proof (size_of_nonneg l); lia). lia.
Qed.

Lemma le_value_snoc l b :
  le_value (l ++ [b]) = le_value l + 2 ^ (8 * size_of l) * byte_val b.
Proof.
  induction l as [|c l IH]; [unfold size_of; simpl; lia|].
  rewrite size_of_cons. simpl app. simpl le_value. rewrite IH.
  replace (8 * (1 + size_of l)) with (8 + 8 * size_of l) by lia.
  rewrite Z.pow_add_r by (pose proof (size_of_nonneg l); lia). lia.
Qed.

Lemma lor_shiftl_disjoint a b k :
  0 <= k → 0 <= a < 2 ^ k → 0 <= b → Z.lor a (Z.shiftl b k) = a + 2 ^ k * b.
Proof.
  intros Hk Ha Hb. rewrite Z.shiftl_mul_pow2 by done.
  pose proof (Z.add_lor_land a (b * 2 ^ k)) as Hsum.
  enough (Z.land a (b * 2 ^ k) = 0) by lia. clear Hsum.
  apply Z.bits_inj'. intros i Hi. rewrite Z.land_spec, Z.bits_0.
  destruct (Z.lt_ge_cases i k).
  - by rewrite Z.mul_pow2_bits_low, andb_false_r.
  - destruct (decide (a = 0)) as [->|]; [by rewrite Z.bits_0|].
    rewrite (Z.bits_above_log2 a i), andb_false_l; [done|lia|].
    apply Z.log2_lt_pow2; [lia|].
    apply Z.lt_le_trans with (2 ^ k); [lia|]. apply Z.pow_le_mono_r; lia.
Qed.

Lemma load_loop_value n source k :
  (k <= n)%nat → (n <= length source)%nat →
  foldl (λ value index, wrap (8 * Z.of_nat n)
           (Z.lor value (Z.shiftl (byte_val (source !!! index)) (Z.of_nat index * 8))))
    0 (seq 0 k) = le_value (take k source).
Proof.
  intros Hk Hn. induction k as [|k IH]; [done|].
  rewrite seq_S, foldl_app, IH by lia. simpl foldl.
  destruct (lookup_lt_is_Some_2 source k) as [b Hb]; [lia|].
  rewrite (take_S_r _ _ _ Hb), le_value_snoc.
  rewrite (list_lookup_total_correct _ _ _ Hb).
  pose proof (byte_val_range b). pose proof (le_value_range (take k source)) as Hr.
  assert (size_of (take k source) = Z.of_nat k) as Hs
    by (unfold size_of; rewrite length_take; lia).
  rewrite Hs in *. rewrite (Z.mul_comm (Z.of_nat k) 8).
  rewrite lor_shiftl_disjoint by lia. apply wrap_id.
  pose proof (le_value_range (take k source ++ [b])) as Hs'.
  rewrite le_value_snoc, size_of_app, Hs, size_of_cons, (size_of_nil (A:=byte)) in Hs'.
  split; [lia|]. eapply Z.lt_le_trans; [apply Hs'|]. apply Z.pow_le_mono_r; lia.
Qed.

Lemma load_little_endian_value n source :
  load_little_endian n source =
    if decide (n <= length source)%nat then Some (le_value (take n source)) else None.
Proof.
  unfold load_little_endian. unfold size_of.
  destruct (Z.ltb_spec (Z.of_nat (length source)) (Z.of_nat n)).
  - by rewrite decide_False by lia.
  - rewrite decide_True by lia. f_equal. by apply load_loop_value; lia.
Qed.

Lemma length_le_bytes n value : length (le_bytes n value) = n.
Proof. unfold le_bytes. by rewrite length_map, length_seq. Qed.

Lemma store_little_endian_bytes n value target :
  (n <= length target)%nat →
  store_little_endian n value target = Some (le_bytes n value ++ drop n target).
Proof.
  intros Hn. unfold store_little_endian, size_of.
  destruct (Z.ltb_spec (Z.of_nat (length target)) (Z.of_nat n)); [lia|done].
Qed.

Lemma le_value_le_bytes n value :
  le_value (le_bytes n value) = wrap (8 * Z.of_nat n) value.
Proof.
  induction n as [|n IH].
  - unfold wrap. simpl. by rewrite Z.mod_1_r.
  - unfold le_bytes in *. rewrite seq_S, map_app. simpl map.
    rewrite le_value_snoc, IH. unfold wrap, store_byte_at, size_of.
    rewrite length_map, length_seq, byte_val_of.
    change 255 with (Z.ones 8). rewrite Z.land_ones by lia.
    change (2 ^ 8) with 256. rewrite Z.mod_mod by lia.
    rewrite Z.shiftr_div_pow2 by lia.
    replace (8 * Z.of_nat (S n)) with (8 * Z.of_nat n + 8) by lia.
    rewrite Z.pow_add_r by lia. change (2 ^ 8) with 256.
    rewrite (Z.mul_comm (Z.of_nat n) 8).
    rewrite Z.rem_mul_r by lia. lia.
Qed.

Lemma le_value_inj l k : length l = length k → le_value l = le_value k → l = k.
Proof.
  revert k. induction l as [|b l IH]; intros [|c k]; simpl; try lia; [done|].
  intros Hl Hv. pose proof (byte_val_range b). pose proof (byte_val_range c).
  assert (byte_val b = byte_val c ∧ le_value l = le_value k) as [E1 E2] by lia.
  f_equal; [by apply byte_val_inj | apply IH; [lia|done]].
Qed.

Lemma le_bytes_le_value l : le_bytes (length l) (le_value l) = l.
Proof.
  apply le_value_inj; [apply length_le_bytes|].
  rewrite le_value_le_bytes. apply wrap_id. apply le_value_range.
Qed.

Lemma le_bytes_1 value : le_bytes 1 value = [byte_of value].
Proof.
  unfold le_bytes, store_byte_at. simpl. rewrite Z.shiftr_0_r. f_equal.
  apply byte_val_inj. rewrite !byte_val_of. change 255 with (Z.ones 8).
  rewrite Z.land_ones by lia. by rewrite Z.mod_mod by lia.
Qed.

(** The loops [dm_envelope.cpp] and [keystore_envelope.cpp] write out for their
    own 32-bit fields: [append_u32] pushes [le_bytes 4], and this reads it
    back at an offset. *)
Definition read_u32 (source : bytes) (offset : nat) : Z :=
  foldl (λ value index,
           wrap 32 (Z.lor value (Z.shiftl (byte_val (drop offset source !!! index)) (Z.of_nat index * 8))))
    0 (seq 0 4).

Definition append_u32 (value : Z) (out : bytes) : bytes := out ++ le_bytes 4 value.

Lemma read_u32_value before value after :
  u32 value → read_u32 (before ++ le_bytes 4 value ++ after) (length before) = value.
Proof.
  intros Hv. unfold read_u32. rewrite drop_app_length.
  rewrite (load_loop_value 4 _ 4) by (rewrite ?length_app, ?length_le_bytes; lia).
  rewrite take_app_exact by (by rewrite length_le_bytes).
  rewrite le_value_le_bytes. by apply wrap_id.
Qed.

(** From here on [le_bytes] is used through its lemmas. *)
#[global] Opaque le_bytes.

(** ** byte_reader

    A read either yields a value or reports failure; in both cases the reader
    object keeps the offset it reached, so the failure of a read is [None]
    together with the state it leaves behind. *)

Record byte_reader := ByteReader { buffer_ : bytes; offset_ : nat }.

Definition reader (A : Type) : Type := state byte_reader (option A).

Definition new_reader (buffer : bytes) : byte_reader := ByteReader buffer 0.

Definition rret {A} (a : A) : reader A := sret (Some a).
Definition rfail {A} : reader A := sret None.
(** Sequencing as the [&&] chains of the source: the first failing read stops
    the chain. *)
Definition rbind {A B} (p : reader A) (k : A → reader B) : reader B :=
  λ r, match p r with
       | (Some a, r') => k a r'
       | (None, r') => (None, r')
       end.

Notation "'let?' x ':=' p 'in' k" := (rbind p (λ x, k))
  (at level 10, x binder, p at level 200, k at level 200) : hypercom_scope.

Definition count_remaining_bytes (r : byte_reader) : Z :=
  size_of r.(buffer_) - Z.of_nat r.(offset_).

Definition take_slice (size : Z) : reader bytes := λ r,
  if count_remaining_bytes r <? size then (None, r)
  else (Some (take (Z.to_nat size) (drop r.(offset_) r.(buffer_))),
        ByteReader r.(buffer_) (r.(offset_) + Z.to_nat size)).

Definition read_integer (n : nat) : reader Z :=
  let? slice := take_slice (Z.of_nat n) in
  sret (load_little_endian n slice).

(** [size] is the size of the destination span. *)
Definition read_fixed_bytes (size : Z) : reader bytes :=
  let? slice := take_slice size in rret slice.

Definition read_length_prefixed (maximum_length : Z) : reader bytes :=
  let? length := read_integer 4 in
  λ r, if (maximum_length <? length) || (count_remaining_bytes r <? length)
       then (None, r)
       else (let? slice := take_slice length in rret slice) r.

(** ** byte_writer *)

Record byte_writer := ByteWriter { target_ : bytes; initial_size_ : Z }.

Definition new_writer (target : bytes) : byte_writer :=
  ByteWriter target (size_of target).

(** [target_.resize(offset + n)] fills with zeros, then the integer is stored
    in the new tail. *)
Definition write_integer (n : nat) (value : Z) (w : byte_writer) : byte_writer :=
  let offset := length w.(target_) in
  let resized := w.(target_) ++ replicate n Byte.x00 in
  match store_little_endian n value (drop offset resized) with
  | Some stored => ByteWriter (take offset resized ++ stored) w.(initial_size_)
  | None => ByteWriter resized w.(initial_size_)
  end.

Definition write_fixed_bytes (data : bytes) (w : byte_writer) : byte_writer :=
  ByteWriter (w.(target_) ++ data) w.(initial_size_).

Definition wseq (f g : byte_writer → byte_writer) (w : byte_writer) : byte_writer :=
  g (f w).

Notation "f '▷' g" := (wseq f g) (at level 60, right associativity) : hypercom_scope.

Definition write_length_prefixed (data : bytes) : byte_writer → byte_writer :=
  write_integer 4 (wrap 32 (size_of data)) ▷ write_fixed_bytes data.

Definition count_written_bytes (w : byte_writer) : Z :=
  size_of w.(target_) - w.(initial_size_).

(** The bytes a writing action appends. *)
Definition output (f : byte_writer → byte_writer) : bytes := target_ (f (new_writer [])).

Definition push (e : bytes) (w : byte_writer) : byte_writer :=
  ByteWriter (w.(target_) ++ e) w.(initial_size_).

(** Writing actions only append, and what they append does not depend on what
    is already there. *)
Definition appends (f : byte_writer → byte_writer) : Prop :=
  ∀ w, f w = push (output f) w.

Lemma write_integer_push n v w : write_integer n v w = push (le_bytes n v) w.
Proof.
  unfold write_integer. rewrite drop_app_exact by done.
  rewrite store_little_endian_bytes by (rewrite length_replicate; lia).
  rewrite drop_ge by (rewrite length_replicate; lia).
  by rewrite app_nil_r, take_app_exact.
Qed.

Lemma target_push e w : target_ (push e w) = target_ w ++ e.
Proof. done. Qed.

Lemma push_push e1 e2 w : push e2 (push e1 w) = push (e1 ++ e2) w.
Proof. unfold push. simpl. by rewrite app_assoc. Qed.

Lemma appends_intro f e : (∀ w, f w = push e w) → appends f ∧ output f = e.
Proof.
  intros H. assert (output f = e) as E by (unfold output; by rewrite H).
  split; [|done]. intros w. by rewrite E.
Qed.

Lemma appends_integer n v : appends (write_integer n v).
Proof. apply (appends_intro _ _ (write_integer_push n v)). Qed.

Lemma output_integer n v : output (write_integer n v) = le_bytes n v.
Proof. apply (appends_intro _ _ (write_integer_push n v)). Qed.

Lemma appends_fixed e : appends (write_fixed_bytes e).
Proof. by apply (appends_intro _ e). Qed.

Lemma output_fixed e : output (write_fixed_bytes e) = e.
Proof. by apply (appends_intro _ e). Qed.

Lemma seq_push f g : appends f → appends g →
  ∀ w, (f ▷ g) w = push (output f ++ output g) w.
Proof. intros Hf Hg w. unfold wseq. by rewrite Hf, Hg, push_push. Qed.

Lemma appends_seq f g : appends f → appends g → appends (f ▷ g).
Proof. intros Hf Hg. apply (appends_intro _ _ (seq_push f g Hf Hg)). Qed.

Lemma output_seq f g : appends f → appends g → output (f ▷ g) = output f ++ output g.
Proof. intros Hf Hg. apply (appends_intro _ _ (seq_push f g Hf Hg)). Qed.

Create HintDb wire.
#[export] Hint Resolve appends_integer appends_fixed appends_seq : wire.

Lemma appends_length_prefixed e : appends (write_length_prefixed e).
Proof. unfold write_length_prefixed. auto with wire. Qed.
#[export] Hint Resolve appends_length_prefixed : wire.

Lemma output_length_prefixed e :
  output (write_length_prefixed e) = le_bytes 4 (wrap 32 (size_of e)) ++ e.
Proof.
  unfold write_length_prefixed.
  by rewrite output_seq, output_integer, output_fixed by auto with wire.
Qed.

(** ** Reading back what was written *)

Definition rest (r : byte_reader) : bytes := drop r.(offset_) r.(buffer_).
Definition reader_ok (r : byte_reader) : Prop := (r.(offset_) <= length r.(buffer_))%nat.
Definition advance (n : nat) (r : byte_reader) : byte_reader :=
  ByteReader r.(buffer_) (r.(offset_) + n).

Lemma advance_0 r : advance 0 r = r.
Proof. destruct r. unfold advance. simpl. f_equal. lia. Qed.

Lemma advance_advance n m r : advance m (advance n r) = advance (n + m) r.
Proof. unfold advance. simpl. f_equal. lia. Qed.

Lemma rest_advance n r : rest (advance n r) = drop n (rest r).
Proof. unfold rest, advance. simpl. by rewrite drop_drop. Qed.

Lemma length_rest r : length (rest r) = (length r.(buffer_) - r.(offset_))%nat.
Proof. unfold rest. apply length_drop. Qed.

Lemma remaining_rest r : reader_ok r → count_remaining_bytes r = size_of (rest r).
Proof.
  unfold reader_ok, count_remaining_bytes, size_of. rewrite length_rest. lia.
Qed.

Lemma reader_ok_advance r e t : reader_ok r → rest r = e ++ t →
  reader_ok (advance (length e) r) ∧ rest (advance (length e) r) = t.
Proof.
  intros Hr E. rewrite rest_advance, E, drop_app_length. split; [|done].
  apply (f_equal length) in E. rewrite length_rest, length_app in E.
  unfold reader_ok, advance in *. simpl. lia.
Qed.

Lemma new_reader_ok e : reader_ok (new_reader e).
Proof. unfold reader_ok. simpl. lia. Qed.

(** [p] reads exactly the bytes [e] as the value [v]. *)
Definition reads {A} (p : reader A) (e : bytes) (v : A) : Prop :=
  ∀ r t, reader_ok r → rest r = e ++ t → p r = (Some v, advance (length e) r).

(** Every value [p] yields satisfies [Q] together with the bytes consumed. *)
Definition parses {A} (p : reader A) (Q : bytes → A → Prop) : Prop :=
  ∀ r v r', reader_ok r → p r = (Some v, r') →
    ∃ e, rest r = e ++ rest r' ∧ r' = advance (length e) r ∧ reader_ok r' ∧ Q e v.

Lemma reads_ret {A} (v : A) : reads (rret v) [] v.
Proof. intros r t _ _. by rewrite advance_0. Qed.

Lemma reads_bind {A B} (p : reader A) (k : A → reader B) e1 e2 v w :
  reads p e1 v → reads (k v) e2 w → reads (rbind p k) (e1 ++ e2) w.
Proof.
  intros Hp Hk r t Hr E. rewrite <-app_assoc in E.
  destruct (reader_ok_advance _ _ _ Hr E) as [Hr' E'].
  unfold rbind. rewrite (Hp _ _ Hr E), (Hk _ _ Hr' E').
  by rewrite advance_advance, length_app.
Qed.

Lemma reads_bind_ret {A B} (p : reader A) (k : A → reader B) e v w :
  reads p e v → k v = rret w → reads (rbind p k) e w.
Proof.
  intros Hp Hk. rewrite <-(app_nil_r e).
  apply (reads_bind _ _ _ _ v); [done|]. rewrite Hk. apply reads_ret.
Qed.

Lemma parses_ret {A} (v : A) (Q : bytes → A → Prop) : Q [] v → parses (rret v) Q.
Proof. intros HQ r ? ? Hr [= <- <-]. exists []. by rewrite advance_0. Qed.

Lemma parses_fail {A} (Q : bytes → A → Prop) : parses rfail Q.
Proof. intros r v r' _ [=]. Qed.

Lemma parses_bind {A B} (p : reader A) (k : A → reader B) Q1 Q :
  parses p Q1 → (∀ e1 a, Q1 e1 a → parses (k a) (λ e2 v, Q (e1 ++ e2) v)) →
  parses (rbind p k) Q.
Proof.
  intros Hp Hk r v r' Hr E. unfold rbind in E.
  destruct (p r) as [[a|] r1] eqn:Ep; [|done].
  destruct (Hp _ _ _ Hr Ep) as (e1 & E1 & -> & Hr1 & Q1a).
  destruct (Hk _ _ Q1a _ _ _ Hr1 E) as (e2 & E2 & -> & Hr2 & Qv).
  exists (e1 ++ e2). rewrite length_app, <-advance_advance, E1, E2.
  by rewrite app_assoc.
Qed.

Lemma parses_impl {A} (p : reader A) (Q Q' : bytes → A → Prop) :
  parses p Q → (∀ e v, Q e v → Q' e v) → parses p Q'.
Proof.
  intros Hp HQ r v r' Hr E. destruct (Hp _ _ _ Hr E) as (e & ? & ? & ? & ?). eauto 6.
Qed.

Lemma reads_slice e n : n = size_of e → reads (take_slice n) e e.
Proof.
  intros -> r t Hr E. unfold take_slice. rewrite remaining_rest, E by done.
  destruct (Z.ltb_spec (size_of (e ++ t)) (size_of e)); [size_lia|].
  change (drop (offset_ r) (buffer_ r)) with (rest r). rewrite E.
  unfold size_of. rewrite Nat2Z.id. by rewrite take_app_length.
Qed.

Lemma parses_slice n : 0 <= n → parses (take_slice n) (λ e v, e = v ∧ size_of v = n).
Proof.
  intros Hn r v r' Hr. unfold take_slice. rewrite remaining_rest by done.
  destruct (Z.ltb_spec (size_of (rest r)) n); [done|]. intros [= <- <-].
  change (drop (offset_ r) (buffer_ r)) with (rest r).
  assert (length (take (Z.to_nat n) (rest r)) = Z.to_nat n) as Hl
    by (rewrite length_take; size_lia).
  exists (take (Z.to_nat n) (rest r)).
  rewrite Hl. change (ByteReader _ _) with (advance (Z.to_nat n) r).
  rewrite rest_advance, take_drop. split_and!; try done; [|unfold size_of; lia].
  unfold reader_ok, advance in *. simpl. rewrite <-(take_drop (Z.to_nat n) (rest r)) in Hl.
  rewrite length_take, length_app, length_take, length_drop, length_rest in Hl. lia.
Qed.

Lemma reads_integer n v : fits (8 * Z.of_nat n) v → reads (read_integer n) (le_bytes n v) v.
Proof.
  intros Hv r t Hr E. unfold read_integer, rbind.
  rewrite (reads_slice (le_bytes n v) (Z.of_nat n)) with (t := t)
    by (done || unfold size_of; by rewrite length_le_bytes).
  unfold sret. rewrite load_little_endian_value, length_le_bytes.
  rewrite decide_True by lia.
  rewrite take_ge by (rewrite length_le_bytes; lia).
  by rewrite le_value_le_bytes, wrap_id.
Qed.

Lemma parses_integer n :
  parses (read_integer n) (λ e v, e = le_bytes n v ∧ fits (8 * Z.of_nat n) v).
Proof.
  eapply parses_bind; [apply parses_slice; lia|].
  intros e1 s [-> Hs] r v r' Hr. unfold sret. intros [= E <-].
  rewrite load_little_endian_value in E. case_decide; [|done].
  injection E as <-. rewrite take_ge by (unfold size_of in Hs; lia).
  exists []. rewrite advance_0, app_nil_r. split_and!; try done.
  - assert (n = length s) as -> by (unfold size_of in Hs; lia).
    symmetry. apply le_bytes_le_value.
  - unfold fits. rewrite <-Hs. apply le_value_range.
Qed.

Lemma reads_fixed e n : size_of e = n → reads (read_fixed_bytes n) e e.
Proof. intros <-. by eapply reads_bind_ret; [apply reads_slice|]. Qed.

Lemma parses_fixed n : 0 <= n →
  parses (read_fixed_bytes n) (λ e v, e = v ∧ size_of v = n).
Proof.
  intros Hn. eapply parses_bind; [by apply parses_slice|].
  intros e s [-> Hs]. apply parses_ret. by rewrite app_nil_r.
Qed.

Lemma reads_length_prefixed e m :
  size_of e <= m → fits 32 (size_of e) →
  reads (read_length_prefixed m) (le_bytes 4 (size_of e) ++ e) e.
Proof.
  intros Hm Hf. eapply reads_bind; [by apply reads_integer|].
  intros r t Hr E. rewrite remaining_rest, E by done.
  destruct (Z.ltb_spec m (size_of e)); [lia|].
  destruct (Z.ltb_spec (size_of (e ++ t)) (size_of e)); [size_lia|]. simpl.
  by apply (reads_fixed e (size_of e) eq_refl r t).
Qed.

Lemma parses_length_prefixed m :
  parses (read_length_prefixed m)
    (λ e v, e = le_bytes 4 (size_of v) ++ v ∧ fits 32 (size_of v) ∧ size_of v <= m).
Proof.
  eapply parses_bind; [apply parses_integer|].
  intros e1 n [-> Hn] r v r' Hr.
  destruct (Z.ltb_spec m n); simpl; [done|].
  destruct (Z.ltb_spec (count_remaining_bytes r) n); [done|].
  intros E. destruct (parses_fixed n ltac:(unfold fits in Hn; lia) _ _ _ Hr E)
    as (e & ? & ? & ? & <- & Hs).
  exists e. rewrite Hs. split_and!; auto with lia.
Qed.

(** ** Reads stay within the buffer

    Whatever the bytes, and whether the read succeeds or fails, a reader only
    moves forward and never past the end of its buffer. *)

Definition bounded {A} (p : reader A) : Prop :=
  ∀ r, reader_ok r →
    buffer_ (p r).2 = buffer_ r ∧ (offset_ r <= offset_ (p r).2)%nat ∧ reader_ok (p r).2.

Lemma bounded_sret {A} (o : option A) : bounded (sret o).
Proof. intros r Hr. done. Qed.

Lemma bounded_bind {A B} (p : reader A) (k : A → reader B) :
  bounded p → (∀ a, bounded (k a)) → bounded (rbind p k).
Proof.
  intros Hp Hk r Hr. unfold rbind. specialize (Hp r Hr).
  destruct (p r) as [[a|] r1]; simpl in *; [|done].
  destruct Hp as (E1 & Hle & Hr1). destruct (Hk a r1 Hr1) as (E2 & Hle2 & Hr2).
  split_and!; [congruence|lia|done].
Qed.

Lemma bounded_slice n : bounded (take_slice n).
Proof.
  intros r Hr. unfold take_slice, count_remaining_bytes, size_of, reader_ok in *.
  destruct (Z.ltb_spec (Z.of_nat (length (buffer_ r)) - Z.of_nat (offset_ r)) n);
    simpl; split_and!; try done; lia.
Qed.

Lemma bounded_integer n : bounded (read_integer n).
Proof. apply bounded_bind; [apply bounded_slice|intros; apply bounded_sret]. Qed.

Lemma bounded_fixed n : bounded (read_fixed_bytes n).
Proof. apply bounded_bind; [apply bounded_slice|intros; apply bounded_sret]. Qed.

Lemma bounded_length_prefixed m : bounded (read_length_prefixed m).
Proof.
  apply bounded_bind; [apply bounded_integer|]. intros n r Hr.
  destruct (_ || _); [done|]. by apply bounded_fixed.
Qed.

Lemma bounded_if {A} (b : bool) (p q : reader A) : bounded p → bounded q → bounded (if b then p else q).
Proof. by destruct b. Qed.

Create HintDb bounded.
#[export] Hint Resolve bounded_integer bounded_fixed bounded_length_prefixed bounded_if
  bounded_sret : bounded.
#[export] Hint Extern 0 (bounded (rret _)) => apply bounded_sret : bounded.
#[export] Hint Extern 0 (bounded rfail) => apply bounded_sret : bounded.

(** A failing read leaves the reader where it was, with one exception:
    [read_length_prefixed] has consumed the four bytes of the prefix when the
    announced length is over the cap or over what remains. *)
Theorem failing_reads_consume (m size n : Z) (r : byte_reader) (prefix t : bytes)
    (Hfail : (read_fixed_bytes size r).1 = None) (Hn : u32 n)
    (Hover : m < n ∨ size_of t < n) :
  (read_fixed_bytes size r).2 = r ∧
  read_length_prefixed m (ByteReader (prefix ++ le_bytes 4 n ++ t) (length prefix)) =
    (None, ByteReader (prefix ++ le_bytes 4 n ++ t) (length prefix + 4)).
Proof.
  split.
  - revert Hfail. unfold read_fixed_bytes, rbind, take_slice.
    by destruct (count_remaining_bytes r <? size).
  - set (r0 := ByteReader _ _).
    assert (reader_ok r0) as Hr0 by (unfold reader_ok; simpl; size_lia).
    assert (rest r0 = le_bytes 4 n ++ t) as E by apply drop_app_length.
    unfold read_length_prefixed, rbind. rewrite (reads_integer 4 n Hn r0 t Hr0 E).
    destruct (reader_ok_advance r0 _ _ Hr0 E) as [Hr1 Et].
    rewrite remaining_rest, Et by done. rewrite length_le_bytes.
    destruct (Z.ltb_spec m n), (Z.ltb_spec (size_of t) n); done || lia.
Qed.

Lemma failing_reads_consume_witness :
  read_length_prefixed 2 (ByteReader ([] ++ le_bytes 4 3 ++ lit "abc") 0) =
    (None, ByteReader ([] ++ le_bytes 4 3 ++ lit "abc") (0 + 4)).
Proof.
  apply (failing_reads_consume 2 5 3 (new_reader (lit "abc")) [] (lit "abc")).
  - reflexivity.
  - unfold fits. lia.
  - left. lia.
Defined.

(** ** The interface of a message structure

    [WireFormat] is what the source asks of a type with [write_to] and
    [read_from]; [WireLaws] is what it is owed in return. *)

Class WireFormat (A : Type) := {
  write_to : A → byte_writer → byte_writer;
  read_from : reader A;
  well_formed : A → Prop;
}.

Definition encoding {A} `{WireFormat A} (a : A) : bytes := output (write_to a).

Class WireLaws (A : Type) `{WireFormat A} : Prop := {
  write_to_appends (a : A) : appends (write_to a);
  read_from_encoding (a : A) : well_formed a → reads read_from (encoding a) a;
  read_from_canonical :
    parses read_from (λ e (a : A), well_formed a ∧ e = encoding a);
  read_from_bounded : bounded (read_from (A := A));
}.

#[export] Hint Resolve write_to_appends : wire.

#[global] Arguments output : simpl never.
#[global] Arguments write_to {A _} _ _ : simpl never.
#[global] Arguments read_from {A _} : simpl never.
#[global] Arguments well_formed {A _} _ : simpl never.

Lemma wire_laws_intro {A} (w : A → byte_writer → byte_writer) (r : reader A) (ok : A → Prop) :
  (∀ a, appends (w a)) → (∀ a, ok a → reads r (output (w a)) a) →
  parses r (λ e a, ok a ∧ e = output (w a)) → bounded r →
  @WireLaws A {| write_to := w; read_from := r; well_formed := ok |}.
Proof. by intros; split. Qed.

(** What the laws give a caller: the serialization of a well-formed value,
    followed by anything, is read back exactly; and a value is only ever read
    from its own serialization, so there is one spelling per value; and no
    input takes the reader out of its buffer. *)
Definition wire_faithful (A : Type) `{WireFormat A} : Prop :=
  (∀ (m : A) t, well_formed m →
     read_from (new_reader (encoding m ++ t)) =
       (Some m, ByteReader (encoding m ++ t) (length (encoding m)))) ∧
  (∀ e (m : A) r, read_from (new_reader e) = (Some m, r) →
     well_formed m ∧ e = encoding m ++ rest r) ∧
  bounded (read_from (A := A)).

Lemma laws_faithful {A} `{WireLaws A} : wire_faithful A.
Proof.
  split_and!; [| |apply read_from_bounded].
  - intros m t Hm.
    rewrite (read_from_encoding m Hm (new_reader (encoding m ++ t)) t (new_reader_ok _) eq_refl).
    done.
  - intros e m r E. destruct (read_from_canonical _ _ _ (new_reader_ok e) E)
      as (e' & E' & -> & _ & Hm & ->). split; [done|]. by rewrite <-E'.
Qed.
#[export] Hint Resolve laws_faithful : wire.

(** ** record_list_codec.hpp *)

Fixpoint read_record_items {A} (read_item : reader A) (count : nat) : reader (list A) :=
  match count with
  | O => rret []
  | S count' =>
      let? item := read_item in
      let? items := read_record_items read_item count' in
      rret (item :: items)
  end.

Definition read_record_list {A} (read_item : reader A) (maximum_items : Z) : reader (list A) :=
  let? announced_count := read_integer 2 in
  if maximum_items <? announced_count then rfail
  else read_record_items read_item (Z.to_nat announced_count).

Fixpoint write_items {A} (write_item : A → byte_writer → byte_writer) (items : list A)
    (w : byte_writer) : byte_writer :=
  match items with
  | [] => w
  | item :: items' => write_items write_item items' (write_item item w)
  end.

Definition write_record_list {A} (write_item : A → byte_writer → byte_writer)
    (items : list A) : byte_writer → byte_writer :=
  write_integer 2 (wrap 16 (size_of items)) ▷ write_items write_item items.

Lemma bounded_record_list {A} (read_item : reader A) m :
  bounded read_item → bounded (read_record_list read_item m).
Proof.
  intros Hp. apply bounded_bind; [apply bounded_integer|]. intros n.
  apply bounded_if; [apply bounded_sret|]. generalize (Z.to_nat n). intros k.
  induction k as [|k IH]; simpl; [apply bounded_sret|].
  apply bounded_bind; [done|]. intros a. apply bounded_bind; [done|].
  intros l. apply bounded_sret.
Qed.
#[export] Hint Resolve bounded_record_list : bounded.
#[export] Hint Extern 0 (bounded read_from) => apply read_from_bounded : bounded.

Section record_list.
Context {A : Type} (read_item : reader A) (write_item : A → byte_writer → byte_writer).
Context (ok : A → Prop).
Hypothesis item_appends : ∀ a, appends (write_item a).
Hypothesis item_reads : ∀ a, ok a → reads read_item (output (write_item a)) a.
Hypothesis item_parses : parses read_item (λ e a, ok a ∧ e = output (write_item a)).

Definition items_bytes (items : list A) : bytes :=
    concat (map (λ a, output (write_item a)) items).

Lemma write_items_push items w :
    write_items write_item items w = push (items_bytes items) w.
  Proof.
    revert w. induction items as [|a items IH]; intros w; simpl.
    - unfold push, items_bytes. simpl. rewrite app_nil_r. by destruct w.
    - by rewrite IH, item_appends, push_push.
  Qed.

Lemma record_list_appends items : appends (write_record_list write_item items).
  Proof.
    apply appends_seq; [auto with wire|].
    apply (appends_intro _ _ (write_items_push items)).
  Qed.

Lemma record_list_output items :
    output (write_record_list write_item items) =
      le_bytes 2 (wrap 16 (size_of items)) ++ items_bytes items.
  Proof.
    unfold write_record_list.
    pose proof (appends_intro _ _ (write_items_push items)) as [Ha Ho].
    rewrite output_seq, output_integer, Ho; auto with wire.
  Qed.

Lemma record_items_reads items : Forall ok items →
    reads (read_record_items read_item (length items)) (items_bytes items) items.
  Proof.
    induction 1 as [|a items Ha _ IH]; simpl; [apply reads_ret|].
    eapply reads_bind; [by apply item_reads|].
    by eapply reads_bind_ret.
  Qed.

Lemma record_list_reads items m :
    Forall ok items → size_of items <= m → fits 16 (size_of items) →
    reads (read_record_list read_item m) (output (write_record_list write_item items)) items.
  Proof.
    intros Hok Hm Hf. rewrite record_list_output, wrap_id by done.
    eapply reads_bind; [by apply reads_integer|].
    destruct (Z.ltb_spec m (size_of items)); [lia|].
    unfold size_of. rewrite Nat2Z.id. by apply record_items_reads.
  Qed.

Lemma record_items_parses n :
    parses (read_record_items read_item n)
      (λ e items, Forall ok items ∧ length items = n ∧ e = items_bytes items).
  Proof.
    induction n as [|n IH]; simpl; [by apply parses_ret|].
    eapply parses_bind; [apply item_parses|]. intros e1 a [Ha ->].
    eapply parses_bind; [apply IH|]. intros e2 items (Hok & <- & ->).
    apply parses_ret. split_and!; [by constructor|done|].
    by rewrite app_nil_r.
  Qed.

Lemma record_list_parses m :
    parses (read_record_list read_item m)
      (λ e items, (Forall ok items ∧ size_of items <= m ∧ fits 16 (size_of items)) ∧
         e = output (write_record_list write_item items)).
  Proof.
    eapply parses_bind; [apply parses_integer|]. intros e1 n [-> Hn].
    destruct (Z.ltb_spec m n); [apply parses_fail|].
    eapply parses_impl; [apply record_items_parses|].
    intros e items (Hok & Hl & ->).
    assert (size_of items = n) as E by (unfold size_of, fits in *; lia).
    split; [by rewrite E|]. by rewrite record_list_output, E, wrap_id.
  Qed.
End record_list.

(** ** Automation for message structures *)

Create Rewrite HintDb wire_output.
#[export] Hint Rewrite output_integer output_fixed output_length_prefixed : wire_output.

Create HintDb wire_read.
#[export] Hint Resolve reads_integer reads_fixed reads_length_prefixed
  read_from_encoding : wire_read.
