(* ===== verification/TextField.v ===== *)
(** Text fields (common/protocol/text_field_codec): the UTF-8 validator, its
    equivalence with an encoder-based specification, and the codec of a
    bounded text field. *)

From S2P Require Import Prelude.
From S2P Require Import Wire.

(** ** The validator *)

Definition is_allowed_ascii (b : Z) : bool :=
  if (b =? 0x09) || (b =? 0x0A) then true
  else (0x20 <=? b) && negb (b =? 0x7F).

Definition is_canonical_code_point (code_point : Z) (length : nat) : bool :=
  if (0xD800 <=? code_point) && (code_point <=? 0xDFFF) then false
  else if Nat.eqb length 2 then 0x80 <=? code_point
  else if Nat.eqb length 3 then 0x800 <=? code_point
  else (0x10000 <=? code_point) && (code_point <=? 0x10FFFF).

(** The [for] loop over the continuation bytes, from [index], [count] of them
    left; [None] is the early [return 0U]. *)
Fixpoint read_continuation (text : bytes) (offset index count : nat) (code_point : Z)
    : option Z :=
  match count with
  | O => Some code_point
  | S count' =>
      let b := byte_val (text !!! (offset + index)%nat) in
      if negb (Z.land b 0xC0 =? 0x80) then None
      else read_continuation text offset (S index) count'
             (wrap 32 (Z.lor (Z.shiftl code_point 6) (Z.land b 0x3F)))
  end.

(** The length announced by the lead byte and the payload bits it carries. *)
Definition lead_shape (lead : Z) : option (nat * Z) :=
  if Z.land lead 0xE0 =? 0xC0 then Some (2%nat, Z.land lead 0x1F)
  else if Z.land lead 0xF0 =? 0xE0 then Some (3%nat, Z.land lead 0x0F)
  else if Z.land lead 0xF8 =? 0xF0 then Some (4%nat, Z.land lead 0x07)
  else None.

Definition measure_utf8_sequence (text : bytes) (offset : nat) : nat :=
  let lead := byte_val (text !!! offset) in
  if lead <? 0x80 then (if is_allowed_ascii lead then 1 else 0)%nat
  else match lead_shape lead with
  | None => 0%nat
  | Some (len, code_point) =>
      if (length text <? offset + len)%nat then 0%nat
      else match read_continuation text offset 1 (len - 1) code_point with
      | None => 0%nat
      | Some code_point =>
          if is_canonical_code_point code_point len then len else 0%nat
      end
  end.

(** The [while] loop; each round consumes at least one byte, so the length of
    the text is enough fuel. *)
Fixpoint validate_from (fuel : nat) (text : bytes) (offset : nat) : bool :=
  if (offset <? length text)%nat then
    match fuel with
    | O => false
    | S fuel' =>
        let consumed := measure_utf8_sequence text offset in
        if Nat.eqb consumed 0 then false
        else validate_from fuel' text (offset + consumed)
    end
  else true.

Definition validate_text_field (text : bytes) : bool :=
  validate_from (length text) text 0.

(** ** The specification: encodings of allowed Unicode scalar values *)

Definition utf8_encode (code_point : Z) : bytes :=
  if code_point <? 0x80 then [byte_of code_point]
  else if code_point <? 0x800 then
    [byte_of (0xC0 + code_point / 64); byte_of (0x80 + code_point mod 64)]
  else if code_point <? 0x10000 then
    [byte_of (0xE0 + code_point / 4096);
     byte_of (0x80 + (code_point / 64) mod 64); byte_of (0x80 + code_point mod 64)]
  else
    [byte_of (0xF0 + code_point / 262144);
     byte_of (0x80 + (code_point / 4096) mod 64);
     byte_of (0x80 + (code_point / 64) mod 64); byte_of (0x80 + code_point mod 64)].

(** Scalar values: the Unicode range without surrogates, C0 controls other
    than tab and line feed, and DEL. *)
Definition allowed_scalar (cp : Z) : Prop :=
  cp = 0x09 ∨ cp = 0x0A ∨
  (0x20 <= cp <= 0x10FFFF ∧ cp ≠ 0x7F ∧ ¬ (0xD800 <= cp <= 0xDFFF)).

Definition spells (text : bytes) (cps : list Z) : Prop :=
  Forall allowed_scalar cps ∧ text = concat (map utf8_encode cps).

(** ** Bit tests on bytes as ranges *)

Lemma lead2_range b : (Z.land (byte_val b) 0xE0 =? 0xC0) =
  ((0xC0 <=? byte_val b) && (byte_val b <? 0xE0)).
Proof. by destruct b. Qed.
Lemma lead3_range b : (Z.land (byte_val b) 0xF0 =? 0xE0) =
  ((0xE0 <=? byte_val b) && (byte_val b <? 0xF0)).
Proof. by destruct b. Qed.
Lemma lead4_range b : (Z.land (byte_val b) 0xF8 =? 0xF0) =
  ((0xF0 <=? byte_val b) && (byte_val b <? 0xF8)).
Proof. by destruct b. Qed.
Lemma continuation_range b : (Z.land (byte_val b) 0xC0 =? 0x80) =
  ((0x80 <=? byte_val b) && (byte_val b <? 0xC0)).
Proof. by destruct b. Qed.

Lemma shift_in cp b : 0 <= cp < 2 ^ 16 →
  wrap 32 (Z.lor (Z.shiftl cp 6) (Z.land (byte_val b) 0x3F)) =
    64 * cp + byte_val b mod 64.
Proof.
  intros Hcp. change 0x3F with (Z.ones 6). rewrite Z.land_ones by lia.
  pose proof (Z.mod_pos_bound (byte_val b) (2 ^ 6) ltac:(lia)).
  rewrite Z.lor_comm, lor_shiftl_disjoint by lia.
  rewrite wrap_id by (unfold fits; lia). change (2 ^ 6) with 64. lia.
Qed.

Lemma lead_shape_ranges b :
  lead_shape (byte_val b) =
    let v := byte_val b in
    if (0xC0 <=? v) && (v <? 0xE0) then Some (2%nat, v - 0xC0)
    else if (0xE0 <=? v) && (v <? 0xF0) then Some (3%nat, v - 0xE0)
    else if (0xF0 <=? v) && (v <? 0xF8) then Some (4%nat, v - 0xF0)
    else None.
Proof. by destruct b. Qed.

Definition is_continuation (b : byte) : bool :=
  (0x80 <=? byte_val b) && (byte_val b <? 0xC0).

(** One sequence at the start of a text, by arithmetic instead of bit tests. *)
Lemma measure_at_start b t :
  measure_utf8_sequence (b :: t) 0 =
    let v := byte_val b in
    if v <? 0x80 then (if is_allowed_ascii v then 1 else 0)%nat
    else match lead_shape v, t with
    | Some (2%nat, p), c1 :: _ =>
        if is_continuation c1 &&
           is_canonical_code_point (64 * p + byte_val c1 mod 64) 2 then 2%nat else 0%nat
    | Some (3%nat, p), c1 :: c2 :: _ =>
        if is_continuation c1 && is_continuation c2 &&
           is_canonical_code_point
             (64 * (64 * p + byte_val c1 mod 64) + byte_val c2 mod 64) 3
        then 3%nat else 0%nat
    | Some (4%nat, p), c1 :: c2 :: c3 :: _ =>
        if is_continuation c1 && is_continuation c2 && is_continuation c3 &&
           is_canonical_code_point
             (64 * (64 * (64 * p + byte_val c1 mod 64) + byte_val c2 mod 64)
              + byte_val c3 mod 64) 4
        then 4%nat else 0%nat
    | _, _ => 0%nat
    end.
Proof.
  unfold measure_utf8_sequence. change ((b :: t) !!! 0%nat) with b. cbv zeta.
  destruct (byte_val b <? 0x80); [done|].
  rewrite lead_shape_ranges. cbv zeta. pose proof (byte_val_range b).
  destruct ((0xC0 <=? byte_val b) && (byte_val b <? 0xE0)) eqn:E2;
  [|destruct ((0xE0 <=? byte_val b) && (byte_val b <? 0xF0)) eqn:E3;
    [|destruct ((0xF0 <=? byte_val b) && (byte_val b <? 0xF8)) eqn:E4; [|done]]].
  all: repeat match goal with
    | H : (_ && _) = true |- _ => apply andb_true_iff in H as [? ?]
    | H : (_ <=? _) = true |- _ => apply Z.leb_le in H
    | H : (_ <? _) = true |- _ => apply Z.ltb_lt in H
    end.
  all: destruct t as [|c1 [|c2 [|c3 t]]]; simpl; try done.
  all: rewrite continuation_range; fold (is_continuation c1);
    destruct (is_continuation c1); simpl; try done;
    pose proof (Z.mod_pos_bound (byte_val c1) 64 ltac:(lia));
    rewrite (shift_in _ c1) by lia; try done.
  all: rewrite continuation_range; fold (is_continuation c2);
    destruct (is_continuation c2); simpl; try done;
    pose proof (Z.mod_pos_bound (byte_val c2) 64 ltac:(lia));
    rewrite (shift_in _ c2) by lia; try done.
  all: rewrite continuation_range; fold (is_continuation c3);
    destruct (is_continuation c3); simpl; try done; by rewrite (shift_in _ c3) by lia.
Qed.

(** ** The validator decides the specification *)

Ltac boolify :=
  repeat match goal with
  | H : (_ && _) = true |- _ => apply andb_true_iff in H as [? ?]
  | H : (_ <=? _) = true |- _ => apply Z.leb_le in H
  | H : (_ <? _) = true |- _ => apply Z.ltb_lt in H
  | H : (_ <=? _) = false |- _ => apply Z.leb_gt in H
  | H : (_ <? _) = false |- _ => apply Z.ltb_ge in H
  end.

Ltac div_lia := Z.div_mod_to_equations; lia.

Lemma byte_of_eq z b : z = byte_val b → byte_of z = b.
Proof. intros ->. apply byte_of_val. Qed.

Lemma byte_val_of_small z : 0 <= z < 256 → byte_val (byte_of z) = z.
Proof. intros Hz. rewrite byte_val_of. by apply Z.mod_small. Qed.

Lemma is_allowed_ascii_spec v : 0 <= v < 0x80 →
  is_allowed_ascii v = true ↔ allowed_scalar v.
Proof.
  intros Hv. unfold is_allowed_ascii, allowed_scalar.
  destruct (Z.eqb_spec v 9), (Z.eqb_spec v 10), (Z.leb_spec 32 v), (Z.eqb_spec v 127);
    simpl; split; intros; try done; lia.
Qed.

Lemma canonical_spec cp n : is_canonical_code_point cp n = true ↔
  ¬ (0xD800 <= cp <= 0xDFFF) ∧
  (match n with 2%nat => 0x80 <= cp | 3%nat => 0x800 <= cp
   | _ => 0x10000 <= cp <= 0x10FFFF end).
Proof.
  unfold is_canonical_code_point.
  destruct (Z.leb_spec 0xD800 cp), (Z.leb_spec cp 0xDFFF); simpl;
    destruct n as [|[|[|[|n]]]]; simpl; rewrite ?andb_true_iff, ?Z.leb_le;
    split; intros; try done; lia.
Qed.

Lemma utf8_encode_2 cp : 0x80 <= cp < 0x800 →
  utf8_encode cp = [byte_of (0xC0 + cp / 64); byte_of (0x80 + cp mod 64)].
Proof.
  intros H. unfold utf8_encode. destruct (Z.ltb_spec cp 0x80); [lia|].
  by destruct (Z.ltb_spec cp 0x800); [|lia].
Qed.

Lemma utf8_encode_3 cp : 0x800 <= cp < 0x10000 →
  utf8_encode cp = [byte_of (0xE0 + cp / 4096);
     byte_of (0x80 + (cp / 64) mod 64); byte_of (0x80 + cp mod 64)].
Proof.
  intros H. unfold utf8_encode. destruct (Z.ltb_spec cp 0x80); [lia|].
  destruct (Z.ltb_spec cp 0x800); [lia|]. by destruct (Z.ltb_spec cp 0x10000); [|lia].
Qed.

Lemma utf8_encode_4 cp : 0x10000 <= cp →
  utf8_encode cp = [byte_of (0xF0 + cp / 262144);
     byte_of (0x80 + (cp / 4096) mod 64);
     byte_of (0x80 + (cp / 64) mod 64); byte_of (0x80 + cp mod 64)].
Proof.
  intros H. unfold utf8_encode. destruct (Z.ltb_spec cp 0x80); [lia|].
  destruct (Z.ltb_spec cp 0x800); [lia|]. by destruct (Z.ltb_spec cp 0x10000); [lia|].
Qed.

Lemma utf8_encode_cases cp : allowed_scalar cp →
  (0 <= cp < 0x80 ∧ utf8_encode cp = [byte_of cp]) ∨ 0x80 <= cp < 0x800 ∨
  (0x800 <= cp < 0x10000 ∧ ¬ (0xD800 <= cp <= 0xDFFF)) ∨ 0x10000 <= cp <= 0x10FFFF.
Proof.
  intros H. unfold allowed_scalar in H. unfold utf8_encode.
  destruct (Z.ltb_spec cp 0x80); [left; split; [lia|done]|lia].
Qed.

Ltac known_bool e b := let H := fresh in
  assert (e = b) as H by (rewrite ?Z.leb_le, ?Z.ltb_lt, ?Z.leb_gt, ?Z.ltb_ge; div_lia);
  rewrite H; clear H.

Lemma continuation_of v : 0 <= v < 64 → is_continuation (byte_of (0x80 + v)) = true.
Proof.
  intros Hv. unfold is_continuation. rewrite byte_val_of_small by lia.
  apply andb_true_iff. rewrite Z.leb_le, Z.ltb_lt. lia.
Qed.

Lemma continuation_bits v : 0 <= v < 64 → byte_val (byte_of (0x80 + v)) mod 64 = v.
Proof.
  intros Hv. rewrite byte_val_of_small by lia.
  rewrite <-(Z.mod_small v 64) at 2 by lia.
  replace (0x80 + v) with (v + 2 * 64) by lia. by rewrite Z.mod_add.
Qed.

Lemma lead_shape_of n v :
  (n = 2%nat ∧ 0 <= v < 32) ∨ (n = 3%nat ∧ 0 <= v < 16) ∨ (n = 4%nat ∧ 0 <= v < 8) →
  let lead := match n with 2%nat => 0xC0 | 3%nat => 0xE0 | _ => 0xF0 end in
  byte_val (byte_of (lead + v)) = lead + v ∧
  lead_shape (byte_val (byte_of (lead + v))) = Some (n, v).
Proof.
  intros [[-> Hv]|[[-> Hv]|[-> Hv]]]; simpl; rewrite lead_shape_ranges;
    (rewrite byte_val_of_small by lia); cbv zeta; (split; [done|]).
  - known_bool (0xC0 <=? 0xC0 + v) true. known_bool (0xC0 + v <? 0xE0) true.
    simpl. do 2 f_equal. lia.
  - known_bool (0xC0 <=? 0xE0 + v) true. known_bool (0xE0 + v <? 0xE0) false.
    known_bool (0xE0 <=? 0xE0 + v) true. known_bool (0xE0 + v <? 0xF0) true.
    simpl. do 2 f_equal. lia.
  - known_bool (0xC0 <=? 0xF0 + v) true. known_bool (0xF0 + v <? 0xE0) false.
    known_bool (0xE0 <=? 0xF0 + v) true. known_bool (0xF0 + v <? 0xF0) false.
    known_bool (0xF0 <=? 0xF0 + v) true. known_bool (0xF0 + v <? 0xF8) true.
    simpl. do 2 f_equal. lia.
Qed.

Lemma measure_encoding cp t : allowed_scalar cp →
  measure_utf8_sequence (utf8_encode cp ++ t) 0 = length (utf8_encode cp).
Proof.
  intros Hcp. destruct (utf8_encode_cases cp Hcp) as [[Hr ->]|[Hr|[[Hr Hs]|Hr]]].
  - simpl app. rewrite measure_at_start, byte_val_of_small by lia. cbv zeta.
    known_bool (cp <? 0x80) true.
    by rewrite (proj2 (is_allowed_ascii_spec cp Hr) Hcp).
  - rewrite utf8_encode_2 by done. simpl app. rewrite measure_at_start. cbv zeta.
    destruct (lead_shape_of 2 (cp / 64)) as [-> Hl]; [left; split; [done|div_lia]|].
    cbv beta iota in Hl. rewrite Hl.
    known_bool (0xC0 + cp / 64 <? 0x80) false.
    rewrite continuation_of, continuation_bits by div_lia. simpl andb.
    rewrite (proj2 (canonical_spec _ 2)); [done|div_lia].
  - rewrite utf8_encode_3 by done. simpl app. rewrite measure_at_start. cbv zeta.
    destruct (lead_shape_of 3 (cp / 4096)) as [-> Hl]; [right; left; split; [done|div_lia]|].
    cbv beta iota in Hl. rewrite Hl.
    known_bool (0xE0 + cp / 4096 <? 0x80) false.
    rewrite !continuation_of, !continuation_bits by div_lia. simpl andb.
    rewrite (proj2 (canonical_spec _ 3)); [done|div_lia].
  - rewrite utf8_encode_4 by lia. simpl app. rewrite measure_at_start. cbv zeta.
    destruct (lead_shape_of 4 (cp / 262144)) as [-> Hl]; [right; right; split; [done|div_lia]|].
    cbv beta iota in Hl. rewrite Hl.
    known_bool (0xF0 + cp / 262144 <? 0x80) false.
    rewrite !continuation_of, !continuation_bits by div_lia. simpl andb.
    rewrite (proj2 (canonical_spec _ 4)); [done|div_lia].
Qed.

Lemma continuation_value b : is_continuation b = true →
  byte_val b = 0x80 + byte_val b mod 64.
Proof. unfold is_continuation. intros H. boolify. div_lia. Qed.

Lemma measure_sound b t k : measure_utf8_sequence (b :: t) 0 = S k →
  ∃ cp t', allowed_scalar cp ∧ b :: t = utf8_encode cp ++ t' ∧ S k = length (utf8_encode cp).
Proof.
  rewrite measure_at_start. cbv zeta. pose proof (byte_val_range b) as Hb.
  destruct (Z.ltb_spec (byte_val b) 0x80) as [Hlow|Hhigh].
  { destruct (is_allowed_ascii (byte_val b)) eqn:E; [|done]. intros [= <-].
    apply is_allowed_ascii_spec in E; [|lia]. exists (byte_val b), t.
    unfold utf8_encode. known_bool (byte_val b <? 0x80) true.
    by rewrite byte_of_val. }
  rewrite lead_shape_ranges. cbv zeta.
  destruct ((0xC0 <=? byte_val b) && (byte_val b <? 0xE0)) eqn:E2;
  [|destruct ((0xE0 <=? byte_val b) && (byte_val b <? 0xF0)) eqn:E3;
    [|destruct ((0xF0 <=? byte_val b) && (byte_val b <? 0xF8)) eqn:E4; [|done]]].
  - destruct t as [|c1 t]; [done|].
    destruct (_ && is_canonical_code_point _ _) eqn:E; [|done]. intros [= <-].
    apply andb_true_iff in E as [C1%continuation_value [Hs Hc]%canonical_spec]. boolify.
    exists (64 * (byte_val b - 0xC0) + byte_val c1 mod 64), t. rewrite utf8_encode_2 by div_lia. split_and!; [|simpl; f_equal|done].
    + unfold allowed_scalar. div_lia.
    + symmetry. apply byte_of_eq. div_lia.
    + f_equal. symmetry. apply byte_of_eq. rewrite C1 at 2. f_equal. div_lia.
  - destruct t as [|c1 [|c2 t]]; [done|done|].
    destruct (_ && is_canonical_code_point _ _) eqn:E; [|done]. intros [= <-].
    apply andb_true_iff in E as [E [Hs Hc]%canonical_spec].
    apply andb_true_iff in E as [C1%continuation_value C2%continuation_value]. boolify.
    exists (64 * (64 * (byte_val b - 0xE0) + byte_val c1 mod 64) + byte_val c2 mod 64), t.
    rewrite utf8_encode_3 by div_lia. split_and!; [|simpl; f_equal|done].
    + unfold allowed_scalar. div_lia.
    + symmetry. apply byte_of_eq. div_lia.
    + f_equal; [|f_equal]; symmetry; apply byte_of_eq; div_lia.
  - destruct t as [|c1 [|c2 [|c3 t]]]; [done|done|done|].
    destruct (_ && is_canonical_code_point _ _) eqn:E; [|done]. intros [= <-].
    apply andb_true_iff in E as [E [Hs Hc]%canonical_spec].
    apply andb_true_iff in E as [[C1%continuation_value C2%continuation_value]%andb_true_iff
      C3%continuation_value]. boolify.
    exists (64 * (64 * (64 * (byte_val b - 0xF0) + byte_val c1 mod 64) + byte_val c2 mod 64)
              + byte_val c3 mod 64), t.
    rewrite utf8_encode_4 by div_lia. split_and!; [|simpl; f_equal|done].
    + unfold allowed_scalar. div_lia.
    + symmetry. apply byte_of_eq. div_lia.
    + f_equal; [|f_equal; [|f_equal]]; symmetry; apply byte_of_eq; div_lia.
Qed.

Lemma measure_shift pre s : measure_utf8_sequence (pre ++ s) (length pre) =
  measure_utf8_sequence s 0.
Proof.
  assert (∀ i, (pre ++ s) !!! (length pre + i)%nat = s !!! i) as Hlook.
  { intros i. rewrite !list_lookup_total_alt. f_equal.
    rewrite lookup_app_r by lia. f_equal. lia. }
  assert (∀ count index cp,
    read_continuation (pre ++ s) (length pre) index count cp =
    read_continuation s 0 index count cp) as Hloop.
  { induction count as [|count IH]; intros index cp; simpl; [done|].
    rewrite Hlook. by rewrite IH. }
  unfold measure_utf8_sequence. specialize (Hlook 0%nat) as H0.
  rewrite Nat.add_0_r in H0. rewrite H0.
  destruct (_ <? 0x80); [done|]. destruct (lead_shape _) as [[len cp]|]; [|done].
  rewrite Hloop, length_app.
  destruct (Nat.ltb_spec (length pre + length s) (length pre + len)),
    (Nat.ltb_spec (length s) (0 + len)); (done || lia).
Qed.

Lemma utf8_encode_nonempty cp : ∃ b t, utf8_encode cp = b :: t.
Proof. unfold utf8_encode. repeat case_match; eauto. Qed.

Lemma validate_from_spells fuel pre s : (length s <= fuel)%nat →
  validate_from fuel (pre ++ s) (length pre) = true ↔ ∃ cps, spells s cps.
Proof.
  revert pre s. induction fuel as [|fuel IH]; intros pre s Hl;
    simpl; rewrite length_app; destruct s as [|b t];
    (destruct (Nat.ltb_spec (length pre) (length pre + length (b :: t))) as [_|Hx]
      || destruct (Nat.ltb_spec (length pre) (length pre + length (@nil byte))) as [Hx|_]);
    try (simpl in Hx; lia); try (simpl in Hl; lia);
    try (split; [exists []; by split|done]).
  rewrite measure_shift.
  destruct (measure_utf8_sequence (b :: t) 0) as [|k] eqn:E; simpl.
  - split; [done|]. intros (cps & Hok & Hs). exfalso.
    destruct cps as [|cp cps]; [done|]. inversion Hok; subst. simpl in Hs.
    destruct (utf8_encode_nonempty cp) as (c & u & Ecp).
    rewrite Hs, measure_encoding, Ecp in E by done. done.
  - destruct (measure_sound _ _ _ E) as (cp & t' & Hcp & Hs & Hk).
    assert (pre ++ b :: t = (pre ++ utf8_encode cp) ++ t') as -> by (by rewrite Hs, app_assoc).
    assert (length pre + S k = length (pre ++ utf8_encode cp))%nat as ->
      by (rewrite length_app; lia).
    rewrite IH.
    2: { apply (f_equal length) in Hs. rewrite length_app in Hs. simpl in Hs, Hl. lia. }
    split.
    + intros (cps & Hok & ->). exists (cp :: cps). split; [by constructor|done].
    + intros (cps & Hok & Hs'). destruct cps as [|cp' cps]; [done|].
      inversion Hok; subst. exists cps. split; [done|]. simpl in Hs'.
      pose proof E as E'. rewrite Hs', measure_encoding in E' by done.
      assert (length (utf8_encode cp) = length (utf8_encode cp')) as El by congruence.
      rewrite Hs' in Hs. by apply app_split_lengths in Hs as [_ <-].
Qed.

Lemma validate_spells text :
  validate_text_field text = true ↔ ∃ cps, spells text cps.
Proof. exact (validate_from_spells (length text) [] text (le_n _)). Qed.

Lemma printable_ascii_text text :
  Forall (λ b, 0x20 <= byte_val b < 0x7F) text → validate_text_field text = true.
Proof.
  intros H. apply validate_spells. exists (map byte_val text). split.
  - apply Forall_map. eapply Forall_impl; [exact H|]. intros b Hb.
    unfold allowed_scalar, compose. simpl in Hb. lia.
  - induction H as [|b text Hb _ IH]; [done|]. simpl. rewrite IH at 1.
    unfold utf8_encode at 2. destruct (Z.ltb_spec (byte_val b) 0x80); [|lia].
    by rewrite byte_of_val.
Qed.

(** C40: the validator accepts exactly the UTF-8 spellings of sequences of
    allowed scalar values. No overlong form, surrogate, code point past the
    Unicode range, control byte, carriage return or truncated sequence passes,
    and every permitted text does. *)
Theorem validate_text_field_spec (text : bytes) :
  validate_text_field text = true ↔ ∃ cps, spells text cps.
Proof. apply validate_spells. Qed.
