(* ===== verification/Framing.v ===== *)
(** Framing (common/protocol): message types, error codes, the application
    frame codec and the splitting of the TCP stream into length-prefixed
    messages. *)

From S2P Require Import Prelude.
From S2P Require Import Wire.

(** ** message_type *)

Module message_type.
Inductive t : Set :=
  | hello_request
  | hello_response
  | auth_challenge
  | auth_response
  | auth_accepted
  | ping_request
  | ping_response
  | motd_push
  | status_ok
  | status_error
  | register_request
  | prekey_publish_request
  | prekey_fetch_request
  | prekey_bundle_response
  | forum_create_request
  | forum_info_response
  | forum_list_request
  | forum_list_response
  | post_create_request
  | post_info_response
  | post_list_request
  | post_list_response
  | thread_fetch_request
  | thread_response
  | comment_create_request
  | comment_info_response
  | post_delete_request
  | comment_delete_request
  | profile_get_request
  | profile_response
  | profile_set_request
  | friend_add_request
  | friend_list_request
  | friend_list_response
  | top8_set_request
  | top8_get_request
  | top8_response
  | dm_send_request
  | dm_fetch_request
  | dm_list_response
  | dm_ack_request
  | blob_announce_request
  | blob_locate_request
  | blob_peers_response
  | report_post_request
  | report_account_request.

#[global] Instance t_eq_decision : EqDecision t.
  Proof. solve_decision. Defined.

  (** The underlying [std::uint8_t]. *)
Definition value (type : t) : Z :=
    match type with
    | hello_request => 0x01
    | hello_response => 0x02
    | auth_challenge => 0x03
    | auth_response => 0x04
    | auth_accepted => 0x05
    | ping_request => 0x06
    | ping_response => 0x07
    | motd_push => 0x08
    | status_ok => 0x09
    | status_error => 0x0A
    | register_request => 0x10
    | prekey_publish_request => 0x11
    | prekey_fetch_request => 0x12
    | prekey_bundle_response => 0x13
    | forum_create_request => 0x20
    | forum_info_response => 0x21
    | forum_list_request => 0x22
    | forum_list_response => 0x23
    | post_create_request => 0x30
    | post_info_response => 0x31
    | post_list_request => 0x32
    | post_list_response => 0x33
    | thread_fetch_request => 0x34
    | thread_response => 0x35
    | comment_create_request => 0x36
    | comment_info_response => 0x37
    | post_delete_request => 0x38
    | comment_delete_request => 0x39
    | profile_get_request => 0x40
    | profile_response => 0x41
    | profile_set_request => 0x42
    | friend_add_request => 0x43
    | friend_list_request => 0x44
    | friend_list_response => 0x45
    | top8_set_request => 0x46
    | top8_get_request => 0x47
    | top8_response => 0x48
    | dm_send_request => 0x50
    | dm_fetch_request => 0x51
    | dm_list_response => 0x52
    | dm_ack_request => 0x53
    | blob_announce_request => 0x60
    | blob_locate_request => 0x61
    | blob_peers_response => 0x62
    | report_post_request => 0x70
    | report_account_request => 0x71
    end.

  (** The labels of the [switch] of [is_known_message_type]. *)
Definition known : list t :=
    [ hello_request; hello_response; auth_challenge; auth_response; auth_accepted;
      ping_request; ping_response; motd_push; status_ok; status_error;
      register_request; prekey_publish_request; prekey_fetch_request;
      prekey_bundle_response; forum_create_request; forum_info_response;
      forum_list_request; forum_list_response; post_create_request; post_info_response;
      post_list_request; post_list_response; thread_fetch_request; thread_response;
      comment_create_request; comment_info_response; post_delete_request;
      comment_delete_request; profile_get_request; profile_response;
      profile_set_request; friend_add_request; friend_list_request;
      friend_list_response; top8_set_request; top8_get_request; top8_response;
      dm_send_request; dm_fetch_request; dm_list_response; dm_ack_request;
      blob_announce_request; blob_locate_request; blob_peers_response;
      report_post_request; report_account_request ].

End message_type.

Definition is_known_message_type (raw_type : Z) : bool :=
  existsb (λ t, message_type.value t =? raw_type) message_type.known.

(** [static_cast<message_type>] of a byte that names an enumerator. *)
Definition message_type_cast (raw_type : Z) : option message_type.t :=
  find (λ t, message_type.value t =? raw_type) message_type.known.

(** ** error_code *)

Module error_code.
Inductive t : Set :=
  | none
  | malformed_frame
  | unsupported_version
  | not_authenticated
  | already_authenticated
  | authentication_failed
  | handle_unavailable
  | invalid_field
  | not_found
  | permission_denied
  | rate_limited
  | payload_too_large
  | duplicate_entry
  | internal_error
  | not_implemented
  | account_banned.

#[global] Instance t_eq_decision : EqDecision t.
  Proof. solve_decision. Defined.

  (** The underlying [std::uint16_t]. *)
Definition value (code : t) : Z :=
    match code with
    | none => 0
    | malformed_frame => 1
    | unsupported_version => 2
    | not_authenticated => 3
    | already_authenticated => 4
    | authentication_failed => 5
    | handle_unavailable => 6
    | invalid_field => 7
    | not_found => 8
    | permission_denied => 9
    | rate_limited => 10
    | payload_too_large => 11
    | duplicate_entry => 12
    | internal_error => 13
    | not_implemented => 14
    | account_banned => 15
    end.

Definition all : list t :=
    [ none; malformed_frame; unsupported_version; not_authenticated;
      already_authenticated; authentication_failed; handle_unavailable; invalid_field;
      not_found; permission_denied; rate_limited; payload_too_large; duplicate_entry;
      internal_error; not_implemented; account_banned ].

End error_code.

Definition describe_error_code (code : error_code.t) : bytes :=
  match code with
  | error_code.none => lit "ok"
  | error_code.malformed_frame => lit "trame invalide"
  | error_code.unsupported_version => lit "version non supportee"
  | error_code.not_authenticated => lit "authentification requise"
  | error_code.already_authenticated => lit "session deja authentifiee"
  | error_code.authentication_failed => lit "authentification refusee"
  | error_code.handle_unavailable => lit "pseudo indisponible"
  | error_code.invalid_field => lit "champ invalide"
  | error_code.not_found => lit "introuvable"
  | error_code.permission_denied => lit "acces refuse"
  | error_code.rate_limited => lit "trop de requetes"
  | error_code.payload_too_large => lit "charge utile trop grande"
  | error_code.duplicate_entry => lit "entree deja existante"
  | error_code.internal_error => lit "erreur interne"
  | error_code.not_implemented => lit "non implemente"
  | error_code.account_banned => lit "compte banni"
  end.

(** ** Frames *)

Record frame_header := FrameHeader { body_size : Z; type : message_type.t }.

Definition peek_body_size (input : bytes) : option Z :=
  match load_little_endian 4 input with
  | None => None
  | Some announced =>
      if (announced <? FRAME_TYPE_FIELD_SIZE) || (MAX_BODY_SIZE <? announced)
      then None else Some announced
  end.

Definition decode_frame_header (input : bytes) : option frame_header :=
  if size_of input <? FRAME_HEADER_SIZE then None
  else match peek_body_size input with
  | None => None
  | Some body_size =>
      let raw_type := byte_val (input !!! Z.to_nat FRAME_LENGTH_FIELD_SIZE) in
      if negb (is_known_message_type raw_type) then None
      else FrameHeader body_size <$> message_type_cast raw_type
  end.

Definition encode_frame (type : message_type.t) (payload : bytes) : option bytes :=
  if MAX_PAYLOAD_SIZE <? size_of payload then None
  else Some (target_
         ((write_integer 4 (wrap 32 (FRAME_TYPE_FIELD_SIZE + size_of payload)) ▷
           write_integer 1 (message_type.value type) ▷
           write_fixed_bytes payload) (new_writer []))).

(** ** length_prefixed_stream *)

(** [extracted]: the function returns true, with [out] filled and the message
    removed from the buffer; the two others return false, with [malformed]
    cleared or set and the buffer untouched. *)
Inductive extraction :=
| extracted (out buffer : bytes)
| incomplete
| malformed.

Definition extract_length_prefixed_message (buffer : bytes) (maximum_size : Z) : extraction :=
  if size_of buffer <? FRAME_LENGTH_FIELD_SIZE then incomplete
  else match load_little_endian 4 buffer with
  | None => incomplete
  | Some length =>
      if (length =? 0) || (maximum_size <? length) then malformed
      else if size_of buffer <? FRAME_LENGTH_FIELD_SIZE + length then incomplete
      else let tail := drop (Z.to_nat FRAME_LENGTH_FIELD_SIZE) buffer in
           extracted (take (Z.to_nat length) tail) (drop (Z.to_nat length) tail)
  end.

Definition append_length_prefixed_message (payload out : bytes) : bytes :=
  target_ ((write_integer 4 (wrap 32 (size_of payload)) ▷ write_fixed_bytes payload)
             (new_writer out)).

(** ** Properties of frames *)

Lemma is_known_value t : is_known_message_type (message_type.value t) = true.
Proof. by destruct t. Qed.

Lemma message_type_cast_value t : message_type_cast (message_type.value t) = Some t.
Proof. by destruct t. Qed.

Lemma message_type_cast_Some raw t : message_type_cast raw = Some t → message_type.value t = raw.
Proof.
  unfold message_type_cast. intros H. apply find_some in H as [_ H]. by apply Z.eqb_eq.
Qed.

Lemma message_type_value_range t : 0 <= message_type.value t < 256.
Proof. by destruct t. Qed.

Lemma encode_frame_bytes type payload : size_of payload <= MAX_PAYLOAD_SIZE →
  encode_frame type payload =
    Some (le_bytes 4 (1 + size_of payload) ++ byte_of (message_type.value type) :: payload).
Proof.
  intros Hs. unfold encode_frame. destruct (Z.ltb_spec MAX_PAYLOAD_SIZE (size_of payload)); [lia|].
  rewrite seq_push, output_seq, !output_integer, output_fixed by auto with wire.
  rewrite target_push, wrap_id, le_bytes_1; [done|].
  pose proof (size_of_nonneg payload). unfold fits, MAX_PAYLOAD_SIZE, MAX_FRAME_SIZE,
    FRAME_HEADER_SIZE, FRAME_LENGTH_FIELD_SIZE, FRAME_TYPE_FIELD_SIZE in *. lia.
Qed.

Lemma peek_body_size_bytes n t : 1 <= n <= MAX_BODY_SIZE →
  peek_body_size (le_bytes 4 n ++ t) = Some n.
Proof.
  intros Hn. unfold peek_body_size.
  rewrite load_little_endian_value, length_app, length_le_bytes.
  rewrite decide_True by lia. rewrite take_app_exact by (by rewrite length_le_bytes).
  unfold FRAME_TYPE_FIELD_SIZE, MAX_BODY_SIZE, MAX_FRAME_SIZE, FRAME_LENGTH_FIELD_SIZE in *.
  rewrite le_value_le_bytes, wrap_id by (unfold fits; simpl; lia).
  destruct (Z.ltb_spec n 1); [lia|].
  by destruct (Z.ltb_spec (1024 * 1024 - 4) n); [lia|].
Qed.

Lemma max_payload_body n : 0 <= n <= MAX_PAYLOAD_SIZE → 1 <= 1 + n <= MAX_BODY_SIZE.
Proof.
  unfold MAX_PAYLOAD_SIZE, MAX_BODY_SIZE, MAX_FRAME_SIZE, FRAME_HEADER_SIZE,
    FRAME_LENGTH_FIELD_SIZE, FRAME_TYPE_FIELD_SIZE. lia.
Qed.

(** A frame encoded by [encode_frame] decodes to its own type, announces a
    body of exactly its length minus the length field, and carries its payload
    after the header; an oversized payload is refused. *)
Theorem encode_frame_decodes (type : message_type.t) (payload : bytes) :
  match encode_frame type payload with
  | Some frame =>
      size_of payload <= MAX_PAYLOAD_SIZE ∧
      decode_frame_header frame = Some (FrameHeader (1 + size_of payload) type) ∧
      size_of frame = FRAME_LENGTH_FIELD_SIZE + (1 + size_of payload) ∧
      drop (Z.to_nat FRAME_HEADER_SIZE) frame = payload
  | None => MAX_PAYLOAD_SIZE < size_of payload
  end.
Proof.
  destruct (encode_frame type payload) as [frame|] eqn:E.
  2: { unfold encode_frame in E. by destruct (Z.ltb_spec MAX_PAYLOAD_SIZE (size_of payload)). }
  destruct (Z.lt_ge_cases MAX_PAYLOAD_SIZE (size_of payload)) as [Hbig|Hs].
  { unfold encode_frame in E. by rewrite (proj2 (Z.ltb_lt _ _) Hbig) in E. }
  rewrite encode_frame_bytes in E by done. injection E as <-.
  pose proof (length_le_bytes 4 (1 + size_of payload)) as Hlen.
  pose proof (size_of_nonneg payload) as Hnn.
  set (l := le_bytes 4 (1 + size_of payload)) in *.
  assert (size_of (l ++ byte_of (message_type.value type) :: payload)
          = FRAME_LENGTH_FIELD_SIZE + (1 + size_of payload)) as Hsize.
  { unfold FRAME_LENGTH_FIELD_SIZE. size_lia. }
  split_and!; [done| |done|].
  2: { rewrite cons_middle, app_assoc.
       apply drop_app_exact. rewrite length_app, Hlen. done. }
  unfold decode_frame_header. rewrite Hsize.
  destruct (Z.ltb_spec (FRAME_LENGTH_FIELD_SIZE + (1 + size_of payload)) FRAME_HEADER_SIZE)
    as [Hx|_].
  { unfold FRAME_HEADER_SIZE, FRAME_LENGTH_FIELD_SIZE, FRAME_TYPE_FIELD_SIZE in Hx. lia. }
  unfold l. rewrite peek_body_size_bytes by (by apply max_payload_body). fold l.
  rewrite (list_lookup_total_correct _ _ (byte_of (message_type.value type))).
  2: { rewrite lookup_app_r by (rewrite Hlen; done). by rewrite Hlen. }
  rewrite byte_val_of, Z.mod_small by apply message_type_value_range.
  by rewrite is_known_value, message_type_cast_value.
Qed.

(** Whatever the header decoder accepts has an announced body between one
    byte and the cap, and a type byte the protocol knows: an unknown type or an
    out-of-range length never reaches a handler. *)
Theorem decode_frame_header_sound (input : bytes) (header : frame_header)
    (Hdec : decode_frame_header input = Some header) :
  FRAME_HEADER_SIZE <= size_of input ∧
  1 <= header.(body_size) <= MAX_BODY_SIZE ∧
  header.(body_size) = le_value (take 4 input) ∧
  input !! 4%nat = Some (byte_of (message_type.value header.(type))).
Proof.
  revert Hdec. unfold decode_frame_header.
  destruct (Z.ltb_spec (size_of input) FRAME_HEADER_SIZE) as [|Hs]; [done|].
  unfold peek_body_size. rewrite load_little_endian_value.
  case_decide as Hl; [|done].
  destruct (Z.ltb_spec (le_value (take 4 input)) FRAME_TYPE_FIELD_SIZE); [done|].
  destruct (Z.ltb_spec MAX_BODY_SIZE (le_value (take 4 input))); [done|]. simpl.
  destruct (negb _); [done|]. intros Hc.
  destruct (message_type_cast _) as [t|] eqn:Ec; [|done]. injection Hc as <-.
  apply message_type_cast_Some in Ec. simpl.
  unfold FRAME_HEADER_SIZE, FRAME_LENGTH_FIELD_SIZE, FRAME_TYPE_FIELD_SIZE in *.
  split_and!; try done; try lia.
  destruct (lookup_lt_is_Some_2 input 4) as [b Hb]; [unfold size_of in Hs; lia|].
  change (Pos.to_nat 4) with 4%nat in Ec.
  rewrite (list_lookup_total_correct _ _ _ Hb) in Ec. by rewrite Ec, byte_of_val.
Qed.

Lemma decode_frame_header_sound_witness :
  ∃ header, decode_frame_header [byte_of 1; byte_of 0; byte_of 0; byte_of 0; byte_of 6]
            = Some header ∧ 1 <= header.(body_size) <= MAX_BODY_SIZE.
Proof.
  exists (FrameHeader 1 message_type.ping_request). split; [reflexivity|].
  apply (decode_frame_header_sound
           [byte_of 1; byte_of 0; byte_of 0; byte_of 0; byte_of 6]
           (FrameHeader 1 message_type.ping_request) eq_refl).
Defined.

(** ** Properties of the stream *)

Lemma append_length_prefixed_bytes payload out :
  append_length_prefixed_message payload out =
    out ++ le_bytes 4 (wrap 32 (size_of payload)) ++ payload.
Proof.
  unfold append_length_prefixed_message.
  rewrite seq_push, output_integer, output_fixed by auto with wire. done.
Qed.

(** Extraction by list operations only. *)
Lemma extract_unfold buffer m :
  extract_length_prefixed_message buffer m =
    if decide (4 <= length buffer)%nat then
      let n := le_value (take 4 buffer) in
      if (n =? 0) || (m <? n) then malformed
      else if decide (4 + n <= size_of buffer) then
        extracted (take (Z.to_nat n) (drop 4 buffer)) (drop (4 + Z.to_nat n) buffer)
      else incomplete
    else incomplete.
Proof.
  unfold extract_length_prefixed_message, FRAME_LENGTH_FIELD_SIZE.
  rewrite load_little_endian_value. unfold size_of.
  destruct (Z.ltb_spec (Z.of_nat (length buffer)) 4).
  { by rewrite decide_False by lia. }
  rewrite decide_True by lia. rewrite decide_True by lia.
  destruct (_ || _); [done|]. cbv zeta.
  destruct (Z.ltb_spec (Z.of_nat (length buffer)) (4 + le_value (take 4 buffer))).
  - by rewrite decide_False by lia.
  - rewrite decide_True by lia. change (Z.to_nat 4) with 4%nat. by rewrite drop_drop.
Qed.

Lemma extract_take4 (buffer chunk : bytes) : (4 <= length buffer)%nat →
  take 4 (buffer ++ chunk) = take 4 buffer.
Proof. intros H. rewrite take_app_le; done. Qed.

Lemma extract_app_extracted buffer chunk m out r :
  extract_length_prefixed_message buffer m = extracted out r →
  extract_length_prefixed_message (buffer ++ chunk) m = extracted out (r ++ chunk).
Proof.
  rewrite !extract_unfold. case_decide as Hl; [|done].
  rewrite decide_True by (rewrite length_app; lia). rewrite extract_take4 by done. cbv zeta.
  pose proof (le_value_range (take 4 buffer)).
  destruct (_ || _); [done|]. case_decide as Hn; [|done]. intros [= <- <-].
  rewrite decide_True by (unfold size_of in *; rewrite length_app; lia).
  unfold size_of in Hn. rewrite !drop_app_le by lia.
  rewrite take_app_le; [done|]. rewrite length_drop. lia.
Qed.

Lemma extract_app_malformed buffer chunk m :
  extract_length_prefixed_message buffer m = malformed →
  extract_length_prefixed_message (buffer ++ chunk) m = malformed.
Proof.
  rewrite !extract_unfold. case_decide as Hl; [|done].
  rewrite decide_True by (rewrite length_app; lia). rewrite extract_take4 by done. cbv zeta.
  destruct (_ || _); [done|]. by case_decide.
Qed.

Lemma extract_shrinks buffer m out r :
  extract_length_prefixed_message buffer m = extracted out r →
  (length buffer = 4 + length out + length r)%nat ∧ (0 < length out)%nat ∧ size_of out <= m.
Proof.
  rewrite extract_unfold. case_decide as Hl; [|done]. cbv zeta.
  pose proof (le_value_range (take 4 buffer)).
  destruct (Z.eqb_spec (le_value (take 4 buffer)) 0); [done|].
  destruct (Z.ltb_spec m (le_value (take 4 buffer))); [done|]. simpl.
  case_decide as Hn; [|done]. intros [= <- <-].
  unfold size_of in *. rewrite length_take, !length_drop. lia.
Qed.

(** What is extracted was at the front of the buffer. *)
Lemma extract_front buffer m out r :
  extract_length_prefixed_message buffer m = extracted out r → buffer = append_length_prefixed_message out [] ++ r.
Proof.
  rewrite extract_unfold. case_decide as Hl; [|done]. cbv zeta.
  pose proof (le_value_range (take 4 buffer)) as Hrange. unfold size_of in Hrange. rewrite length_take, Nat.min_l in Hrange by done.
  destruct (_ || _); [done|]. case_decide as Hn; [|done]. intros [= <- <-]. unfold size_of in Hn.
  assert (size_of (take (Z.to_nat (le_value (take 4 buffer))) (drop 4 buffer)) = le_value (take 4 buffer)) as Hout
    by (unfold size_of; rewrite length_take, length_drop; lia).
  rewrite append_length_prefixed_bytes, app_nil_l, Hout, wrap_id by (unfold fits; lia).
  pose proof (le_bytes_le_value (take 4 buffer)) as Hle. rewrite length_take, Nat.min_l in Hle by done.
  rewrite Hle, <-app_assoc. set (n := Z.to_nat _).
  replace (S (S (S (S n)))) with (n + 4)%nat by lia. rewrite (Nat.add_comm n 4), <-(drop_drop buffer n 4), take_drop. by rewrite take_drop.
Qed.

(** The extraction loop of the receivers (the [while] of
    [process_connection_input] and the client's [pull_next_message]) without
    what they do with each message: the messages detached in order, the bytes
    kept for the next read, and whether the stream was found malformed. *)
Fixpoint drain_loop (fuel : nat) (m : Z) (buffer : bytes) : list bytes * bytes * bool :=
  match extract_length_prefixed_message buffer m with
  | incomplete => ([], buffer, false)
  | malformed => ([], buffer, true)
  | extracted out buffer' =>
      match fuel with
      | O => ([], buffer, false)
      | S fuel' =>
          let '(msgs, buffer'', bad) := drain_loop fuel' m buffer' in
          (out :: msgs, buffer'', bad)
      end
  end.

Definition drain (m : Z) (buffer : bytes) : list bytes * bytes * bool :=
  drain_loop (length buffer) m buffer.

Lemma drain_loop_fuel f m buffer : (length buffer <= f)%nat →
  drain_loop f m buffer = drain m buffer.
Proof.
  unfold drain. remember (length buffer) as n eqn:En.
  assert (length buffer <= n)%nat as Hn by lia. clear En. revert buffer f Hn.
  induction n as [|n IH]; intros buffer f Hn Hf.
  - destruct buffer; [|simpl in Hn; lia]. by destruct f.
  - destruct f as [|f]; [lia|]. simpl.
    destruct (extract_length_prefixed_message buffer m) as [out r| |] eqn:E; try done.
    apply extract_shrinks in E. rewrite (IH r f) by lia. done.
Qed.

Lemma drain_unfold m buffer :
  drain m buffer =
    match extract_length_prefixed_message buffer m with
    | incomplete => ([], buffer, false)
    | malformed => ([], buffer, true)
    | extracted out r => let '(msgs, r', bad) := drain m r in (out :: msgs, r', bad)
    end.
Proof.
  unfold drain at 1. destruct (length buffer) as [|n] eqn:El; simpl;
    destruct (extract_length_prefixed_message buffer m) as [out r| |] eqn:E; try done;
    apply extract_shrinks in E; [lia|]. by rewrite drain_loop_fuel by lia.
Qed.

(** Splitting the byte stream does not matter. Whatever way the bytes of a
    stream are cut into reads, detaching the messages after the first part and
    again once the second part has arrived gives the same messages, in the
    same order, the same leftover and the same verdict as detaching them from
    the whole stream at once. *)
Theorem drain_chunk_invariant (m : Z) (buffer chunk : bytes) :
  drain m (buffer ++ chunk) =
    let '(msgs, r, bad) := drain m buffer in
    if bad then (msgs, r ++ chunk, true)
    else let '(msgs', r', bad') := drain m (r ++ chunk) in (msgs ++ msgs', r', bad').
Proof.
  remember (length buffer) as n eqn:En.
  assert (length buffer <= n)%nat as Hn by lia. clear En. revert buffer Hn.
  induction n as [|n IH]; intros buffer Hn; rewrite (drain_unfold m buffer);
    destruct (extract_length_prefixed_message buffer m) as [out r| |] eqn:E.
  1,4: pose proof (extract_shrinks _ _ _ _ E).
  - lia.
  - rewrite drain_unfold, (extract_app_extracted _ chunk _ _ _ E), (IH r) by lia.
    destruct (drain m r) as [[msgs s] bad]. destruct bad; [done|].
    by destruct (drain m (s ++ chunk)) as [[msgs' s'] bad'].
  - by destruct (drain m (buffer ++ chunk)) as [[? ?] ?].
  - by rewrite drain_unfold, (extract_app_malformed _ chunk _ E).
  - by destruct (drain m (buffer ++ chunk)) as [[? ?] ?].
  - by rewrite drain_unfold, (extract_app_malformed _ chunk _ E).
Qed.

(** Messages written one after the other by the sender are received as the
    same messages, in the same order, with nothing left over, as long as each
    is non-empty and within the receiver's cap. *)
Theorem drain_appended (m : Z) (msgs : list bytes)
    (Hmsgs : Forall (λ p, 0 < size_of p <= m ∧ fits 32 (size_of p)) msgs) :
  drain m (foldl (λ out p, append_length_prefixed_message p out) [] msgs) = (msgs, [], false).
Proof.
  assert (∀ out, foldl (λ out p, append_length_prefixed_message p out) out msgs =
    out ++ concat (map (λ p, le_bytes 4 (size_of p) ++ p) msgs)) as Hfold.
  { induction Hmsgs as [|p msgs [_ Hp] _ IH]; intros out; simpl; [by rewrite app_nil_r|].
    by rewrite IH, append_length_prefixed_bytes, wrap_id, <-!app_assoc. }
  rewrite Hfold, app_nil_l. clear Hfold.
  induction Hmsgs as [|p msgs [Hp Hf] _ IH]; [by rewrite drain_unfold|].
  rewrite drain_unfold, extract_unfold. simpl map. simpl concat.
  rewrite <-app_assoc.
  rewrite decide_True by (rewrite length_app, length_le_bytes; lia).
  rewrite take_app_exact, drop_app_exact by (by rewrite length_le_bytes).
  rewrite le_value_le_bytes, wrap_id by done. cbv zeta.
  destruct (Z.eqb_spec (size_of p) 0); [lia|]. destruct (Z.ltb_spec m (size_of p)); [lia|]. simpl orb.
  rewrite decide_True by (unfold size_of; rewrite !length_app, length_le_bytes; lia).
  rewrite (take_app_exact p) by (unfold size_of; lia).
  rewrite app_assoc, drop_app_exact.
  2: { rewrite length_app, length_le_bytes. unfold size_of. lia. }
  by rewrite IH.
Qed.

Lemma drain_appended_witness :
  drain 16 (foldl (λ out p, append_length_prefixed_message p out) []
              [[byte_of 1]; [byte_of 2; byte_of 3]])
    = ([[byte_of 1]; [byte_of 2; byte_of 3]], [], false).
Proof.
  apply (drain_appended 16 [[byte_of 1]; [byte_of 2; byte_of 3]]).
  repeat constructor; vm_compute; congruence.
Defined.
