(* ===== verification/Codec.v ===== *)
(** The fields message structures are made of, and the automation that proves
    the [WireLaws] of a structure from those of its fields: text fields
    (text_field_codec), opaque blobs, nested records, record lists. *)

From S2P Require Import Prelude.
From S2P Require Import Wire.
From S2P Require Import TextField.

(** ** Text fields on the wire *)

Definition read_text_field (maximum_length : Z) : reader bytes :=
  let? raw := read_length_prefixed maximum_length in
  if validate_text_field raw then rret raw else rfail.

Definition write_text_field (text : bytes) : byte_writer → byte_writer :=
  write_length_prefixed text.

Definition blob_ok (maximum_length : Z) (data : bytes) : Prop :=
  size_of data <= maximum_length ∧ fits 32 (size_of data).

Definition text_ok (maximum_length : Z) (text : bytes) : Prop :=
  blob_ok maximum_length text ∧ validate_text_field text = true.

#[export] Instance blob_ok_dec m t : Decision (blob_ok m t).
Proof. unfold blob_ok. apply _. Defined.
#[export] Instance text_ok_dec m t : Decision (text_ok m t).
Proof. unfold text_ok. apply _. Defined.

Definition list_ok {A} `{WireFormat A} (maximum_items : Z) (items : list A) : Prop :=
  Forall well_formed items ∧ size_of items <= maximum_items ∧ fits 16 (size_of items).

Definition ids_ok (maximum_items : Z) (ids : list Z) : Prop :=
  Forall u64 ids ∧ size_of ids <= maximum_items ∧ fits 16 (size_of ids).

(** ** The laws of a field

    [field p w ok]: [w] only appends, [p] reads back what [w] wrote of any
    value that is [ok], and everything [p] accepts is [ok] and is spelled the
    way [w] spells it. *)

Definition field {A} (p : reader A) (w : A → byte_writer → byte_writer) (ok : A → Prop) : Prop :=
  (∀ a, appends (w a)) ∧ (∀ a, ok a → reads p (output (w a)) a) ∧
  parses p (λ e a, ok a ∧ e = output (w a)).

Lemma field_integer n :
  field (read_integer n) (write_integer n) (fits (8 * Z.of_nat n)).
Proof.
  split_and!; [auto with wire| |].
  - intros v Hv. rewrite output_integer. by apply reads_integer.
  - eapply parses_impl; [apply parses_integer|]. intros e v [-> Hv].
    by rewrite output_integer.
Qed.

Lemma field_fixed n : 0 <= n →
  field (read_fixed_bytes n) write_fixed_bytes (λ v, size_of v = n).
Proof.
  intros Hn. split_and!; [auto with wire| |].
  - intros v Hv. rewrite output_fixed. by apply reads_fixed.
  - eapply parses_impl; [by apply parses_fixed|]. intros e v [-> Hv].
    by rewrite output_fixed.
Qed.

Lemma field_blob m : field (read_length_prefixed m) write_length_prefixed (blob_ok m).
Proof.
  split_and!; [auto with wire| |].
  - intros v [Hm Hf]. rewrite output_length_prefixed, wrap_id by done.
    by apply reads_length_prefixed.
  - eapply parses_impl; [apply parses_length_prefixed|]. intros e v (-> & Hf & Hm).
    by rewrite output_length_prefixed, wrap_id.
Qed.

Lemma field_text m : field (read_text_field m) write_text_field (text_ok m).
Proof.
  destruct (field_blob m) as (Ha & Hr & Hp). split_and!; [done| |].
  - intros v [Hb Hv]. eapply reads_bind_ret; [by apply Hr|]. by rewrite Hv.
  - eapply parses_bind; [apply Hp|]. intros e v [Hb ->].
    destruct (validate_text_field v) eqn:Hv; [|apply parses_fail].
    apply parses_ret. rewrite app_nil_r. by split.
Qed.

Lemma field_nested {A} `{WireLaws A} : field (A := A) read_from write_to well_formed.
Proof.
  split_and!; [auto with wire|apply read_from_encoding|apply read_from_canonical].
Qed.

Lemma field_list_of {A} (p : reader A) w ok m : field p w ok →
  field (read_record_list p m) (write_record_list w)
    (λ items, Forall ok items ∧ size_of items <= m ∧ fits 16 (size_of items)).
Proof.
  intros (Ha & Hr & Hp). split_and!.
  - intros items. by apply record_list_appends.
  - intros items (Hok & Hm & Hf). by eapply record_list_reads.
  - by apply record_list_parses.
Qed.

Lemma field_list {A} `{WireLaws A} m :
  field (read_record_list (read_from (A := A)) m) (write_record_list write_to) (list_ok m).
Proof. apply field_list_of, field_nested. Qed.

Lemma field_ids m :
  field (read_record_list (read_integer 8) m) (write_record_list (write_integer 8)) (ids_ok m).
Proof. exact (field_list_of _ _ _ m (field_integer 8)). Qed.

Create HintDb fields.
#[export] Hint Resolve field_integer field_blob field_text field_ids : fields.
#[export] Hint Extern 1 (field read_from _ _) => apply field_nested : fields.
#[export] Hint Extern 1 (field (read_record_list read_from _) _ _) => apply field_list : fields.
#[export] Hint Extern 1 (field (read_fixed_bytes _) _ _) =>
  (apply field_fixed; vm_compute; discriminate) : fields.

Lemma field_appends {A} (p : reader A) w ok a : field p w ok → appends (w a).
Proof. intros H. apply H. Qed.

Lemma field_reads {A} (p : reader A) w ok a : field p w ok → ok a → reads p (output (w a)) a.
Proof. intros H. apply H. Qed.

Lemma field_parses {A} (p : reader A) w ok : field p w ok →
  parses p (λ e a, ok a ∧ e = output (w a)).
Proof. intros H. apply H. Qed.

Lemma appends_text e : appends (write_text_field e).
Proof. apply appends_length_prefixed. Qed.

Lemma appends_list {A} `{WireLaws A} (items : list A) :
  appends (write_record_list write_to items).
Proof. apply record_list_appends. auto with wire. Qed.

Lemma appends_ids ids : appends (write_record_list (write_integer 8) ids).
Proof. apply record_list_appends. auto with wire. Qed.

#[export] Hint Resolve appends_text appends_ids : wire.
#[export] Hint Extern 0 (appends (write_to _)) => apply write_to_appends : wire.
#[export] Hint Extern 0 (appends (write_record_list write_to _)) => apply appends_list : wire.

Ltac wire_appends :=
  repeat match goal with |- appends (wseq _ _) => apply appends_seq end;
  solve [eauto with wire].

Lemma bounded_text m : bounded (read_text_field m).
Proof. apply bounded_bind; auto with bounded. Qed.
#[export] Hint Resolve bounded_text : bounded.

Ltac wire_bounded :=
  repeat (apply bounded_bind; [solve [eauto with bounded]|intros ?]);
  solve [eauto with bounded].

Ltac wire_reads :=
  repeat first
    [ eapply reads_bind_ret; [eapply field_reads; [solve [eauto with fields]|assumption]
                             |reflexivity]
    | eapply reads_bind; [eapply field_reads; [solve [eauto with fields]|assumption]|] ].

Ltac wire_parses :=
  repeat (eapply parses_bind;
          [eapply field_parses; solve [eauto with fields]|intros ? ? [? ->]]);
  apply parses_ret.

(** The laws of a structure whose reads mirror its writes. *)
Ltac wire_laws :=
  apply wire_laws_intro;
  [ intros m; match goal with |- appends (?f _) => unfold f end; wire_appends
  | intros m Hm; match type of Hm with ?ok _ => unfold ok in Hm end;
    destruct m; simpl in Hm; destruct_and? Hm;
    match goal with |- reads ?p (output (?f _)) _ => unfold p, f end; simpl;
    rewrite ?output_seq by wire_appends; wire_reads
  | match goal with |- parses ?p _ => unfold p end; wire_parses; split;
    [ match goal with |- ?ok _ => unfold ok end; simpl; repeat first [assumption|split]
    | match goal with |- _ = output (?f _) => unfold f end;
      rewrite ?output_seq by wire_appends; rewrite ?app_nil_r; reflexivity ]
  | match goal with |- bounded ?p => unfold p end; wire_bounded ].
