(* ===== verification/SessionMessages.v ===== *)
(** Session and account messages (common/protocol): hello, authentication,
    ping, message of the day, status, registration, prekeys. *)

From S2P Require Import Prelude.
From S2P Require Import Wire.
From S2P Require Import TextField.
From S2P Require Import Framing.
From S2P Require Import Codec.

(** ** The error code of a [status_error] *)

Definition error_code_cast (raw : Z) : option error_code.t :=
  find (λ c, error_code.value c =? raw) error_code.all.

Definition read_error_code : reader error_code.t :=
  let? raw := read_integer 2 in
  if error_code.value error_code.not_implemented <? raw then rfail
  else sret (error_code_cast raw).

Definition write_error_code (code : error_code.t) : byte_writer → byte_writer :=
  write_integer 2 (error_code.value code).

(** Every code survives the trip but that of a banned account, which is
    numbered above the last code the reader lets through. *)
Definition decodable_error (code : error_code.t) : Prop := code ≠ error_code.account_banned.

Lemma decodable_below_limit code :
  decodable_error code ↔ error_code.value code <= error_code.value error_code.not_implemented.
Proof. by destruct code; vm_compute; split. Qed.

Lemma error_code_cast_value c : error_code_cast (error_code.value c) = Some c.
Proof. by destruct c. Qed.

Lemma error_code_cast_Some raw c : error_code_cast raw = Some c → error_code.value c = raw.
Proof. unfold error_code_cast. intros [_ H]%find_some. by apply Z.eqb_eq. Qed.

Lemma error_code_u16 c : u16 (error_code.value c).
Proof. destruct c; vm_compute; split; congruence. Qed.

Lemma field_error_code : field read_error_code write_error_code decodable_error.
Proof.
  destruct (field_integer 2) as (Ha & Hr & Hp). split_and!.
  - intros c. apply Ha.
  - intros c Hc. eapply reads_bind_ret; [apply Hr, error_code_u16|].
    apply decodable_below_limit in Hc.
    destruct (Z.ltb_spec (error_code.value error_code.not_implemented) (error_code.value c)); [lia|].
    by rewrite error_code_cast_value.
  - eapply parses_bind; [apply Hp|]. intros e raw [Hraw ->].
    destruct (Z.ltb_spec (error_code.value error_code.not_implemented) raw); [apply parses_fail|].
    destruct (error_code_cast raw) as [c|] eqn:Ec; [|apply parses_fail].
    apply error_code_cast_Some in Ec as <-. apply parses_ret. rewrite app_nil_r.
      split; [by apply decodable_below_limit|done].
Qed.
#[export] Hint Resolve field_error_code : fields.

Lemma appends_error_code c : appends (write_error_code c).
Proof. apply appends_integer. Qed.
#[export] Hint Resolve appends_error_code : wire.

Lemma bounded_error_code : bounded read_error_code.
Proof. apply bounded_bind; auto with bounded. Qed.
#[export] Hint Resolve bounded_error_code : bounded.

(** ** The structures *)

Module hello_request.
Record t := mk {
  protocol_version : Z;
  client_pubkey : bytes;
}.

Definition write_to (m : t) : byte_writer → byte_writer :=
  write_integer 2 m.(protocol_version) ▷
  write_fixed_bytes m.(client_pubkey).

Definition read_from : reader t :=
  let? protocol_version := read_integer 2 in
  let? client_pubkey := read_fixed_bytes PUBLIC_KEY_SIZE in
  rret (mk protocol_version client_pubkey).

Definition well_formed (m : t) : Prop :=
  u16 m.(protocol_version) ∧
  size_of m.(client_pubkey) = PUBLIC_KEY_SIZE.

#[export] Instance format : WireFormat t :=
  {| Wire.write_to := write_to; Wire.read_from := read_from;
     Wire.well_formed := well_formed |}.

#[export] Instance laws : WireLaws t.
Proof. wire_laws. Qed.
End hello_request.
Export (hints) hello_request.

Module auth_challenge.
Record t := mk {
  protocol_version : Z;
  nonce : bytes;
  account_exists : Z;
  server_time : Z;
}.

Definition write_to (m : t) : byte_writer → byte_writer :=
  write_integer 2 m.(protocol_version) ▷
  write_fixed_bytes m.(nonce) ▷
  write_integer 1 m.(account_exists) ▷
  write_integer 8 m.(server_time).

Definition read_from : reader t :=
  let? protocol_version := read_integer 2 in
  let? nonce := read_fixed_bytes AUTH_NONCE_SIZE in
  let? account_exists := read_integer 1 in
  let? server_time := read_integer 8 in
  rret (mk protocol_version nonce account_exists server_time).

Definition well_formed (m : t) : Prop :=
  u16 m.(protocol_version) ∧
  size_of m.(nonce) = AUTH_NONCE_SIZE ∧
  u8 m.(account_exists) ∧
  u64 m.(server_time).

#[export] Instance format : WireFormat t :=
  {| Wire.write_to := write_to; Wire.read_from := read_from;
     Wire.well_formed := well_formed |}.

#[export] Instance laws : WireLaws t.
Proof. wire_laws. Qed.
End auth_challenge.
Export (hints) auth_challenge.

Module auth_response.
Record t := mk {
  signature : bytes;
}.

Definition write_to (m : t) : byte_writer → byte_writer :=
  write_fixed_bytes m.(signature).

Definition read_from : reader t :=
  let? signature := read_fixed_bytes SIGNATURE_SIZE in
  rret (mk signature).

Definition well_formed (m : t) : Prop :=
  size_of m.(signature) = SIGNATURE_SIZE.

#[export] Instance format : WireFormat t :=
  {| Wire.write_to := write_to; Wire.read_from := read_from;
     Wire.well_formed := well_formed |}.

#[export] Instance laws : WireLaws t.
Proof. wire_laws. Qed.
End auth_response.
Export (hints) auth_response.

Module auth_accepted.
Record t := mk {
  user_id : Z;
  handle : bytes;
  server_time : Z;
}.

Definition write_to (m : t) : byte_writer → byte_writer :=
  write_integer 8 m.(user_id) ▷
  write_text_field m.(handle) ▷
  write_integer 8 m.(server_time).

Definition read_from : reader t :=
  let? user_id := read_integer 8 in
  let? handle := read_text_field MAX_HANDLE_LENGTH in
  let? server_time := read_integer 8 in
  rret (mk user_id handle server_time).

Definition well_formed (m : t) : Prop :=
  u64 m.(user_id) ∧
  text_ok MAX_HANDLE_LENGTH m.(handle) ∧
  u64 m.(server_time).

#[export] Instance format : WireFormat t :=
  {| Wire.write_to := write_to; Wire.read_from := read_from;
     Wire.well_formed := well_formed |}.

#[export] Instance laws : WireLaws t.
Proof. wire_laws. Qed.
End auth_accepted.
Export (hints) auth_accepted.

Module ping_request.
Record t := mk {
  token : Z;
}.

Definition write_to (m : t) : byte_writer → byte_writer :=
  write_integer 8 m.(token).

Definition read_from : reader t :=
  let? token := read_integer 8 in
  rret (mk token).

Definition well_formed (m : t) : Prop :=
  u64 m.(token).

#[export] Instance format : WireFormat t :=
  {| Wire.write_to := write_to; Wire.read_from := read_from;
     Wire.well_formed := well_formed |}.

#[export] Instance laws : WireLaws t.
Proof. wire_laws. Qed.
End ping_request.
Export (hints) ping_request.

Module ping_response.
Record t := mk {
  token : Z;
  server_time : Z;
}.

Definition write_to (m : t) : byte_writer → byte_writer :=
  write_integer 8 m.(token) ▷
  write_integer 8 m.(server_time).

Definition read_from : reader t :=
  let? token := read_integer 8 in
  let? server_time := read_integer 8 in
  rret (mk token server_time).

Definition well_formed (m : t) : Prop :=
  u64 m.(token) ∧
  u64 m.(server_time).

#[export] Instance format : WireFormat t :=
  {| Wire.write_to := write_to; Wire.read_from := read_from;
     Wire.well_formed := well_formed |}.

#[export] Instance laws : WireLaws t.
Proof. wire_laws. Qed.
End ping_response.
Export (hints) ping_response.

Module motd_push.
Record t := mk {
  revision : Z;
  body : bytes;
}.

Definition write_to (m : t) : byte_writer → byte_writer :=
  write_integer 8 m.(revision) ▷
  write_text_field m.(body).

Definition read_from : reader t :=
  let? revision := read_integer 8 in
  let? body := read_text_field MAX_MOTD_LENGTH in
  rret (mk revision body).

Definition well_formed (m : t) : Prop :=
  u64 m.(revision) ∧
  text_ok MAX_MOTD_LENGTH m.(body).

#[export] Instance format : WireFormat t :=
  {| Wire.write_to := write_to; Wire.read_from := read_from;
     Wire.well_formed := well_formed |}.

#[export] Instance laws : WireLaws t.
Proof. wire_laws. Qed.
End motd_push.
Export (hints) motd_push.

Module status_ok_response.
Record t := mk {
  reference_id : Z;
}.

Definition write_to (m : t) : byte_writer → byte_writer :=
  write_integer 8 m.(reference_id).

Definition read_from : reader t :=
  let? reference_id := read_integer 8 in
  rret (mk reference_id).

Definition well_formed (m : t) : Prop :=
  u64 m.(reference_id).

#[export] Instance format : WireFormat t :=
  {| Wire.write_to := write_to; Wire.read_from := read_from;
     Wire.well_formed := well_formed |}.

#[export] Instance laws : WireLaws t.
Proof. wire_laws. Qed.
End status_ok_response.
Export (hints) status_ok_response.

Module status_error_response.
Record t := mk {
  code : error_code.t;
  detail : bytes;
}.

Definition write_to (m : t) : byte_writer → byte_writer :=
  write_error_code m.(code) ▷
  write_text_field m.(detail).

Definition read_from : reader t :=
  let? code := read_error_code in
  let? detail := read_text_field MAX_ERROR_MESSAGE_LENGTH in
  rret (mk code detail).

Definition well_formed (m : t) : Prop :=
  decodable_error m.(code) ∧
  text_ok MAX_ERROR_MESSAGE_LENGTH m.(detail).

#[export] Instance format : WireFormat t :=
  {| Wire.write_to := write_to; Wire.read_from := read_from;
     Wire.well_formed := well_formed |}.

#[export] Instance laws : WireLaws t.
Proof. wire_laws. Qed.
End status_error_response.
Export (hints) status_error_response.

Module register_request.
Record t := mk {
  handle : bytes;
}.

Definition write_to (m : t) : byte_writer → byte_writer :=
  write_text_field m.(handle).

Definition read_from : reader t :=
  let? handle := read_text_field MAX_HANDLE_LENGTH in
  rret (mk handle).

Definition well_formed (m : t) : Prop :=
  text_ok MAX_HANDLE_LENGTH m.(handle).

#[export] Instance format : WireFormat t :=
  {| Wire.write_to := write_to; Wire.read_from := read_from;
     Wire.well_formed := well_formed |}.

#[export] Instance laws : WireLaws t.
Proof. wire_laws. Qed.
End register_request.
Export (hints) register_request.

Module prekey_publish_request.
Record t := mk {
  prekey : bytes;
  signature : bytes;
}.

Definition write_to (m : t) : byte_writer → byte_writer :=
  write_fixed_bytes m.(prekey) ▷
  write_fixed_bytes m.(signature).

Definition read_from : reader t :=
  let? prekey := read_fixed_bytes PUBLIC_KEY_SIZE in
  let? signature := read_fixed_bytes SIGNATURE_SIZE in
  rret (mk prekey signature).

Definition well_formed (m : t) : Prop :=
  size_of m.(prekey) = PUBLIC_KEY_SIZE ∧
  size_of m.(signature) = SIGNATURE_SIZE.

#[export] Instance format : WireFormat t :=
  {| Wire.write_to := write_to; Wire.read_from := read_from;
     Wire.well_formed := well_formed |}.

#[export] Instance laws : WireLaws t.
Proof. wire_laws. Qed.
End prekey_publish_request.
Export (hints) prekey_publish_request.

Module prekey_fetch_request.
Record t := mk {
  target_pubkey : bytes;
}.

Definition write_to (m : t) : byte_writer → byte_writer :=
  write_fixed_bytes m.(target_pubkey).

Definition read_from : reader t :=
  let? target_pubkey := read_fixed_bytes PUBLIC_KEY_SIZE in
  rret (mk target_pubkey).

Definition well_formed (m : t) : Prop :=
  size_of m.(target_pubkey) = PUBLIC_KEY_SIZE.

#[export] Instance format : WireFormat t :=
  {| Wire.write_to := write_to; Wire.read_from := read_from;
     Wire.well_formed := well_formed |}.

#[export] Instance laws : WireLaws t.
Proof. wire_laws. Qed.
End prekey_fetch_request.
Export (hints) prekey_fetch_request.

Module prekey_bundle_response.
Record t := mk {
  owner_pubkey : bytes;
  prekey : bytes;
  signature : bytes;
  created_at : Z;
}.

Definition write_to (m : t) : byte_writer → byte_writer :=
  write_fixed_bytes m.(owner_pubkey) ▷
  write_fixed_bytes m.(prekey) ▷
  write_fixed_bytes m.(signature) ▷
  write_integer 8 m.(created_at).

Definition read_from : reader t :=
  let? owner_pubkey := read_fixed_bytes PUBLIC_KEY_SIZE in
  let? prekey := read_fixed_bytes PUBLIC_KEY_SIZE in
  let? signature := read_fixed_bytes SIGNATURE_SIZE in
  let? created_at := read_integer 8 in
  rret (mk owner_pubkey prekey signature created_at).

Definition well_formed (m : t) : Prop :=
  size_of m.(owner_pubkey) = PUBLIC_KEY_SIZE ∧
  size_of m.(prekey) = PUBLIC_KEY_SIZE ∧
  size_of m.(signature) = SIGNATURE_SIZE ∧
  u64 m.(created_at).

#[export] Instance format : WireFormat t :=
  {| Wire.write_to := write_to; Wire.read_from := read_from;
     Wire.well_formed := well_formed |}.

#[export] Instance laws : WireLaws t.
Proof. wire_laws. Qed.
End prekey_bundle_response.
Export (hints) prekey_bundle_response.


(** ** What gets signed (auth_message.cpp, prekey_publish_message.cpp) *)

Definition AUTH_SIGNATURE_DOMAIN : bytes := lit "hypercom-auth-v1".
Definition PREKEY_SIGNATURE_DOMAIN : bytes := lit "hypercom-prekey-v1".

(** [out] is cleared before anything is written. *)
Definition build_auth_signing_input (nonce client_pubkey : bytes) : bytes :=
  target_ ((write_fixed_bytes AUTH_SIGNATURE_DOMAIN ▷
            write_fixed_bytes nonce ▷
            write_fixed_bytes client_pubkey) (new_writer [])).

Definition build_prekey_signing_input (identity_pubkey prekey : bytes) : bytes :=
  target_ ((write_fixed_bytes PREKEY_SIGNATURE_DOMAIN ▷
            write_fixed_bytes identity_pubkey ▷
            write_fixed_bytes prekey) (new_writer [])).

(** ** Handles (register_message.cpp) *)

Definition MIN_HANDLE_LENGTH : Z := 3.

Definition is_handle_character (character : byte) : bool :=
  if in_range (chr "a") (chr "z") character || in_range (chr "A") (chr "Z") character then true
  else if in_range (chr "0") (chr "9") character then true
  else (byte_val character =? chr "-") || (byte_val character =? chr "_").

Definition validate_handle (handle : bytes) : bool :=
  if (size_of handle <? MIN_HANDLE_LENGTH) || (MAX_HANDLE_LENGTH <? size_of handle) then false
  else match handle with
       | [] => false
       | front :: _ =>
           if in_range (chr "0") (chr "9") front then false
           else forallb is_handle_character handle
       end.

Lemma auth_signing_input_bytes nonce key :
  build_auth_signing_input nonce key = AUTH_SIGNATURE_DOMAIN ++ nonce ++ key.
Proof. change (build_auth_signing_input nonce key) with (output (write_fixed_bytes AUTH_SIGNATURE_DOMAIN ▷ write_fixed_bytes nonce ▷ write_fixed_bytes key)).
  by rewrite !output_seq, !output_fixed by auto with wire. Qed.

Lemma prekey_signing_input_bytes key prekey :
  build_prekey_signing_input key prekey = PREKEY_SIGNATURE_DOMAIN ++ key ++ prekey.
Proof. change (build_prekey_signing_input key prekey) with (output (write_fixed_bytes PREKEY_SIGNATURE_DOMAIN ▷ write_fixed_bytes key ▷ write_fixed_bytes prekey)).
  by rewrite !output_seq, !output_fixed by auto with wire. Qed.

(** A signature made for one purpose never serves another: an
    authentication input is never a prekey input, and each input determines
    the nonce and the keys it was built from. *)
Theorem signing_inputs_separate (nonce key nonce' key' identity prekey identity' prekey' : bytes)
    (Hnonce : size_of nonce = size_of nonce') (Hidentity : size_of identity = size_of identity') :
  build_auth_signing_input nonce key ≠ build_prekey_signing_input identity prekey ∧
  (build_auth_signing_input nonce key = build_auth_signing_input nonce' key' →
     nonce = nonce' ∧ key = key') ∧
  (build_prekey_signing_input identity prekey = build_prekey_signing_input identity' prekey' →
     identity = identity' ∧ prekey = prekey').
Proof.
  rewrite !auth_signing_input_bytes, !prekey_signing_input_bytes.
  unfold size_of in *. split_and!.
  - intros E. apply (f_equal (λ l, nth_error l 9)) in E. vm_compute in E. congruence.
  - intros E. apply app_inv_head in E. apply app_split_lengths; [done|lia].
  - intros E. apply app_inv_head in E. apply app_split_lengths; [done|lia].
Qed.

Lemma signing_inputs_separate_witness :
  build_auth_signing_input (lit "nonce") (lit "key") ≠
    build_prekey_signing_input (lit "me") (lit "pre").
Proof.
  apply (signing_inputs_separate (lit "nonce") (lit "key") (lit "nonce") (lit "key")
           (lit "me") (lit "pre") (lit "me") (lit "pre")); reflexivity.
Defined.

Lemma is_handle_character_ascii c :
  is_handle_character c = true → 0x20 <= byte_val c < 0x7F.
Proof. destruct c; vm_compute; intuition congruence. Qed.

(** An accepted handle has 3 to 32 characters, all letters, digits,
    hyphens or underscores, does not start with a digit, and is a text field
    that any message carrying a handle can carry. *)
Theorem validate_handle_sound (handle : bytes) (H : validate_handle handle = true) :
  3 <= size_of handle <= 32 ∧
  Forall (λ c, (97 <= byte_val c <= 122 ∨ 65 <= byte_val c <= 90 ∨ 48 <= byte_val c <= 57
                ∨ byte_val c = 45 ∨ byte_val c = 95)) handle ∧
  (∀ c, head handle = Some c → ¬ (48 <= byte_val c <= 57)) ∧
  text_ok MAX_HANDLE_LENGTH handle.
Proof.
  unfold validate_handle in H.
  destruct ((size_of handle <? _) || _) eqn:Es; [done|].
  apply orb_false_iff in Es as [H1%Z.ltb_ge H2%Z.ltb_ge].
  destruct handle as [|c0 handle]; [done|].
  destruct (in_range (chr "0") (chr "9") c0) eqn:Ec; [done|].
  assert (Forall (λ c, is_handle_character c = true) (c0 :: handle)) as Hall.
  { apply Forall_forall. intros c Hc. eapply forallb_forall in H; [exact H|by apply list_elem_of_In]. }
  split_and!; [exact H1|exact H2| | |].
  - eapply Forall_impl; [exact Hall|]. intros c. destruct c; vm_compute; intuition congruence.
  - intros c [= <-]. revert Ec. destruct c0; vm_compute; intuition congruence.
  - split; [split; [exact H2|]|].
    { unfold fits. unfold MAX_HANDLE_LENGTH in H2. pose proof (size_of_nonneg (c0 :: handle)). lia. }
    apply printable_ascii_text. eapply Forall_impl; [exact Hall|].
    apply is_handle_character_ascii.
Qed.

Lemma validate_handle_sound_witness :
  3 <= size_of (lit "Alice_7") <= 32 ∧ text_ok MAX_HANDLE_LENGTH (lit "Alice_7").
Proof.
  split; [apply (validate_handle_sound (lit "Alice_7")); reflexivity|].
  apply (validate_handle_sound (lit "Alice_7")). reflexivity.
Defined.

(** A client never gets to know that its account is banned: the
    serialization of a [status_error_response] with [account_banned], whatever
    its detail and whatever follows it, is rejected by [read_from]. *)
Theorem account_banned_is_undecodable (detail t : bytes) :
  (status_error_response.read_from
     (new_reader (encoding (status_error_response.mk error_code.account_banned detail) ++ t))).1
    = None.
Proof.
  change (encoding (status_error_response.mk error_code.account_banned detail))
    with (output (write_error_code error_code.account_banned ▷ write_text_field detail)).
  rewrite output_seq by wire_appends. unfold write_error_code at 1.
  rewrite output_integer, <-app_assoc.
  unfold status_error_response.read_from, read_error_code.
  unfold rbind at 1. unfold rbind at 1.
  rewrite (reads_integer 2 (error_code.value error_code.account_banned)
             (error_code_u16 _) (new_reader _) _ (new_reader_ok _) eq_refl).
  done.
Qed.

(** ** Every structure of this file is read back as it was written *)

(** For every session and account message, reading the
    serialization of a well-formed message, whatever follows it, yields the
    message and stops right behind it; and a reader that accepts some bytes
    consumed exactly the serialization of the well-formed message it
    returned; on any input the reader stays within its buffer. *)
Theorem session_messages_faithful :
  wire_faithful hello_request.t ∧
  wire_faithful auth_challenge.t ∧
  wire_faithful auth_response.t ∧
  wire_faithful auth_accepted.t ∧
  wire_faithful ping_request.t ∧
  wire_faithful ping_response.t ∧
  wire_faithful motd_push.t ∧
  wire_faithful status_ok_response.t ∧
  wire_faithful status_error_response.t ∧
  wire_faithful register_request.t ∧
  wire_faithful prekey_publish_request.t ∧
  wire_faithful prekey_fetch_request.t ∧
  wire_faithful prekey_bundle_response.t.
Proof. split_and!; auto with wire typeclass_instances. Qed.
