(* ===== verification/ContentMessages.v ===== *)
(** Forums, posts, comments and their listings on the wire
    (common/protocol), and the rule for forum names. *)

From S2P Require Import Prelude.
From S2P Require Import Wire.
From S2P Require Import TextField.
From S2P Require Import Framing.
From S2P Require Import Codec.

(** ** Forum names (forum_create_message.cpp) *)

Definition MIN_FORUM_NAME_LENGTH : Z := 2.

Definition is_forum_name_character (character : byte) : bool :=
  if in_range (chr "a") (chr "z") character then true
  else if in_range (chr "0") (chr "9") character then true
  else (byte_val character =? chr "-") || (byte_val character =? chr "_").

Definition validate_forum_name (name : bytes) : bool :=
  if (size_of name <? MIN_FORUM_NAME_LENGTH) || (MAX_FORUM_NAME_LENGTH <? size_of name)
  then false
  else forallb is_forum_name_character name.

(** ** The structures *)

Module forum_record.
Record t := mk {
  id : Z;
  name : bytes;
  description : bytes;
  founder_pubkey : bytes;
  founder_handle : bytes;
  theme_json : bytes;
  created_at : Z;
  post_count : Z;
}.

Definition write_to (m : t) : byte_writer → byte_writer :=
  write_integer 8 m.(id) ▷
  write_text_field m.(name) ▷
  write_text_field m.(description) ▷
  write_fixed_bytes m.(founder_pubkey) ▷
  write_text_field m.(founder_handle) ▷
  write_text_field m.(theme_json) ▷
  write_integer 8 m.(created_at) ▷
  write_integer 4 m.(post_count).

Definition read_from : reader t :=
  let? id := read_integer 8 in
  let? name := read_text_field MAX_FORUM_NAME_LENGTH in
  let? description := read_text_field MAX_FORUM_DESCRIPTION_LENGTH in
  let? founder_pubkey := read_fixed_bytes PUBLIC_KEY_SIZE in
  let? founder_handle := read_text_field MAX_HANDLE_LENGTH in
  let? theme_json := read_text_field MAX_THEME_JSON_LENGTH in
  let? created_at := read_integer 8 in
  let? post_count := read_integer 4 in
  rret (mk id name description founder_pubkey founder_handle theme_json created_at post_count).

Definition well_formed (m : t) : Prop :=
  u64 m.(id) ∧
  text_ok MAX_FORUM_NAME_LENGTH m.(name) ∧
  text_ok MAX_FORUM_DESCRIPTION_LENGTH m.(description) ∧
  size_of m.(founder_pubkey) = PUBLIC_KEY_SIZE ∧
  text_ok MAX_HANDLE_LENGTH m.(founder_handle) ∧
  text_ok MAX_THEME_JSON_LENGTH m.(theme_json) ∧
  u64 m.(created_at) ∧
  u32 m.(post_count).

#[export] Instance format : WireFormat t :=
  {| Wire.write_to := write_to; Wire.read_from := read_from;
     Wire.well_formed := well_formed |}.

#[export] Instance laws : WireLaws t.
Proof. wire_laws. Qed.
End forum_record.
Export (hints) forum_record.

Module forum_create_request.
Record t := mk {
  name : bytes;
  description : bytes;
  theme_json : bytes;
}.

Definition write_to (m : t) : byte_writer → byte_writer :=
  write_text_field m.(name) ▷
  write_text_field m.(description) ▷
  write_text_field m.(theme_json).

Definition read_from : reader t :=
  let? name := read_text_field MAX_FORUM_NAME_LENGTH in
  let? description := read_text_field MAX_FORUM_DESCRIPTION_LENGTH in
  let? theme_json := read_text_field MAX_THEME_JSON_LENGTH in
  rret (mk name description theme_json).

Definition well_formed (m : t) : Prop :=
  text_ok MAX_FORUM_NAME_LENGTH m.(name) ∧
  text_ok MAX_FORUM_DESCRIPTION_LENGTH m.(description) ∧
  text_ok MAX_THEME_JSON_LENGTH m.(theme_json).

#[export] Instance format : WireFormat t :=
  {| Wire.write_to := write_to; Wire.read_from := read_from;
     Wire.well_formed := well_formed |}.

#[export] Instance laws : WireLaws t.
Proof. wire_laws. Qed.
End forum_create_request.
Export (hints) forum_create_request.

Module forum_info_response.
Record t := mk {
  forum : forum_record.t;
}.

Definition write_to (m : t) : byte_writer → byte_writer :=
  Wire.write_to m.(forum).

Definition read_from : reader t :=
  let? forum := Wire.read_from (A := forum_record.t) in
  rret (mk forum).

Definition well_formed (m : t) : Prop :=
  Wire.well_formed m.(forum).

#[export] Instance format : WireFormat t :=
  {| Wire.write_to := write_to; Wire.read_from := read_from;
     Wire.well_formed := well_formed |}.

#[export] Instance laws : WireLaws t.
Proof. wire_laws. Qed.
End forum_info_response.
Export (hints) forum_info_response.

Module forum_list_request.
Record t := mk {
  offset : Z;
  limit : Z;
}.

Definition write_to (m : t) : byte_writer → byte_writer :=
  write_integer 4 m.(offset) ▷
  write_integer 2 m.(limit).

Definition read_from : reader t :=
  let? offset := read_integer 4 in
  let? limit := read_integer 2 in
  rret (mk offset limit).

Definition well_formed (m : t) : Prop :=
  u32 m.(offset) ∧
  u16 m.(limit).

#[export] Instance format : WireFormat t :=
  {| Wire.write_to := write_to; Wire.read_from := read_from;
     Wire.well_formed := well_formed |}.

#[export] Instance laws : WireLaws t.
Proof. wire_laws. Qed.
End forum_list_request.
Export (hints) forum_list_request.

Module forum_list_response.
Record t := mk {
  forums : list forum_record.t;
  total_count : Z;
}.

Definition write_to (m : t) : byte_writer → byte_writer :=
  write_record_list Wire.write_to m.(forums) ▷
  write_integer 4 m.(total_count).

Definition read_from : reader t :=
  let? forums := read_record_list (Wire.read_from (A := forum_record.t)) MAX_LIST_ITEMS in
  let? total_count := read_integer 4 in
  rret (mk forums total_count).

Definition well_formed (m : t) : Prop :=
  list_ok MAX_LIST_ITEMS m.(forums) ∧
  u32 m.(total_count).

#[export] Instance format : WireFormat t :=
  {| Wire.write_to := write_to; Wire.read_from := read_from;
     Wire.well_formed := well_formed |}.

#[export] Instance laws : WireLaws t.
Proof. wire_laws. Qed.
End forum_list_response.
Export (hints) forum_list_response.

Module post_record.
Record t := mk {
  id : Z;
  forum_id : Z;
  author_pubkey : bytes;
  author_handle : bytes;
  title : bytes;
  body : bytes;
  created_at : Z;
  comment_count : Z;
}.

Definition write_to (m : t) : byte_writer → byte_writer :=
  write_integer 8 m.(id) ▷
  write_integer 8 m.(forum_id) ▷
  write_fixed_bytes m.(author_pubkey) ▷
  write_text_field m.(author_handle) ▷
  write_text_field m.(title) ▷
  write_text_field m.(body) ▷
  write_integer 8 m.(created_at) ▷
  write_integer 4 m.(comment_count).

Definition read_from : reader t :=
  let? id := read_integer 8 in
  let? forum_id := read_integer 8 in
  let? author_pubkey := read_fixed_bytes PUBLIC_KEY_SIZE in
  let? author_handle := read_text_field MAX_HANDLE_LENGTH in
  let? title := read_text_field MAX_POST_TITLE_LENGTH in
  let? body := read_text_field MAX_POST_BODY_LENGTH in
  let? created_at := read_integer 8 in
  let? comment_count := read_integer 4 in
  rret (mk id forum_id author_pubkey author_handle title body created_at comment_count).

Definition well_formed (m : t) : Prop :=
  u64 m.(id) ∧
  u64 m.(forum_id) ∧
  size_of m.(author_pubkey) = PUBLIC_KEY_SIZE ∧
  text_ok MAX_HANDLE_LENGTH m.(author_handle) ∧
  text_ok MAX_POST_TITLE_LENGTH m.(title) ∧
  text_ok MAX_POST_BODY_LENGTH m.(body) ∧
  u64 m.(created_at) ∧
  u32 m.(comment_count).

#[export] Instance format : WireFormat t :=
  {| Wire.write_to := write_to; Wire.read_from := read_from;
     Wire.well_formed := well_formed |}.

#[export] Instance laws : WireLaws t.
Proof. wire_laws. Qed.
End post_record.
Export (hints) post_record.

Module comment_record.
Record t := mk {
  id : Z;
  post_id : Z;
  parent_comment_id : Z;
  author_pubkey : bytes;
  author_handle : bytes;
  body : bytes;
  created_at : Z;
  depth : Z;
}.

Definition write_to (m : t) : byte_writer → byte_writer :=
  write_integer 8 m.(id) ▷
  write_integer 8 m.(post_id) ▷
  write_integer 8 m.(parent_comment_id) ▷
  write_fixed_bytes m.(author_pubkey) ▷
  write_text_field m.(author_handle) ▷
  write_text_field m.(body) ▷
  write_integer 8 m.(created_at) ▷
  write_integer 2 m.(depth).

Definition read_from : reader t :=
  let? id := read_integer 8 in
  let? post_id := read_integer 8 in
  let? parent_comment_id := read_integer 8 in
  let? author_pubkey := read_fixed_bytes PUBLIC_KEY_SIZE in
  let? author_handle := read_text_field MAX_HANDLE_LENGTH in
  let? body := read_text_field MAX_COMMENT_BODY_LENGTH in
  let? created_at := read_integer 8 in
  let? depth := read_integer 2 in
  rret (mk id post_id parent_comment_id author_pubkey author_handle body created_at depth).

Definition well_formed (m : t) : Prop :=
  u64 m.(id) ∧
  u64 m.(post_id) ∧
  u64 m.(parent_comment_id) ∧
  size_of m.(author_pubkey) = PUBLIC_KEY_SIZE ∧
  text_ok MAX_HANDLE_LENGTH m.(author_handle) ∧
  text_ok MAX_COMMENT_BODY_LENGTH m.(body) ∧
  u64 m.(created_at) ∧
  u16 m.(depth).

#[export] Instance format : WireFormat t :=
  {| Wire.write_to := write_to; Wire.read_from := read_from;
     Wire.well_formed := well_formed |}.

#[export] Instance laws : WireLaws t.
Proof. wire_laws. Qed.
End comment_record.
Export (hints) comment_record.

Module post_create_request.
Record t := mk {
  forum_id : Z;
  title : bytes;
  body : bytes;
}.

Definition write_to (m : t) : byte_writer → byte_writer :=
  write_integer 8 m.(forum_id) ▷
  write_text_field m.(title) ▷
  write_text_field m.(body).

Definition read_from : reader t :=
  let? forum_id := read_integer 8 in
  let? title := read_text_field MAX_POST_TITLE_LENGTH in
  let? body := read_text_field MAX_POST_BODY_LENGTH in
  rret (mk forum_id title body).

Definition well_formed (m : t) : Prop :=
  u64 m.(forum_id) ∧
  text_ok MAX_POST_TITLE_LENGTH m.(title) ∧
  text_ok MAX_POST_BODY_LENGTH m.(body).

#[export] Instance format : WireFormat t :=
  {| Wire.write_to := write_to; Wire.read_from := read_from;
     Wire.well_formed := well_formed |}.

#[export] Instance laws : WireLaws t.
Proof. wire_laws. Qed.
End post_create_request.
Export (hints) post_create_request.

Module post_info_response.
Record t := mk {
  post : post_record.t;
}.

Definition write_to (m : t) : byte_writer → byte_writer :=
  Wire.write_to m.(post).

Definition read_from : reader t :=
  let? post := Wire.read_from (A := post_record.t) in
  rret (mk post).

Definition well_formed (m : t) : Prop :=
  Wire.well_formed m.(post).

#[export] Instance format : WireFormat t :=
  {| Wire.write_to := write_to; Wire.read_from := read_from;
     Wire.well_formed := well_formed |}.

#[export] Instance laws : WireLaws t.
Proof. wire_laws. Qed.
End post_info_response.
Export (hints) post_info_response.

Module post_list_request.
Record t := mk {
  forum_id : Z;
  offset : Z;
  limit : Z;
}.

Definition write_to (m : t) : byte_writer → byte_writer :=
  write_integer 8 m.(forum_id) ▷
  write_integer 4 m.(offset) ▷
  write_integer 2 m.(limit).

Definition read_from : reader t :=
  let? forum_id := read_integer 8 in
  let? offset := read_integer 4 in
  let? limit := read_integer 2 in
  rret (mk forum_id offset limit).

Definition well_formed (m : t) : Prop :=
  u64 m.(forum_id) ∧
  u32 m.(offset) ∧
  u16 m.(limit).

#[export] Instance format : WireFormat t :=
  {| Wire.write_to := write_to; Wire.read_from := read_from;
     Wire.well_formed := well_formed |}.

#[export] Instance laws : WireLaws t.
Proof. wire_laws. Qed.
End post_list_request.
Export (hints) post_list_request.

Module post_list_response.
Record t := mk {
  posts : list post_record.t;
  total_count : Z;
}.

Definition write_to (m : t) : byte_writer → byte_writer :=
  write_record_list Wire.write_to m.(posts) ▷
  write_integer 4 m.(total_count).

Definition read_from : reader t :=
  let? posts := read_record_list (Wire.read_from (A := post_record.t)) MAX_LIST_ITEMS in
  let? total_count := read_integer 4 in
  rret (mk posts total_count).

Definition well_formed (m : t) : Prop :=
  list_ok MAX_LIST_ITEMS m.(posts) ∧
  u32 m.(total_count).

#[export] Instance format : WireFormat t :=
  {| Wire.write_to := write_to; Wire.read_from := read_from;
     Wire.well_formed := well_formed |}.

#[export] Instance laws : WireLaws t.
Proof. wire_laws. Qed.
End post_list_response.
Export (hints) post_list_response.

Module thread_fetch_request.
Record t := mk {
  post_id : Z;
}.

Definition write_to (m : t) : byte_writer → byte_writer :=
  write_integer 8 m.(post_id).

Definition read_from : reader t :=
  let? post_id := read_integer 8 in
  rret (mk post_id).

Definition well_formed (m : t) : Prop :=
  u64 m.(post_id).

#[export] Instance format : WireFormat t :=
  {| Wire.write_to := write_to; Wire.read_from := read_from;
     Wire.well_formed := well_formed |}.

#[export] Instance laws : WireLaws t.
Proof. wire_laws. Qed.
End thread_fetch_request.
Export (hints) thread_fetch_request.

Module thread_response.
Record t := mk {
  post : post_record.t;
  comments : list comment_record.t;
  truncated : Z;
}.

Definition write_to (m : t) : byte_writer → byte_writer :=
  Wire.write_to m.(post) ▷
  write_record_list Wire.write_to m.(comments) ▷
  write_integer 1 m.(truncated).

Definition read_from : reader t :=
  let? post := Wire.read_from (A := post_record.t) in
  let? comments := read_record_list (Wire.read_from (A := comment_record.t)) MAX_THREAD_COMMENTS in
  let? truncated := read_integer 1 in
  rret (mk post comments truncated).

Definition well_formed (m : t) : Prop :=
  Wire.well_formed m.(post) ∧
  list_ok MAX_THREAD_COMMENTS m.(comments) ∧
  u8 m.(truncated).

#[export] Instance format : WireFormat t :=
  {| Wire.write_to := write_to; Wire.read_from := read_from;
     Wire.well_formed := well_formed |}.

#[export] Instance laws : WireLaws t.
Proof. wire_laws. Qed.
End thread_response.
Export (hints) thread_response.

Module comment_create_request.
Record t := mk {
  post_id : Z;
  parent_comment_id : Z;
  body : bytes;
}.

Definition write_to (m : t) : byte_writer → byte_writer :=
  write_integer 8 m.(post_id) ▷
  write_integer 8 m.(parent_comment_id) ▷
  write_text_field m.(body).

Definition read_from : reader t :=
  let? post_id := read_integer 8 in
  let? parent_comment_id := read_integer 8 in
  let? body := read_text_field MAX_COMMENT_BODY_LENGTH in
  rret (mk post_id parent_comment_id body).

Definition well_formed (m : t) : Prop :=
  u64 m.(post_id) ∧
  u64 m.(parent_comment_id) ∧
  text_ok MAX_COMMENT_BODY_LENGTH m.(body).

#[export] Instance format : WireFormat t :=
  {| Wire.write_to := write_to; Wire.read_from := read_from;
     Wire.well_formed := well_formed |}.

#[export] Instance laws : WireLaws t.
Proof. wire_laws. Qed.
End comment_create_request.
Export (hints) comment_create_request.

Module comment_info_response.
Record t := mk {
  comment : comment_record.t;
}.

Definition write_to (m : t) : byte_writer → byte_writer :=
  Wire.write_to m.(comment).

Definition read_from : reader t :=
  let? comment := Wire.read_from (A := comment_record.t) in
  rret (mk comment).

Definition well_formed (m : t) : Prop :=
  Wire.well_formed m.(comment).

#[export] Instance format : WireFormat t :=
  {| Wire.write_to := write_to; Wire.read_from := read_from;
     Wire.well_formed := well_formed |}.

#[export] Instance laws : WireLaws t.
Proof. wire_laws. Qed.
End comment_info_response.
Export (hints) comment_info_response.

Module post_delete_request.
Record t := mk {
  post_id : Z;
}.

Definition write_to (m : t) : byte_writer → byte_writer :=
  write_integer 8 m.(post_id).

Definition read_from : reader t :=
  let? post_id := read_integer 8 in
  rret (mk post_id).

Definition well_formed (m : t) : Prop :=
  u64 m.(post_id).

#[export] Instance format : WireFormat t :=
  {| Wire.write_to := write_to; Wire.read_from := read_from;
     Wire.well_formed := well_formed |}.

#[export] Instance laws : WireLaws t.
Proof. wire_laws. Qed.
End post_delete_request.
Export (hints) post_delete_request.

Module comment_delete_request.
Record t := mk {
  comment_id : Z;
}.

Definition write_to (m : t) : byte_writer → byte_writer :=
  write_integer 8 m.(comment_id).

Definition read_from : reader t :=
  let? comment_id := read_integer 8 in
  rret (mk comment_id).

Definition well_formed (m : t) : Prop :=
  u64 m.(comment_id).

#[export] Instance format : WireFormat t :=
  {| Wire.write_to := write_to; Wire.read_from := read_from;
     Wire.well_formed := well_formed |}.

#[export] Instance laws : WireLaws t.
Proof. wire_laws. Qed.
End comment_delete_request.
Export (hints) comment_delete_request.


(** ** Every structure of this file is read back as it was written *)

(** For every forum and content message, reading the
    serialization of a well-formed message, whatever follows it, yields the
    message and stops right behind it; and a reader that accepts some bytes
    consumed exactly the serialization of the well-formed message it
    returned; on any input the reader stays within its buffer. *)
Theorem content_messages_faithful :
  wire_faithful forum_record.t ∧
  wire_faithful forum_create_request.t ∧
  wire_faithful forum_info_response.t ∧
  wire_faithful forum_list_request.t ∧
  wire_faithful forum_list_response.t ∧
  wire_faithful post_record.t ∧
  wire_faithful comment_record.t ∧
  wire_faithful post_create_request.t ∧
  wire_faithful post_info_response.t ∧
  wire_faithful post_list_request.t ∧
  wire_faithful post_list_response.t ∧
  wire_faithful thread_fetch_request.t ∧
  wire_faithful thread_response.t ∧
  wire_faithful comment_create_request.t ∧
  wire_faithful comment_info_response.t ∧
  wire_faithful post_delete_request.t ∧
  wire_faithful comment_delete_request.t.
Proof. split_and!; auto with wire typeclass_instances. Qed.
