(* ===== verification/SocialMessages.v ===== *)
(** Profiles, friendships, top 8, direct messages and reports on the wire
    (common/protocol). *)

From S2P Require Import Prelude.
From S2P Require Import Wire.
From S2P Require Import TextField.
From S2P Require Import Framing.
From S2P Require Import Codec.

(** ** friendship_status (social_records.cpp) *)

Module friendship_status.
Inductive t := requested | accepted | blocked.

#[global] Instance t_eq_dec : EqDecision t.
Proof. solve_decision. Defined.

Definition value (s : t) : Z :=
  match s with requested => 0 | accepted => 1 | blocked => 2 end.

(** [static_cast<friendship_status>]. *)
Definition cast (raw : Z) : option t :=
  if raw =? 0 then Some requested
  else if raw =? 1 then Some accepted
  else if raw =? 2 then Some blocked
  else None.

Lemma cast_value s : cast (value s) = Some s.
Proof. by destruct s. Qed.

Lemma cast_Some raw s : cast raw = Some s → value s = raw.
Proof. unfold cast. repeat case_match; intros; simplify_eq/=; lia. Qed.
End friendship_status.

Definition read_friendship_status : reader friendship_status.t :=
  let? raw := read_integer 1 in
  if friendship_status.value friendship_status.blocked <? raw then rfail
  else sret (friendship_status.cast raw).

Definition write_friendship_status (status : friendship_status.t) : byte_writer → byte_writer :=
  write_integer 1 (friendship_status.value status).

Definition status_ok (_ : friendship_status.t) : Prop := True.

Lemma appends_friendship_status s : appends (write_friendship_status s).
Proof. apply appends_integer. Qed.
#[export] Hint Resolve appends_friendship_status : wire.

Lemma field_friendship_status :
  field read_friendship_status write_friendship_status status_ok.
Proof.
  destruct (field_integer 1) as (Ha & Hr & Hp). split_and!.
  - intros s. apply Ha.
  - intros s _. eapply reads_bind_ret; [apply Hr; by destruct s|].
    by destruct s.
  - eapply parses_bind; [apply Hp|]. intros e raw [Hraw ->].
    destruct (Z.ltb_spec (friendship_status.value friendship_status.blocked) raw);
      [apply parses_fail|].
    destruct (friendship_status.cast raw) as [s|] eqn:Es; [|apply parses_fail].
    apply friendship_status.cast_Some in Es as <-. apply parses_ret.
    rewrite app_nil_r. by split.
Qed.
#[export] Hint Resolve field_friendship_status : fields.

(** ** The eight slots (top8_message.cpp) *)

(** A range [for] over a fixed-size array of keys. *)
Fixpoint write_keys (slots : list bytes) (w : byte_writer) : byte_writer :=
  match slots with
  | [] => w
  | slot :: slots' => write_keys slots' (write_fixed_bytes slot w)
  end.

Definition write_slot_array (slots : list bytes) : byte_writer → byte_writer :=
  write_keys slots.

Fixpoint read_keys (count : nat) : reader (list bytes) :=
  match count with
  | O => rret []
  | S count' =>
      let? slot := read_fixed_bytes PUBLIC_KEY_SIZE in
      let? slots := read_keys count' in
      rret (slot :: slots)
  end.

Definition read_slot_array : reader (list bytes) := read_keys (Z.to_nat TOP8_SLOT_COUNT).

Definition slots_ok (slots : list bytes) : Prop :=
  size_of slots = TOP8_SLOT_COUNT ∧ Forall (λ slot, size_of slot = PUBLIC_KEY_SIZE) slots.

Lemma write_keys_push slots w : write_keys slots w = push (concat slots) w.
Proof.
  revert w. induction slots as [|slot slots IH]; intros w; simpl.
  - unfold push. rewrite app_nil_r. by destruct w.
  - by rewrite IH, appends_fixed, output_fixed, push_push.
Qed.

Lemma appends_slot_array slots : appends (write_slot_array slots).
Proof. apply (appends_intro _ _ (write_keys_push slots)). Qed.
#[export] Hint Resolve appends_slot_array : wire.

Lemma field_slot_array : field read_slot_array write_slot_array slots_ok.
Proof.
  assert (∀ slots, output (write_slot_array slots) = concat slots) as Ho
    by (intros slots; apply (appends_intro _ _ (write_keys_push slots))).
  destruct (field_fixed PUBLIC_KEY_SIZE ltac:(done)) as (_ & Hr & Hp).
  split_and!; [apply appends_slot_array| |].
  - intros slots [Hn Hall]. rewrite Ho. unfold read_slot_array. rewrite <-Hn.
    unfold size_of. rewrite Nat2Z.id. clear Hn.
    induction Hall as [|slot slots Hs _ IH]; simpl; [apply reads_ret|].
    rewrite <-(output_fixed slot) at 1. eapply reads_bind; [by apply Hr|].
    by eapply reads_bind_ret.
  - unfold read_slot_array, slots_ok. generalize (eq_refl TOP8_SLOT_COUNT).
    generalize TOP8_SLOT_COUNT at 1 3. intros z Hz.
    eapply (parses_impl _ (λ e slots, (length slots = Z.to_nat z ∧
        Forall (λ slot, size_of slot = PUBLIC_KEY_SIZE) slots) ∧ e = concat slots)).
    + generalize (Z.to_nat z). intros n. clear Hz.
      induction n as [|n IH]; simpl; [by apply parses_ret|].
      eapply parses_bind; [apply Hp|]. intros e1 slot [Hs ->].
      eapply parses_bind; [apply IH|]. intros e2 slots [[Hl Hall] ->].
      apply parses_ret. rewrite app_nil_r, output_fixed. simpl.
      split_and!; auto.
    + intros e slots [[Hl Hall] ->]. rewrite Ho. split_and!; try done.
      unfold size_of. subst z. rewrite Hl. reflexivity.
Qed.
#[export] Hint Resolve field_slot_array : fields.

Lemma bounded_friendship_status : bounded read_friendship_status.
Proof. apply bounded_bind; auto with bounded. Qed.

Lemma bounded_slot_array : bounded read_slot_array.
Proof.
  unfold read_slot_array. generalize (Z.to_nat TOP8_SLOT_COUNT). intros n.
  induction n as [|n IH]; simpl; [apply bounded_sret|].
  apply bounded_bind; [apply bounded_fixed|]. intros slot.
  apply bounded_bind; [done|]. intros slots. apply bounded_sret.
Qed.
#[export] Hint Resolve bounded_friendship_status bounded_slot_array : bounded.

(** ** The structures *)

Module profile_record.
Record t := mk {
  pubkey : bytes;
  handle : bytes;
  display_name : bytes;
  bio : bytes;
  theme_json : bytes;
  banner_reference : bytes;
}.

Definition write_to (m : t) : byte_writer → byte_writer :=
  write_fixed_bytes m.(pubkey) ▷
  write_text_field m.(handle) ▷
  write_text_field m.(display_name) ▷
  write_text_field m.(bio) ▷
  write_text_field m.(theme_json) ▷
  write_text_field m.(banner_reference).

Definition read_from : reader t :=
  let? pubkey := read_fixed_bytes PUBLIC_KEY_SIZE in
  let? handle := read_text_field MAX_HANDLE_LENGTH in
  let? display_name := read_text_field MAX_DISPLAY_NAME_LENGTH in
  let? bio := read_text_field MAX_BIO_LENGTH in
  let? theme_json := read_text_field MAX_THEME_JSON_LENGTH in
  let? banner_reference := read_text_field MAX_BLOB_REFERENCE_LENGTH in
  rret (mk pubkey handle display_name bio theme_json banner_reference).

Definition well_formed (m : t) : Prop :=
  size_of m.(pubkey) = PUBLIC_KEY_SIZE ∧
  text_ok MAX_HANDLE_LENGTH m.(handle) ∧
  text_ok MAX_DISPLAY_NAME_LENGTH m.(display_name) ∧
  text_ok MAX_BIO_LENGTH m.(bio) ∧
  text_ok MAX_THEME_JSON_LENGTH m.(theme_json) ∧
  text_ok MAX_BLOB_REFERENCE_LENGTH m.(banner_reference).

#[export] Instance format : WireFormat t :=
  {| Wire.write_to := write_to; Wire.read_from := read_from;
     Wire.well_formed := well_formed |}.

#[export] Instance laws : WireLaws t.
Proof. wire_laws. Qed.
End profile_record.
Export (hints) profile_record.

Module friend_record.
Record t := mk {
  pubkey : bytes;
  handle : bytes;
  display_name : bytes;
  status : friendship_status.t;
}.

Definition write_to (m : t) : byte_writer → byte_writer :=
  write_fixed_bytes m.(pubkey) ▷
  write_text_field m.(handle) ▷
  write_text_field m.(display_name) ▷
  write_friendship_status m.(status).

Definition read_from : reader t :=
  let? pubkey := read_fixed_bytes PUBLIC_KEY_SIZE in
  let? handle := read_text_field MAX_HANDLE_LENGTH in
  let? display_name := read_text_field MAX_DISPLAY_NAME_LENGTH in
  let? status := read_friendship_status in
  rret (mk pubkey handle display_name status).

Definition well_formed (m : t) : Prop :=
  size_of m.(pubkey) = PUBLIC_KEY_SIZE ∧
  text_ok MAX_HANDLE_LENGTH m.(handle) ∧
  text_ok MAX_DISPLAY_NAME_LENGTH m.(display_name) ∧
  status_ok m.(status).

#[export] Instance format : WireFormat t :=
  {| Wire.write_to := write_to; Wire.read_from := read_from;
     Wire.well_formed := well_formed |}.

#[export] Instance laws : WireLaws t.
Proof. wire_laws. Qed.
End friend_record.
Export (hints) friend_record.

Module profile_get_request.
Record t := mk {
  target_pubkey : bytes;
}.

Definition write_to (m : t) : byte_writer → byte_writer :=
  write_fixed_bytes m.(target_pubkey).

Definition read_from : reader t :=
  let? target_pubkey := read_fixed_bytes PUBLIC_KEY_SIZE in
  rret (mk target_pubkey).

Definition well_formed (m : t) : Prop :=
  size_of m.(target_pubkey) = PUBLIC_KEY_SIZE.

#[export] Instance format : WireFormat t :=
  {| Wire.write_to := write_to; Wire.read_from := read_from;
     Wire.well_formed := well_formed |}.

#[export] Instance laws : WireLaws t.
Proof. wire_laws. Qed.
End profile_get_request.
Export (hints) profile_get_request.

Module profile_response.
Record t := mk {
  profile : profile_record.t;
}.

Definition write_to (m : t) : byte_writer → byte_writer :=
  Wire.write_to m.(profile).

Definition read_from : reader t :=
  let? profile := Wire.read_from (A := profile_record.t) in
  rret (mk profile).

Definition well_formed (m : t) : Prop :=
  Wire.well_formed m.(profile).

#[export] Instance format : WireFormat t :=
  {| Wire.write_to := write_to; Wire.read_from := read_from;
     Wire.well_formed := well_formed |}.

#[export] Instance laws : WireLaws t.
Proof. wire_laws. Qed.
End profile_response.
Export (hints) profile_response.

Module profile_set_request.
Record t := mk {
  display_name : bytes;
  bio : bytes;
  theme_json : bytes;
  banner_reference : bytes;
}.

Definition write_to (m : t) : byte_writer → byte_writer :=
  write_text_field m.(display_name) ▷
  write_text_field m.(bio) ▷
  write_text_field m.(theme_json) ▷
  write_text_field m.(banner_reference).

Definition read_from : reader t :=
  let? display_name := read_text_field MAX_DISPLAY_NAME_LENGTH in
  let? bio := read_text_field MAX_BIO_LENGTH in
  let? theme_json := read_text_field MAX_THEME_JSON_LENGTH in
  let? banner_reference := read_text_field MAX_BLOB_REFERENCE_LENGTH in
  rret (mk display_name bio theme_json banner_reference).

Definition well_formed (m : t) : Prop :=
  text_ok MAX_DISPLAY_NAME_LENGTH m.(display_name) ∧
  text_ok MAX_BIO_LENGTH m.(bio) ∧
  text_ok MAX_THEME_JSON_LENGTH m.(theme_json) ∧
  text_ok MAX_BLOB_REFERENCE_LENGTH m.(banner_reference).

#[export] Instance format : WireFormat t :=
  {| Wire.write_to := write_to; Wire.read_from := read_from;
     Wire.well_formed := well_formed |}.

#[export] Instance laws : WireLaws t.
Proof. wire_laws. Qed.
End profile_set_request.
Export (hints) profile_set_request.

Module friend_add_request.
Record t := mk {
  target_pubkey : bytes;
  status : friendship_status.t;
}.

Definition write_to (m : t) : byte_writer → byte_writer :=
  write_fixed_bytes m.(target_pubkey) ▷
  write_friendship_status m.(status).

Definition read_from : reader t :=
  let? target_pubkey := read_fixed_bytes PUBLIC_KEY_SIZE in
  let? status := read_friendship_status in
  rret (mk target_pubkey status).

Definition well_formed (m : t) : Prop :=
  size_of m.(target_pubkey) = PUBLIC_KEY_SIZE ∧
  status_ok m.(status).

#[export] Instance format : WireFormat t :=
  {| Wire.write_to := write_to; Wire.read_from := read_from;
     Wire.well_formed := well_formed |}.

#[export] Instance laws : WireLaws t.
Proof. wire_laws. Qed.
End friend_add_request.
Export (hints) friend_add_request.

Module friend_list_response.
Record t := mk {
  friends : list friend_record.t;
}.

Definition write_to (m : t) : byte_writer → byte_writer :=
  write_record_list Wire.write_to m.(friends).

Definition read_from : reader t :=
  let? friends := read_record_list (Wire.read_from (A := friend_record.t)) MAX_FRIEND_ITEMS in
  rret (mk friends).

Definition well_formed (m : t) : Prop :=
  list_ok MAX_FRIEND_ITEMS m.(friends).

#[export] Instance format : WireFormat t :=
  {| Wire.write_to := write_to; Wire.read_from := read_from;
     Wire.well_formed := well_formed |}.

#[export] Instance laws : WireLaws t.
Proof. wire_laws. Qed.
End friend_list_response.
Export (hints) friend_list_response.

Module top8_set_request.
Record t := mk {
  slots : list bytes;
}.

Definition write_to (m : t) : byte_writer → byte_writer :=
  write_slot_array m.(slots).

Definition read_from : reader t :=
  let? slots := read_slot_array in
  rret (mk slots).

Definition well_formed (m : t) : Prop :=
  slots_ok m.(slots).

#[export] Instance format : WireFormat t :=
  {| Wire.write_to := write_to; Wire.read_from := read_from;
     Wire.well_formed := well_formed |}.

#[export] Instance laws : WireLaws t.
Proof. wire_laws. Qed.
End top8_set_request.
Export (hints) top8_set_request.

Module top8_get_request.
Record t := mk {
  target_pubkey : bytes;
}.

Definition write_to (m : t) : byte_writer → byte_writer :=
  write_fixed_bytes m.(target_pubkey).

Definition read_from : reader t :=
  let? target_pubkey := read_fixed_bytes PUBLIC_KEY_SIZE in
  rret (mk target_pubkey).

Definition well_formed (m : t) : Prop :=
  size_of m.(target_pubkey) = PUBLIC_KEY_SIZE.

#[export] Instance format : WireFormat t :=
  {| Wire.write_to := write_to; Wire.read_from := read_from;
     Wire.well_formed := well_formed |}.

#[export] Instance laws : WireLaws t.
Proof. wire_laws. Qed.
End top8_get_request.
Export (hints) top8_get_request.

Module top8_response.
Record t := mk {
  slots : list bytes;
  details : list friend_record.t;
}.

Definition write_to (m : t) : byte_writer → byte_writer :=
  write_slot_array m.(slots) ▷
  write_record_list Wire.write_to m.(details).

Definition read_from : reader t :=
  let? slots := read_slot_array in
  let? details := read_record_list (Wire.read_from (A := friend_record.t)) TOP8_SLOT_COUNT in
  rret (mk slots details).

Definition well_formed (m : t) : Prop :=
  slots_ok m.(slots) ∧
  list_ok TOP8_SLOT_COUNT m.(details).

#[export] Instance format : WireFormat t :=
  {| Wire.write_to := write_to; Wire.read_from := read_from;
     Wire.well_formed := well_formed |}.

#[export] Instance laws : WireLaws t.
Proof. wire_laws. Qed.
End top8_response.
Export (hints) top8_response.

Module dm_envelope_record.
Record t := mk {
  id : Z;
  sender_pubkey : bytes;
  ciphertext : bytes;
}.

Definition write_to (m : t) : byte_writer → byte_writer :=
  write_integer 8 m.(id) ▷
  write_fixed_bytes m.(sender_pubkey) ▷
  write_length_prefixed m.(ciphertext).

Definition read_from : reader t :=
  let? id := read_integer 8 in
  let? sender_pubkey := read_fixed_bytes PUBLIC_KEY_SIZE in
  let? ciphertext := read_length_prefixed MAX_DM_CIPHERTEXT_SIZE in
  rret (mk id sender_pubkey ciphertext).

Definition well_formed (m : t) : Prop :=
  u64 m.(id) ∧
  size_of m.(sender_pubkey) = PUBLIC_KEY_SIZE ∧
  blob_ok MAX_DM_CIPHERTEXT_SIZE m.(ciphertext).

#[export] Instance format : WireFormat t :=
  {| Wire.write_to := write_to; Wire.read_from := read_from;
     Wire.well_formed := well_formed |}.

#[export] Instance laws : WireLaws t.
Proof. wire_laws. Qed.
End dm_envelope_record.
Export (hints) dm_envelope_record.

Module dm_send_request.
Record t := mk {
  recipient_pubkey : bytes;
  ciphertext : bytes;
}.

Definition write_to (m : t) : byte_writer → byte_writer :=
  write_fixed_bytes m.(recipient_pubkey) ▷
  write_length_prefixed m.(ciphertext).

Definition read_from : reader t :=
  let? recipient_pubkey := read_fixed_bytes PUBLIC_KEY_SIZE in
  let? ciphertext := read_length_prefixed MAX_DM_CIPHERTEXT_SIZE in
  rret (mk recipient_pubkey ciphertext).

Definition well_formed (m : t) : Prop :=
  size_of m.(recipient_pubkey) = PUBLIC_KEY_SIZE ∧
  blob_ok MAX_DM_CIPHERTEXT_SIZE m.(ciphertext).

#[export] Instance format : WireFormat t :=
  {| Wire.write_to := write_to; Wire.read_from := read_from;
     Wire.well_formed := well_formed |}.

#[export] Instance laws : WireLaws t.
Proof. wire_laws. Qed.
End dm_send_request.
Export (hints) dm_send_request.

Module dm_fetch_request.
Record t := mk {
  since_id : Z;
  limit : Z;
}.

Definition write_to (m : t) : byte_writer → byte_writer :=
  write_integer 8 m.(since_id) ▷
  write_integer 2 m.(limit).

Definition read_from : reader t :=
  let? since_id := read_integer 8 in
  let? limit := read_integer 2 in
  rret (mk since_id limit).

Definition well_formed (m : t) : Prop :=
  u64 m.(since_id) ∧
  u16 m.(limit).

#[export] Instance format : WireFormat t :=
  {| Wire.write_to := write_to; Wire.read_from := read_from;
     Wire.well_formed := well_formed |}.

#[export] Instance laws : WireLaws t.
Proof. wire_laws. Qed.
End dm_fetch_request.
Export (hints) dm_fetch_request.

Module dm_list_response.
Record t := mk {
  envelopes : list dm_envelope_record.t;
  has_more : Z;
}.

Definition write_to (m : t) : byte_writer → byte_writer :=
  write_record_list Wire.write_to m.(envelopes) ▷
  write_integer 1 m.(has_more).

Definition read_from : reader t :=
  let? envelopes := read_record_list (Wire.read_from (A := dm_envelope_record.t)) MAX_DM_BATCH_ITEMS in
  let? has_more := read_integer 1 in
  rret (mk envelopes has_more).

Definition well_formed (m : t) : Prop :=
  list_ok MAX_DM_BATCH_ITEMS m.(envelopes) ∧
  u8 m.(has_more).

#[export] Instance format : WireFormat t :=
  {| Wire.write_to := write_to; Wire.read_from := read_from;
     Wire.well_formed := well_formed |}.

#[export] Instance laws : WireLaws t.
Proof. wire_laws. Qed.
End dm_list_response.
Export (hints) dm_list_response.

Module dm_ack_request.
Record t := mk {
  envelope_ids : list Z;
}.

Definition write_to (m : t) : byte_writer → byte_writer :=
  write_record_list (write_integer 8) m.(envelope_ids).

Definition read_from : reader t :=
  let? envelope_ids := read_record_list (read_integer 8) MAX_DM_BATCH_ITEMS in
  rret (mk envelope_ids).

Definition well_formed (m : t) : Prop :=
  ids_ok MAX_DM_BATCH_ITEMS m.(envelope_ids).

#[export] Instance format : WireFormat t :=
  {| Wire.write_to := write_to; Wire.read_from := read_from;
     Wire.well_formed := well_formed |}.

#[export] Instance laws : WireLaws t.
Proof. wire_laws. Qed.
End dm_ack_request.
Export (hints) dm_ack_request.

Module report_post_request.
Record t := mk {
  post_id : Z;
  reason : bytes;
}.

Definition write_to (m : t) : byte_writer → byte_writer :=
  write_integer 8 m.(post_id) ▷
  write_text_field m.(reason).

Definition read_from : reader t :=
  let? post_id := read_integer 8 in
  let? reason := read_text_field MAX_REPORT_REASON_LENGTH in
  rret (mk post_id reason).

Definition well_formed (m : t) : Prop :=
  u64 m.(post_id) ∧
  text_ok MAX_REPORT_REASON_LENGTH m.(reason).

#[export] Instance format : WireFormat t :=
  {| Wire.write_to := write_to; Wire.read_from := read_from;
     Wire.well_formed := well_formed |}.

#[export] Instance laws : WireLaws t.
Proof. wire_laws. Qed.
End report_post_request.
Export (hints) report_post_request.

Module report_account_request.
Record t := mk {
  target_pubkey : bytes;
  reason : bytes;
}.

Definition write_to (m : t) : byte_writer → byte_writer :=
  write_fixed_bytes m.(target_pubkey) ▷
  write_text_field m.(reason).

Definition read_from : reader t :=
  let? target_pubkey := read_fixed_bytes PUBLIC_KEY_SIZE in
  let? reason := read_text_field MAX_REPORT_REASON_LENGTH in
  rret (mk target_pubkey reason).

Definition well_formed (m : t) : Prop :=
  size_of m.(target_pubkey) = PUBLIC_KEY_SIZE ∧
  text_ok MAX_REPORT_REASON_LENGTH m.(reason).

#[export] Instance format : WireFormat t :=
  {| Wire.write_to := write_to; Wire.read_from := read_from;
     Wire.well_formed := well_formed |}.

#[export] Instance laws : WireLaws t.
Proof. wire_laws. Qed.
End report_account_request.
Export (hints) report_account_request.


(** ** Every structure of this file is read back as it was written *)

(** For every profile, friendship, top 8, direct message and report message, reading the
    serialization of a well-formed message, whatever follows it, yields the
    message and stops right behind it; and a reader that accepts some bytes
    consumed exactly the serialization of the well-formed message it
    returned; on any input the reader stays within its buffer. *)
Theorem social_messages_faithful :
  wire_faithful profile_record.t ∧
  wire_faithful friend_record.t ∧
  wire_faithful profile_get_request.t ∧
  wire_faithful profile_response.t ∧
  wire_faithful profile_set_request.t ∧
  wire_faithful friend_add_request.t ∧
  wire_faithful friend_list_response.t ∧
  wire_faithful top8_set_request.t ∧
  wire_faithful top8_get_request.t ∧
  wire_faithful top8_response.t ∧
  wire_faithful dm_envelope_record.t ∧
  wire_faithful dm_send_request.t ∧
  wire_faithful dm_fetch_request.t ∧
  wire_faithful dm_list_response.t ∧
  wire_faithful dm_ack_request.t ∧
  wire_faithful report_post_request.t ∧
  wire_faithful report_account_request.t.
Proof. split_and!; auto with wire typeclass_instances. Qed.
