(* ===== verification/Fuzz.v ===== *)
(** Every decoder of the protocol at once: the harness of
    tools/fuzz/fuzz_protocol_frame.cpp, which hands any bytes to them, and what
    it is written to find. *)

From S2P Require Import Prelude.
From S2P Require Import Wire.
From S2P Require Import Framing.
From S2P Require Import Codec.
From S2P Require Import SessionMessages.
From S2P Require Import ContentMessages.
From S2P Require Import SocialMessages.

(** A structure that can be decoded. *)
Record decoder := Decoder { message : Type; format : WireFormat message }.
Arguments Decoder message {format}.
#[local] Existing Instance format.

Abbreviation decoders_of := (list decoder).

(** One run of a decoder: what it returned and where it left its reader. *)
Record attempt := Attempt { tried : decoder; decoded : option (message tried); left_reader : byte_reader }.

Definition exercise_one (payload : bytes) (d : decoder) : attempt :=
  let '(decoded, reader) := read_from (A := message d) (new_reader payload) in Attempt d decoded reader.

Definition session_decoders : decoders_of :=
  [Decoder hello_request.t; Decoder auth_challenge.t; Decoder auth_response.t; Decoder auth_accepted.t;
   Decoder ping_request.t; Decoder ping_response.t; Decoder motd_push.t; Decoder status_ok_response.t;
   Decoder status_error_response.t; Decoder register_request.t; Decoder prekey_publish_request.t;
   Decoder prekey_fetch_request.t; Decoder prekey_bundle_response.t].

Definition content_decoders : decoders_of :=
  [Decoder forum_create_request.t; Decoder forum_info_response.t; Decoder forum_list_request.t;
   Decoder forum_list_response.t; Decoder post_create_request.t; Decoder post_info_response.t;
   Decoder post_list_request.t; Decoder post_list_response.t; Decoder thread_fetch_request.t;
   Decoder thread_response.t; Decoder comment_create_request.t; Decoder comment_info_response.t].

Definition social_decoders : decoders_of :=
  [Decoder profile_get_request.t; Decoder profile_response.t; Decoder profile_set_request.t;
   Decoder friend_add_request.t; Decoder friend_list_response.t; Decoder top8_set_request.t;
   Decoder top8_response.t; Decoder dm_send_request.t; Decoder dm_fetch_request.t;
   Decoder dm_list_response.t; Decoder dm_ack_request.t].

Definition exercise_session_messages (payload : bytes) : list attempt := map (exercise_one payload) session_decoders.
Definition exercise_content_messages (payload : bytes) : list attempt := map (exercise_one payload) content_decoders.
Definition exercise_social_messages (payload : bytes) : list attempt := map (exercise_one payload) social_decoders.

Definition exercise_every_message (payload : bytes) : list attempt :=
  exercise_session_messages payload ++ exercise_content_messages payload ++ exercise_social_messages payload.

(** The code it ends with, and the runs. *)
Definition LLVMFuzzerTestOneInput (input : bytes) : Z * list attempt :=
  let framed :=
    if bool_decide (is_Some (decode_frame_header input)) && (FRAME_HEADER_SIZE <=? size_of input)
    then exercise_every_message (drop (Z.to_nat FRAME_HEADER_SIZE) input)
    else [] in
  (0, framed ++ exercise_every_message input).

(** Messages and records that nothing hands bytes to. *)
Definition left_out : decoders_of :=
  [Decoder post_delete_request.t; Decoder comment_delete_request.t; Decoder top8_get_request.t;
   Decoder report_post_request.t; Decoder report_account_request.t].
Definition records : decoders_of :=
  [Decoder forum_record.t; Decoder post_record.t; Decoder comment_record.t; Decoder profile_record.t;
   Decoder friend_record.t; Decoder dm_envelope_record.t].

(** Everything that has a [read_from]. *)
Definition every_decoder : decoders_of :=
  session_decoders ++ content_decoders ++ social_decoders ++ left_out ++ records.

Definition faithful (d : decoder) : Prop := wire_faithful (message d).

(** A run of a decoder found nothing: the reader stayed within the bytes it was
    given, and what was decoded is a message that those bytes begin with. *)
Definition clean (payload : bytes) (t : attempt) : Prop :=
  buffer_ (left_reader t) = payload ∧ (offset_ (left_reader t) <= length payload)%nat ∧
  match decoded t with
  | Some m => well_formed m ∧ payload = encoding m ++ rest (left_reader t)
  | None => True
  end.

Lemma exercise_clean payload d : faithful d → clean payload (exercise_one payload d).
Proof.
  intros (_ & Hcanonical & Hbounded). unfold exercise_one.
  specialize (Hbounded (new_reader payload) (new_reader_ok payload)). specialize (Hcanonical payload).
  destruct (read_from (new_reader payload)) as [m r]. cbn [snd] in Hbounded. destruct Hbounded as (Hbuffer & _ & Hok).
  unfold clean. cbn [decoded left_reader]. unfold reader_ok in Hok. rewrite Hbuffer in Hok.
  split; [done|]. split; [done|]. destruct m as [m|]; [exact (Hcanonical m r eq_refl)|done].
Qed.

Lemma every_decoder_faithful : Forall faithful every_decoder.
Proof.
  pose proof session_messages_faithful as Hsession. pose proof content_messages_faithful as Hcontent.
  pose proof social_messages_faithful as Hsocial. destruct_and!.
  unfold every_decoder. repeat (apply List.Forall_cons; [assumption|]). apply List.Forall_nil.
Qed.

(** C39: every structure of the protocol is serialized faithfully, requests,
    answers and the records inside them, with one exception. Reading the
    serialization of a well-formed message, whatever follows it, yields the
    message and stops right behind it; a reader that accepts some bytes consumed
    exactly the serialization of the well-formed message it returned, so that a
    message has one spelling; and on any input the reader stays within its
    buffer. The exception is the error that says an account is banned, which the
    server sends: an error is well formed exactly when its detail is a valid text
    and its code is any other, and that one is refused by the reader whatever
    its detail and whatever follows. *)
Theorem protocol_messages_faithful (d : decoder) (Hd : In d every_decoder) :
  wire_faithful (message d) ∧
  (∀ m : status_error_response.t, well_formed m ↔
     status_error_response.code m ≠ error_code.account_banned ∧
     text_ok MAX_ERROR_MESSAGE_LENGTH (status_error_response.detail m)) ∧
  ∀ detail rest,
    (read_from (A := status_error_response.t)
       (new_reader (encoding (status_error_response.mk error_code.account_banned detail) ++ rest))).1 = None.
Proof.
  split; [exact (proj1 (List.Forall_forall faithful every_decoder) every_decoder_faithful d Hd)|].
  split; [done|]. intros detail rest. apply account_banned_is_undecodable.
Qed.

(** The fuzzer can run for ever without finding anything. Whatever the
    bytes, the harness ends with 0, every decoder it runs stays within the bytes
    it was handed (all of them, or those behind a frame header), and whatever it
    decodes is a well-formed message that those bytes begin with. *)
Theorem fuzzing_finds_nothing (input : bytes) :
  let '(code, attempts) := LLVMFuzzerTestOneInput input in
  code = 0 ∧ (length attempts = 36 ∨ length attempts = 72)%nat ∧
  Forall (λ t, ∃ payload, (payload = input ∨ payload = drop (Z.to_nat FRAME_HEADER_SIZE) input) ∧ clean payload t) attempts.
Proof.
  assert (∀ payload, Forall (clean payload) (exercise_every_message payload)) as Hclean.
  { intros payload. unfold exercise_every_message, exercise_session_messages, exercise_content_messages, exercise_social_messages.
    rewrite <-!map_app. apply List.Forall_map. eapply Forall_impl; [|exact (exercise_clean payload)].
    eapply List.Forall_forall. intros d Hd. pose proof every_decoder_faithful as Hall. rewrite List.Forall_forall in Hall.
    apply Hall. unfold every_decoder. rewrite !in_app_iff in *. tauto. }
  cbv beta iota zeta delta [LLVMFuzzerTestOneInput]. split; [done|].
  split; [destruct (_ && _); [by right|by left]|].
  apply Forall_app. split.
  - destruct (_ && _); [|by apply List.Forall_nil]. eapply Forall_impl; [apply Hclean|]. intros t Ht. eexists. split; [by right|done].
  - eapply Forall_impl; [apply Hclean|]. intros t Ht. exists input. split; [by left|done].
Qed.

(** The harness decodes what it is given: a ping is read by the decoder of
    pings, from the whole input and from behind the header. *)
Example fuzzed_ping :
  let input := default [] (encode_frame message_type.ping_request []) in
  length (LLVMFuzzerTestOneInput input).2 = 72%nat.
Proof. vm_compute. reflexivity. Qed.

Lemma protocol_messages_faithful_witness : wire_faithful top8_get_request.t ∧ wire_faithful thread_response.t.
Proof.
  split.
  - apply (protocol_messages_faithful (Decoder top8_get_request.t)). cbn.
    repeat (first [left; reflexivity | right]).
  - apply (protocol_messages_faithful (Decoder thread_response.t)). cbn.
    repeat (first [left; reflexivity | right]).
Defined.
