(* ===== verification/TextTools.v ===== *)
(** The standard library's text operations the components share: decimal
    numbers ([std::to_string], [std::from_chars]), [find] and [rfind], and the
    trimming of blanks. *)

From S2P Require Import Prelude.

Definition newline : bytes := [byte_of 10].

(** ** Decimal numbers *)

(** The digits of a nonnegative number; twenty are enough for 64 bits. *)
Fixpoint decimal_digits (fuel : nat) (n : Z) : bytes :=
  match fuel with
  | O => []
  | S fuel' =>
      (if n <? 10 then [] else decimal_digits fuel' (n / 10)) ++ [byte_of (48 + n mod 10)]
  end.

(** [std::to_string]. *)
Definition decimal (n : Z) : bytes :=
  if n <? 0 then byte_of (chr "-") :: decimal_digits 20 (- n) else decimal_digits 20 n.

Definition is_digit (b : byte) : bool := in_range (chr "0") (chr "9") b.

Fixpoint leading_digits (text : bytes) : bytes :=
  match text with
  | b :: text' => if is_digit b then b :: leading_digits text' else []
  | [] => []
  end.

Definition digits_value (digits : bytes) : Z :=
  fold_left (λ value b, value * 10 + (byte_val b - chr "0")) digits 0.

(** [std::from_chars] on a signed integer of [w] bits: an optional minus sign
    and the digits that follow; what comes after them is ignored. *)
Definition from_chars (w : Z) (text : bytes) : option Z :=
  let '(negative, digits) :=
    match text with
    | b :: text' => if byte_val b =? chr "-" then (true, leading_digits text')
                    else (false, leading_digits text)
    | [] => (false, [])
    end in
  let value := if (negative : bool) then - digits_value digits else digits_value digits in
  if bool_decide (digits = []) || negb ((- 2 ^ (w - 1) <=? value) && (value <? 2 ^ (w - 1)))
  then None else Some value.

(** [std::from_chars] on an unsigned integer of [w] bits: the value and what
    follows the digits (from [result.ptr] on). *)
Definition from_chars_unsigned (w : Z) (text : bytes) : option (Z * bytes) :=
  let digits := leading_digits text in
  if bool_decide (digits = []) || negb (digits_value digits <? 2 ^ w) then None
  else Some (digits_value digits, drop (length digits) text).

(** ** Searching and trimming *)

(** The text around the first [c], as [find] and two [substr] give it. *)
Fixpoint split_first (c : byte) (text : bytes) : option (bytes * bytes) :=
  match text with
  | [] => None
  | b :: text' =>
      if decide (b = c) then Some ([], text')
      else match split_first c text' with
           | Some (before, after) => Some (b :: before, after)
           | None => None
           end
  end.

(** The text around the last [c], as [rfind] and two [substr] give it. *)
Fixpoint split_last (c : byte) (text : bytes) : option (bytes * bytes) :=
  match text with
  | [] => None
  | b :: text' =>
      match split_last c text' with
      | Some (before, after) => Some (b :: before, after)
      | None => if decide (b = c) then Some ([], text') else None
      end
  end.

Definition is_space_or_tab (b : byte) : bool := (byte_val b =? 32) || (byte_val b =? 9).
Definition is_trailing_blank (b : byte) : bool := is_space_or_tab b || (byte_val b =? 13).

Fixpoint drop_while (p : byte → bool) (text : bytes) : bytes :=
  match text with
  | b :: text' => if p b then drop_while p text' else text
  | [] => []
  end.

(** Blanks off the front, then blanks and carriage returns off the back. *)
Definition trim_spaces (text : bytes) : bytes :=
  rev (drop_while is_trailing_blank (rev (drop_while is_space_or_tab text))).

(** The lines of a text; the last one is what follows the last newline. *)
Fixpoint text_lines (text : bytes) : list bytes :=
  match text with
  | [] => [[]]
  | b :: text' =>
      if decide (b = byte_of 10) then [] :: text_lines text'
      else match text_lines text' with
           | line :: lines => (b :: line) :: lines
           | [] => [[b]]
           end
  end.

(** The lines [std::getline] reads: an empty last one is no line. *)
Definition getlines (text : bytes) : list bytes :=
  let lines := text_lines text in
  if decide (last lines = Some []) then take (length lines - 1) lines else lines.

(** A container that starts or ends with another. *)
Definition starts_with (prefix text : bytes) : bool := bool_decide (take (length prefix) text = prefix).
Definition ends_with (suffix text : bytes) : bool :=
  (length suffix <=? length text)%nat && bool_decide (drop (length text - length suffix) text = suffix).

(** ** Lemmas *)

Lemma digits_value_snoc l b : digits_value (l ++ [b]) = digits_value l * 10 + (byte_val b - 48).
Proof. unfold digits_value. by rewrite fold_left_app. Qed.

Lemma digit_byte d : 0 <= d < 10 → is_digit (byte_of (48 + d)) = true ∧ byte_val (byte_of (48 + d)) = 48 + d.
Proof.
  intros Hd. unfold is_digit, in_range. change (chr "0") with 48. change (chr "9") with 57.
  rewrite byte_val_of, Z.mod_small by lia. split; lia.
Qed.

Lemma decimal_digits_spec fuel n :
  0 <= n < 10 ^ Z.of_nat (S fuel) →
  Forall (λ b, is_digit b = true) (decimal_digits (S fuel) n) ∧
  decimal_digits (S fuel) n ≠ [] ∧ digits_value (decimal_digits (S fuel) n) = n.
Proof.
  revert n. induction fuel as [|fuel IH]; intros n Hn.
  - change (10 ^ Z.of_nat 1) with 10 in Hn. cbn [decimal_digits].
    replace (n <? 10) with true by lia. rewrite (Z.mod_small n 10) by lia.
    destruct (digit_byte n) as [Hd Hv]; [lia|].
    split_and!; [by repeat constructor|done|]. rewrite digits_value_snoc, Hv. unfold digits_value. simpl. lia.
  - remember (S fuel) as f. cbn [decimal_digits].
    pose proof (Z.mod_pos_bound n 10 ltac:(lia)) as Hm. destruct (digit_byte (n mod 10) Hm) as [Hd Hv].
    destruct (Z.ltb_spec n 10).
    + split_and!; [by repeat constructor|done|]. rewrite digits_value_snoc, Hv.
      rewrite (Z.mod_small n 10) by lia. unfold digits_value. simpl. lia.
    + destruct (IH (n / 10)) as (Hf & Hne & Hval).
      { rewrite Nat2Z.inj_succ, Z.pow_succ_r in Hn by lia. split; [apply Z.div_pos; lia|].
        apply Z.div_lt_upper_bound; lia. }
      split_and!; [apply Forall_app; by repeat constructor| by intros [? ?]%app_nil|].
      rewrite digits_value_snoc, Hv, Hval. pose proof (Z.div_mod n 10 ltac:(lia)). lia.
Qed.

Lemma decimal_all_digits n : u64 n → Forall (λ b, is_digit b = true) (decimal n) ∧ decimal n ≠ [].
Proof.
  intros [Hn Hmax]. change (2 ^ 64) with 18446744073709551616 in Hmax. unfold decimal.
  replace (n <? 0) with false by lia. destruct (decimal_digits_spec 19 n) as (Hd & Hne & _); [|done].
  change (10 ^ Z.of_nat 20) with 100000000000000000000. lia.
Qed.

(** Digits are none of the characters that mean something. *)
Lemma decimal_avoids n b : u64 n → is_digit b = false → b ∉ decimal n.
Proof.
  intros Hn Hb Hin. destruct (decimal_all_digits n Hn) as [Hd _].
  eapply Forall_forall in Hd; [|exact Hin]. simpl in Hd. congruence.
Qed.

(** A text that does not start with a digit. *)
Definition no_digit_first (text : bytes) : Prop := from_option is_digit false (head text) = false.

Lemma leading_digits_app digits rest :
  Forall (λ b, is_digit b = true) digits → no_digit_first rest → leading_digits (digits ++ rest) = digits.
Proof.
  intros Hd Hr. induction Hd as [|b digits Hb Hd IH]; simpl.
  - destruct rest as [|c rest]; [done|]. unfold no_digit_first in Hr. simpl in *. by rewrite Hr.
  - by rewrite Hb, IH.
Qed.

(** What is printed is read back, up to where the digits end. *)
Lemma from_chars_decimal w n rest :
  w <= 64 → fits w n → no_digit_first rest →
  from_chars_unsigned w (decimal n ++ rest) = Some (n, rest).
Proof.
  intros Hw Hn Hr. unfold fits in Hn. assert (n < 2 ^ 64) as H64.
  { eapply Z.lt_le_trans; [apply Hn|]. apply Z.pow_le_mono_r; lia. }
  unfold decimal. replace (n <? 0) with false by lia.
  destruct (decimal_digits_spec 19 n) as (Hf & Hne & Hv).
  { change (10 ^ Z.of_nat 20) with 100000000000000000000. change (2 ^ 64) with 18446744073709551616 in H64. lia. }
  unfold from_chars_unsigned. rewrite leading_digits_app by done.
  rewrite bool_decide_false, Hv by done. replace (n <? 2 ^ w) with true by lia.
  by rewrite drop_app_exact.
Qed.

Lemma digits_value_nonneg digits : Forall (λ b, is_digit b = true) digits → 0 <= digits_value digits.
Proof.
  induction digits as [|b l IH] using rev_ind; intros Hd; [done|].
  rewrite digits_value_snoc. apply Forall_app in Hd as [Hl Hb]. apply Forall_inv in Hb.
  unfold is_digit, in_range in Hb. change (chr "0") with 48 in Hb. specialize (IH Hl). lia.
Qed.

Lemma leading_digits_digits text : Forall (λ b, is_digit b = true) (leading_digits text).
Proof. induction text as [|b l IH]; simpl; [done|]. destruct (is_digit b) eqn:E; by constructor. Qed.

Lemma from_chars_unsigned_fits w text n rest : from_chars_unsigned w text = Some (n, rest) → fits w n.
Proof.
  unfold from_chars_unsigned. case_bool_decide; [done|]. simpl.
  destruct (Z.ltb_spec (digits_value (leading_digits text)) (2 ^ w)); [|done]. intros [= <- _].
  pose proof (digits_value_nonneg _ (leading_digits_digits text)). split; lia.
Qed.

Lemma split_first_eq c before after : c ∉ before → split_first c (before ++ c :: after) = Some (before, after).
Proof.
  induction before as [|b before IH]; simpl; [by rewrite decide_True|].
  intros Hc. rewrite decide_False by set_solver. rewrite IH; [done|set_solver].
Qed.

Lemma split_last_None c text : c ∉ text → split_last c text = None.
Proof.
  induction text as [|b text IH]; simpl; [done|]. intros Hc. rewrite IH by set_solver.
  rewrite decide_False; [done|set_solver].
Qed.

Lemma split_last_eq c before after : c ∉ after → split_last c (before ++ c :: after) = Some (before, after).
Proof.
  intros Hc. induction before as [|b before IH]; simpl; [|by rewrite IH].
  by rewrite split_last_None, decide_True.
Qed.

Lemma split_first_Some c text before after :
  split_first c text = Some (before, after) → text = before ++ c :: after ∧ c ∉ before.
Proof.
  revert before. induction text as [|b text IH]; intros before; simpl; [done|].
  case_decide as E; [intros [= <- <-]; subst; by split; [|set_solver]|].
  destruct (split_first c text) as [[x y]|]; [|done]. intros [= <- <-].
  destruct (IH x eq_refl) as [-> ?]. split; [done|set_solver].
Qed.

Lemma split_last_Some c text before after :
  split_last c text = Some (before, after) → text = before ++ c :: after ∧ c ∉ after.
Proof.
  revert before. induction text as [|b text IH]; intros before; simpl; [done|].
  destruct (split_last c text) as [[x y]|] eqn:E.
  - intros [= <- <-]. destruct (IH x eq_refl) as [-> ?]. done.
  - case_decide; [|done]. intros [= <- <-]. subst. split; [done|].
    clear IH. induction text as [|b text IH]; [set_solver|]. simpl in E.
    destruct (split_last c text) as [[x y]|]; [done|]. case_decide; [done|].
    specialize (IH eq_refl). set_solver.
Qed.

(** A text without blanks at its ends is what [trim_spaces] leaves. *)
Definition trimmed (text : bytes) : Prop :=
  from_option is_space_or_tab false (head text) = false ∧
  from_option is_trailing_blank false (last text) = false.

#[export] Instance trimmed_dec text : Decision (trimmed text).
Proof. unfold trimmed. apply _. Defined.

Lemma drop_while_id p text : from_option p false (head text) = false → drop_while p text = text.
Proof. destruct text; simpl; [done|]. by intros ->. Qed.

Lemma head_rev (l : bytes) : head (rev l) = last l.
Proof.
  induction l as [|x l IH] using rev_ind; [done|]. by rewrite rev_app_distr, last_snoc.
Qed.

Lemma trim_spaces_id text : trimmed text → trim_spaces text = text.
Proof.
  intros [Hf Hl]. unfold trim_spaces. rewrite (drop_while_id _ text) by done.
  rewrite drop_while_id by (by rewrite head_rev). apply rev_involutive.
Qed.

Lemma trim_spaces_front text : trim_spaces (byte_of 32 :: text) = trim_spaces text.
Proof. done. Qed.

Lemma drop_while_back p l b : p b = true →
  rev (drop_while p (rev (l ++ [b]))) = rev (drop_while p (rev l)).
Proof. intros Hb. rewrite rev_app_distr. simpl. by rewrite Hb. Qed.

Lemma trim_spaces_back text : trimmed text → trim_spaces (text ++ [byte_of 32]) = text.
Proof.
  intros Ht. destruct (decide (text = [])) as [->|Hne]; [done|].
  pose proof (trim_spaces_id text Ht) as Hid. destruct Ht as [Hf _]. unfold trim_spaces in *.
  rewrite (drop_while_id is_space_or_tab) by (by destruct text).
  rewrite (drop_while_id is_space_or_tab) in Hid by done.
  by rewrite drop_while_back.
Qed.

Lemma text_lines_split text :
  text_lines text = match split_first (byte_of 10) text with
                    | None => [text]
                    | Some (line, rest) => line :: text_lines rest
                    end.
Proof.
  induction text as [|b text IH]; [done|]. cbn [text_lines split_first]. case_decide; [done|].
  rewrite IH. by destruct (split_first (byte_of 10) text) as [[? ?]|].
Qed.

Lemma text_lines_join lines :
  Forall (λ line, byte_of 10 ∉ line) lines →
  text_lines (concat (map (λ line, line ++ newline) lines)) = lines ++ [[]].
Proof.
  induction 1 as [|line lines Hl _ IH]; [done|].
  cbn [map concat app]. rewrite <-(assoc app). rewrite text_lines_split.
  change (newline ++ ?x) with (byte_of 10 :: x). by rewrite split_first_eq, IH.
Qed.

Lemma getlines_join lines :
  Forall (λ line, byte_of 10 ∉ line) lines →
  getlines (concat (map (λ line, line ++ newline) lines)) = lines.
Proof.
  intros Hl. unfold getlines. rewrite text_lines_join by done. rewrite last_snoc, decide_True by done.
  rewrite length_app. simpl. by rewrite Nat.add_sub, take_app_length.
Qed.

Lemma newline_app (l k : bytes) : byte_of 10 ∉ l → byte_of 10 ∉ k → byte_of 10 ∉ l ++ k.
Proof. rewrite elem_of_app. by intros ? ? [?|?]. Qed.
