(* ===== verification/Hex.v ===== *)
(** Hexadecimal text (common/util/hex_codec.cpp): how keys are typed, printed
    and put into links. *)

From S2P Require Import Prelude.

Definition HEX_DIGITS : bytes := lit "0123456789abcdef".

Definition convert_hex_digit (character : byte) : option Z :=
  if in_range (chr "0") (chr "9") character then Some (byte_val character - chr "0")
  else if in_range (chr "a") (chr "f") character then Some (byte_val character - chr "a" + 10)
  else if in_range (chr "A") (chr "F") character then Some (byte_val character - chr "A" + 10)
  else None.

Definition hex_digit (value : Z) : byte := HEX_DIGITS !!! Z.to_nat value.

Fixpoint encode_hex (input : bytes) : bytes :=
  match input with
  | [] => []
  | b :: input' =>
      hex_digit (Z.shiftr (byte_val b) 4) :: hex_digit (Z.land (byte_val b) 0x0F) :: encode_hex input'
  end.

(** The loop over the pairs of digits. *)
Fixpoint decode_pairs (input : bytes) : option bytes :=
  match input with
  | [] => Some []
  | [_] => None
  | high :: low :: input' =>
      match convert_hex_digit high, convert_hex_digit low with
      | Some high, Some low =>
          match decode_pairs input' with
          | Some decoded => Some (byte_of (Z.lor (Z.shiftl high 4) low) :: decoded)
          | None => None
          end
      | _, _ => None
      end
  end.

Definition decode_hex (input : bytes) : option bytes :=
  if negb (size_of input mod 2 =? 0) then None else decode_pairs input.

(** ** Round trips *)

(** ASCII lower case. *)
Definition to_lower (b : byte) : byte :=
  if in_range (chr "A") (chr "Z") b then byte_of (byte_val b + 32) else b.

Lemma hex_digits_byte b :
  convert_hex_digit (hex_digit (Z.shiftr (byte_val b) 4)) = Some (Z.shiftr (byte_val b) 4) ∧
  convert_hex_digit (hex_digit (Z.land (byte_val b) 0x0F)) = Some (Z.land (byte_val b) 0x0F) ∧
  byte_of (Z.lor (Z.shiftl (Z.shiftr (byte_val b) 4) 4) (Z.land (byte_val b) 0x0F)) = b.
Proof. by destruct b; vm_compute. Qed.

(** Every pair of digits is read as the byte whose digits they are, in lower
    case. *)
Lemma pair_digits high low h l :
  convert_hex_digit high = Some h → convert_hex_digit low = Some l →
  let b := byte_of (Z.lor (Z.shiftl h 4) l) in
  hex_digit (Z.shiftr (byte_val b) 4) = to_lower high ∧ hex_digit (Z.land (byte_val b) 0x0F) = to_lower low.
Proof.
  assert (∀ c z, convert_hex_digit c = Some z → 0 <= z < 16 ∧ hex_digit z = to_lower c) as Hdigit.
  { intros c z. destruct c; vm_compute; intros [= <-]; by repeat split. }
  intros [Hh <-]%Hdigit [Hl <-]%Hdigit b. subst b. rewrite byte_val_of.
  assert (Z.lor (Z.shiftl h 4) l = 16 * h + l) as E.
  { rewrite Z.shiftl_mul_pow2 by lia. rewrite <-Z.add_nocarry_lor; [lia|].
    apply Z.bits_inj'. intros n Hn.
    rewrite Z.land_spec, Z.bits_0. destruct (Z.ltb_spec n 4).
    - by rewrite Z.mul_pow2_bits_low.
    - rewrite andb_comm. destruct (decide (l = 0)) as [->|]; [by rewrite Z.bits_0|].
      rewrite (Z.bits_above_log2 l); [done|lia|].
      pose proof (Z.log2_lt_pow2 l 4 ltac:(lia)). lia. }
  rewrite E, Z.mod_small by lia. split; f_equal.
  - rewrite Z.shiftr_div_pow2 by lia. change (2 ^ 4) with 16. symmetry. apply Z.div_unique with l; lia.
  - change 0x0F with (Z.ones 4). rewrite Z.land_ones by lia. change (2 ^ 4) with 16.
    symmetry. apply Z.mod_unique with h; lia.
Qed.

Lemma decode_pairs_encode input : decode_pairs (encode_hex input) = Some input.
Proof.
  induction input as [|b input IH]; [done|]. cbn [encode_hex decode_pairs].
  destruct (hex_digits_byte b) as (-> & -> & E). by rewrite IH, E.
Qed.

Lemma encode_hex_size input : size_of (encode_hex input) = 2 * size_of input.
Proof. unfold size_of. induction input as [|b input IH]; [done|]. simpl. lia. Qed.

Lemma decode_hex_encode input : decode_hex (encode_hex input) = Some input.
Proof.
  unfold decode_hex. rewrite encode_hex_size, Z.mul_comm, Z.mod_mul by lia. apply decode_pairs_encode.
Qed.

Lemma pairs_ind (P : bytes → Prop) :
  P [] → (∀ b, P [b]) → (∀ b c l, P l → P (b :: c :: l)) → ∀ l, P l.
Proof.
  intros H0 H1 H2. fix IH 1. intros [|b [|c l]]; [done|apply H1|]. apply H2, IH.
Qed.

Lemma encode_decode_pairs input out :
  decode_pairs input = Some out → encode_hex out = map to_lower input.
Proof.
  revert out. induction input as [|b|b c l IH] using pairs_ind; intros out E; simpl in E;
    simplify_eq; [done|].
  destruct (convert_hex_digit b) as [h|] eqn:Eh; [|done].
  destruct (convert_hex_digit c) as [lo|] eqn:El; [|done].
  destruct (decode_pairs l) as [decoded|] eqn:Ed; [|done]. injection E as <-.
  cbn [encode_hex map]. destruct (pair_digits b c h lo Eh El) as [-> ->].
  by rewrite (IH _ eq_refl).
Qed.

(** Decoding gives back what was encoded, at two characters per byte; and
    whatever decodes is, up to the case of its letters, the encoding of the
    result, so two texts that decode to the same bytes differ only in case. *)
Theorem hex_roundtrip (input : bytes) :
  decode_hex (encode_hex input) = Some input ∧
  size_of (encode_hex input) = 2 * size_of input ∧
  ∀ out, decode_hex input = Some out → encode_hex out = map to_lower input.
Proof.
  split_and!; [apply decode_hex_encode|apply encode_hex_size|].
  unfold decode_hex. intros out. destruct (negb _); [done|]. apply encode_decode_pairs.
Qed.
