(* ===== verification/RateLimit.v ===== *)
(** Rate limiting (server/net/rate_limiter, server/net/rate_tracker): one
    minute windows per address and per identity, shared by all connections,
    and their purge. *)

From S2P Require Import Prelude.

(** ** rate_limiter.cpp *)

Definition WINDOW_DURATION_SECONDS : Z := 60.
Definition EXPIRY_SECONDS : Z := 120.

Record rate_window := RateWindow { counter : Z; window_start : Z }.

(** A default-constructed [rate_window]. *)
Definition empty_window : rate_window := RateWindow 0 0.

(** [counter] and [window_start] are passed by reference: the result carries
    their new values. The subtraction is guarded by the comparison before it
    and the increment by the one after, so neither wraps. *)
Definition register_event (max_events_per_minute now : Z) (window : rate_window)
    : bool * rate_window :=
  if max_events_per_minute =? 0 then (true, window)
  else
    let window :=
      if (now <? window.(window_start))
         || (WINDOW_DURATION_SECONDS <=? now - window.(window_start))
      then RateWindow 0 now else window in
    if max_events_per_minute <=? window.(counter) then (false, window)
    else (true, RateWindow (window.(counter) + 1) window.(window_start)).

(** ** rate_tracker.cpp *)

Record rate_tracker := RateTracker {
  by_address : gmap bytes rate_window;
  by_identity : gmap Z rate_window;
}.

Definition empty_tracker : rate_tracker := RateTracker ∅ ∅.

(** The caps of the two limiters of a [rate_policy]; its tracker is the state
    the operations thread. *)
Record rate_policy := RatePolicy { per_address : Z; per_identity : Z }.

Section operations.
Context (policy : rate_policy).

(** [operator[]] of an [unordered_map]: a missing entry is a default one. *)
Definition allow_address_request (address : bytes) (now : Z) : state rate_tracker bool := λ tracker,
    let window := default empty_window (tracker.(by_address) !! address) in
    let '(allowed, window) := register_event policy.(per_address) now window in
    (allowed, RateTracker (<[address := window]> tracker.(by_address)) tracker.(by_identity)).

Definition allow_identity_request (user_id now : Z) : state rate_tracker bool := λ tracker,
    if user_id =? 0 then (true, tracker)
    else
      let window := default empty_window (tracker.(by_identity) !! user_id) in
      let '(allowed, window) := register_event policy.(per_identity) now window in
      (allowed, RateTracker tracker.(by_address) (<[user_id := window]> tracker.(by_identity))).
End operations.

Definition expired (now : Z) (window : rate_window) : bool :=
  (window.(window_start) <=? now) && (EXPIRY_SECONDS <=? now - window.(window_start)).

(** Erasing while iterating visits every entry once. *)
Definition keep_current {K} `{Countable K} (now : Z) (m : gmap K rate_window) : gmap K rate_window :=
  filter (λ kv, expired now kv.2 = false) m.

Definition forget_expired_windows (now : Z) (tracker : rate_tracker) : rate_tracker :=
  RateTracker (keep_current now tracker.(by_address)) (keep_current now tracker.(by_identity)).

(** ** Room

    A window has room for [n] events when that many more are let through,
    whenever they come. *)

Definition room (max : Z) (n : nat) (window : rate_window) : Prop :=
  max = 0 ∨ 0 <= counter window ∧ counter window + Z.of_nat n <= max.

#[export] Instance room_dec max n window : Decision (room max n window).
Proof. unfold room. apply _. Defined.

Lemma room_empty max n : max = 0 ∨ Z.of_nat n <= max → room max n empty_window.
Proof. unfold room. cbn. lia. Qed.

Lemma room_weaken max n n' window : (n' <= n)%nat → room max n window → room max n' window.
Proof. unfold room. lia. Qed.

Lemma room_used max n now window : room max (S n) window →
  ∃ window', register_event max now window = (true, window') ∧ room max n window'.
Proof.
  unfold register_event. destruct (Z.eqb_spec max 0) as [->|Hmax]; [intros _; eexists; split; [done|by left]|].
  intros [?|[Hc Hroom]]; [done|]. set (fresh := _ || _).
  assert (∃ w, (if fresh then RateWindow 0 now else window) = w ∧ 0 <= counter w ∧ counter w + 1 + Z.of_nat n <= max)
    as (w & -> & Hw & Hleft) by (destruct fresh; eexists; (split; [done|]); cbn; lia).
  rewrite (proj2 (Z.leb_gt _ _)) by lia. eexists. split; [done|]. right. cbn. lia.
Qed.

(** ** The cap over any minute

    [run_events] feeds a window the times of its events and collects, for
    each, the time and the verdict. *)

Fixpoint run_events (max : Z) (window : rate_window) (times : list Z) : list (Z * bool) :=
  match times with
  | [] => []
  | now :: times' =>
      let '(allowed, window') := register_event max now window in
      (now, allowed) :: run_events max window' times'
  end.

(** The events let through in the minute that starts at [t]. *)
Fixpoint allowed_in_minute (t : Z) (events : list (Z * bool)) : Z :=
  match events with
  | [] => 0
  | (now, allowed) :: events' =>
      (if allowed && (t <=? now) && (now <? t + 60) then 1 else 0) +
      allowed_in_minute t events'
  end.

Fixpoint nondecreasing (from : Z) (times : list Z) : Prop :=
  match times with
  | [] => True
  | now :: times' => from <= now ∧ nondecreasing now times'
  end.

#[export] Instance nondecreasing_dec from times : Decision (nondecreasing from times).
Proof. revert from. induction times; intros; simpl; apply _. Defined.

Lemma nondecreasing_weaken from from' times :
  from' <= from → nondecreasing from times → nondecreasing from' times.
Proof. destruct times; simpl; [done|]. intros ? []. split; [lia|done]. Qed.

Ltac event_cases :=
  unfold register_event, WINDOW_DURATION_SECONDS in *;
  repeat match goal with
  | |- context [?a =? ?b] => destruct (Z.eqb_spec a b)
  | |- context [?a <? ?b] => destruct (Z.ltb_spec a b)
  | |- context [?a <=? ?b] => destruct (Z.leb_spec a b)
  | H : context [?a =? ?b] |- _ => destruct (Z.eqb_spec a b)
  | H : context [?a <? ?b] |- _ => destruct (Z.ltb_spec a b)
  | H : context [?a <=? ?b] |- _ => destruct (Z.leb_spec a b)
  end; simplify_eq/=; try lia; try done.

Section bound.
Context (max : Z) (Hmax : 0 < max).

(** One event, by the cases that matter: a new window or the current one. *)
Lemma register_event_cases now w allowed w' :
    register_event max now w = (allowed, w') → window_start w <= now → 0 <= counter w <= max →
    0 <= counter w' <= max ∧
    ((window_start w' = now ∧ window_start w + 60 <= now ∧ counter w' = 1 ∧ allowed = true) ∨
     (window_start w' = window_start w ∧ now < window_start w + 60 ∧
      counter w' = counter w + (if allowed then 1 else 0))).
  Proof. intros E Hs Hc. event_cases. Qed.

Lemma allowed_after (t : Z) w times :
    nondecreasing (t + 60) times → allowed_in_minute t (run_events max w times) = 0.
  Proof.
    revert w. induction times as [|now times IH]; intros w; simpl; [done|].
    intros [Hn Hs]. destruct (register_event max now w) as [a w']. simpl.
    rewrite IH by (eapply nondecreasing_weaken; [|done]; lia).
    destruct (Z.ltb_spec now (t + 60)); [lia|]. by rewrite andb_false_r.
  Qed.

(** A window that started within the minute is the last one in it. *)
Lemma allowed_inside (t : Z) w times :
    t <= window_start w → 0 <= counter w <= max → nondecreasing (window_start w) times →
    ∀ now0, window_start w <= now0 → nondecreasing now0 times →
    allowed_in_minute t (run_events max w times) <= max - counter w.
  Proof.
    revert w. induction times as [|now times IH]; intros w Ht Hc Hs now0 Hn0 Hs0; simpl; [lia|].
    simpl in Hs, Hs0. destruct Hs as [Hn Hs], Hs0 as [Hn' _].
    destruct (Z.lt_ge_cases now (t + 60)) as [Hin|Hout].
    - destruct (register_event max now w) as [a w'] eqn:E.
      destruct (register_event_cases _ _ _ _ E Hn Hc) as [Hc' [(?&?&?&?)|(Es & ? & Ec)]]; [lia|].
      simpl. specialize (IH w' ltac:(lia) Hc'
        ltac:(eapply nondecreasing_weaken; [|done]; lia) now ltac:(lia) Hs).
      rewrite Ec in IH. destruct a; simpl; [|lia].
      destruct (_ && _); lia.
    - pose proof (allowed_after t w (now :: times) (conj Hout Hs)) as H0.
      simpl in H0. rewrite H0. lia.
  Qed.

Lemma allowed_from (t : Z) w times :
    0 <= counter w <= max → nondecreasing (window_start w) times → nondecreasing t times →
    allowed_in_minute t (run_events max w times) <= (max - counter w) + max.
  Proof.
    revert w. induction times as [|now times IH]; intros w Hc Hn Ht; simpl; [lia|].
    destruct Hn as [Hn Hs], Ht as [Ht _].
    destruct (register_event max now w) as [a w'] eqn:E.
    destruct (register_event_cases _ _ _ _ E Hn Hc) as [Hc' [(Es&?&Ec&->)|(Es & ? & Ec)]]; simpl.
    - pose proof (allowed_inside t w' times ltac:(lia) Hc' ltac:(by rewrite Es) now ltac:(lia) Hs).
      destruct (_ && _); lia.
    - specialize (IH w' Hc' ltac:(eapply nondecreasing_weaken; [|done]; lia)
        ltac:(eapply nondecreasing_weaken; [|done]; lia)).
      rewrite Ec in IH. destruct a; simpl; [|lia]. destruct (_ && _); lia.
  Qed.

Lemma allowed_ever (t : Z) w times :
    0 <= counter w <= max → nondecreasing (window_start w) times →
    allowed_in_minute t (run_events max w times) <= 2 * max.
  Proof.
    revert w. induction times as [|now times IH]; intros w Hc Hn; [simpl; lia|].
    destruct Hn as [Hn Hs].
    destruct (Z.le_gt_cases t now).
    - pose proof (allowed_from t w (now :: times) Hc (conj Hn Hs) (conj H Hs)). lia.
    - simpl. destruct (register_event max now w) as [a w'] eqn:E. simpl.
      destruct (Z.leb_spec t now); [lia|]. rewrite andb_false_r. simpl.
      destruct (register_event_cases _ _ _ _ E Hn Hc) as [Hc' Hcase].
      apply IH; [done|]. eapply nondecreasing_weaken; [|exact Hs]. lia.
  Qed.
End bound.

(** ** Sequences of requests against the shared tables *)

Inductive rate_op :=
  | AddressRequest (address : bytes) (now : Z)
  | IdentityRequest (user_id : Z) (now : Z)
  | Purge (now : Z).

Definition op_time (op : rate_op) : Z :=
  match op with AddressRequest _ now | IdentityRequest _ now | Purge now => now end.

Section traces.
Context (policy : rate_policy).

(** A verdict per request, none for a purge. *)
Definition rate_step (op : rate_op) : state rate_tracker (option bool) :=
    match op with
    | AddressRequest address now => let* ok := allow_address_request policy address now in sret (Some ok)
    | IdentityRequest user_id now => let* ok := allow_identity_request policy user_id now in sret (Some ok)
    | Purge now => do* smodify (forget_expired_windows now) in sret None
    end.

Fixpoint rate_run (ops : list rate_op) (tracker : rate_tracker) : list (rate_op * option bool) :=
    match ops with
    | [] => []
    | op :: ops' =>
        let '(verdict, tracker') := rate_step op tracker in
        (op, verdict) :: rate_run ops' tracker'
    end.
End traces.

(** The requests of one address, or of one identity, with their verdicts. *)
Fixpoint address_events (address : bytes) (events : list (rate_op * option bool)) : list (Z * bool) :=
  match events with
  | [] => []
  | (AddressRequest address' now, Some allowed) :: events' =>
      if decide (address' = address) then (now, allowed) :: address_events address events'
      else address_events address events'
  | _ :: events' => address_events address events'
  end.

Fixpoint identity_events (user_id : Z) (events : list (rate_op * option bool)) : list (Z * bool) :=
  match events with
  | [] => []
  | (IdentityRequest user_id' now, Some allowed) :: events' =>
      if decide (user_id' = user_id) then (now, allowed) :: identity_events user_id events'
      else identity_events user_id events'
  | _ :: events' => identity_events user_id events'
  end.

Fixpoint address_times (address : bytes) (ops : list rate_op) : list Z :=
  match ops with
  | [] => []
  | AddressRequest address' now :: ops' =>
      if decide (address' = address) then now :: address_times address ops'
      else address_times address ops'
  | _ :: ops' => address_times address ops'
  end.

Fixpoint identity_times (user_id : Z) (ops : list rate_op) : list Z :=
  match ops with
  | [] => []
  | IdentityRequest user_id' now :: ops' =>
      if decide (user_id' = user_id) then now :: identity_times user_id ops'
      else identity_times user_id ops'
  | _ :: ops' => identity_times user_id ops'
  end.

Definition ordered (from : Z) (ops : list rate_op) : Prop := nondecreasing from (map op_time ops).

Definition is_purge (op : rate_op) : bool := match op with Purge _ => true | _ => false end.
Definition without_purges (ops : list rate_op) : list rate_op :=
  List.filter (λ op, negb (is_purge op)) ops.

(** *** Windows no later event can tell apart *)

Definition stale (now : Z) (w : rate_window) : Prop := window_start w + 60 <= now.
Definition interchangeable (now : Z) (w w' : rate_window) : Prop :=
  w = w' ∨ (stale now w ∧ stale now w').

Lemma run_events_interchangeable max now w w' times :
  0 <= max → interchangeable now w w' → nondecreasing now times →
  run_events max w times = run_events max w' times.
Proof.
  intros Hmax. revert now w w'. induction times as [|now' times IH]; intros now w w' Hw Ht; [done|].
  destruct Ht as [Hn Ht]. destruct Hw as [->|[H1 H2]]; [done|]. unfold stale in *.
  destruct (Z.eq_dec max 0) as [->|Hnz].
  - simpl. f_equal. apply (IH now'); [|done]. right. unfold stale. lia.
  - assert (∀ u, window_start u + 60 <= now →
      register_event max now' u = (true, RateWindow 1 now')) as Hreset.
    { intros u Hu. event_cases. }
    simpl. by rewrite (Hreset w H1), (Hreset w' H2).
Qed.

Lemma purged_interchangeable {K} `{Countable K} now (m : gmap K rate_window) k :
  (∀ w, m !! k = Some w → 0 <= window_start w) →
  interchangeable now (default empty_window (keep_current now m !! k))
    (default empty_window (m !! k)).
Proof.
  intros Hpos. unfold keep_current. rewrite map_lookup_filter.
  destruct (m !! k) as [w|] eqn:Ek; [|by left].
  simpl. destruct (expired now w) eqn:E; simpl; [|by left]. right. unfold expired in E.
  apply andb_true_iff in E as [E1%Z.leb_le E2%Z.leb_le]. specialize (Hpos w eq_refl).
  unfold EXPIRY_SECONDS, stale in *. simpl. lia.
Qed.

Lemma keep_current_subset {K} `{Countable K} now (m : gmap K rate_window) k w :
  keep_current now m !! k = Some w → m !! k = Some w.
Proof. unfold keep_current. by intros [? _]%map_lookup_filter_Some. Qed.

(** Window starts are times of the past. *)
Definition started (tracker : rate_tracker) : Prop :=
  (∀ k w, by_address tracker !! k = Some w → 0 <= window_start w) ∧
  (∀ k w, by_identity tracker !! k = Some w → 0 <= window_start w).

Lemma register_event_started max now w : 0 <= now → 0 <= window_start w →
  0 <= window_start (register_event max now w).2.
Proof. intros. event_cases. Qed.

Lemma default_started (o : option rate_window) :
  (∀ w, o = Some w → 0 <= window_start w) → 0 <= window_start (default empty_window o).
Proof. destruct o; simpl; eauto. done. Qed.

Lemma address_times_ordered a ops now :
  ordered now ops → nondecreasing now (address_times a ops).
Proof.
  revert now. induction ops as [|op ops IH]; intros now; [done|]. intros [Hn Ho].
  pose proof (IH now (nondecreasing_weaken _ _ _ Hn Ho)).
  destruct op as [a' n'|u n'|n']; simpl in *; try done.
  destruct (decide (a' = a)); [|done]. split; [done|]. by apply IH.
Qed.

Lemma identity_times_ordered u ops now :
  ordered now ops → nondecreasing now (identity_times u ops).
Proof.
  revert now. induction ops as [|op ops IH]; intros now; [done|]. intros [Hn Ho].
  pose proof (IH now (nondecreasing_weaken _ _ _ Hn Ho)).
  destruct op as [a n'|u' n'|n']; simpl in *; try done.
  destruct (decide (u' = u)); [|done]. split; [done|]. by apply IH.
Qed.

Lemma without_purges_ordered now ops : ordered now ops → ordered now (without_purges ops).
Proof.
  revert now. induction ops as [|op ops IH]; intros now; [done|]. intros [Hn Ho]. simpl.
  destruct (is_purge op); simpl; [|split; [done|by apply IH]].
  apply IH. by eapply nondecreasing_weaken.
Qed.

Lemma address_times_purges a ops : address_times a (without_purges ops) = address_times a ops.
Proof. induction ops as [|[] ops IH]; simpl; [done|by rewrite IH|done..]. Qed.

Lemma identity_times_purges u ops : identity_times u (without_purges ops) = identity_times u ops.
Proof. induction ops as [|[] ops IH]; simpl; [done|done|by rewrite IH|done]. Qed.

Lemma empty_tracker_started : started empty_tracker.
Proof. split; intros k w; simpl; by rewrite lookup_empty. Qed.

Section projections.
Context (policy : rate_policy).
Hypothesis Hpolicy : 0 <= per_address policy ∧ 0 <= per_identity policy.

Lemma rate_step_started op tracker : 0 <= op_time op → started tracker →
    started (rate_step policy op tracker).2.
  Proof.
    intros Ht [Ha Hi]. destruct op as [a now|u now|now]; simpl in *.
    - unfold sbind, allow_address_request.
      pose proof (register_event_started (per_address policy) now _ Ht
        (default_started (by_address tracker !! a) (Ha a))).
      destruct (register_event _ _ _) as [ok w]. simpl in *. split; simpl; [|done].
      intros k w' [[<- <-]|[? ?]]%lookup_insert_Some; eauto.
    - unfold sbind, allow_identity_request. destruct (u =? 0); [done|].
      pose proof (register_event_started (per_identity policy) now _ Ht
        (default_started (by_identity tracker !! u) (Hi u))).
      destruct (register_event _ _ _) as [ok w]. simpl in *. split; simpl; [done|].
      intros k w' [[<- <-]|[? ?]]%lookup_insert_Some; eauto.
    - split; simpl; intros k w Hw%keep_current_subset; eauto.
  Qed.

(** The verdicts an address gets are those of one window fed its requests,
    whatever the other addresses, the identities and the purges do. *)
Lemma address_events_run a ops from tracker :
    0 <= from → ordered from ops → started tracker →
    address_events a (rate_run policy ops tracker) =
      run_events (per_address policy) (default empty_window (by_address tracker !! a))
        (address_times a ops).
  Proof.
    revert from tracker. induction ops as [|op ops IH]; intros from tracker Hf Ho Hs; [done|].
    destruct Ho as [Hn Ho]. pose proof (rate_step_started op tracker ltac:(lia) Hs) as Hs'.
    assert (0 <= op_time op) as Hpos by lia.
    destruct op as [a' now|u now|now]; simpl in *; unfold sbind in *.
    - unfold allow_address_request in *.
      destruct (register_event _ _ _) as [ok w] eqn:E. simpl in *.
      rewrite (IH _ _ Hpos Ho Hs'). simpl. destruct (decide (a' = a)) as [->|Hne].
      + rewrite lookup_insert_eq. simpl. by rewrite E.
      + by rewrite lookup_insert_ne.
    - unfold allow_identity_request in *. destruct (u =? 0); simpl in *; [by eapply IH|].
      destruct (register_event _ _ _) as [ok w]. simpl in *. by rewrite (IH _ _ Hpos Ho Hs').
    - rewrite (IH _ _ Hpos Ho Hs'). simpl.
      apply (run_events_interchangeable _ now); [apply Hpolicy| |].
      + apply purged_interchangeable. intros w. apply Hs.
      + by apply address_times_ordered.
  Qed.

Lemma identity_events_run u ops from tracker : u ≠ 0 →
    0 <= from → ordered from ops → started tracker →
    identity_events u (rate_run policy ops tracker) =
      run_events (per_identity policy) (default empty_window (by_identity tracker !! u))
        (identity_times u ops).
  Proof.
    intros Hu. revert from tracker. induction ops as [|op ops IH]; intros from tracker Hf Ho Hs; [done|].
    destruct Ho as [Hn Ho]. pose proof (rate_step_started op tracker ltac:(lia) Hs) as Hs'.
    assert (0 <= op_time op) as Hpos by lia.
    destruct op as [a now|u' now|now]; simpl in *; unfold sbind in *.
    - unfold allow_address_request in *. destruct (register_event _ _ _) as [ok w]. simpl in *.
      by rewrite (IH _ _ Hpos Ho Hs').
    - unfold allow_identity_request in *. destruct (Z.eqb_spec u' 0) as [->|Hu'].
      + simpl in *. rewrite !decide_False by done. by eapply IH.
      + destruct (register_event _ _ _) as [ok w] eqn:E. simpl in *.
        rewrite (IH _ _ Hpos Ho Hs'). simpl. destruct (decide (u' = u)) as [->|Hne].
        * rewrite lookup_insert_eq. simpl. by rewrite E.
        * by rewrite lookup_insert_ne.
    - rewrite (IH _ _ Hpos Ho Hs'). simpl.
      apply (run_events_interchangeable _ now); [apply Hpolicy| |].
      + apply purged_interchangeable. intros w. apply Hs.
      + by apply identity_times_ordered.
  Qed.
End projections.

(** ** The promises of the rate limit *)

(** C34: over any sequence of requests and purges, in the order of the clock,
    the server lets through at most twice the configured cap in any period of
    sixty seconds: for an address, whatever connections its requests come
    from, and for an identity. The caps are positive: a cap of 0 is the
    configuration's way of saying that there is no limit. *)
Theorem rate_limit_bound (policy : rate_policy) (ops : list rate_op) (t : Z)
    (Haddress : 0 < per_address policy) (Hidentity : 0 < per_identity policy)
    (Hordered : ordered 0 ops) :
  (∀ address, allowed_in_minute t (address_events address (rate_run policy ops empty_tracker))
     <= 2 * per_address policy) ∧
  (∀ user_id, user_id ≠ 0 →
     allowed_in_minute t (identity_events user_id (rate_run policy ops empty_tracker))
       <= 2 * per_identity policy).
Proof.
  split.
  - intros a. erewrite address_events_run; [|lia|done|done|apply empty_tracker_started].
    simpl. rewrite lookup_empty. apply allowed_ever; simpl; [lia|lia|by apply address_times_ordered].
  - intros u Hu. erewrite identity_events_run; [|lia|done|done|done|apply empty_tracker_started].
    simpl. rewrite lookup_empty. apply allowed_ever; simpl; [lia|lia|by apply identity_times_ordered].
Qed.

Lemma rate_limit_bound_witness :
  allowed_in_minute 50
    (address_events (lit "10.0.0.1")
       (rate_run (RatePolicy 1 1)
          [AddressRequest (lit "10.0.0.1") 58; AddressRequest (lit "10.0.0.1") 59;
           AddressRequest (lit "10.0.0.1") 100; Purge 101] empty_tracker)) <= 2.
Proof.
  apply (rate_limit_bound (RatePolicy 1 1)
    [AddressRequest (lit "10.0.0.1") 58; AddressRequest (lit "10.0.0.1") 59;
     AddressRequest (lit "10.0.0.1") 100; Purge 101] 50); [reflexivity|reflexivity|].
  unfold ordered. simpl. lia.
Defined.

(** Forgetting expired windows is invisible: the verdict of every request
    is the one it gets when no window is ever forgotten. *)
Theorem purge_is_invisible (policy : rate_policy) (ops : list rate_op)
    (Haddress : 0 <= per_address policy) (Hidentity : 0 <= per_identity policy)
    (Hordered : ordered 0 ops) :
  (∀ address, address_events address (rate_run policy ops empty_tracker) =
     address_events address (rate_run policy (without_purges ops) empty_tracker)) ∧
  (∀ user_id, user_id ≠ 0 →
     identity_events user_id (rate_run policy ops empty_tracker) =
       identity_events user_id (rate_run policy (without_purges ops) empty_tracker)).
Proof.
  pose proof (without_purges_ordered _ _ Hordered). pose proof empty_tracker_started.
  split.
  - intros a. rewrite !(address_events_run policy (conj Haddress Hidentity) a _ 0) by done.
    by rewrite address_times_purges.
  - intros u Hu. rewrite !(identity_events_run policy (conj Haddress Hidentity) u _ 0) by done.
    by rewrite identity_times_purges.
Qed.

Lemma purge_is_invisible_witness :
  address_events (lit "a")
    (rate_run (RatePolicy 1 1) [AddressRequest (lit "a") 1; Purge 130; AddressRequest (lit "a") 131]
       empty_tracker) = [(1, true); (131, true)].
Proof.
  rewrite (proj1 (purge_is_invisible (RatePolicy 1 1)
    [AddressRequest (lit "a") 1; Purge 130; AddressRequest (lit "a") 131]
    ltac:(vm_compute; discriminate) ltac:(vm_compute; discriminate)
    ltac:(unfold ordered; simpl; lia)) (lit "a")).
  vm_compute. reflexivity.
Defined.

(** After a purge the tables hold no window that has been closed for two
    minutes: no trace of an address outlives its last request by more. *)
Theorem purge_forgets (now : Z) (tracker : rate_tracker) (address : bytes) (w : rate_window) :
  by_address (forget_expired_windows now tracker) !! address = Some w ↔
  by_address tracker !! address = Some w ∧ (now < window_start w ∨ now - window_start w < 120).
Proof.
  simpl. unfold keep_current. rewrite map_lookup_filter_Some. simpl.
  unfold expired, EXPIRY_SECONDS.
  destruct (Z.leb_spec (window_start w) now), (Z.leb_spec 120 (now - window_start w)); simpl;
    intuition (try done; lia).
Qed.
