(* ===== verification/Sodium.v ===== *)
(** libsodium as the program sees it: the primitives it calls are the fields
    of the class [Sodium], the documented behaviour the proofs rely on is the
    class [SodiumLaws], and [toy_sodium] is a concrete (insecure) instance
    that satisfies the laws, for evaluating the model. *)

From S2P Require Import Prelude.

(** ** key_types.hpp *)

Definition ED25519_PUBLIC_KEY_SIZE : Z := 32.
Definition ED25519_SECRET_KEY_SIZE : Z := 64.
Definition ED25519_SIGNATURE_SIZE : Z := 64.
Definition X25519_PUBLIC_KEY_SIZE : Z := 32.
Definition X25519_SECRET_KEY_SIZE : Z := 32.
Definition SYMMETRIC_KEY_SIZE : Z := 32.
Definition CHACHA_IETF_NONCE_SIZE : Z := 12.
Definition XCHACHA_NONCE_SIZE : Z := 24.
Definition AEAD_TAG_SIZE : Z := 16.
Definition ARGON2ID_SALT_SIZE : Z := 16.
Definition ED25519_SEED_SIZE : Z := 32.

(** ** The primitives *)

(** A result of [None] is a nonzero return value. *)
Class Sodium := {
  crypto_hash_sha256 : bytes → bytes;
  (** key, then the concatenation of the updates *)
  crypto_auth_hmacsha256 : bytes → bytes → option bytes;
  (** key, nonce, associated data, message *)
  crypto_aead_encrypt : bytes → bytes → bytes → bytes → option bytes;
  crypto_aead_decrypt : bytes → bytes → bytes → bytes → option bytes;
  (** secret key, public key *)
  crypto_scalarmult : bytes → bytes → option bytes;
  (** signature, message, public key *)
  crypto_sign_verify_detached : bytes → bytes → bytes → bool;
  (** message, secret key *)
  crypto_sign_detached : bytes → bytes → option bytes;
  (** the public and the secret key of a seed *)
  crypto_sign_seed_keypair : bytes → option (bytes * bytes);
  crypto_sign_ed25519_pk_to_curve25519 : bytes → option bytes;
  crypto_sign_ed25519_sk_to_curve25519 : bytes → option bytes;
  crypto_scalarmult_base : bytes → option bytes;
  (** XChaCha20-Poly1305: key, nonce, associated data, message *)
  crypto_xaead_encrypt : bytes → bytes → bytes → bytes → option bytes;
  crypto_xaead_decrypt : bytes → bytes → bytes → bytes → option bytes;
  (** Argon2id: passphrase, salt, operations, memory in bytes *)
  crypto_pwhash : bytes → bytes → Z → Z → option bytes;
  crypto_pwhash_OPSLIMIT_MODERATE : Z;
  crypto_pwhash_MEMLIMIT_MODERATE : Z;
}.

(** The keypairs [crypto_box_keypair] draws: a public and a secret key such
    that any two of them agree on a shared secret. *)
Definition agree `{Sodium} (public secret public' secret' : bytes) : Prop :=
  ∃ shared, crypto_scalarmult secret public' = Some shared ∧
            crypto_scalarmult secret' public = Some shared.

Class SodiumLaws `{Sodium} := {
  sha256_size message : size_of (crypto_hash_sha256 message) = 32;
  hmac_total key message : size_of key = 32 →
    ∃ tag, crypto_auth_hmacsha256 key message = Some tag ∧ size_of tag = 32;
  aead_encrypt_total key nonce ad message : size_of key = 32 → size_of nonce = 12 →
    ∃ sealed, crypto_aead_encrypt key nonce ad message = Some sealed ∧
              size_of sealed = size_of message + AEAD_TAG_SIZE;
  aead_decrypt_encrypt key nonce ad message sealed :
    crypto_aead_encrypt key nonce ad message = Some sealed →
    crypto_aead_decrypt key nonce ad sealed = Some message;
  aead_decrypt_sound key nonce ad message sealed :
    crypto_aead_decrypt key nonce ad sealed = Some message →
    crypto_aead_encrypt key nonce ad message = Some sealed;
  sign_verifies seed public secret message signature :
    crypto_sign_seed_keypair seed = Some (public, secret) →
    crypto_sign_detached message secret = Some signature →
    crypto_sign_verify_detached signature message public = true;
  (** the secret key is the seed followed by the public key *)
  seed_keypair_shape seed public secret :
    crypto_sign_seed_keypair seed = Some (public, secret) →
    secret = seed ++ public ∧ size_of public = 32;
  (** an identity converts to a pair of X25519 keys *)
  curve25519_converts seed public secret :
    crypto_sign_seed_keypair seed = Some (public, secret) →
    ∃ x px, crypto_sign_ed25519_sk_to_curve25519 secret = Some x ∧
            crypto_sign_ed25519_pk_to_curve25519 public = Some px ∧ crypto_scalarmult_base x = Some px;
  (** Diffie-Hellman *)
  scalarmult_agrees x px y py :
    crypto_scalarmult_base x = Some px → crypto_scalarmult_base y = Some py →
    crypto_scalarmult x py = crypto_scalarmult y px;
  scalarmult_base_size x px : crypto_scalarmult_base x = Some px → size_of px = 32;
  xaead_encrypt_size key nonce ad message sealed :
    crypto_xaead_encrypt key nonce ad message = Some sealed →
    size_of sealed = size_of message + AEAD_TAG_SIZE;
  xaead_decrypt_encrypt key nonce ad message sealed :
    crypto_xaead_encrypt key nonce ad message = Some sealed →
    crypto_xaead_decrypt key nonce ad sealed = Some message;
  xaead_decrypt_sound key nonce ad message sealed :
    crypto_xaead_decrypt key nonce ad sealed = Some message →
    crypto_xaead_encrypt key nonce ad message = Some sealed;
  xaead_encrypt_total key nonce ad message : size_of key = 32 → size_of nonce = 24 →
    ∃ sealed, crypto_xaead_encrypt key nonce ad message = Some sealed;
  (** a failure is a lack of memory; otherwise the key has the size asked for *)
  pwhash_size passphrase salt operations memory key :
    crypto_pwhash passphrase salt operations memory = Some key → size_of key = 32;
  pwhash_limits : u32 crypto_pwhash_OPSLIMIT_MODERATE ∧
    u32 (crypto_pwhash_MEMLIMIT_MODERATE / 1024) ∧ crypto_pwhash_MEMLIMIT_MODERATE mod 1024 = 0;
}.

(** ** A concrete instance *)

Definition pad (n : nat) (l : bytes) : bytes := take n (l ++ replicate n Byte.x00).

Lemma length_pad n l : length (pad n l) = n.
Proof. unfold pad. rewrite length_take, length_app, length_replicate. lia. Qed.

Definition add_bytes (l k : bytes) : bytes :=
  zip_with (λ b c, byte_of (byte_val b + byte_val c)) l k.

Definition toy_tag (key nonce ad message : bytes) : bytes :=
  pad 16 (add_bytes key (pad 16 (nonce ++ take 4 message))).

Definition toy_sodium : Sodium := {|
  crypto_hash_sha256 message :=
    foldl (λ acc b, pad 32 (byte_of (byte_val (acc !!! 31%nat) + byte_val b) :: acc)) (pad 32 []) message;
  crypto_auth_hmacsha256 key message := Some (pad 32 (add_bytes (pad 32 key) (pad 32 message)));
  crypto_aead_encrypt key nonce ad message := Some (message ++ toy_tag key nonce ad message);
  crypto_aead_decrypt key nonce ad sealed :=
    let message := take (length sealed - 16) sealed in
    if decide (sealed = message ++ toy_tag key nonce ad message) then Some message else None;
  crypto_scalarmult secret public := Some (pad 32 (add_bytes (pad 32 secret) (pad 32 public)));
  crypto_sign_verify_detached signature message public :=
    bool_decide (signature = pad 64 (public ++ message));
  crypto_sign_detached message secret := Some (pad 64 (drop 32 secret ++ message));
  crypto_sign_seed_keypair seed :=
    if decide (length seed = 32%nat) then Some (seed, seed ++ seed) else None;
  crypto_sign_ed25519_pk_to_curve25519 public := Some public;
  crypto_sign_ed25519_sk_to_curve25519 secret := Some (take 32 secret);
  crypto_scalarmult_base secret := Some (pad 32 secret);
  crypto_xaead_encrypt key nonce ad message := Some (message ++ toy_tag key nonce ad message);
  crypto_xaead_decrypt key nonce ad sealed :=
    let message := take (length sealed - 16) sealed in
    if decide (sealed = message ++ toy_tag key nonce ad message) then Some message else None;
  crypto_pwhash passphrase salt operations memory :=
    Some (pad 32 (add_bytes (pad 32 passphrase) (pad 32 salt)));
  crypto_pwhash_OPSLIMIT_MODERATE := 3;
  crypto_pwhash_MEMLIMIT_MODERATE := 268435456;
|}.

Lemma toy_decrypt_encrypt key nonce ad message sealed :
  Some (message ++ toy_tag key nonce ad message) = Some sealed →
  (let message := take (length sealed - 16) sealed in
   if decide (sealed = message ++ toy_tag key nonce ad message) then Some message else None) = Some message.
Proof.
  intros [= <-]. cbv zeta.
  rewrite take_app_exact by (unfold toy_tag; rewrite length_app, length_pad; lia).
  by rewrite decide_True.
Qed.

Lemma toy_decrypt_sound key nonce ad message sealed :
  (let message := take (length sealed - 16) sealed in
   if decide (sealed = message ++ toy_tag key nonce ad message) then Some message else None) = Some message →
  Some (message ++ toy_tag key nonce ad message) = Some sealed.
Proof. cbv zeta. case_decide as E; [|done]. intros [= Em]. by rewrite <-Em, <-E. Qed.

Lemma pad_id n l : length l = n → pad n l = l.
Proof. intros <-. unfold pad. by rewrite take_app_length. Qed.

Lemma add_bytes_comm l k : add_bytes l k = add_bytes k l.
Proof.
  unfold add_bytes. revert k. induction l as [|b l IH]; intros [|c k]; simpl; try done.
  f_equal; [f_equal; lia|apply IH].
Qed.

Lemma toy_sodium_laws : @SodiumLaws toy_sodium.
Proof.
  split; simpl.
  - intros message. unfold size_of.
    enough (∀ acc : bytes, length acc = 32%nat → length (foldl (λ acc b,
      pad 32 (byte_of (byte_val (acc !!! 31%nat) + byte_val b) :: acc)) acc message) = 32%nat) as H.
    { rewrite H; [done|apply length_pad]. }
    induction message as [|b message IH]; intros acc Hacc; [done|]. apply IH, length_pad.
  - intros key message _. eexists. split; [done|]. unfold size_of. by rewrite length_pad.
  - intros key nonce ad message _ _. eexists. split; [done|].
    unfold size_of, toy_tag. rewrite length_app, length_pad. unfold AEAD_TAG_SIZE. lia.
  - intros. by apply toy_decrypt_encrypt.
  - intros. by apply toy_decrypt_sound.
  - intros seed public secret message signature. case_decide as Hseed; [|done]. intros [= <- <-] [= <-].
    by rewrite drop_app_exact, bool_decide_true.
  - intros seed public secret. case_decide as Hseed; [|done]. intros [= <- <-].
    split; [done|]. unfold size_of. lia.
  - intros seed public secret. case_decide as Hseed; [|done]. intros [= <- <-].
    exists seed, seed. by rewrite take_app_exact, pad_id.
  - intros x px y py [= <-] [= <-]. rewrite !(pad_id 32 (pad 32 _)) by apply length_pad.
    by rewrite add_bytes_comm.
  - intros x px [= <-]. unfold size_of. by rewrite length_pad.
  - intros key nonce ad message sealed [= <-]. unfold size_of, toy_tag. rewrite length_app, length_pad.
    unfold AEAD_TAG_SIZE. lia.
  - intros. by apply toy_decrypt_encrypt.
  - intros. by apply toy_decrypt_sound.
  - intros. by eexists.
  - intros passphrase salt operations memory key [= <-]. unfold size_of. by rewrite length_pad.
  - repeat split; vm_compute; congruence.
Qed.

Lemma toy_agree p p' : @agree toy_sodium p p p' p'.
Proof.
  eexists. split; [reflexivity|]. simpl. do 2 f_equal. apply add_bytes_comm.
Qed.

(** ** secure_memory.cpp *)

Definition wipe_bytes (destination : bytes) : bytes := replicate (length destination) Byte.x00.

(** ** signature_verifier.cpp, x25519_exchange.cpp *)

Section wrappers.
Context `{Sodium}.

Definition verify_signature (public_key message signature : bytes) : bool :=
  crypto_sign_verify_detached signature message public_key.

Definition compute_shared_secret (secret_key peer_public_key : bytes) : option bytes :=
  crypto_scalarmult secret_key peer_public_key.

(** ** hkdf_sha256.cpp *)

Definition compute_hmac (key first_part second_part : bytes) : option bytes :=
  crypto_auth_hmacsha256 key (first_part ++ second_part).

Definition extract_pseudo_random_key (salt input_key_material : bytes) : option bytes :=
  if SYMMETRIC_KEY_SIZE <? size_of salt then None
  else compute_hmac (salt ++ replicate (32 - length salt) Byte.x00) input_key_material [].

Definition expand_key_block (pseudo_random_key info : bytes) (block_index : Z) : option bytes :=
  compute_hmac pseudo_random_key info [byte_of block_index].

Definition derive_key_pair (chaining_key input_key_material : bytes) : option (bytes * bytes) :=
  match compute_hmac chaining_key input_key_material [] with
  | None => None
  | Some temporary_key =>
      match expand_key_block temporary_key [] 1 with
      | None => None
      | Some first =>
          match expand_key_block temporary_key first 2 with
          | None => None
          | Some second => Some (first, second)
          end
      end
  end.

Lemma derive_key_pair_total `{!SodiumLaws} ck ikm : size_of ck = 32 →
  ∃ k1 k2, derive_key_pair ck ikm = Some (k1, k2) ∧ size_of k1 = 32 ∧ size_of k2 = 32.
Proof.
  intros Hck. unfold derive_key_pair, expand_key_block, compute_hmac.
  destruct (hmac_total ck (ikm ++ [])) as (t & -> & Ht); [done|].
  destruct (hmac_total t ([] ++ [byte_of 1])) as (k1 & -> & H1); [done|].
  destruct (hmac_total t (k1 ++ [byte_of 2])) as (k2 & -> & H2); [done|].
  by exists k1, k2.
Qed.
End wrappers.
