(* ===== verification/Noise.v ===== *)
(** The encrypted channel (common/crypto/noise_*, server/net/noise_channel):
    cipher states, the symmetric state of the handshake, both sides of the NK
    handshake, the transport and the server's channel. *)

From S2P Require Import Prelude.
From S2P Require Import Wire.
From S2P Require Import Sodium.

Definition NOISE_PROTOCOL_NAME : bytes := lit "Noise_NK_25519_ChaChaPoly_SHA256".
Definition NOISE_PROLOGUE : bytes := lit "hypercom-v1".
Definition NOISE_HANDSHAKE_MESSAGE_ONE_SIZE : Z := X25519_PUBLIC_KEY_SIZE + AEAD_TAG_SIZE.
Definition NOISE_HANDSHAKE_MESSAGE_TWO_SIZE : Z := X25519_PUBLIC_KEY_SIZE + AEAD_TAG_SIZE.

(** [std::numeric_limits<std::uint64_t>::max()]. *)
Definition UINT64_MAX : Z := 2 ^ 64 - 1.

Definition zero_key : bytes := replicate 32 Byte.x00.

Section noise.
Context `{Sodium}.

(** ** noise_cipher_state.cpp *)

Record noise_cipher_state := NoiseCipherState {
  key_ : bytes;
  nonce_counter_ : Z;
  has_key_ : bool;
}.

Definition new_cipher_state : noise_cipher_state := NoiseCipherState zero_key 0 false.

Definition initialize_key (key : bytes) : noise_cipher_state := NoiseCipherState key 0 true.

(** Four zero bytes, then the counter byte by byte. *)
Definition build_nonce (c : noise_cipher_state) : bytes :=
  replicate 4 Byte.x00 ++ le_bytes 8 c.(nonce_counter_).

Definition increment (c : noise_cipher_state) : noise_cipher_state :=
  NoiseCipherState c.(key_) (wrap 64 (c.(nonce_counter_) + 1)) c.(has_key_).

Definition encrypt_with_ad (associated_data plaintext : bytes)
    : fallible noise_cipher_state bytes := λ c,
  if negb c.(has_key_) then (Some plaintext, c)
  else if c.(nonce_counter_) =? UINT64_MAX then (None, c)
  else match crypto_aead_encrypt c.(key_) (build_nonce c) associated_data plaintext with
       | None => (None, c)
       | Some out => (Some out, increment c)
       end.

Definition decrypt_with_ad (associated_data ciphertext : bytes)
    : fallible noise_cipher_state bytes := λ c,
  if negb c.(has_key_) then (Some ciphertext, c)
  else if size_of ciphertext <? AEAD_TAG_SIZE then (None, c)
  else if c.(nonce_counter_) =? UINT64_MAX then (None, c)
  else match crypto_aead_decrypt c.(key_) (build_nonce c) associated_data ciphertext with
       | None => (None, c)
       | Some out => (Some out, increment c)
       end.

(** ** noise_symmetric_state.cpp, noise_payload_codec.cpp *)

Record noise_symmetric_state := NoiseSymmetricState {
  chaining_key : bytes;
  handshake_hash : bytes;
  cipher : noise_cipher_state;
}.

Definition initialize_symmetric_state (protocol_name : bytes) : noise_symmetric_state :=
  let handshake_hash :=
    if size_of protocol_name <=? SYMMETRIC_KEY_SIZE
    then protocol_name ++ replicate (32 - length protocol_name) Byte.x00
    else crypto_hash_sha256 protocol_name in
  NoiseSymmetricState handshake_hash handshake_hash new_cipher_state.

Definition mix_hash (data : bytes) (s : noise_symmetric_state) : noise_symmetric_state :=
  NoiseSymmetricState s.(chaining_key) (crypto_hash_sha256 (s.(handshake_hash) ++ data)) s.(cipher).

Definition mix_key (input_key_material : bytes) : fallible noise_symmetric_state unit := λ s,
  match derive_key_pair s.(chaining_key) input_key_material with
  | None => (None, s)
  | Some (next_chaining_key, temporary_key) =>
      (Some tt, NoiseSymmetricState next_chaining_key s.(handshake_hash)
                  (initialize_key temporary_key))
  end.

Definition split_transport_keys (s : noise_symmetric_state) : option (bytes * bytes) :=
  derive_key_pair s.(chaining_key) [].

Definition on_cipher {A} (m : fallible noise_cipher_state A) : fallible noise_symmetric_state A :=
  zoom cipher (λ c s, NoiseSymmetricState s.(chaining_key) s.(handshake_hash) c) m.

Definition encrypt_and_hash (plaintext : bytes) : fallible noise_symmetric_state bytes := λ s,
  (let! out := on_cipher (encrypt_with_ad s.(handshake_hash) plaintext) in
   do* smodify (mix_hash out) in
   fret out) s.

Definition decrypt_and_hash (ciphertext : bytes) : fallible noise_symmetric_state bytes := λ s,
  (let! out := on_cipher (decrypt_with_ad s.(handshake_hash) ciphertext) in
   do* smodify (mix_hash ciphertext) in
   fret out) s.

(** ** noise_handshake_initiator.cpp *)

Record noise_handshake_initiator := NoiseHandshakeInitiator {
  i_state : noise_symmetric_state;
  remote_static_ : bytes;
  ephemeral_public_ : bytes;
  ephemeral_secret_ : bytes;
  first_message_sent_ : bool;
  i_complete : bool;
}.

Definition new_initiator (server_static_public : bytes) : noise_handshake_initiator :=
  NoiseHandshakeInitiator
    (mix_hash server_static_public
       (mix_hash NOISE_PROLOGUE (initialize_symmetric_state NOISE_PROTOCOL_NAME)))
    server_static_public zero_key zero_key false false.

Definition i_zoom {A} (m : state noise_symmetric_state A) : state noise_handshake_initiator A :=
  zoom i_state (λ s i, NoiseHandshakeInitiator s i.(remote_static_) i.(ephemeral_public_)
                         i.(ephemeral_secret_) i.(first_message_sent_) i.(i_complete)) m.

Definition i_set_ephemeral (public secret : bytes) (i : noise_handshake_initiator) :=
  NoiseHandshakeInitiator i.(i_state) i.(remote_static_) public secret
    i.(first_message_sent_) i.(i_complete).

Definition i_set_flags (sent complete : bool) (i : noise_handshake_initiator) :=
  NoiseHandshakeInitiator i.(i_state) i.(remote_static_) i.(ephemeral_public_)
    i.(ephemeral_secret_) sent complete.

(** [keypair]: what [generate_x25519_keypair] yields. *)
Definition write_first_message (keypair : option (bytes * bytes)) (payload : bytes)
    : fallible noise_handshake_initiator bytes := λ i,
  (do! ensure (negb i.(first_message_sent_)) in
   let! '(public, secret) := sret keypair in
   do* smodify (i_set_ephemeral public secret) in
   do* i_zoom (smodify (mix_hash public)) in
   let! shared := sret (compute_shared_secret secret i.(remote_static_)) in
   do! i_zoom (mix_key shared) in
   let! sealed_payload := i_zoom (encrypt_and_hash payload) in
   do* smodify (λ i, i_set_flags true i.(i_complete) i) in
   fret (public ++ sealed_payload)) i.

Definition read_second_message (input : bytes) : fallible noise_handshake_initiator bytes := λ i,
  (do! ensure (i.(first_message_sent_) && negb i.(i_complete)) in
   do! ensure (negb (size_of input <? NOISE_HANDSHAKE_MESSAGE_TWO_SIZE)) in
   let remote_ephemeral := take 32 input in
   do* i_zoom (smodify (mix_hash remote_ephemeral)) in
   let exchanged := compute_shared_secret i.(ephemeral_secret_) remote_ephemeral in
   do* smodify (λ i, i_set_ephemeral i.(ephemeral_public_) (wipe_bytes i.(ephemeral_secret_)) i) in
   let! shared := sret exchanged in
   do! i_zoom (mix_key shared) in
   let! payload_out := i_zoom (decrypt_and_hash (drop 32 input)) in
   do* smodify (λ i, i_set_flags i.(first_message_sent_) true i) in
   fret payload_out) i.

(** send key, receive key *)
Definition i_export_transport_keys (i : noise_handshake_initiator) : option (bytes * bytes) :=
  if negb i.(i_complete) then None else split_transport_keys i.(i_state).

(** ** noise_handshake_responder.cpp *)

Record noise_handshake_responder := NoiseHandshakeResponder {
  r_state : noise_symmetric_state;
  static_secret_ : bytes;
  remote_ephemeral_ : bytes;
  first_message_read_ : bool;
  r_complete : bool;
}.

Definition new_responder (static_public static_secret : bytes) : noise_handshake_responder :=
  NoiseHandshakeResponder
    (mix_hash static_public
       (mix_hash NOISE_PROLOGUE (initialize_symmetric_state NOISE_PROTOCOL_NAME)))
    static_secret zero_key false false.

Definition r_zoom {A} (m : state noise_symmetric_state A) : state noise_handshake_responder A :=
  zoom r_state (λ s r, NoiseHandshakeResponder s r.(static_secret_) r.(remote_ephemeral_)
                         r.(first_message_read_) r.(r_complete)) m.

Definition r_set_remote (remote_ephemeral : bytes) (r : noise_handshake_responder) :=
  NoiseHandshakeResponder r.(r_state) r.(static_secret_) remote_ephemeral
    r.(first_message_read_) r.(r_complete).

Definition r_set_flags (read complete : bool) (r : noise_handshake_responder) :=
  NoiseHandshakeResponder r.(r_state) r.(static_secret_) r.(remote_ephemeral_) read complete.

Definition read_first_message (input : bytes) : fallible noise_handshake_responder bytes := λ r,
  (do! ensure (negb r.(first_message_read_)) in
   do! ensure (negb (size_of input <? NOISE_HANDSHAKE_MESSAGE_ONE_SIZE)) in
   let remote_ephemeral := take 32 input in
   do* smodify (r_set_remote remote_ephemeral) in
   do* r_zoom (smodify (mix_hash remote_ephemeral)) in
   let! shared := sret (compute_shared_secret r.(static_secret_) remote_ephemeral) in
   do! r_zoom (mix_key shared) in
   let! payload_out := r_zoom (decrypt_and_hash (drop 32 input)) in
   do* smodify (λ r, r_set_flags true r.(r_complete) r) in
   fret payload_out) r.

Definition write_second_message (keypair : option (bytes * bytes)) (payload : bytes)
    : fallible noise_handshake_responder bytes := λ r,
  (do! ensure (r.(first_message_read_) && negb r.(r_complete)) in
   let! '(ephemeral_public, ephemeral_secret) := sret keypair in
   do* r_zoom (smodify (mix_hash ephemeral_public)) in
   let! shared := sret (compute_shared_secret ephemeral_secret r.(remote_ephemeral_)) in
   do! r_zoom (mix_key shared) in
   let! sealed_payload := r_zoom (encrypt_and_hash payload) in
   do* smodify (λ r, r_set_flags r.(first_message_read_) true r) in
   fret (ephemeral_public ++ sealed_payload)) r.

(** send key, receive key: the initiator's, exchanged *)
Definition r_export_transport_keys (r : noise_handshake_responder) : option (bytes * bytes) :=
  if negb r.(r_complete) then None
  else match split_transport_keys r.(r_state) with
       | Some (first, second) => Some (second, first)
       | None => None
       end.

(** ** noise_transport.cpp *)

Record noise_transport := NoiseTransport {
  send_state_ : noise_cipher_state;
  receive_state_ : noise_cipher_state;
}.

Definition new_transport (send_key receive_key : bytes) : noise_transport :=
  NoiseTransport (initialize_key send_key) (initialize_key receive_key).

Definition encrypt_message (plaintext : bytes) : fallible noise_transport bytes :=
  zoom send_state_ (λ c t, NoiseTransport c t.(receive_state_)) (encrypt_with_ad [] plaintext).

Definition decrypt_message (ciphertext : bytes) : fallible noise_transport bytes :=
  zoom receive_state_ (λ c t, NoiseTransport t.(send_state_) c) (decrypt_with_ad [] ciphertext).

(** ** noise_channel.cpp *)

Record noise_channel := NoiseChannel {
  handshake_ : noise_handshake_responder;
  transport_ : option noise_transport;
}.

Definition new_channel (static_public static_secret : bytes) : noise_channel :=
  NoiseChannel (new_responder static_public static_secret) None.

Definition on_handshake {A} (m : state noise_handshake_responder A) : state noise_channel A :=
  zoom handshake_ (λ h c, NoiseChannel h c.(transport_)) m.

Definition is_established (c : noise_channel) : bool :=
  match c.(transport_) with Some _ => true | None => false end.

Definition accept_handshake_message (keypair : option (bytes * bytes)) (input : bytes)
    : fallible noise_channel bytes := λ c,
  (do! ensure (negb (is_established c)) in
   let! client_payload := on_handshake (read_first_message input) in
   let! reply := on_handshake (write_second_message keypair []) in
   let! '(send_key, receive_key) := sgets (λ c, r_export_transport_keys c.(handshake_)) in
   do* smodify (λ c, NoiseChannel c.(handshake_) (Some (new_transport send_key receive_key))) in
   fret reply) c.

Definition on_transport {A} (m : fallible noise_transport A) : fallible noise_channel A := λ c,
  match c.(transport_) with
  | None => (None, c)
  | Some t => let '(a, t') := m t in (a, NoiseChannel c.(handshake_) (Some t'))
  end.

Definition open_message (ciphertext : bytes) : fallible noise_channel bytes :=
  on_transport (decrypt_message ciphertext).

Definition seal_message (plaintext : bytes) : fallible noise_channel bytes :=
  on_transport (encrypt_message plaintext).
End noise.

(** ** Lockstep of two ends that hold the same state *)

Section lockstep.
Context `{Sodium, !SodiumLaws}.

Definition key_ok (c : noise_cipher_state) : Prop := size_of c.(key_) = 32.

Lemma length_build_nonce c : size_of (build_nonce c) = 12.
Proof. unfold build_nonce, size_of. by rewrite length_app, length_le_bytes. Qed.

Lemma encrypt_with_ad_spec c ad m :
  key_ok c → has_key_ c = true → nonce_counter_ c ≠ UINT64_MAX →
  ∃ sealed, encrypt_with_ad ad m c = (Some sealed, increment c) ∧
    size_of sealed = size_of m + AEAD_TAG_SIZE ∧
    crypto_aead_encrypt (key_ c) (build_nonce c) ad m = Some sealed.
Proof.
  intros Hk Hh Hn. unfold encrypt_with_ad. rewrite Hh. simpl.
  destruct (Z.eqb_spec (nonce_counter_ c) UINT64_MAX); [done|].
  destruct (aead_encrypt_total (key_ c) (build_nonce c) ad m Hk (length_build_nonce c))
    as (sealed & E & Hs). exists sealed. by rewrite E.
Qed.

(** A cipher state opens what an equal one sealed, and ends up equal. *)
Lemma cipher_lockstep c ad m sealed c' : key_ok c →
  encrypt_with_ad ad m c = (Some sealed, c') → decrypt_with_ad ad sealed c = (Some m, c').
Proof.
  intros Hk. destruct (has_key_ c) eqn:Hh.
  - destruct (decide (nonce_counter_ c = UINT64_MAX)) as [Hn|Hn].
    { unfold encrypt_with_ad. by rewrite Hh, (proj2 (Z.eqb_eq _ _) Hn). }
    destruct (encrypt_with_ad_spec c ad m Hk Hh Hn) as (s & -> & Hs & E).
    intros [= <- <-]. unfold decrypt_with_ad. rewrite Hh. simpl.
    destruct (Z.ltb_spec (size_of s) AEAD_TAG_SIZE); [pose proof (size_of_nonneg m); lia|].
    destruct (Z.eqb_spec (nonce_counter_ c) UINT64_MAX); [done|].
    by rewrite (aead_decrypt_encrypt _ _ _ _ _ E).
  - unfold encrypt_with_ad, decrypt_with_ad. rewrite Hh. simpl. by intros [= <- <-].
Qed.

(** The converse: what is opened was sealed, at the same counter. *)
Lemma decrypted_was_encrypted c ad m sealed c' :
  decrypt_with_ad ad sealed c = (Some m, c') → encrypt_with_ad ad m c = (Some sealed, c').
Proof.
  unfold decrypt_with_ad, encrypt_with_ad. destruct (has_key_ c); simpl; [|by intros [= <- <-]].
  destruct (size_of sealed <? AEAD_TAG_SIZE); [done|].
  destruct (nonce_counter_ c =? UINT64_MAX); [done|].
  destruct (crypto_aead_decrypt _ _ _ _) as [plaintext|] eqn:E; [|done].
  intros [= <- <-]. by rewrite (aead_decrypt_sound _ _ _ _ _ E).
Qed.

Lemma decrypt_rejects c ad sealed c' : decrypt_with_ad ad sealed c = (None, c') → c' = c.
Proof. unfold decrypt_with_ad. repeat case_match; by intros [= <-]. Qed.

Lemma symmetric_lockstep s m sealed s' : key_ok (cipher s) →
  encrypt_and_hash m s = (Some sealed, s') → decrypt_and_hash sealed s = (Some m, s').
Proof.
  intros Hk. unfold encrypt_and_hash, decrypt_and_hash, fbind, on_cipher, zoom.
  destruct (encrypt_with_ad (handshake_hash s) m (cipher s)) as [[out|] c'] eqn:E; [|done].
  cbn. intros [= <- <-]. rewrite (cipher_lockstep _ _ _ _ _ Hk E). done.
Qed.

(** Handshake states: sizes of the keys they hold. *)
Definition symmetric_ok (s : noise_symmetric_state) : Prop :=
  size_of s.(chaining_key) = 32 ∧ key_ok s.(cipher).

Lemma initial_symmetric_ok : symmetric_ok (initialize_symmetric_state NOISE_PROTOCOL_NAME).
Proof. by split. Qed.

Lemma mix_hash_ok data s : symmetric_ok s → symmetric_ok (mix_hash data s).
Proof. done. Qed.

Lemma mix_key_spec ikm s : symmetric_ok s →
  ∃ ck k, mix_key ikm s =
    (Some tt, NoiseSymmetricState ck (handshake_hash s) (initialize_key k)) ∧
    size_of ck = 32 ∧ size_of k = 32.
Proof.
  intros [Hck _]. unfold mix_key.
  destruct (derive_key_pair_total (chaining_key s) ikm Hck) as (k1 & k2 & -> & H1 & H2).
  by exists k1, k2.
Qed.

Lemma encrypt_and_hash_keyed s m : symmetric_ok s → has_key_ (cipher s) = true →
  nonce_counter_ (cipher s) = 0 →
  ∃ sealed s', encrypt_and_hash m s = (Some sealed, s') ∧ symmetric_ok s' ∧
    size_of sealed = size_of m + AEAD_TAG_SIZE.
Proof.
  intros [Hck Hk] Hh Hn. unfold encrypt_and_hash, fbind, on_cipher, zoom.
  destruct (encrypt_with_ad_spec (cipher s) (handshake_hash s) m Hk Hh) as (sealed & -> & Hs & _).
  { rewrite Hn. done. }
  cbn. eexists _, _. split; [reflexivity|]. done.
Qed.
End lockstep.

(** ** The handshake *)

Section handshake.
Context `{Sodium, !SodiumLaws}.
Context (static_public static_secret : bytes).

(** The two ends of a handshake share their symmetric state after each
    message. *)
Lemma first_message_lockstep ip se payload (Hip : size_of ip = 32) :
  agree ip se static_public static_secret →
  ∃ message s, symmetric_ok s ∧ size_of message = 32 + (size_of payload + AEAD_TAG_SIZE) ∧
    write_first_message (Some (ip, se)) payload (new_initiator static_public) =
      (Some message, NoiseHandshakeInitiator s static_public ip se true false) ∧
    read_first_message message (new_responder static_public static_secret) =
      (Some payload, NoiseHandshakeResponder s static_secret ip true false).
Proof.
  intros (shared & E1 & E2).
  set (s0 := mix_hash static_public
    (mix_hash NOISE_PROLOGUE (initialize_symmetric_state NOISE_PROTOCOL_NAME))).
  assert (symmetric_ok (mix_hash ip s0)) as Hs0 by (do 3 apply mix_hash_ok; apply initial_symmetric_ok).
  destruct (mix_key_spec shared _ Hs0) as (ck & k & Emix & Hck & Hk).
  set (s1 := NoiseSymmetricState ck (handshake_hash (mix_hash ip s0)) (initialize_key k)) in *.
  assert (symmetric_ok s1) as Hs1 by done.
  destruct (encrypt_and_hash_keyed s1 payload Hs1 eq_refl eq_refl) as (sealed & s2 & Es & Hs2 & Hsize).
  exists (ip ++ sealed), s2. split; [done|]. split; [rewrite size_of_app; lia|]. split.
  - unfold write_first_message, new_initiator, compute_shared_secret. fold s0.
    cbn. rewrite E1. cbn. unfold fbind, i_zoom, zoom. cbn.
    rewrite Emix. cbn. fold s1. by rewrite Es.
  - unfold read_first_message, new_responder, compute_shared_secret. fold s0. cbn.
    assert (length ip = 32%nat) as Hl by (unfold size_of in Hip; lia).
    rewrite take_app_exact, drop_app_exact by done.
    destruct (Z.ltb_spec (size_of (ip ++ sealed)) NOISE_HANDSHAKE_MESSAGE_ONE_SIZE).
    { rewrite size_of_app in *. pose proof (size_of_nonneg payload).
      unfold NOISE_HANDSHAKE_MESSAGE_ONE_SIZE, X25519_PUBLIC_KEY_SIZE in *. lia. }
    cbn. rewrite E2. cbn. unfold fbind, r_zoom, zoom. cbn. rewrite Emix. cbn. fold s1.
    by rewrite (symmetric_lockstep s1 payload sealed s2 (proj2 Hs1) Es).
Qed.

Lemma second_message_lockstep ip se rp re s payload (Hrp : size_of rp = 32) :
  agree ip se rp re → symmetric_ok s →
  ∃ message s', symmetric_ok s' ∧ size_of message = 32 + (size_of payload + AEAD_TAG_SIZE) ∧
    write_second_message (Some (rp, re)) payload
        (NoiseHandshakeResponder s static_secret ip true false) =
      (Some message, NoiseHandshakeResponder s' static_secret ip true true) ∧
    read_second_message message (NoiseHandshakeInitiator s static_public ip se true false) =
      (Some payload, NoiseHandshakeInitiator s' static_public ip (wipe_bytes se) true true).
Proof.
  intros (shared & E1 & E2) Hs.
  destruct (mix_key_spec shared (mix_hash rp s) Hs) as (ck & k & Emix & Hck & Hk).
  set (s1 := NoiseSymmetricState ck (handshake_hash (mix_hash rp s)) (initialize_key k)) in *.
  assert (symmetric_ok s1) as Hs1 by done.
  destruct (encrypt_and_hash_keyed s1 payload Hs1 eq_refl eq_refl) as (sealed & s2 & Es & Hs2 & Hsize).
  exists (rp ++ sealed), s2. split; [done|]. split; [rewrite size_of_app; lia|]. split.
  - unfold write_second_message, compute_shared_secret. cbn. rewrite E2. cbn.
    unfold fbind, r_zoom, zoom. cbn. rewrite Emix. cbn. fold s1. by rewrite Es.
  - unfold read_second_message, compute_shared_secret. cbn.
    assert (length rp = 32%nat) as Hl by (unfold size_of in Hrp; lia).
    rewrite take_app_exact, drop_app_exact by done.
    destruct (Z.ltb_spec (size_of (rp ++ sealed)) NOISE_HANDSHAKE_MESSAGE_TWO_SIZE).
    { rewrite size_of_app in *. pose proof (size_of_nonneg payload).
      unfold NOISE_HANDSHAKE_MESSAGE_TWO_SIZE, X25519_PUBLIC_KEY_SIZE in *. lia. }
    cbn. rewrite E1. cbn. unfold fbind, i_zoom, zoom. cbn. rewrite Emix. cbn. fold s1.
    by rewrite (symmetric_lockstep s1 payload sealed s2 (proj2 Hs1) Es).
Qed.

Lemma split_total s : symmetric_ok s →
  ∃ k1 k2, split_transport_keys s = Some (k1, k2) ∧ size_of k1 = 32 ∧ size_of k2 = 32.
Proof. intros [Hck _]. by apply derive_key_pair_total. Qed.
End handshake.

(** ** The two ends after the handshake *)

Section link.
Context `{Sodium}.

(** One direction: the sealed messages under way, and what was sent and
    received so far; [None] is a message the receiver rejected. *)
Record flow := Flow {
  wire : list bytes;
  sent : list bytes;
  received : list (option bytes);
}.

Record link := Link {
  client_end : noise_transport;
  server_end : noise_transport;
  upward : flow;
  downward : flow;
}.

Definition idle : flow := Flow [] [] [].
Definition flow_send (m sealed : bytes) (f : flow) : flow :=
    Flow (f.(wire) ++ [sealed]) (f.(sent) ++ [m]) f.(received).
Definition flow_receive (rest : list bytes) (o : option bytes) (f : flow) : flow :=
    Flow rest f.(sent) (f.(received) ++ [o]).

(** Either end sends, or takes the next message off the wire, at any time. *)
Inductive link_step : link → link → Prop :=
  | client_sends l m sealed t :
      encrypt_message m l.(client_end) = (Some sealed, t) →
      link_step l (Link t l.(server_end) (flow_send m sealed l.(upward)) l.(downward))
  | server_receives l sealed rest o t :
      l.(upward).(wire) = sealed :: rest →
      decrypt_message sealed l.(server_end) = (o, t) →
      link_step l (Link l.(client_end) t (flow_receive rest o l.(upward)) l.(downward))
  | server_sends l m sealed t :
      encrypt_message m l.(server_end) = (Some sealed, t) →
      link_step l (Link l.(client_end) t l.(upward) (flow_send m sealed l.(downward)))
  | client_receives l sealed rest o t :
      l.(downward).(wire) = sealed :: rest →
      decrypt_message sealed l.(client_end) = (o, t) →
      link_step l (Link t l.(server_end) l.(upward) (flow_receive rest o l.(downward))).

(** The receiver is behind the sender by exactly the messages under way. *)
Fixpoint under_way (receiver : noise_cipher_state) (pending wire : list bytes)
    (sender : noise_cipher_state) : Prop :=
  match pending, wire with
  | [], [] => receiver = sender
  | m :: pending', sealed :: wire' =>
      ∃ c, encrypt_with_ad [] m receiver = (Some sealed, c) ∧ under_way c pending' wire' sender
  | _, _ => False
  end.

Definition flow_ok (receiver sender : noise_cipher_state) (f : flow) : Prop :=
  key_ok receiver ∧
  ∃ delivered pending, f.(sent) = delivered ++ pending ∧ f.(received) = map Some delivered ∧
    under_way receiver pending f.(wire) sender.

Lemma under_way_snoc receiver pending wire sender m sealed c :
    under_way receiver pending wire sender → encrypt_with_ad [] m sender = (Some sealed, c) →
    under_way receiver (pending ++ [m]) (wire ++ [sealed]) c.
  Proof.
    revert receiver wire. induction pending as [|m' pending IH]; intros receiver [|s wire]; simpl;
      try done.
    - intros ->. intros E. by exists c.
    - intros (c1 & E1 & Hu) E. exists c1. split; [done|]. by apply IH.
  Qed.

Lemma flow_ok_send receiver sender f m sealed c :
    flow_ok receiver sender f → encrypt_with_ad [] m sender = (Some sealed, c) →
    flow_ok receiver c (flow_send m sealed f).
  Proof.
    intros (Hk & delivered & pending & E1 & E2 & Hu) E. split; [done|].
    exists delivered, (pending ++ [m]). simpl. rewrite E1, app_assoc.
    split_and!; try done. by eapply under_way_snoc.
  Qed.

Lemma encrypt_key_ok ad m c : key_ok c → key_ok (encrypt_with_ad ad m c).2.
  Proof. unfold encrypt_with_ad. repeat case_match; done. Qed.

Lemma flow_ok_receive `{!SodiumLaws} receiver sender f sealed rest o c :
    flow_ok receiver sender f → f.(wire) = sealed :: rest →
    decrypt_with_ad [] sealed receiver = (o, c) →
    flow_ok c sender (flow_receive rest o f).
  Proof.
    intros (Hk & delivered & pending & E1 & E2 & Hu) Ew E. rewrite Ew in Hu.
    destruct pending as [|m pending]; [done|]. destruct Hu as (c1 & Em & Hu).
    pose proof (encrypt_key_ok [] m receiver Hk) as Hk1. rewrite Em in Hk1.
    rewrite (cipher_lockstep _ _ _ _ _ Hk Em) in E. injection E as <- <-.
    split; [done|]. exists (delivered ++ [m]), pending. simpl.
    rewrite E1, E2, map_app, <-app_assoc. done.
  Qed.

Definition link_ok (l : link) : Prop :=
  flow_ok (receive_state_ (server_end l)) (send_state_ (client_end l)) (upward l) ∧
  flow_ok (receive_state_ (client_end l)) (send_state_ (server_end l)) (downward l).

Lemma link_step_ok `{!SodiumLaws} l l' : link_ok l → link_step l l' → link_ok l'.
  Proof.
    intros [Hup Hdown] Hstep.
    destruct Hstep as [l m sealed t E|l sealed rest o t Ew E|l m sealed t E|l sealed rest o t Ew E];
      revert E; unfold encrypt_message, decrypt_message, zoom;
      [destruct (encrypt_with_ad _ _ _) eqn:E|destruct (decrypt_with_ad _ _ _) eqn:E
      |destruct (encrypt_with_ad _ _ _) eqn:E|destruct (decrypt_with_ad _ _ _) eqn:E];
      intros [= -> <-]; split; simpl;
      eauto using flow_ok_send, flow_ok_receive.
  Qed.

Lemma flow_ok_prefix receiver sender f : flow_ok receiver sender f →
    received f = map Some (take (length (received f)) (sent f)).
  Proof.
    intros (_ & delivered & pending & -> & -> & _).
    by rewrite length_map, take_app_length.
  Qed.
End link.

(** ** The promises of the channel *)

#[local] Arguments write_second_message : simpl never.
#[local] Arguments read_first_message : simpl never.
#[local] Arguments split_transport_keys : simpl never.

Section promises.
Context `{Sodium, !SodiumLaws}.

Lemma handshake_agrees (sp ss ip se rp re : bytes)
      (Hip : size_of ip = 32) (Hrp : size_of rp = 32)
      (Hes : agree ip se sp ss) (Hee : agree ip se rp re) :
    ∃ first client1 second client2 channel k1 k2,
      size_of k1 = 32 ∧ size_of k2 = 32 ∧ size_of first = 32 + AEAD_TAG_SIZE ∧ size_of second = 32 + AEAD_TAG_SIZE ∧
      write_first_message (Some (ip, se)) [] (new_initiator sp) = (Some first, client1) ∧
      accept_handshake_message (Some (rp, re)) first (new_channel sp ss) = (Some second, channel) ∧
      read_second_message second client1 = (Some [], client2) ∧
      i_export_transport_keys client2 = Some (k1, k2) ∧
      transport_ channel = Some (new_transport k2 k1).
  Proof.
    destruct (first_message_lockstep sp ss ip se [] Hip Hes) as (m1 & s1 & Hs1 & Hsize1 & Ew1 & Er1).
    destruct (second_message_lockstep sp ss ip se rp re s1 [] Hrp Hee Hs1)
      as (m2 & s2 & Hs2 & Hsize2 & Ew2 & Er2).
    destruct (split_total s2 Hs2) as (k1 & k2 & Ek & Hk1 & Hk2).
    eexists m1, _, m2, _, _, k1, k2. split_and!; try done; try eassumption.
    - unfold new_channel. set (r := new_responder sp ss) in *. clearbody r.
      unfold accept_handshake_message, is_established, on_handshake, zoom, fbind. cbn. rewrite Er1. cbn. rewrite Ew2. cbn.
      unfold r_export_transport_keys. cbn. rewrite Ek. reflexivity.
    - done.
  Qed.

Lemma fresh_link_ok k1 k2 : size_of k1 = 32 → size_of k2 = 32 →
    link_ok (Link (new_transport k1 k2) (new_transport k2 k1) idle idle).
  Proof. intros H1 H2. split; (split; [done|]); by exists [], []. Qed.

(** C8: when client and server run the handshake with keypairs that agree,
    every call succeeds and both ends hold keys for the same channel: however
    the two ends then send and receive, each end gets exactly what the other
    sent, in the order it was sent, with nothing rejected, altered, lost from
    the middle or duplicated. *)
Theorem handshake_yields_ordered_channel (sp ss ip se rp re : bytes)
    (Hip : size_of ip = 32) (Hrp : size_of rp = 32)
    (Hes : agree ip se sp ss) (Hee : agree ip se rp re) :
  ∃ first client1 second client2 channel k1 k2 server,
    write_first_message (Some (ip, se)) [] (new_initiator sp) = (Some first, client1) ∧
    accept_handshake_message (Some (rp, re)) first (new_channel sp ss) = (Some second, channel) ∧
    read_second_message second client1 = (Some [], client2) ∧
    i_export_transport_keys client2 = Some (k1, k2) ∧
    transport_ channel = Some server ∧
    ∀ l, rtc link_step (Link (new_transport k1 k2) server idle idle) l →
      received (upward l) = map Some (take (length (received (upward l))) (sent (upward l))) ∧
      received (downward l) = map Some (take (length (received (downward l))) (sent (downward l))).
Proof.
  destruct (handshake_agrees sp ss ip se rp re Hip Hrp Hes Hee)
    as (m1 & c1 & m2 & c2 & ch & k1 & k2 & Hk1 & Hk2 & _ & _ & E1 & E2 & E3 & E4 & E5).
  exists m1, c1, m2, c2, ch, k1, k2, (new_transport k2 k1). split_and!; try done.
  intros l Hl. assert (link_ok l) as [Hup Hdown].
  { pose proof (fresh_link_ok k1 k2 Hk1 Hk2) as Hok. revert Hok.
    induction Hl as [|l1 l2 l3 Hstep _ IH]; [done|]. intros Hok.
    by apply IH, (link_step_ok l1). }
  split; by eapply flow_ok_prefix.
Qed.

(** The nonces a cipher state uses to seal a sequence of messages, each with
    its associated data. *)
Fixpoint sealing_nonces (messages : list (bytes * bytes)) (c : noise_cipher_state) : list bytes :=
  match messages with
  | [] => []
  | (ad, m) :: messages' =>
      match encrypt_with_ad ad m c with
      | (Some _, c') => build_nonce c :: sealing_nonces messages' c'
      | (None, c') => sealing_nonces messages' c'
      end
  end.

Lemma build_nonce_inj c c' : u64 (nonce_counter_ c) → u64 (nonce_counter_ c') →
    build_nonce c = build_nonce c' → nonce_counter_ c = nonce_counter_ c'.
  Proof.
    intros Hc Hc' E. apply app_inv_head, (f_equal le_value) in E.
    rewrite !le_value_le_bytes, !wrap_id in E; done.
  Qed.

Lemma sealing_nonces_later messages c nonce : has_key_ c = true → u64 (nonce_counter_ c) →
    nonce ∈ sealing_nonces messages c →
    ∃ c', nonce = build_nonce c' ∧ u64 (nonce_counter_ c') ∧ nonce_counter_ c <= nonce_counter_ c'.
  Proof.
    revert c. induction messages as [|[ad m] messages IH]; intros c Hh Hc; simpl;
      [by intros ?%elem_of_nil|].
    unfold encrypt_with_ad. rewrite Hh. simpl.
    destruct (Z.eqb_spec (nonce_counter_ c) UINT64_MAX); [by apply IH|].
    assert (u64 (nonce_counter_ c + 1)) as Hc' by (unfold fits, UINT64_MAX in *; lia).
    destruct (crypto_aead_encrypt _ _ _ _); [|by apply IH].
    rewrite elem_of_cons. intros [->|Hin]; [by exists c|].
    destruct (IH (increment c) Hh ltac:(simpl; by rewrite wrap_id) Hin) as (c' & -> & Hu & Hle).
    simpl in Hle. rewrite wrap_id in Hle by done. exists c'. split_and!; [done|done|lia].
  Qed.

(** A cipher state never uses a nonce twice, whatever it is asked to seal
    and however often the engine fails; once its counter is exhausted it
    seals nothing more. *)
Theorem nonces_never_repeat (messages : list (bytes * bytes)) (c : noise_cipher_state)
    (Hkey : has_key_ c = true) (Hcounter : u64 (nonce_counter_ c)) :
  NoDup (sealing_nonces messages c) ∧
  (nonce_counter_ c = UINT64_MAX → sealing_nonces messages c = []).
Proof.
  split.
  - revert c Hkey Hcounter.
    induction messages as [|[ad m] messages IH]; intros c Hh Hc; simpl; [constructor|].
    unfold encrypt_with_ad. rewrite Hh. simpl.
    destruct (Z.eqb_spec (nonce_counter_ c) UINT64_MAX); [by apply IH|].
    assert (u64 (nonce_counter_ c + 1)) as Hc' by (unfold fits, UINT64_MAX in *; lia).
    destruct (crypto_aead_encrypt _ _ _ _); [|by apply IH].
    constructor; [|apply IH; [done|simpl; by rewrite wrap_id]].
    intros Hin. apply sealing_nonces_later in Hin as (c' & E & Hu & Hle);
      [|done|simpl; by rewrite wrap_id].
    apply build_nonce_inj in E; [|done|done]. simpl in Hle. rewrite wrap_id in Hle by done. lia.
  - intros Hmax. clear Hcounter. induction messages as [|[ad m] messages IH]; simpl; [done|].
    unfold encrypt_with_ad. rewrite Hkey, Hmax. simpl. done.
Qed.

(** A message the channel rejects leaves the channel as it was, so it
    neither consumes a nonce nor desynchronizes the session; a message it
    accepts is the one the peer's cipher state seals under the same key at
    the receiver's current counter, which advances by one. *)
Theorem open_message_authentic (ciphertext : bytes) (channel : noise_channel) :
  match open_message ciphertext channel with
  | (None, channel') => channel' = channel
  | (Some plaintext, channel') =>
      ∃ t t', transport_ channel = Some t ∧ transport_ channel' = Some t' ∧
        send_state_ t' = send_state_ t ∧
        encrypt_with_ad [] plaintext (receive_state_ t) = (Some ciphertext, receive_state_ t')
  end.
Proof.
  destruct channel as [h [[snd rcv]|]]; [|done].
  unfold open_message, on_transport, decrypt_message, zoom. simpl.
  destruct (decrypt_with_ad [] ciphertext rcv) as [[plaintext|] rcv'] eqn:E; cbn.
  - eexists _, _. split_and!; try reflexivity. by apply decrypted_was_encrypted.
  - by rewrite (decrypt_rejects _ _ _ _ E).
Qed.
End promises.

(** *** Witnesses, with the concrete primitives of [toy_sodium] *)

Definition toy_key (b : byte) : bytes := replicate 32 b.

Lemma handshake_yields_ordered_channel_witness :
  ∃ first client1 second channel server,
    @write_first_message toy_sodium (Some (toy_key (byte_of (chr "a")), toy_key (byte_of (chr "a")))) []
      (@new_initiator toy_sodium (toy_key (byte_of (chr "s")))) = (Some first, client1) ∧
    @accept_handshake_message toy_sodium (Some (toy_key (byte_of (chr "b")), toy_key (byte_of (chr "b")))) first
      (@new_channel toy_sodium (toy_key (byte_of (chr "s"))) (toy_key (byte_of (chr "s")))) = (Some second, channel) ∧
    transport_ channel = Some server.
Proof.
  destruct (@handshake_yields_ordered_channel toy_sodium toy_sodium_laws
    (toy_key (byte_of (chr "s"))) (toy_key (byte_of (chr "s"))) (toy_key (byte_of (chr "a"))) (toy_key (byte_of (chr "a"))) (toy_key (byte_of (chr "b"))) (toy_key (byte_of (chr "b")))
    eq_refl eq_refl (toy_agree _ _) (toy_agree _ _))
    as (m1 & c1 & m2 & c2 & ch & k1 & k2 & t & E1 & E2 & _ & _ & E5 & _).
  exists m1, c1, m2, ch, t. split; [exact E1|split; [exact E2|exact E5]].
Defined.

Lemma nonces_never_repeat_witness :
  NoDup (@sealing_nonces toy_sodium [([], lit "a"); ([], lit "b")] (initialize_key zero_key)).
Proof.
  apply (@nonces_never_repeat toy_sodium [([], lit "a"); ([], lit "b")] (initialize_key zero_key)).
  - reflexivity.
  - unfold fits. simpl. lia.
Defined.

Lemma open_message_authentic_witness :
  (@open_message toy_sodium (lit "too short")
     (NoiseChannel (@new_responder toy_sodium [] []) (Some (new_transport zero_key zero_key)))).2 =
  NoiseChannel (@new_responder toy_sodium [] []) (Some (new_transport zero_key zero_key)).
Proof.
  exact (@open_message_authentic toy_sodium toy_sodium_laws (lit "too short")
    (NoiseChannel (@new_responder toy_sodium [] []) (Some (new_transport zero_key zero_key)))).
Defined.
