(* ===== verification/Config.v ===== *)
(** The server's configuration as data (server/config/server_config.hpp) and
    the log levels (common/util/log_level.cpp). *)

From S2P Require Import Prelude.
From S2P Require Import Wire.

(** ** log_level.hpp *)

Module log_level.
Inductive t := debug | info | warning | error | silent.

#[global] Instance t_eq_dec : EqDecision t.
Proof. solve_decision. Defined.

Definition value (l : t) : Z :=
  match l with debug => 0 | info => 1 | warning => 2 | error => 3 | silent => 4 end.
End log_level.

Definition parse_log_level (name : bytes) : option log_level.t :=
  if decide (name = lit "debug") then Some log_level.debug
  else if decide (name = lit "info") then Some log_level.info
  else if decide (name = lit "warning") then Some log_level.warning
  else if decide (name = lit "error") then Some log_level.error
  else if decide (name = lit "silent") then Some log_level.silent
  else None.

Definition describe_log_level (level : log_level.t) : bytes :=
  match level with
  | log_level.debug => lit "debug"
  | log_level.info => lit "info"
  | log_level.warning => lit "warning"
  | log_level.error => lit "error"
  | log_level.silent => lit "silent"
  end.

(** ** server_config.hpp *)

Record listener_config := ListenerConfig {
  enabled : bool;
  bind_address : bytes;
  port : Z;
  advertised_host : bytes;
}.

Record limits_config := LimitsConfig {
  max_connections : Z;
  max_connections_per_address : Z;
  max_frame_size : Z;
  handshake_timeout_seconds : Z;
  idle_timeout_seconds : Z;
  requests_per_minute_per_address : Z;
  requests_per_minute_per_identity : Z;
}.

Record logging_config := LoggingConfig {
  level : log_level.t;
  log_peer_addresses : bool;
  retention_days : Z;
  file_path : bytes;
}.

Record paths_config := PathsConfig {
  database_path : bytes;
  migrations_directory : bytes;
  server_key_path : bytes;
  admin_socket_path : bytes;
  connect_file_path : bytes;
}.

Record server_config := ServerConfig {
  clearnet : listener_config;
  onion : listener_config;
  limits : limits_config;
  logging : logging_config;
  paths : paths_config;
  registration_open : bool;
}.

(** The default member initializers. *)
Definition default_listener : listener_config := ListenerConfig false [] 0 [].
Definition default_config : server_config :=
  ServerConfig default_listener default_listener
    (LimitsConfig 512 8 (1024 * 1024) 10 0 240 600)
    (LoggingConfig log_level.info false 7 [])
    (PathsConfig (lit "hypercom.db") (lit "db/migrations") (lit "keys/server_static.key")
       (lit "run/hypercom-admin.sock") (lit "run/hypercom-connect.txt"))
    true.
