(* ===== verification/ConfigFile.v ===== *)
(** Reading hypercom.conf (server/config/config_parser.cpp) and checking what
    it says (server/config/config_validator.cpp).

    The parser goes through every line whatever errors it meets; the state it
    threads (section, configuration, errors) is the record [config_reader].
    A number with garbage after it is stored before it is refused, as
    [std::from_chars] writes its result first. *)

From Stdlib Require Import Sorted.
From S2P Require Import Prelude.
From S2P Require Import TextTools.
From S2P Require Import Wire.
From S2P Require Import Config.

(** ** config_parser.cpp *)

Record config_error := ConfigError { line_number : Z; message : bytes }.

Record config_reader := ConfigReader {
  section : bytes;
  out : server_config;
  errors : list config_error;
}.

(** The verdict and what [out] holds afterwards. *)
Definition parse_unsigned (text : bytes) (out : Z) : bool * Z :=
  match from_chars_unsigned 32 text with
  | Some (value, rest) => (bool_decide (rest = []), value)
  | None => (false, out)
  end.

Definition parse_boolean (text : bytes) (out : bool) : bool * bool :=
  if decide (text = lit "true") then (true, true)
  else if decide (text = lit "yes") then (true, true)
  else if decide (text = lit "1") then (true, true)
  else if decide (text = lit "false") then (true, false)
  else if decide (text = lit "no") then (true, false)
  else if decide (text = lit "0") then (true, false)
  else (false, out).

Definition parse_level (text : bytes) (out : log_level.t) : bool * log_level.t :=
  match parse_log_level text with
  | Some level => (true, level)
  | None => (false, out)
  end.

(** Put a member back into the structure it was read into. *)
Definition store {A B} (result : bool * A) (put : A → B) : bool * B := (result.1, put result.2).

Definition apply_listener_setting (key value : bytes) (l : listener_config) : bool * listener_config :=
  if decide (key = lit "enabled") then
    store (parse_boolean value (enabled l))
      (λ v, ListenerConfig v (bind_address l) (port l) (advertised_host l))
  else if decide (key = lit "bind_address") then
    (true, ListenerConfig (enabled l) value (port l) (advertised_host l))
  else if decide (key = lit "advertised_host") then
    (true, ListenerConfig (enabled l) (bind_address l) (port l) value)
  else if decide (key = lit "port") then
    let '(parsed, p) := parse_unsigned value 0 in
    if negb parsed || (p =? 0) || (65535 <? p) then (false, l)
    else (true, ListenerConfig (enabled l) (bind_address l) p (advertised_host l))
  else (false, l).

Definition apply_limits_setting (key value : bytes) (l : limits_config) : bool * limits_config :=
  let 'LimitsConfig connections per_address frame handshake idle by_address by_identity := l in
  if decide (key = lit "max_connections") then
    store (parse_unsigned value connections)
      (λ v, LimitsConfig v per_address frame handshake idle by_address by_identity)
  else if decide (key = lit "max_connections_per_address") then
    store (parse_unsigned value per_address)
      (λ v, LimitsConfig connections v frame handshake idle by_address by_identity)
  else if decide (key = lit "max_frame_size") then
    store (parse_unsigned value frame)
      (λ v, LimitsConfig connections per_address v handshake idle by_address by_identity)
  else if decide (key = lit "handshake_timeout_seconds") then
    store (parse_unsigned value handshake)
      (λ v, LimitsConfig connections per_address frame v idle by_address by_identity)
  else if decide (key = lit "idle_timeout_seconds") then
    store (parse_unsigned value idle)
      (λ v, LimitsConfig connections per_address frame handshake v by_address by_identity)
  else if decide (key = lit "requests_per_minute_per_address") then
    store (parse_unsigned value by_address)
      (λ v, LimitsConfig connections per_address frame handshake idle v by_identity)
  else if decide (key = lit "requests_per_minute_per_identity") then
    store (parse_unsigned value by_identity)
      (λ v, LimitsConfig connections per_address frame handshake idle by_address v)
  else (false, l).

Definition apply_logging_setting (key value : bytes) (l : logging_config) : bool * logging_config :=
  let 'LoggingConfig lvl addresses days path := l in
  if decide (key = lit "level") then
    store (parse_level value lvl) (λ v, LoggingConfig v addresses days path)
  else if decide (key = lit "log_peer_addresses") then
    store (parse_boolean value addresses) (λ v, LoggingConfig lvl v days path)
  else if decide (key = lit "retention_days") then
    store (parse_unsigned value days) (λ v, LoggingConfig lvl addresses v path)
  else if decide (key = lit "file_path") then (true, LoggingConfig lvl addresses days value)
  else (false, l).

Definition apply_paths_setting (key value : bytes) (p : paths_config) : bool * paths_config :=
  let 'PathsConfig database migrations server_key admin_socket connect_file := p in
  if decide (key = lit "database") then
    (true, PathsConfig value migrations server_key admin_socket connect_file)
  else if decide (key = lit "migrations") then
    (true, PathsConfig database value server_key admin_socket connect_file)
  else if decide (key = lit "server_key") then
    (true, PathsConfig database migrations value admin_socket connect_file)
  else if decide (key = lit "admin_socket") then
    (true, PathsConfig database migrations server_key value connect_file)
  else if decide (key = lit "connect_file") then
    (true, PathsConfig database migrations server_key admin_socket value)
  else (false, p).

Definition apply_setting (section key value : bytes) (c : server_config) : bool * server_config :=
  let 'ServerConfig clear on lim log p open := c in
  if decide (section = lit "clearnet") then
    store (apply_listener_setting key value clear) (λ l, ServerConfig l on lim log p open)
  else if decide (section = lit "onion") then
    store (apply_listener_setting key value on) (λ l, ServerConfig clear l lim log p open)
  else if decide (section = lit "limits") then
    store (apply_limits_setting key value lim) (λ l, ServerConfig clear on l log p open)
  else if decide (section = lit "logging") then
    store (apply_logging_setting key value log) (λ l, ServerConfig clear on lim l p open)
  else if decide (section = lit "paths") then
    store (apply_paths_setting key value p) (λ l, ServerConfig clear on lim log l open)
  else if decide (section = lit "server" ∧ key = lit "registration_open") then
    store (parse_boolean value open) (ServerConfig clear on lim log p)
  else (false, c).

Definition report_error (line_number : Z) (message : bytes) (r : config_reader) : config_reader :=
  ConfigReader (section r) (out r) (errors r ++ [ConfigError line_number message]).

Definition handle_config_line (line : bytes) (line_number : Z) (r : config_reader) : config_reader :=
  let trimmed := trim_spaces line in
  match trimmed with
  | [] => r
  | first :: _ =>
      if byte_val first =? chr "#" then r
      else if byte_val first =? chr "[" then
        if negb (byte_val (default Byte.x00 (last trimmed)) =? chr "]") then
          report_error line_number (lit "section non fermee") r
        else ConfigReader (take (length trimmed - 2) (drop 1 trimmed)) (out r) (errors r)
      else
        match split_first (byte_of (chr "=")) trimmed with
        | None => report_error line_number (lit "ligne sans '=' et hors section") r
        | Some (before, after) =>
            let key := trim_spaces before in
            let value := trim_spaces after in
            if decide (section r = []) then
              report_error line_number (lit "reglage hors de toute section") r
            else
              let '(applied, c) := apply_setting (section r) key value (out r) in
              let r := ConfigReader (section r) c (errors r) in
              if negb applied then
                report_error line_number
                  (lit "cle inconnue ou valeur invalide : [" ++ section r ++ lit "] " ++ key) r
              else r
        end
  end.

(** The loop over the lines. [rest] is the text from [offset] on; every turn
    but the last consumes a newline, so the length of the text bounds them. *)
Fixpoint parse_lines (fuel : nat) (rest : bytes) (line_number : Z) (r : config_reader) : config_reader :=
  match fuel with
  | O => r
  | S fuel' =>
      let line_number := line_number + 1 in
      match split_first (byte_of 10) rest with
      | None => handle_config_line rest line_number r
      | Some (line, rest) => parse_lines fuel' rest line_number (handle_config_line line line_number r)
      end
  end.

Definition parse_config_text (text : bytes) (out : server_config) (errors : list config_error)
    : bool * server_config * list config_error :=
  let r := parse_lines (S (length text)) text 0 (ConfigReader [] out errors) in
  (bool_decide (ConfigFile.errors r = []), ConfigFile.out r, ConfigFile.errors r).

(** [contents] is [None] when the file cannot be opened. *)
Definition parse_config_file (path : bytes) (contents : option bytes) (out : server_config)
    (errors : list config_error) : bool * server_config * list config_error :=
  match contents with
  | None => (false, out, errors ++ [ConfigError 0 (lit "fichier illisible : " ++ path)])
  | Some text => parse_config_text text out errors
  end.

Definition format_config_errors (path : bytes) (errors : list config_error) : bytes :=
  lit "configuration invalide : " ++ path ++ newline ++
  concat (map (λ e, lit "  ligne " ++ decimal (line_number e) ++ lit " : " ++ message e ++ newline) errors).

(** ** config_validator.cpp *)

Definition LEGAL_RETENTION_MINIMUM_DAYS : Z := 365.

(** The problem to report when a condition holds. *)
Definition problem (condition : bool) (text : bytes) : list bytes := if condition then [text] else [].

Definition check_listener (listener : listener_config) (name : bytes) (problems : list bytes) : list bytes :=
  if negb (enabled listener) then problems
  else
    problems ++
    problem (bool_decide (bind_address listener = []))
      (lit "[" ++ name ++ lit "] bind_address est requis quand enabled=true") ++
    problem (port listener =? 0) (lit "[" ++ name ++ lit "] port est requis quand enabled=true").

Definition check_limits (limits : limits_config) (problems : list bytes) : list bytes :=
  problems ++
  problem (max_connections limits =? 0) (lit "[limits] max_connections doit etre superieur a 0") ++
  problem (max_connections limits <? max_connections_per_address limits)
    (lit "[limits] max_connections_per_address depasse max_connections") ++
  problem (MAX_FRAME_SIZE <? max_frame_size limits)
    (lit "[limits] max_frame_size depasse le plafond du protocole (1 MiB)") ++
  problem (max_frame_size limits <? FRAME_HEADER_SIZE + 1) (lit "[limits] max_frame_size est trop petit") ++
  problem (handshake_timeout_seconds limits =? 0)
    (lit "[limits] handshake_timeout_seconds ne peut pas etre nul : une socket qui ne finit jamais son handshake est une fuite de descripteur").

Definition validate_config (config : server_config) (problems warnings : list bytes)
    : bool * list bytes * list bytes :=
  let problems := problems ++
    problem (negb (enabled (clearnet config)) && negb (enabled (onion config)))
      (lit "aucun listener actif : activer [clearnet] ou [onion]") in
  let problems := check_listener (clearnet config) (lit "clearnet") problems in
  let problems := check_listener (onion config) (lit "onion") problems in
  let problems := check_limits (limits config) problems in
  let problems := problems ++
    problem (bool_decide (database_path (paths config) = [])) (lit "[paths] database est requis") ++
    problem (bool_decide (server_key_path (paths config) = [])) (lit "[paths] server_key est requis") in
  let warnings := warnings ++
    if log_peer_addresses (logging config) then
      lit "[logging] log_peer_addresses=true : le serveur va journaliser des adresses IP, contrairement au defaut du projet. Retirer ce reglage pour revenir au comportement non surveille." ::
      problem (retention_days (logging config) <? LEGAL_RETENTION_MINIMUM_DAYS)
        (lit "[logging] retention_days=" ++ decimal (retention_days (logging config)) ++
         lit " est sous le plancher legal francais d'un an pour les donnees de connexion. Journaliser sans le conserver assez longtemps n'apporte pas la conformite que log_peer_addresses laisse croire.")
    else [] in
  (bool_decide (problems = []), problems, warnings).

(** ** Every configuration is of its type *)

Definition config_typed (c : server_config) : Prop :=
  u16 (port (clearnet c)) ∧ u16 (port (onion c)) ∧
  u32 (max_connections (limits c)) ∧ u32 (max_connections_per_address (limits c)) ∧
  u32 (max_frame_size (limits c)) ∧ u32 (handshake_timeout_seconds (limits c)) ∧
  u32 (idle_timeout_seconds (limits c)) ∧ u32 (requests_per_minute_per_address (limits c)) ∧
  u32 (requests_per_minute_per_identity (limits c)) ∧ u32 (retention_days (logging c)).

Lemma default_config_typed : config_typed default_config.
Proof. unfold config_typed, fits. simpl. lia. Qed.

Lemma parse_unsigned_fits text old : u32 old → u32 (parse_unsigned text old).2.
Proof.
  intros Hold. unfold parse_unsigned.
  destruct (from_chars_unsigned 32 text) as [[v rest]|] eqn:E; [|done].
  simpl. by eapply from_chars_unsigned_fits.
Qed.

(** Each number a setting touches stays in its type. *)
Lemma apply_listener_typed key value l : u16 (port l) → u16 (port (apply_listener_setting key value l).2).
Proof.
  intros Hl. unfold apply_listener_setting. repeat case_decide; try done.
  pose proof (parse_unsigned_fits value 0 ltac:(unfold fits; lia)) as Hv.
  destruct (parse_unsigned value 0) as [ok p]. simpl in Hv.
  destruct (negb ok || (p =? 0) || (65535 <? p)) eqn:E; [done|]. simpl.
  unfold fits in *. lia.
Qed.

Lemma apply_setting_typed section key value c :
  config_typed c → config_typed (apply_setting section key value c).2.
Proof.
  intros (? & ? & ? & ? & ? & ? & ? & ? & ? & ?). destruct c as [clear on lim log p open]. simpl in *.
  unfold apply_setting. destruct lim, log, p. simpl in *.
  repeat case_decide; unfold config_typed, store, apply_limits_setting, apply_logging_setting, apply_paths_setting;
    repeat case_decide; simpl in *;
    split_and!; auto using apply_listener_typed, parse_unsigned_fits.
Qed.

(** The errors a line adds come with its number. *)
Definition at_line (n : Z) (r r' : config_reader) : Prop :=
  ∃ added, errors r' = errors r ++ added ∧ (length added <= 1)%nat ∧ Forall (λ e, line_number e = n) added.

Lemma at_line_same n r section out : at_line n r (ConfigReader section out (errors r)).
Proof. exists []. split_and!; [simpl; by rewrite app_nil_r|simpl; lia|done]. Qed.

Lemma at_line_error n m r section out :
  at_line n r (report_error n m (ConfigReader section out (errors r))).
Proof. exists [ConfigError n m]. simpl. split_and!; [done|lia|by repeat constructor]. Qed.

Lemma handle_line_spec line n r :
  config_typed (out r) → config_typed (out (handle_config_line line n r)) ∧ at_line n r (handle_config_line line n r).
Proof.
  intros Ht. destruct r as [sec c errs]. unfold handle_config_line. simpl in Ht.
  destruct (trim_spaces line) as [|first trimmed]; [by split; [|apply (at_line_same n (ConfigReader sec c errs))]|].
  pose proof (at_line_same n (ConfigReader sec c errs)) as Hsame.
  pose proof (λ m, at_line_error n m (ConfigReader sec c errs)) as Herror. simpl in *.
  repeat case_match; try (split; [done|first [apply Hsame|apply Herror]]);
    match goal with E : apply_setting _ ?k ?v _ = (?b, ?x) |- _ =>
      pose proof (apply_setting_typed sec k v c Ht) as Hc; rewrite E in Hc; simpl in Hc end;
    (split; [done|first [apply Hsame|apply Herror]]).
Qed.

(** ** The loop goes through the lines in order *)

Fixpoint handle_lines (lines : list bytes) (n : Z) (r : config_reader) : config_reader :=
  match lines with
  | [] => r
  | line :: lines => handle_lines lines (n + 1) (handle_config_line line (n + 1) r)
  end.

Lemma parse_lines_fold fuel rest n r :
  (length rest < fuel)%nat → parse_lines fuel rest n r = handle_lines (text_lines rest) n r.
Proof.
  revert rest n r. induction fuel as [|fuel IH]; intros rest n r Hf; [lia|].
  cbn [parse_lines]. rewrite text_lines_split.
  destruct (split_first (byte_of 10) rest) as [[line rest']|] eqn:E; [|done].
  apply split_first_Some in E as [-> _]. cbn [handle_lines]. apply IH.
  rewrite length_app in Hf. simpl in Hf. lia.
Qed.

Lemma handle_lines_app l k n r :
  handle_lines (l ++ k) n r = handle_lines k (n + size_of l) (handle_lines l n r).
Proof.
  revert n r. induction l as [|x l IH]; intros n r; simpl.
  - by rewrite size_of_nil, Z.add_0_r.
  - rewrite IH, size_of_cons. f_equal. lia.
Qed.

(** Errors come in the order of their lines, at most one for a line. *)
Lemma handle_lines_spec lines n r :
  config_typed (out r) →
  let r' := handle_lines lines n r in
  config_typed (out r') ∧
  ∃ added, errors r' = errors r ++ added ∧
    StronglySorted (λ e e', line_number e < line_number e') added ∧
    Forall (λ e, n < line_number e <= n + size_of lines) added.
Proof.
  revert n r. induction lines as [|line lines IH]; intros n r Ht; simpl.
  { split; [done|]. exists []. rewrite app_nil_r. repeat constructor. }
  destruct (handle_line_spec line (n + 1) r Ht) as [Ht1 (first & E1 & Hlen & Hfirst)].
  destruct (IH (n + 1) _ Ht1) as [Ht2 (added & E2 & Hsorted & Hbound)].
  split; [done|]. exists (first ++ added). rewrite E2, E1, (assoc app). rewrite size_of_cons.
  pose proof (size_of_nonneg lines). split_and!; [done| |].
  - destruct first as [|e [|? ?]]; simpl in *; [done| |lia].
    constructor; [done|]. apply Forall_inv in Hfirst.
    eapply Forall_impl; [exact Hbound|]. simpl. intros; lia.
  - apply Forall_app. split; (eapply Forall_impl; [eassumption|]); simpl; intros; lia.
Qed.

(** The errors of a configuration file come in the order of its lines, at
    most one for each line, whatever the errors before; the verdict is true
    exactly when there are none; and every number read, errors or not, is
    within its type. *)
Theorem config_errors_in_order (text : bytes) :
  let '(accepted, c, errs) := parse_config_text text default_config [] in
  (accepted = true ↔ errs = []) ∧
  StronglySorted (λ e e', line_number e < line_number e') errs ∧
  Forall (λ e, 1 <= line_number e <= size_of (text_lines text)) errs ∧
  config_typed c.
Proof.
  unfold parse_config_text. rewrite parse_lines_fold by lia.
  destruct (handle_lines_spec (text_lines text) 0 (ConfigReader [] default_config []) default_config_typed)
    as [Ht (added & -> & Hsorted & Hbound)].
  simpl. split_and!; [apply bool_decide_eq_true|done| |done].
  eapply Forall_impl; [exact Hbound|]. simpl. lia.
Qed.

(** ** What the validator lets through *)

Definition listener_usable (l : listener_config) : Prop :=
  enabled l = true → bind_address l ≠ [] ∧ port l ≠ 0.

Lemma problem_nil c text : problem c text = [] ↔ c = false.
Proof. destruct c; simpl; by split. Qed.

Lemma check_listener_nil l name ps :
  check_listener l name ps = [] ↔ ps = [] ∧ listener_usable l.
Proof.
  unfold check_listener, listener_usable. destruct (enabled l); simpl; [|by intuition].
  rewrite !app_nil, !problem_nil, bool_decide_eq_false. unfold Is_true. intuition lia.
Qed.

Definition limits_usable (l : limits_config) : Prop :=
  max_connections l ≠ 0 ∧ max_connections_per_address l <= max_connections l ∧
  FRAME_HEADER_SIZE + 1 <= max_frame_size l <= MAX_FRAME_SIZE ∧ handshake_timeout_seconds l ≠ 0.

Lemma check_limits_nil l ps : check_limits l ps = [] ↔ ps = [] ∧ limits_usable l.
Proof.
  unfold check_limits, limits_usable. rewrite !app_nil, !problem_nil. intuition lia.
Qed.

Lemma validate_nil c ps ws : (validate_config c ps ws).1.1 = true ↔
  ps = [] ∧ (enabled (clearnet c) = true ∨ enabled (onion c) = true) ∧
  listener_usable (clearnet c) ∧ listener_usable (onion c) ∧ limits_usable (limits c) ∧
  database_path (paths c) ≠ [] ∧ server_key_path (paths c) ≠ [].
Proof.
  unfold validate_config. cbn [fst]. rewrite bool_decide_eq_true.
  rewrite !app_nil, check_limits_nil, !check_listener_nil, !app_nil, !problem_nil, !bool_decide_eq_false.
  destruct (enabled (clearnet c)), (enabled (onion c)); simpl; intuition congruence.
Qed.

(** C38: a configuration the server starts with, whatever its file says, has a
    listener; each enabled one has an address and a port from 1 to 65535; it
    admits at least one connection and no address more than all; its frame
    limit is one the protocol allows, the handshake is timed, and the numbers
    the runtime computes with are of 32 bits. *)
Theorem accepted_config_is_sound (text : bytes) (c : server_config) (warnings : list bytes)
    (Hparsed : parse_config_text text default_config [] = (true, c, []))
    (Hvalid : validate_config c [] [] = (true, [], warnings)) :
  (enabled (clearnet c) = true ∨ enabled (onion c) = true) ∧
  (∀ l, l = clearnet c ∨ l = onion c → enabled l = true → bind_address l ≠ [] ∧ 1 <= port l <= 65535) ∧
  1 <= max_connections (limits c) < 2 ^ 32 ∧
  0 <= max_connections_per_address (limits c) <= max_connections (limits c) ∧
  FRAME_HEADER_SIZE < max_frame_size (limits c) <= MAX_FRAME_SIZE ∧
  1 <= handshake_timeout_seconds (limits c) < 2 ^ 32 ∧
  u32 (idle_timeout_seconds (limits c)) ∧
  u32 (requests_per_minute_per_address (limits c)) ∧ u32 (requests_per_minute_per_identity (limits c)) ∧
  (warnings = [] ↔ log_peer_addresses (logging c) = false).
Proof.
  pose proof (f_equal (λ r, r.1.1) Hvalid) as Hv. apply (validate_nil c [] []) in Hv as (_ & Hone & Hclear & Honion & Hlim & _).
  pose proof (f_equal (λ r, r.2) Hvalid) as Hw. simpl in Hw.
  unfold parse_config_text in Hparsed. rewrite parse_lines_fold in Hparsed by lia.
  destruct (handle_lines_spec (text_lines text) 0 (ConfigReader [] default_config []) default_config_typed)
    as [Ht _]. injection Hparsed as _ Ec _. rewrite Ec in Ht.
  unfold config_typed, limits_usable, listener_usable, fits in *. split_and!; try lia; try done.
  - intros l [-> | ->] He; [destruct (Hclear He)|destruct (Honion He)]; split; (done || lia).
  - rewrite <-Hw. by destruct (log_peer_addresses (logging c)).
Qed.

(** ** Every configuration can be written down *)

Definition setting : Type := bytes * bytes.

Definition yes_or_no (b : bool) : bytes := if b then lit "yes" else lit "no".

Definition listener_settings (l : listener_config) : list setting :=
  [(lit "enabled", yes_or_no (enabled l)); (lit "bind_address", bind_address l);
   (lit "advertised_host", advertised_host l)] ++
  (if port l =? 0 then [] else [(lit "port", decimal (port l))]).

Definition limits_settings (l : limits_config) : list setting :=
  [(lit "max_connections", decimal (max_connections l));
   (lit "max_connections_per_address", decimal (max_connections_per_address l));
   (lit "max_frame_size", decimal (max_frame_size l));
   (lit "handshake_timeout_seconds", decimal (handshake_timeout_seconds l));
   (lit "idle_timeout_seconds", decimal (idle_timeout_seconds l));
   (lit "requests_per_minute_per_address", decimal (requests_per_minute_per_address l));
   (lit "requests_per_minute_per_identity", decimal (requests_per_minute_per_identity l))].

Definition logging_settings (l : logging_config) : list setting :=
  [(lit "level", describe_log_level (level l)); (lit "log_peer_addresses", yes_or_no (log_peer_addresses l));
   (lit "retention_days", decimal (retention_days l)); (lit "file_path", file_path l)].

Definition paths_settings (p : paths_config) : list setting :=
  [(lit "database", database_path p); (lit "migrations", migrations_directory p);
   (lit "server_key", server_key_path p); (lit "admin_socket", admin_socket_path p);
   (lit "connect_file", connect_file_path p)].

Definition config_settings (c : server_config) : list (bytes * list setting) :=
  [(lit "clearnet", listener_settings (clearnet c)); (lit "onion", listener_settings (onion c));
   (lit "limits", limits_settings (limits c)); (lit "logging", logging_settings (logging c));
   (lit "paths", paths_settings (paths c));
   (lit "server", [(lit "registration_open", yes_or_no (registration_open c))])].

Definition section_line (name : bytes) : bytes := lit "[" ++ name ++ lit "]".
Definition setting_line (s : setting) : bytes := s.1 ++ lit " = " ++ s.2.

Definition section_lines (s : bytes * list setting) : list bytes := section_line s.1 :: map setting_line s.2.

(** A configuration file that says everything. *)
Definition write_config (c : server_config) : bytes :=
  concat (map (λ line, line ++ newline) (concat (map section_lines (config_settings c)))).

(** A text a line of the file can hold. *)
Definition writable (text : bytes) : Prop := trimmed text ∧ byte_of 10 ∉ text.

#[export] Instance writable_dec text : Decision (writable text).
Proof. unfold writable. apply _. Defined.

Definition config_writable (c : server_config) : Prop :=
  config_typed c ∧
  Forall writable [bind_address (clearnet c); advertised_host (clearnet c); bind_address (onion c);
    advertised_host (onion c); file_path (logging c); database_path (paths c);
    migrations_directory (paths c); server_key_path (paths c); admin_socket_path (paths c);
    connect_file_path (paths c)].

Lemma handle_section_line name n r :
  handle_config_line (section_line name) n r = ConfigReader name (out r) (errors r).
Proof.
  unfold handle_config_line, section_line.
  assert (lit "[" ++ name ++ lit "]" = byte_of 91 :: (name ++ [byte_of 93])) as -> by done.
  rewrite trim_spaces_id.
  2:{ split; [done|]. by rewrite app_comm_cons, last_snoc. }
  rewrite app_comm_cons, last_snoc. simpl. f_equal. rewrite length_app. simpl. rewrite drop_0.
  replace (length name + 1 - 1)%nat with (length name) by lia. by rewrite take_app_length.
Qed.

(** A name no line confuses with a section, a comment or a value. *)
Definition plain_key (key : bytes) : Prop :=
  writable key ∧ (byte_of (chr "=") ∉ key) ∧ key ≠ [] ∧
  from_option (λ b, (byte_val b =? chr "#") || (byte_val b =? chr "[")) true (head key) = false.

#[export] Instance plain_key_dec key : Decision (plain_key key).
Proof. unfold plain_key. apply _. Defined.

Lemma trim_setting_line key value : plain_key key → trimmed value →
  trim_spaces (setting_line (key, value)) = key ++ lit " =" ++ (if decide (value = []) then [] else lit " " ++ value).
Proof.
  intros ([[Hf _] _] & _ & Hne & _) Hv. unfold setting_line. cbn [fst snd].
  destruct key as [|k key]; [done|]. case_decide as E.
  - subst value. rewrite app_nil_r.
    assert ((k :: key) ++ lit " = " = ((k :: key) ++ lit " =") ++ [byte_of 32]) as ->
      by (by rewrite <-(assoc app)).
    rewrite app_nil_r. apply trim_spaces_back. split; [done|].
    change (lit " =") with ([byte_of 32] ++ [byte_of 61]). by rewrite (assoc app), last_snoc.
  - assert (lit " = " ++ value = lit " =" ++ lit " " ++ value) as -> by done.
    apply trim_spaces_id. split; [done|]. destruct Hv as [_ Hl].
    destruct value as [|v value] using rev_ind; [done|]. rewrite last_snoc in Hl. by rewrite !(assoc app), last_snoc.
Qed.

Lemma handle_setting_line section out errs key value n :
  section ≠ [] → plain_key key → trimmed value →
  handle_config_line (setting_line (key, value)) n (ConfigReader section out errs) =
    match apply_setting section key value out with
    | (true, c) => ConfigReader section c errs
    | (false, c) => report_error n (lit "cle inconnue ou valeur invalide : [" ++ section ++ lit "] " ++ key)
                      (ConfigReader section c errs)
    end.
Proof.
  intros Hs Hk Hv. unfold handle_config_line. rewrite trim_setting_line by done.
  destruct Hk as ([Hkt _] & Heq & Hne & Hhead).
  assert (split_first (byte_of (chr "=")) (key ++ lit " =" ++ (if decide (value = []) then [] else lit " " ++ value))
          = Some (key ++ lit " ", if decide (value = []) then [] else lit " " ++ value)) as Hsplit.
  { change (lit " =" ++ ?x) with (lit " " ++ byte_of (chr "=") :: x). rewrite (assoc app).
    apply split_first_eq. rewrite elem_of_app. intros [?|Hin]; [done|]. by apply list_elem_of_singleton in Hin. }
  assert (trim_spaces (if decide (value = []) then [] else lit " " ++ value) = value) as Hval.
  { case_decide; [by subst|]. change (lit " " ++ value) with (byte_of 32 :: value).
    rewrite trim_spaces_front. by apply trim_spaces_id. }
  destruct key as [|k key]; [done|]. rewrite <-!app_comm_cons in *. rewrite Hsplit, Hval.
  change (k :: key ++ lit " ") with ((k :: key) ++ [byte_of 32]). rewrite trim_spaces_back by done.
  simpl in Hhead. apply orb_false_iff in Hhead as [-> ->]. cbn [ConfigFile.section ConfigFile.out errors].
  rewrite decide_False by done.
  by destruct (apply_setting section (k :: key) value out) as [[|] c].
Qed.

Fixpoint apply_settings (section : bytes) (settings : list setting) (c : server_config) : option server_config :=
  match settings with
  | [] => Some c
  | (key, value) :: settings =>
      match apply_setting section key value c with
      | (true, c) => apply_settings section settings c
      | (false, _) => None
      end
  end.

Definition settings_ok (settings : list setting) : Prop :=
  Forall (λ s, plain_key s.1 ∧ writable s.2) settings.

Lemma handle_settings section settings c c' errs n :
  section ≠ [] → settings_ok settings → apply_settings section settings c = Some c' →
  handle_lines (map setting_line settings) n (ConfigReader section c errs) = ConfigReader section c' errs.
Proof.
  intros Hs Hok. revert c n. induction Hok as [|[key value] settings [Hk [Hv _]] _ IH]; intros c n Happly.
  { simpl in *. congruence. }
  cbn [map handle_lines]. cbn [fst snd] in *. rewrite handle_setting_line by done.
  cbn [apply_settings] in Happly. destruct (apply_setting section key value c) as [[|] c1]; [|done].
  by apply IH.
Qed.

Lemma handle_section section settings c c' s0 errs n :
  section ≠ [] → settings_ok settings → apply_settings section settings c = Some c' →
  handle_lines (section_lines (section, settings)) n (ConfigReader s0 c errs) = ConfigReader section c' errs.
Proof.
  intros. unfold section_lines. cbn [handle_lines fst snd]. rewrite handle_section_line. by apply handle_settings.
Qed.

Lemma parse_unsigned_decimal n old : u32 n → parse_unsigned (decimal n) old = (true, n).
Proof.
  intros Hn. unfold parse_unsigned. rewrite <-(app_nil_r (decimal n)).
  rewrite from_chars_decimal by (done || lia). by rewrite bool_decide_true.
Qed.

Lemma parse_boolean_word b old : parse_boolean (yes_or_no b) old = (true, b).
Proof. by destruct b. Qed.

Lemma parse_level_word l old : parse_level (describe_log_level l) old = (true, l).
Proof. by destruct l. Qed.

(** Evaluate what the known sections and keys select. *)
Ltac run_settings :=
  cbv -[parse_unsigned parse_boolean parse_level decimal yes_or_no describe_log_level Z.eqb Z.ltb].

Lemma apply_listener_settings (name : bytes) l c put :
  u16 (port l) →
  (∀ key value l, apply_setting name key value (put l) = store (apply_listener_setting key value l) put) →
  c = put default_listener → apply_settings name (listener_settings l) c = Some (put l).
Proof.
  intros Hport Hput ->. destruct l as [en ba po ad]. cbn [port] in Hport. unfold listener_settings.
  assert (u32 po) as Hpo by (unfold fits in *; lia).
  cbn [apply_settings app enabled bind_address advertised_host port]. rewrite Hput.
  change (apply_listener_setting (lit "enabled") (yes_or_no en) default_listener)
    with (store (parse_boolean (yes_or_no en) false) (λ v, ListenerConfig v [] 0 [])).
  rewrite parse_boolean_word. cbn [store fst snd]. rewrite Hput.
  change (store (apply_listener_setting (lit "bind_address") ba (ListenerConfig en [] 0 [])) put)
    with (true, put (ListenerConfig en ba 0 [])).
  cbv iota. rewrite Hput.
  change (store (apply_listener_setting (lit "advertised_host") ad (ListenerConfig en ba 0 [])) put)
    with (true, put (ListenerConfig en ba 0 ad)).
  cbv iota. destruct (Z.eqb_spec po 0) as [->|Hne]; [done|]. cbn [apply_settings]. rewrite Hput.
  assert (apply_listener_setting (lit "port") (decimal po) (ListenerConfig en ba 0 ad) =
    (true, ListenerConfig en ba po ad)) as ->; [|done].
  run_settings. rewrite parse_unsigned_decimal by done.
  replace (po =? 0) with false by lia. unfold fits in Hport. by replace (65535 <? po) with false by lia.
Qed.

Lemma apply_limits_settings l clear on log p open :
  u32 (max_connections l) → u32 (max_connections_per_address l) → u32 (max_frame_size l) →
  u32 (handshake_timeout_seconds l) → u32 (idle_timeout_seconds l) →
  u32 (requests_per_minute_per_address l) → u32 (requests_per_minute_per_identity l) →
  apply_settings (lit "limits") (limits_settings l) (ServerConfig clear on (limits default_config) log p open) =
  Some (ServerConfig clear on l log p open).
Proof.
  intros. destruct l as [l1 l2 l3 l4 l5 l6 l7]. cbn -[fits] in *. run_settings.
  by rewrite !parse_unsigned_decimal by done.
Qed.

Lemma apply_logging_settings l clear on lim p open :
  u32 (retention_days l) →
  apply_settings (lit "logging") (logging_settings l) (ServerConfig clear on lim (logging default_config) p open) =
  Some (ServerConfig clear on lim l p open).
Proof.
  intros. destruct l as [l1 l2 l3 l4]. cbn -[fits] in *. run_settings.
  by rewrite parse_level_word, parse_boolean_word, parse_unsigned_decimal by done.
Qed.

Lemma apply_paths_settings p clear on lim log open :
  apply_settings (lit "paths") (paths_settings p) (ServerConfig clear on lim log (paths default_config) open) =
  Some (ServerConfig clear on lim log p open).
Proof. by destruct p. Qed.

Lemma apply_server_settings b clear on lim log p open :
  apply_settings (lit "server") [(lit "registration_open", yes_or_no b)] (ServerConfig clear on lim log p open) =
  Some (ServerConfig clear on lim log p b).
Proof. run_settings. by rewrite parse_boolean_word. Qed.

Lemma writable_decimal n : u32 n → writable (decimal n).
Proof.
  intros Hn. destruct (decimal_all_digits n) as [Hd Hne]; [unfold fits in *; lia|].
  assert (∀ b, is_digit b = true → is_trailing_blank b = false ∧ is_space_or_tab b = false ∧ b ≠ byte_of 10)
    as Hdigit.
  { intros b Hb. unfold is_digit, in_range in Hb. change (chr "0") with 48 in Hb. change (chr "9") with 57 in Hb.
    unfold is_trailing_blank, is_space_or_tab. split_and!; [lia|lia|]. intros ->. by vm_compute in Hb. }
  destruct (decimal n) as [|d l]; [done|]. unfold writable, trimmed.
  split_and!; [apply Forall_inv in Hd; by destruct (Hdigit d Hd) as (? & ? & ?)| |].
  - destruct (last (d :: l)) as [b|] eqn:E; [|done]. simpl. apply last_Some in E as [l' E].
    rewrite E in Hd. apply Forall_app in Hd as [_ Hd%Forall_inv].
    by destruct (Hdigit b Hd) as (? & ? & ?).
  - intros Hin. eapply Forall_forall in Hin; [|done]. by destruct (Hdigit _ Hin) as (? & ? & ?).
Qed.

Lemma settings_ok_split (settings : list setting) :
  Forall plain_key (map fst settings) → Forall writable (map snd settings) → settings_ok settings.
Proof.
  intros Hk Hv. unfold settings_ok. apply Forall_and. split; by apply Forall_map.
Qed.

Ltac each_value := cbn [map snd app]; repeat apply Forall_cons_2; try apply Forall_nil_2; auto using writable_decimal.

Lemma writable_settings c : config_writable c →
  Forall (λ s, settings_ok s.2 ∧ (byte_of 10 ∉ s.1) ∧ s.1 ≠ []) (config_settings c).
Proof.
  intros [Ht Htexts]. rewrite !Forall_cons in Htexts.
  destruct Htexts as (? & ? & ? & ? & ? & ? & ? & ? & ? & ? & _).
  assert (∀ b, writable (yes_or_no b)) by (intros []; by_decision).
  assert (∀ l, writable (describe_log_level l)) by (intros []; by_decision).
  destruct Ht as (Hp1 & Hp2 & ? & ? & ? & ? & ? & ? & ? & ?).
  assert (∀ p, u16 p → writable (decimal p)) by (intros p Hp; apply writable_decimal; unfold fits in *; lia).
  assert (∀ l, u16 (port l) → writable (bind_address l) → writable (advertised_host l) →
    settings_ok (listener_settings l)) as Hlistener.
  { intros l ???. unfold listener_settings; case_match; apply settings_ok_split;
      [by_decision|by each_value|by_decision|by each_value]. }
  unfold config_settings, limits_settings, logging_settings, paths_settings.
  repeat apply Forall_cons_2; try apply Forall_nil_2; cbn [fst snd];
    (split; [|split; by_decision]); auto;
    (apply settings_ok_split; [by_decision|by each_value]).
Qed.

(** No line of the file is broken by its contents. *)
Lemma section_lines_whole (sections : list (bytes * list setting)) :
  Forall (λ s, settings_ok s.2 ∧ (byte_of 10 ∉ s.1) ∧ s.1 ≠ []) sections →
  Forall (λ line, byte_of 10 ∉ line) (concat (map section_lines sections)).
Proof.
  intros Hall. apply Forall_concat, Forall_map. eapply Forall_impl; [exact Hall|].
  intros [name settings] (Hok & Hname & _). constructor.
  - apply newline_app; [by_decision|]. by apply newline_app; [|by_decision].
  - apply Forall_map. eapply Forall_impl; [exact Hok|]. intros [key value] [([_ Hk] & _) [_ Hv]].
    apply newline_app; [done|]. by apply newline_app; [by_decision|].
Qed.

Fixpoint apply_sections (sections : list (bytes * list setting)) (c : server_config) : option server_config :=
  match sections with
  | [] => Some c
  | (name, settings) :: sections =>
      match apply_settings name settings c with
      | Some c => apply_sections sections c
      | None => None
      end
  end.

Lemma handle_sections sections c c' s0 errs n :
  Forall (λ s, settings_ok s.2 ∧ (byte_of 10 ∉ s.1) ∧ s.1 ≠ []) sections →
  apply_sections sections c = Some c' →
  ∃ s, handle_lines (concat (map section_lines sections)) n (ConfigReader s0 c errs) = ConfigReader s c' errs.
Proof.
  intros Hall. revert c s0 n. induction Hall as [|[name settings] sections (Hok & _ & Hne) _ IH]; intros c s0 n Happly.
  { simpl in Happly. exists s0. simpl. congruence. }
  cbn [apply_sections] in Happly. destruct (apply_settings name settings c) as [c1|] eqn:E; [|done].
  cbn [map concat]. rewrite handle_lines_app. erewrite handle_section by done. by apply IH.
Qed.

Lemma apply_config_settings c : config_typed c →
  apply_sections (config_settings c) default_config = Some c.
Proof.
  intros (? & ? & ? & ? & ? & ? & ? & ? & ? & ?). destruct c as [clear on lim log p open].
  cbn [clearnet onion limits logging paths registration_open] in *. unfold config_settings.
  cbn [apply_sections clearnet onion limits logging paths registration_open].
  rewrite (apply_listener_settings _ clear default_config
    (λ l, ServerConfig l default_listener (limits default_config) (logging default_config)
            (paths default_config) true)) by done.
  rewrite (apply_listener_settings _ on _
    (λ l, ServerConfig clear l (limits default_config) (logging default_config) (paths default_config) true))
    by done.
  rewrite apply_limits_settings, apply_logging_settings, apply_paths_settings by done.
  by rewrite apply_server_settings.
Qed.

(** ** What the parser returns can be written *)

Lemma drop_while_sublist p text : drop_while p text ⊆ text.
Proof. induction text as [|b text IH]; simpl; [done|]. destruct (p b); set_solver. Qed.

Lemma drop_while_head p text : from_option p false (head (drop_while p text)) = false.
Proof. induction text as [|b text IH]; simpl; [done|]. by destruct (p b) eqn:E. Qed.

(** Dropping from the back leaves the front alone. *)
Lemma drop_while_suffix p text : ∃ dropped, text = dropped ++ drop_while p text.
Proof.
  induction text as [|b text [d IH]]; simpl; [by exists []|].
  destruct (p b); [exists (b :: d); simpl; by rewrite <-IH|by exists []].
Qed.

Lemma trim_spaces_trimmed text : trimmed (trim_spaces text).
Proof.
  unfold trimmed, trim_spaces. set (front := drop_while is_space_or_tab text).
  assert (from_option is_space_or_tab false (head front) = false) as Hf by apply drop_while_head.
  destruct (drop_while_suffix is_trailing_blank (rev front)) as [d Hd].
  set (back := drop_while is_trailing_blank (rev front)) in *.
  assert (front = rev back ++ rev d) as E by (by rewrite <-rev_app_distr, <-Hd, rev_involutive).
  split.
  - destruct (rev back) as [|b l] eqn:Eb; [done|]. rewrite E in Hf. exact Hf.
  - rewrite <-head_rev, rev_involutive. apply drop_while_head.
Qed.

Lemma elem_of_rev (b : byte) l : b ∈ rev l ↔ b ∈ l.
Proof. by rewrite !list_elem_of_In, <-in_rev. Qed.

Lemma trim_spaces_writable text : byte_of 10 ∉ text → writable (trim_spaces text).
Proof.
  intros Hn. split; [apply trim_spaces_trimmed|]. unfold trim_spaces. intros Hin.
  apply Hn. apply drop_while_sublist with is_space_or_tab.
  apply elem_of_rev, drop_while_sublist with is_trailing_blank. by apply elem_of_rev.
Qed.

Definition writable_listener (l : listener_config) : Prop := writable (bind_address l) ∧ writable (advertised_host l).
Definition writable_paths (p : paths_config) : Prop :=
  writable (database_path p) ∧ writable (migrations_directory p) ∧ writable (server_key_path p) ∧
  writable (admin_socket_path p) ∧ writable (connect_file_path p).
Definition writable_texts (c : server_config) : Prop :=
  writable_listener (clearnet c) ∧ writable_listener (onion c) ∧ writable (file_path (logging c)) ∧ writable_paths (paths c).

Lemma apply_listener_writable key value l :
  writable value → writable_listener l → writable_listener (apply_listener_setting key value l).2.
Proof.
  intros Hv [Hb Ha]. unfold apply_listener_setting. repeat case_decide; try by split.
  destruct (parse_unsigned value 0) as [ok p]. by destruct (negb ok || (p =? 0) || (65535 <? p)).
Qed.

Lemma apply_logging_writable key value l :
  writable value → writable (file_path l) → writable (file_path (apply_logging_setting key value l).2).
Proof. intros Hv Hl. destruct l. unfold apply_logging_setting. by repeat case_decide. Qed.

Lemma apply_paths_writable key value p :
  writable value → writable_paths p → writable_paths (apply_paths_setting key value p).2.
Proof.
  intros Hv (? & ? & ? & ? & ?). destruct p. unfold apply_paths_setting. by repeat case_decide.
Qed.

Lemma apply_setting_writable section key value c :
  writable value → writable_texts c → writable_texts (apply_setting section key value c).2.
Proof.
  intros Hv (Hc & Ho & Hl & Hp). destruct c as [clear on lim log p open]. unfold apply_setting. cbn in *.
  repeat case_decide; unfold store; unfold writable_texts; cbn;
    auto using apply_listener_writable, apply_logging_writable, apply_paths_writable.
Qed.

Lemma handle_line_writable line n r :
  byte_of 10 ∉ line → writable_texts (out r) → writable_texts (out (handle_config_line line n r)).
Proof.
  intros Hn Hc. destruct r as [sec c errs]. unfold handle_config_line. simpl in *.
  pose proof (trim_spaces_writable line Hn) as [_ Ht].
  destruct (trim_spaces line) as [|first rest] eqn:Et; [done|].
  repeat case_match; try done;
    match goal with E : apply_setting _ ?k (trim_spaces ?v) _ = (?b, ?x), F : split_first _ _ = Some _ |- _ =>
      apply split_first_Some in F as [F _]; rewrite F in Ht;
      pose proof (apply_setting_writable sec k (trim_spaces v) c ltac:(apply trim_spaces_writable; set_solver) Hc) as Hr;
      rewrite E in Hr; exact Hr end.
Qed.

Lemma handle_lines_writable lines n r :
  Forall (λ line, byte_of 10 ∉ line) lines → writable_texts (out r) → writable_texts (out (handle_lines lines n r)).
Proof.
  intros Hl. revert n r. induction Hl as [|line lines Hn _ IH]; intros n r Hc; [done|].
  simpl. by apply IH, handle_line_writable.
Qed.

Lemma text_lines_whole text : Forall (λ line, byte_of 10 ∉ line) (text_lines text).
Proof.
  induction text as [|b text IH]; simpl; [by repeat constructor; set_solver|].
  case_decide; [by constructor; [set_solver|]|].
  destruct (text_lines text) as [|line lines]; [by repeat constructor; set_solver|].
  apply Forall_cons in IH as [Hl Hls]. constructor; [set_solver|done].
Qed.

(** Every configuration that is read, accepted or not, can be written down. *)
Lemma parsed_config_writable text accepted c errs :
  parse_config_text text default_config [] = (accepted, c, errs) → config_writable c.
Proof.
  unfold parse_config_text. rewrite parse_lines_fold by lia. intros [= _ <- _]. split.
  - apply (handle_lines_spec (text_lines text) 0 (ConfigReader [] default_config [])), default_config_typed.
  - assert (writable_texts default_config) as Hd by (unfold writable_texts, writable_listener, writable_paths; by_decision).
    destruct (handle_lines_writable (text_lines text) 0 (ConfigReader [] default_config []) (text_lines_whole text) Hd)
      as ([? ?] & [? ?] & ? & ? & ? & ? & ? & ?). repeat (apply Forall_cons; split; [assumption|]). done.
Qed.

(** C35: every configuration that a file can hold can be written down: a file
    that states all its settings, over the defaults, is read without an error
    and gives it back. Such a configuration has numbers of their widths and
    texts without a newline and without blanks at either end, and every
    configuration that the parser returns is one. *)
Theorem written_config_reads_back (c : server_config) (Hwritable : config_writable c) :
  parse_config_text (write_config c) default_config [] = (true, c, []).
Proof.
  pose proof (writable_settings c Hwritable) as Hok.
  unfold parse_config_text. rewrite parse_lines_fold by lia. unfold write_config.
  rewrite text_lines_join by (by apply section_lines_whole). rewrite handle_lines_app.
  destruct (handle_sections (config_settings c) default_config c [] [] 0) as [s ->];
    [done|by apply apply_config_settings, Hwritable|done].
Qed.

(** ** Witnesses *)

(** A relay that listens on both networks. *)
Definition sample_config : server_config :=
  ServerConfig (ListenerConfig true (lit "0.0.0.0") 7717 (lit "relay.example"))
    (ListenerConfig true (lit "127.0.0.1") 7718 [])
    (LimitsConfig 64 4 (1024 * 1024) 10 900 240 600)
    (LoggingConfig log_level.warning false 7 (lit "log/hypercom.log"))
    (PathsConfig (lit "hypercom.db") (lit "db/migrations") (lit "keys/server = static.key") (lit "run/admin.sock") [])
    false.

Lemma sample_config_writable : config_writable sample_config.
Proof. split; [unfold config_typed, fits; simpl; lia|by_decision]. Qed.

Lemma written_config_reads_back_witness :
  config_writable sample_config ∧
  parse_config_text (write_config sample_config) default_config [] = (true, sample_config, []).
Proof.
  split; [exact sample_config_writable|].
  exact (written_config_reads_back sample_config sample_config_writable).
Defined.

Lemma accepted_config_is_sound_witness :
  ∃ text c warnings,
    parse_config_text text default_config [] = (true, c, []) ∧
    validate_config c [] [] = (true, [], warnings) ∧ 1 <= max_connections (limits c) < 2 ^ 32.
Proof.
  exists (write_config sample_config), sample_config, [].
  assert (parse_config_text (write_config sample_config) default_config [] = (true, sample_config, []))
    as Hparsed by (vm_compute; reflexivity).
  assert (validate_config sample_config [] [] = (true, [], [])) as Hvalid by (vm_compute; reflexivity).
  split; [exact Hparsed|split; [exact Hvalid|]].
  exact (proj1 (proj2 (proj2 (accepted_config_is_sound _ _ _ Hparsed Hvalid)))).
Defined.
