(* ===== verification/ClientOptions.v ===== *)
(** How a client is told where to go: invite links
    (client/cli/invite_link.cpp) and the command line with its connect file
    (client/cli/cli_options.cpp). *)

From S2P Require Import Prelude.
From S2P Require Import TextTools.

(** ** invite_link.cpp *)

Definition LINK_PREFIX : bytes := lit "hypercom://".
Definition SERVER_KEY_HEX_LENGTH : Z := 64.

Record invite_link := InviteLink { link_host : bytes; link_port : Z; link_server_key_hex : bytes }.

(** All of the text is a number from 1 to 65535. *)
Definition parse_link_port (text : bytes) : option Z :=
  match from_chars_unsigned 32 text with
  | Some (value, rest) =>
      if negb (bool_decide (rest = [])) || (value =? 0) || (65535 <? value) then None else Some value
  | None => None
  end.

Definition is_hex_character (character : byte) : bool :=
  in_range (chr "0") (chr "9") character || in_range (chr "a") (chr "f") character
  || in_range (chr "A") (chr "F") character.

Definition is_hex_key (text : bytes) : bool :=
  (size_of text =? SERVER_KEY_HEX_LENGTH) && forallb is_hex_character text.

(** The error, or the link. *)
Definition parse_invite_link (text : bytes) : bytes + invite_link :=
  if negb (starts_with LINK_PREFIX text) then
    inl (lit "lien invalide : attendu hypercom://hote:port#cle")
  else
    match split_first (byte_of (chr "#")) (drop (length LINK_PREFIX) text) with
    | None => inl (lit "lien invalide : la cle du serveur manque apres le #")
    | Some (body, key) =>
        if negb (is_hex_key key) then
          inl (lit "lien invalide : la cle doit faire 64 caracteres hexadecimaux")
        else
          match split_last (byte_of (chr ":")) body with
          | None => inl (lit "lien invalide : port absent ou hors bornes")
          | Some (host, port_text) =>
              match parse_link_port port_text with
              | None => inl (lit "lien invalide : port absent ou hors bornes")
              | Some port =>
                  if decide (host = []) then inl (lit "lien invalide : hote manquant")
                  else inr (InviteLink host port key)
              end
          end
    end.

Definition format_invite_link (host : bytes) (port : Z) (server_key_hex : bytes) : bytes :=
  LINK_PREFIX ++ host ++ lit ":" ++ decimal port ++ lit "#" ++ server_key_hex.

(** ** cli_options.hpp, cli_options.cpp *)

Definition DEFAULT_TOR_SOCKS_HOST : bytes := lit "127.0.0.1".
Definition DEFAULT_TOR_SOCKS_PORT : Z := 9050.
Definition ONION_SUFFIX : bytes := lit ".onion".

Record cli_options := CliOptions {
  host : bytes;
  port : Z;
  server_key_hex : bytes;
  socks5_host : bytes;
  socks5_port : Z;
  identity_path : bytes;
  server_label : bytes;
  master_seed_path : bytes;
  registry_path : bytes;
  command : bytes;
  arguments : list bytes;
  replay_intro : bool;
}.

Definition default_options : cli_options :=
  CliOptions (lit "127.0.0.1") 7717 [] [] 0 (lit "hypercom_identity.key") [] (lit "hypercom_master.key")
    (lit "hypercom_servers.dat") [] [] false.

(** A number from 1 to 65535; what follows the digits is ignored. *)
Definition parse_port (text : bytes) : option Z :=
  match from_chars_unsigned 32 text with
  | Some (value, _) => if (value =? 0) || (65535 <? value) then None else Some value
  | None => None
  end.

Definition set_host v o := CliOptions v (port o) (server_key_hex o) (socks5_host o) (socks5_port o)
  (identity_path o) (server_label o) (master_seed_path o) (registry_path o) (command o) (arguments o) (replay_intro o).
Definition set_port v o := CliOptions (host o) v (server_key_hex o) (socks5_host o) (socks5_port o)
  (identity_path o) (server_label o) (master_seed_path o) (registry_path o) (command o) (arguments o) (replay_intro o).
Definition set_server_key v o := CliOptions (host o) (port o) v (socks5_host o) (socks5_port o)
  (identity_path o) (server_label o) (master_seed_path o) (registry_path o) (command o) (arguments o) (replay_intro o).
Definition set_socks5 h p o := CliOptions (host o) (port o) (server_key_hex o) h p
  (identity_path o) (server_label o) (master_seed_path o) (registry_path o) (command o) (arguments o) (replay_intro o).
Definition set_identity v o := CliOptions (host o) (port o) (server_key_hex o) (socks5_host o) (socks5_port o)
  v (server_label o) (master_seed_path o) (registry_path o) (command o) (arguments o) (replay_intro o).
Definition set_server v o := CliOptions (host o) (port o) (server_key_hex o) (socks5_host o) (socks5_port o)
  (identity_path o) v (master_seed_path o) (registry_path o) (command o) (arguments o) (replay_intro o).
Definition set_master_seed v o := CliOptions (host o) (port o) (server_key_hex o) (socks5_host o) (socks5_port o)
  (identity_path o) (server_label o) v (registry_path o) (command o) (arguments o) (replay_intro o).
Definition set_registry v o := CliOptions (host o) (port o) (server_key_hex o) (socks5_host o) (socks5_port o)
  (identity_path o) (server_label o) (master_seed_path o) v (command o) (arguments o) (replay_intro o).
Definition set_command v o := CliOptions (host o) (port o) (server_key_hex o) (socks5_host o) (socks5_port o)
  (identity_path o) (server_label o) (master_seed_path o) (registry_path o) v (arguments o) (replay_intro o).
Definition add_argument v o := CliOptions (host o) (port o) (server_key_hex o) (socks5_host o) (socks5_port o)
  (identity_path o) (server_label o) (master_seed_path o) (registry_path o) (command o) (arguments o ++ [v]) (replay_intro o).
Definition set_replay o := CliOptions (host o) (port o) (server_key_hex o) (socks5_host o) (socks5_port o)
  (identity_path o) (server_label o) (master_seed_path o) (registry_path o) (command o) (arguments o) true.

(** The error that ends the parsing, or the options so far. *)
Definition parsed : Type := bytes + cli_options.

Definition parse_proxy_endpoint (text : bytes) (o : cli_options) : parsed :=
  match split_last (byte_of (chr ":")) text with
  | None => inl (lit "proxy SOCKS5 invalide, attendu hote:port : " ++ text)
  | Some (proxy_host, port_text) =>
      match parse_port port_text with
      | None => inl (lit "proxy SOCKS5 invalide, attendu hote:port : " ++ text)
      | Some proxy_port =>
          if decide (proxy_host = []) then inl (lit "proxy SOCKS5 : hote manquant : " ++ text)
          else inr (set_socks5 proxy_host proxy_port o)
      end
  end.

Definition apply_connect_line (line : bytes) (o : cli_options) : parsed :=
  match split_first (byte_of (chr "=")) line with
  | None => inr o
  | Some (before, after) =>
      let key := trim_spaces before in
      let value := trim_spaces after in
      if decide (key = lit "host") then inr (set_host value o)
      else if decide (key = lit "port") then
        match parse_port value with
        | None => inl (lit "fichier de connexion : port invalide : " ++ value)
        | Some p => inr (set_port p o)
        end
      else if decide (key = lit "server_key") then inr (set_server_key value o)
      else if decide (key = lit "socks5") then parse_proxy_endpoint value o
      else inr o
  end.

Fixpoint apply_connect_lines (lines : list bytes) (o : cli_options) : parsed :=
  match lines with
  | [] => inr o
  | line :: lines =>
      match apply_connect_line line o with
      | inl error => inl error
      | inr o => apply_connect_lines lines o
      end
  end.

Section command_line.
(** The files the client can open. *)
Context (files : gmap bytes bytes).

Definition load_connect_file (path : bytes) (o : cli_options) : parsed :=
  match files !! path with
  | None => inl (lit "fichier de connexion introuvable : " ++ path)
  | Some contents => apply_connect_lines (getlines contents) o
  end.

(** The loop over the arguments; [missing] is the failure of [take_value]. *)
Fixpoint parse_arguments (argv : list bytes) (o : cli_options) : parsed :=
  match argv with
  | [] => inr o
  | argument :: rest =>
      let missing : parsed := inl (lit "valeur manquante apres " ++ argument) in
      if decide (argument = lit "--host") then
        match rest with v :: rest => parse_arguments rest (set_host v o) | [] => missing end
      else if decide (argument = lit "--port") then
        match rest with
        | v :: rest =>
            match parse_port v with
            | Some p => parse_arguments rest (set_port p o)
            | None => inl (lit "port invalide : " ++ v)
            end
        | [] => missing
        end
      else if decide (argument = lit "--server-key") then
        match rest with v :: rest => parse_arguments rest (set_server_key v o) | [] => missing end
      else if decide (argument = lit "--identity") then
        match rest with v :: rest => parse_arguments rest (set_identity v o) | [] => missing end
      else if decide (argument = lit "--server") then
        match rest with v :: rest => parse_arguments rest (set_server v o) | [] => missing end
      else if decide (argument = lit "--master-seed") then
        match rest with v :: rest => parse_arguments rest (set_master_seed v o) | [] => missing end
      else if decide (argument = lit "--servers") then
        match rest with v :: rest => parse_arguments rest (set_registry v o) | [] => missing end
      else if decide (argument = lit "--connect-file") then
        match rest with
        | v :: rest =>
            match load_connect_file v o with
            | inl error => inl error
            | inr o => parse_arguments rest o
            end
        | [] => missing
        end
      else if decide (argument = lit "--tor") then
        parse_arguments rest (set_socks5 DEFAULT_TOR_SOCKS_HOST DEFAULT_TOR_SOCKS_PORT o)
      else if decide (argument = lit "--socks5") then
        match rest with
        | v :: rest =>
            match parse_proxy_endpoint v o with
            | inl error => inl error
            | inr o => parse_arguments rest o
            end
        | [] => missing
        end
      else if decide (argument = lit "--direct") then parse_arguments rest (set_socks5 [] 0 o)
      else if decide (argument = lit "--replay-intro") then parse_arguments rest (set_replay o)
      else if decide (command o = []) then parse_arguments rest (set_command argument o)
      else parse_arguments rest (add_argument argument o)
  end.

(** [argv] without the program's name. *)
Definition parse_cli_options (argv : list bytes) (out : cli_options) (require_command require_server_key : bool)
    : parsed :=
  match parse_arguments argv out with
  | inl error => inl error
  | inr o =>
      if require_command && bool_decide (command o = []) then inl (lit "aucune commande fournie")
      else
        let o := if bool_decide (socks5_host o = []) && ends_with ONION_SUFFIX (host o)
                 then set_socks5 DEFAULT_TOR_SOCKS_HOST DEFAULT_TOR_SOCKS_PORT o else o in
        if require_server_key && bool_decide (server_label o = []) && negb (starts_with (lit "server-") (command o))
           && negb (bool_decide (command o = lit "seed-restore")) && negb (size_of (server_key_hex o) =? 64)
        then inl (lit "--server-key est requis : 64 caracteres hexadecimaux, affiches par le serveur a son demarrage. Sinon, --server <nom> pour viser un serveur deja enregistre")
        else inr o
  end.
End command_line.

(** ** Invite links *)

Definition link_ok (l : invite_link) : Prop :=
  link_host l ≠ [] ∧ (byte_of (chr "#") ∉ link_host l) ∧ 1 <= link_port l <= 65535 ∧
  is_hex_key (link_server_key_hex l) = true.

Lemma starts_with_app prefix text : starts_with prefix (prefix ++ text) = true.
Proof. unfold starts_with. by rewrite take_app_length, bool_decide_true. Qed.

Lemma parse_link_port_decimal p : 1 <= p <= 65535 → parse_link_port (decimal p) = Some p.
Proof.
  intros Hp. unfold parse_link_port. rewrite <-(app_nil_r (decimal p)).
  rewrite from_chars_decimal by (done || unfold fits; lia). rewrite bool_decide_true by done.
  replace (p =? 0) with false by lia. by replace (65535 <? p) with false by lia.
Qed.

Lemma parse_link_port_range text p : parse_link_port text = Some p → 1 <= p <= 65535.
Proof.
  unfold parse_link_port. destruct (from_chars_unsigned 32 text) as [[v rest]|] eqn:E; [|done].
  apply from_chars_unsigned_fits in E as [? _]. destruct (_ || _) eqn:Eb; [done|]. intros [= <-]. lia.
Qed.

(** A link made for a host, a port and a key is read back as exactly
    them; and whatever text is read as a link names a host, a port in range
    and a key of 64 hexadecimal characters, so its own link reads the same. *)
Theorem invite_link_roundtrip :
  (∀ l, link_ok l →
     parse_invite_link (format_invite_link (link_host l) (link_port l) (link_server_key_hex l)) = inr l) ∧
  (∀ text l, parse_invite_link text = inr l → link_ok l).
Proof.
  split.
  - intros [h p k] (Hne & Hhash & Hp & Hk). cbn [link_host link_port link_server_key_hex] in *.
    unfold parse_invite_link, format_invite_link. rewrite starts_with_app. cbn [negb].
    rewrite drop_app_length. assert (u64 p) as Hu by (unfold fits; lia).
    assert (h ++ lit ":" ++ decimal p ++ lit "#" ++ k
            = (h ++ lit ":" ++ decimal p) ++ byte_of (chr "#") :: k) as -> by (by rewrite <-!(assoc app)).
    rewrite split_first_eq.
    2:{ assert (byte_of (chr "#") ∉ lit ":") by by_decision.
        rewrite !elem_of_app. intros [?|[?|Hin]]; [done|done|]. by apply (decimal_avoids p _ Hu) in Hin. }
    rewrite Hk. cbn [negb]. change (lit ":" ++ decimal p) with (byte_of (chr ":") :: decimal p).
    rewrite split_last_eq by by apply decimal_avoids.
    by rewrite parse_link_port_decimal, decide_False.
  - intros text [h p k]. unfold parse_invite_link. destruct (starts_with LINK_PREFIX text); [|done]. cbn [negb].
    destruct (split_first _ _) as [[body key]|] eqn:Ef; [|done].
    destruct (is_hex_key key) eqn:Ek; [|done]. cbn [negb].
    destruct (split_last _ body) as [[h' pt]|] eqn:El; [|done].
    destruct (parse_link_port pt) as [p'|] eqn:Ep; [|done]. case_decide; [done|]. intros [= <- <- <-].
    apply split_first_Some in Ef as [_ Hhash]. apply split_last_Some in El as [-> _].
    split_and!; cbn; [done|set_solver|exact (proj1 (parse_link_port_range _ _ Ep))|exact (proj2 (parse_link_port_range _ _ Ep))|done].
Qed.
