(* ===== verification/DirectMessages.v ===== *)
(** End-to-end encryption of private messages: the key agreement
    (common/crypto/dm_session_keys.cpp), the ratchet (dm_message_chain.cpp),
    the envelope (dm_envelope.cpp), the identity keys (identity_keypair.cpp,
    x25519_exchange.cpp) and the courier that puts them together
    (client/dm/dm_courier.cpp). What is drawn at random and the time of day
    are arguments. *)

From S2P Require Import Prelude.
From S2P Require Import Wire.
From S2P Require Import TextField.
From S2P Require Import Codec.
From S2P Require Import SessionMessages.
From S2P Require Import SocialMessages.
From S2P Require Import TextTools.
From S2P Require Import Hex.
From S2P Require Import Sodium.

Section direct_messages.
Context `{Sodium}.

(** ** identity_keypair.cpp *)

Record identity_keypair := IdentityKeypair { public_key_ : bytes; secret_key_ : bytes }.

Definition derive_from_seed (seed : bytes) : option identity_keypair :=
  match crypto_sign_seed_keypair seed with
  | Some (public, secret) => Some (IdentityKeypair public secret)
  | None => None
  end.

Definition sign_message (message : bytes) (identity : identity_keypair) : option bytes :=
  crypto_sign_detached message (secret_key_ identity).

(** ** x25519_exchange.cpp *)

Definition compute_public_from_secret (secret_key : bytes) : option bytes := crypto_scalarmult_base secret_key.

Definition convert_identity_public_to_x25519 (identity_public : bytes) : option bytes :=
  crypto_sign_ed25519_pk_to_curve25519 identity_public.

Definition convert_identity_secret_to_x25519 (identity_secret : bytes) : option bytes :=
  crypto_sign_ed25519_sk_to_curve25519 identity_secret.

(** ** dm_session_keys.cpp *)

Definition DM_SESSION_DOMAIN : bytes := lit "hypercom-dm-x3dh-v1".

Definition combine_shared_secrets (first second third : bytes) : option bytes :=
  match extract_pseudo_random_key DM_SESSION_DOMAIN (first ++ second ++ third) with
  | Some pseudo_random => expand_key_block pseudo_random [] 1
  | None => None
  end.

Definition derive_sender_session_key (sender_identity : identity_keypair)
    (sender_ephemeral_secret recipient_identity recipient_prekey : bytes) : option bytes :=
  match convert_identity_secret_to_x25519 (secret_key_ sender_identity),
        convert_identity_public_to_x25519 recipient_identity with
  | Some sender_identity_x, Some recipient_identity_x =>
      match compute_shared_secret sender_identity_x recipient_prekey,
            compute_shared_secret sender_ephemeral_secret recipient_identity_x,
            compute_shared_secret sender_ephemeral_secret recipient_prekey with
      | Some first, Some second, Some third => combine_shared_secrets first second third
      | _, _, _ => None
      end
  | _, _ => None
  end.

Definition derive_recipient_session_key (recipient_identity : identity_keypair)
    (recipient_prekey_secret sender_identity sender_ephemeral : bytes) : option bytes :=
  match convert_identity_secret_to_x25519 (secret_key_ recipient_identity),
        convert_identity_public_to_x25519 sender_identity with
  | Some recipient_identity_x, Some sender_identity_x =>
      match compute_shared_secret recipient_prekey_secret sender_identity_x,
            compute_shared_secret recipient_identity_x sender_ephemeral,
            compute_shared_secret recipient_prekey_secret sender_ephemeral with
      | Some first, Some second, Some third => combine_shared_secrets first second third
      | _, _, _ => None
      end
  | _, _ => None
  end.

(** ** dm_message_chain.cpp *)

Definition MAX_SKIPPED_MESSAGE_KEYS : Z := 1000.
Definition MESSAGE_KEY_INFO : bytes := lit "hypercom-dm-message".
Definition CHAIN_KEY_INFO : bytes := lit "hypercom-dm-chain".

Record dm_message_chain := MessageChain { chain_key_ : bytes; counter_ : Z }.

Definition new_chain (initial_chain_key : bytes) : dm_message_chain := MessageChain initial_chain_key 0.

Definition derive_next_message_key : fallible dm_message_chain bytes := λ chain,
  match expand_key_block (chain_key_ chain) MESSAGE_KEY_INFO 1 with
  | None => (None, chain)
  | Some message_key =>
      match expand_key_block (chain_key_ chain) CHAIN_KEY_INFO 2 with
      | None => (None, chain)
      | Some next_chain_key => (Some message_key, MessageChain next_chain_key (wrap 32 (counter_ chain + 1)))
      end
  end.

(** The loop of [advance_to_counter], [distance] turns of it. *)
Fixpoint derive_skipped (distance : nat) (skipped : list bytes) : state dm_message_chain (bool * list bytes) :=
  match distance with
  | O => sret (true, skipped)
  | S distance =>
      let* message_key := derive_next_message_key in
      match message_key with
      | None => sret (false, skipped)
      | Some message_key => derive_skipped distance (skipped ++ [message_key])
      end
  end.

(** The verdict and what [skipped] holds afterwards. *)
Definition advance_to_counter (target : Z) (skipped : list bytes) : state dm_message_chain (bool * list bytes) :=
  λ chain,
    if target <? counter_ chain then ((false, skipped), chain)
    else
      let distance := target - counter_ chain in
      if MAX_SKIPPED_MESSAGE_KEYS <? distance then ((false, skipped), chain)
      else derive_skipped (Z.to_nat distance) skipped chain.

(** ** dm_envelope.cpp *)

Definition DM_ENVELOPE_VERSION : Z := 1.
Definition DM_ENVELOPE_HEADER_SIZE : Z := 1 + ED25519_PUBLIC_KEY_SIZE + X25519_PUBLIC_KEY_SIZE + 4.
Definition ZERO_NONCE : bytes := replicate 24 Byte.x00.

Record dm_envelope_header := DmEnvelopeHeader {
  version : Z;
  sender_identity : bytes;
  sender_ephemeral : bytes;
  counter : Z;
}.

Definition serialize_header (header : dm_envelope_header) (out : bytes) : bytes :=
  append_u32 (counter header)
    (out ++ [byte_of (version header)] ++ sender_identity header ++ sender_ephemeral header).

Definition parse_dm_envelope_header (envelope : bytes) : option dm_envelope_header :=
  if size_of envelope <? DM_ENVELOPE_HEADER_SIZE + AEAD_TAG_SIZE then None
  else if negb (byte_val (envelope !!! 0%nat) =? DM_ENVELOPE_VERSION) then None
  else Some (DmEnvelopeHeader (byte_val (envelope !!! 0%nat)) (take 32 (drop 1 envelope))
               (take 32 (drop 33 envelope)) (read_u32 envelope 65)).

Definition seal_dm_envelope (header : dm_envelope_header) (message_key plaintext : bytes) : option bytes :=
  let serialized_header := serialize_header header [] in
  match crypto_xaead_encrypt message_key ZERO_NONCE serialized_header plaintext with
  | Some sealed => Some (serialized_header ++ sealed)
  | None => None
  end.

Definition open_dm_envelope (envelope message_key : bytes) : option bytes :=
  match parse_dm_envelope_header envelope with
  | None => None
  | Some _ =>
      crypto_xaead_decrypt message_key ZERO_NONCE (take 69 envelope) (drop 69 envelope)
  end.

(** ** dm_courier.cpp *)

Definition PREKEY_DERIVATION_INFO : bytes := lit "hypercom-prekey-derive-v1".
Definition DM_PAYLOAD_VERSION : Z := 1.

Definition build_dm_payload (sent_at : Z) (text : bytes) : bytes :=
  output (write_integer 1 DM_PAYLOAD_VERSION ▷ write_integer 8 sent_at ▷ write_fixed_bytes text).

(** The date and the text. *)
Definition parse_dm_payload (payload : bytes) : option (Z * bytes) :=
  let read : reader (Z * bytes) :=
    let? version := read_integer 1 in
    if negb (version =? DM_PAYLOAD_VERSION) then rfail
    else
      let? sent_at := read_integer 8 in
      let* remaining_size := sgets count_remaining_bytes in
      let? remaining := read_fixed_bytes remaining_size in
      rret (sent_at, remaining) in
  match (read (new_reader payload)).1 with
  | Some (sent_at, text) => if validate_text_field text then Some (sent_at, text) else None
  | None => None
  end.

Definition derive_first_message_key (root : bytes) : option bytes := (derive_next_message_key (new_chain root)).1.

(** The public and the secret prekey. *)
Definition derive_local_prekey (identity : identity_keypair) : option (bytes * bytes) :=
  match expand_key_block (take 32 (secret_key_ identity)) PREKEY_DERIVATION_INFO 1 with
  | None => None
  | Some secret =>
      match compute_public_from_secret secret with
      | Some public => Some (public, secret)
      | None => None
      end
  end.

Definition verify_prekey_bundle (bundle : prekey_bundle_response.t) : bool :=
  verify_signature (prekey_bundle_response.owner_pubkey bundle)
    (build_prekey_signing_input (prekey_bundle_response.owner_pubkey bundle) (prekey_bundle_response.prekey bundle))
    (prekey_bundle_response.signature bundle).

(** [ephemeral] is what [generate_x25519_keypair] draws, [now] the clock. The
    result is the error or the envelope. *)
Definition seal_direct_message (ephemeral : option (bytes * bytes)) (now : Z) (sender : identity_keypair)
    (recipient_bundle : prekey_bundle_response.t) (text : bytes) : bytes + bytes :=
  if negb (verify_prekey_bundle recipient_bundle) then
    inl (lit "prekey du destinataire non signee par son identite : le serveur tente peut-etre de s'interposer")
  else
    match ephemeral with
    | None => inl (lit "generation de la cle ephemere impossible")
    | Some (ephemeral_public, ephemeral_secret) =>
        let failed := inl (lit "chiffrement du message impossible") in
        match derive_sender_session_key sender ephemeral_secret
                (prekey_bundle_response.owner_pubkey recipient_bundle)
                (prekey_bundle_response.prekey recipient_bundle) with
        | None => failed
        | Some root =>
            match derive_first_message_key root with
            | None => failed
            | Some message_key =>
                let header := DmEnvelopeHeader DM_ENVELOPE_VERSION (public_key_ sender) ephemeral_public 0 in
                match seal_dm_envelope header message_key (build_dm_payload now text) with
                | None => failed
                | Some envelope => inr envelope
                end
            end
        end
    end.

(** The error, or the text and its date. *)
Definition open_direct_message (recipient : identity_keypair) (envelope : bytes) : bytes + (bytes * Z) :=
  match parse_dm_envelope_header envelope with
  | None => inl (lit "enveloppe illisible")
  | Some header =>
      match derive_local_prekey recipient with
      | None => inl (lit "derivation de la prekey locale impossible")
      | Some (_, prekey_secret) =>
          let failed := inl (lit "dechiffrement impossible : message altere, ou destine a quelqu'un d'autre") in
          match derive_recipient_session_key recipient prekey_secret (sender_identity header)
                  (sender_ephemeral header) with
          | None => failed
          | Some root =>
              match derive_first_message_key root with
              | None => failed
              | Some message_key =>
                  match open_dm_envelope envelope message_key with
                  | None => failed
                  | Some plaintext =>
                      match parse_dm_payload plaintext with
                      | None => inl (lit "contenu du message illisible")
                      | Some (sent_at, text) => inr (text, sent_at)
                      end
                  end
              end
          end
      end
  end.

(** ** cli_dm_commands.cpp: the mailbox as [dm-fetch] prints it *)

(** The line for an envelope and the id to acknowledge, when it opened. *)
Definition show_envelope (identity : identity_keypair) (envelope : dm_envelope_record.t) : bytes * option Z :=
  let sender := encode_hex (dm_envelope_record.sender_pubkey envelope) in
  let heading := lit "  de " ++ take 16 sender ++ lit "... : " in
  match open_direct_message identity (dm_envelope_record.ciphertext envelope) with
  | inr (text, _) => (heading ++ text ++ newline, Some (dm_envelope_record.id envelope))
  | inl failure => (heading ++ lit "[illisible] " ++ failure ++ newline, None)
  end.

(** What is printed, and the ids of the acknowledgement (sent if there is one). *)
Definition show_mailbox (identity : identity_keypair) (envelopes : list dm_envelope_record.t) : bytes * list Z :=
  let shown := map (show_envelope identity) envelopes in
  (decimal (size_of envelopes) ++ lit " message(s) :" ++ newline ++ concat (map fst shown),
   omap snd shown).
End direct_messages.

(** ** What the recipient reads is what the sender wrote *)

Section correctness.
Context `{SodiumLaws}.

Definition header_ok (h : dm_envelope_header) : Prop :=
  version h = DM_ENVELOPE_VERSION ∧ size_of (sender_identity h) = 32 ∧ size_of (sender_ephemeral h) = 32 ∧
  u32 (counter h).

Lemma serialize_header_bytes h :
  serialize_header h [] =
    (byte_of (version h) :: sender_identity h ++ sender_ephemeral h) ++ le_bytes 4 (counter h).
Proof. done. Qed.

Lemma serialize_header_size h : header_ok h → length (serialize_header h []) = 69%nat.
Proof.
  intros (_ & Hi & He & _). rewrite serialize_header_bytes. unfold size_of in *.
  rewrite length_app, length_le_bytes. simpl. rewrite length_app. lia.
Qed.

Lemma parse_serialized_header h sealed :
  header_ok h → AEAD_TAG_SIZE <= size_of sealed →
  parse_dm_envelope_header (serialize_header h [] ++ sealed) = Some h.
Proof.
  intros Hok Hs. pose proof (serialize_header_size h Hok) as Hlen.
  unfold parse_dm_envelope_header. unfold size_of in *.
  replace (_ <? _) with false.
  2:{ symmetry. apply Z.ltb_ge. rewrite length_app, Hlen.
      change (DM_ENVELOPE_HEADER_SIZE + AEAD_TAG_SIZE) with (69 + AEAD_TAG_SIZE). lia. }
  destruct h as [v i e c]. destruct Hok as (Hv & Hi & He & Hc). cbn [version sender_identity sender_ephemeral counter] in *.
  rewrite serialize_header_bytes in *. cbn [version sender_identity sender_ephemeral counter] in *.
  subst v. unfold size_of in Hi, He.
  set (k := le_bytes 4 c). rewrite <-!app_comm_cons. cbn [drop lookup_total list_lookup_total].
  change (byte_val (byte_of DM_ENVELOPE_VERSION)) with DM_ENVELOPE_VERSION. rewrite Z.eqb_refl. cbn [negb].
  f_equal. f_equal.
  - rewrite <-!(assoc app). apply take_app_exact. lia.
  - change 33%nat with (S 32). cbn [drop]. rewrite <-!(assoc app), drop_app_exact by lia. apply take_app_exact. lia.
  - assert ((byte_of DM_ENVELOPE_VERSION :: ((i ++ e) ++ k) ++ sealed)
      = (byte_of DM_ENVELOPE_VERSION :: i ++ e) ++ k ++ sealed) as -> by (simpl; by rewrite <-!(assoc app)).
    replace 65%nat with (length (byte_of DM_ENVELOPE_VERSION :: i ++ e)) by (simpl; rewrite length_app; lia).
    by apply read_u32_value.
Qed.

Lemma open_sealed_envelope h message_key plaintext envelope :
  header_ok h → seal_dm_envelope h message_key plaintext = Some envelope →
  parse_dm_envelope_header envelope = Some h ∧ open_dm_envelope envelope message_key = Some plaintext.
Proof.
  intros Hok. unfold seal_dm_envelope, open_dm_envelope.
  destruct (crypto_xaead_encrypt _ _ _ plaintext) as [sealed|] eqn:E; [|done].
  intros Heq. apply (inj Some) in Heq. subst envelope.
  pose proof (xaead_encrypt_size _ _ _ _ _ E) as Hsize. pose proof (size_of_nonneg plaintext).
  rewrite parse_serialized_header by (done || lia). split; [done|].
  pose proof (serialize_header_size h Hok) as Hlen.
  rewrite take_app_exact, drop_app_exact by done. by eapply xaead_decrypt_encrypt.
Qed.

Lemma payload_roundtrip sent_at text : u64 sent_at →
  parse_dm_payload (build_dm_payload sent_at text) = if validate_text_field text then Some (sent_at, text) else None.
Proof.
  intros Hs. unfold parse_dm_payload, build_dm_payload.
  rewrite !output_seq, !output_integer, output_fixed by auto with wire.
  set (payload := le_bytes 1 DM_PAYLOAD_VERSION ++ le_bytes 8 sent_at ++ text).
  assert (reader_ok (new_reader payload)) as Hok0 by apply new_reader_ok.
  assert (rest (new_reader payload) = payload) as R0 by done.
  destruct (reader_ok_advance _ (le_bytes 1 DM_PAYLOAD_VERSION) _ Hok0 R0) as [Hok1 R1].
  destruct (reader_ok_advance _ _ _ Hok1 R1) as [Hok2 R2].
  unfold rbind at 1. rewrite (reads_integer 1 DM_PAYLOAD_VERSION) with (t := le_bytes 8 sent_at ++ text)
    by (done || unfold fits; vm_compute; done).
  rewrite Z.eqb_refl. cbn [negb]. unfold rbind at 1.
  rewrite (reads_integer 8 sent_at Hs _ text Hok1 R1). unfold sbind, sgets. rewrite remaining_rest, R2 by done.
  unfold rbind. rewrite (reads_fixed text _ eq_refl _ [] Hok2) by (by rewrite app_nil_r).
  done.
Qed.

(** The two ends of the key agreement, with their conversions. *)
Lemma session_keys_agree a b a_seed b_seed prekey prekey_secret ephemeral ephemeral_secret :
  derive_from_seed a_seed = Some a → derive_from_seed b_seed = Some b →
  crypto_scalarmult_base prekey_secret = Some prekey →
  crypto_scalarmult_base ephemeral_secret = Some ephemeral →
  derive_recipient_session_key b prekey_secret (public_key_ a) ephemeral =
    derive_sender_session_key a ephemeral_secret (public_key_ b) prekey.
Proof.
  unfold derive_from_seed. intros Ha Hb Hpre Heph.
  destruct (crypto_sign_seed_keypair a_seed) as [[ap as_]|] eqn:Ea; [|done].
  destruct (crypto_sign_seed_keypair b_seed) as [[bp bs]|] eqn:Eb; [|done].
  injection Ha as <-. injection Hb as <-.
  destruct (curve25519_converts _ _ _ Ea) as (ax & axp & Hax & Haxp & Habase).
  destruct (curve25519_converts _ _ _ Eb) as (bx & bxp & Hbx & Hbxp & Hbbase).
  unfold derive_recipient_session_key, derive_sender_session_key, convert_identity_secret_to_x25519,
    convert_identity_public_to_x25519, compute_shared_secret. cbn [public_key_ secret_key_].
  rewrite Hax, Haxp, Hbx, Hbxp.
  rewrite (scalarmult_agrees prekey_secret prekey ax axp) by done.
  rewrite (scalarmult_agrees bx bxp ephemeral_secret ephemeral) by done.
  by rewrite (scalarmult_agrees prekey_secret prekey ephemeral_secret ephemeral).
Qed.

(** The bundle the owner of an identity publishes. *)
Definition published_bundle (owner : identity_keypair) (bundle : prekey_bundle_response.t) : Prop :=
  prekey_bundle_response.owner_pubkey bundle = public_key_ owner ∧
  ∃ secret, derive_local_prekey owner = Some (prekey_bundle_response.prekey bundle, secret).

(** A delivery: two identities, the recipient's published bundle, the keys
    drawn for the message, and the envelope that was sealed. *)
Section delivery.
Context (a_seed b_seed : bytes) (a b : identity_keypair) (ephemeral ephemeral_secret : bytes) (now : Z)
  (bundle : prekey_bundle_response.t) (text envelope : bytes).
Context (Ha : derive_from_seed a_seed = Some a) (Hb : derive_from_seed b_seed = Some b)
  (Hephemeral : crypto_scalarmult_base ephemeral_secret = Some ephemeral)
  (Hbundle : published_bundle b bundle) (Hnow : u64 now)
  (Hsealed : seal_direct_message (Some (ephemeral, ephemeral_secret)) now a bundle text = inr envelope).

(** What the recipient makes of the envelope. *)
Definition opened_text : bytes + (bytes * Z) :=
  if validate_text_field text then inr (text, now) else inl (lit "contenu du message illisible").

Lemma sealed_message_result :
  open_direct_message b envelope = opened_text ∧
  ∃ header, parse_dm_envelope_header envelope = Some header ∧ sender_identity header = public_key_ a.
Proof.
  destruct Hbundle as [Hown [secret Hpre]]. unfold seal_direct_message in Hsealed.
  destruct (verify_prekey_bundle bundle); [|done]. cbn [negb] in Hsealed. rewrite Hown in Hsealed.
  destruct (derive_sender_session_key _ _ _ _) as [root|] eqn:Eroot; [|done].
  destruct (derive_first_message_key root) as [key|] eqn:Ekey; [|done].
  destruct (seal_dm_envelope _ _ _) as [sealed|] eqn:Eseal; [|done]. injection Hsealed as ->.
  assert (size_of (public_key_ a) = 32) as Hsize.
  { unfold derive_from_seed in Ha. destruct (crypto_sign_seed_keypair a_seed) as [[p s]|] eqn:E; [|done].
    injection Ha as <-. by destruct (seed_keypair_shape _ _ _ E). }
  apply open_sealed_envelope in Eseal as [Hheader Hopen].
  2:{ split_and!; [done|done|by eapply scalarmult_base_size|by unfold fits; vm_compute]. }
  split; [|by eexists].
  unfold open_direct_message. rewrite Hheader, Hpre. cbn [sender_identity sender_ephemeral].
  assert (crypto_scalarmult_base secret = Some (prekey_bundle_response.prekey bundle)) as Hbase.
  { unfold derive_local_prekey in Hpre. destruct (expand_key_block _ _ 1) as [s|]; [|done].
    unfold compute_public_from_secret in Hpre. destruct (crypto_scalarmult_base s) as [p|] eqn:E; [|done].
    by injection Hpre as <- <-. }
  rewrite (session_keys_agree a b a_seed b_seed _ _ _ _ Ha Hb Hbase Hephemeral), Eroot, Ekey, Hopen.
  rewrite payload_roundtrip by done. unfold opened_text. by destruct (validate_text_field text).
Qed.

Lemma sealed_message_opens : validate_text_field text = true →
  open_direct_message b envelope = inr (text, now) ∧
  ∃ header, parse_dm_envelope_header envelope = Some header ∧ sender_identity header = public_key_ a.
Proof. intros Ht. destruct sealed_message_result as [-> Hheader]. unfold opened_text. by rewrite Ht. Qed.

(** C24: what a sender seals for a recipient, with the bundle the recipient
    published and any ephemeral keys, the recipient opens from an envelope that
    names the sender's identity. A text that is a valid text field comes out
    exactly as it was sealed, with the time; any other text (invalid UTF-8, a
    control character such as a carriage return) is sealed just the same,
    because sealing checks nothing, and then always refused by the recipient as
    an unreadable content. *)
Theorem direct_message_roundtrip :
  open_direct_message b envelope =
    (if validate_text_field text then inr (text, now) else inl (lit "contenu du message illisible")) ∧
  ∃ header, parse_dm_envelope_header envelope = Some header ∧ sender_identity header = public_key_ a.
Proof. exact sealed_message_result. Qed.

(** The name [dm-fetch] prints over a message is the one the server
    reports, not the identity the envelope authenticates: whoever [shown] is,
    a server that reports it makes a genuine message of [a] appear as
    theirs, opened and acknowledged. *)
Theorem displayed_sender_is_the_servers_word (id : Z) (shown : bytes) (Htext : validate_text_field text = true) :
  show_envelope b (dm_envelope_record.mk id shown envelope) =
    (lit "  de " ++ take 16 (encode_hex shown) ++ lit "... : " ++ text ++ newline, Some id).
Proof.
  destruct (sealed_message_opens Htext) as [Hopen _]. unfold show_envelope. cbn [dm_envelope_record.ciphertext].
  rewrite Hopen. by rewrite <-!(assoc app).
Qed.
End delivery.

(** What a header says is what its bytes are. *)
Lemma serialize_parsed_header envelope h :
  parse_dm_envelope_header envelope = Some h → header_ok h ∧ serialize_header h [] = take 69 envelope.
Proof.
  unfold parse_dm_envelope_header. destruct (Z.ltb_spec (size_of envelope) (DM_ENVELOPE_HEADER_SIZE + AEAD_TAG_SIZE)) as [?|Hlen]; [done|].
  change (DM_ENVELOPE_HEADER_SIZE + AEAD_TAG_SIZE) with 85 in Hlen. unfold size_of in Hlen.
  destruct (Z.eqb_spec (byte_val (envelope !!! 0%nat)) DM_ENVELOPE_VERSION) as [Hv|]; [|done].
  cbn [negb]. intros Heq. apply (inj Some) in Heq. subst h.
  destruct envelope as [|v l]; [simpl in Hlen; lia|]. cbn [lookup_total list_lookup_total] in *.
  assert (Hfour : read_u32 (v :: l) 65 = le_value (take 4 (drop 64 l)) ∧ length (take 4 (drop 64 l)) = 4%nat).
  { split; [|rewrite length_take, length_drop; simpl in Hlen; lia].
    unfold read_u32. apply (load_loop_value 4 _ 4); [lia|]. cbn [drop]. rewrite length_drop. simpl in Hlen. lia. }
  destruct Hfour as [Hread Hfour]. split.
  - unfold header_ok. cbn [version sender_identity sender_ephemeral counter]. unfold size_of.
    split; [done|]. split; [|split].
    + cbn [drop]. rewrite drop_0, length_take. cbn [length] in Hlen. lia.
    + rewrite length_take, length_drop. cbn [length] in *. lia.
    + rewrite Hread. pose proof (le_value_range (take 4 (drop 64 l))) as Hr. unfold size_of in Hr. rewrite Hfour in Hr. exact Hr.
  - rewrite serialize_header_bytes. cbn [version sender_identity sender_ephemeral counter]. rewrite Hread.
    pose proof (le_bytes_le_value (take 4 (drop 64 l))) as Hle. rewrite Hfour in Hle. rewrite Hle, byte_of_val.
    change 33%nat with (S 32). cbn [drop]. rewrite drop_0. change (take 69 (v :: l)) with (v :: take 68 l).
    rewrite <-app_comm_cons. f_equal.
    rewrite (take_take_drop l 32 32). exact (take_take_drop l 64 4).
Qed.

(** An envelope opens only if it is, to the last byte, what sealing its
    plaintext under its own header gives, with the key that the recipient and
    the identity named in that header agree on: no byte of the header or of
    the body can be changed. *)
Theorem opened_envelope_was_sealed (recipient : identity_keypair) (envelope text : bytes) (sent_at : Z)
    (Hopened : open_direct_message recipient envelope = inr (text, sent_at)) :
  ∃ header prekey prekey_secret root message_key plaintext,
    derive_local_prekey recipient = Some (prekey, prekey_secret) ∧
    derive_recipient_session_key recipient prekey_secret (sender_identity header) (sender_ephemeral header)
      = Some root ∧
    derive_first_message_key root = Some message_key ∧
    seal_dm_envelope header message_key plaintext = Some envelope ∧
    parse_dm_payload plaintext = Some (sent_at, text).
Proof.
  unfold open_direct_message in Hopened.
  destruct (parse_dm_envelope_header envelope) as [h|] eqn:Eh; [|done].
  destruct (derive_local_prekey recipient) as [[p s]|] eqn:Ep; [|done].
  destruct (derive_recipient_session_key _ _ _ _) as [root|] eqn:Er; [|done].
  destruct (derive_first_message_key root) as [key|] eqn:Ek; [|done].
  unfold open_dm_envelope in Hopened. rewrite Eh in Hopened.
  destruct (crypto_xaead_decrypt _ _ _ _) as [plaintext|] eqn:Ed; [|done].
  destruct (parse_dm_payload plaintext) as [[at_ txt]|] eqn:Et; [|done]. injection Hopened as -> ->.
  exists h, p, s, root, key, plaintext. split_and!; try done.
  destruct (serialize_parsed_header _ _ Eh) as [_ Hser]. apply xaead_decrypt_sound in Ed.
  unfold seal_dm_envelope. rewrite Hser, Ed. by rewrite take_drop.
Qed.

(** The keys [advance_to_counter] passes, and where it leaves the chain. *)
Lemma derive_skipped_spec distance skipped chain :
  u32 (counter_ chain) → counter_ chain + Z.of_nat distance < 2 ^ 32 →
  let '((ok, skipped'), chain') := derive_skipped distance skipped chain in
  ∃ keys, skipped' = skipped ++ keys ∧ (length keys <= distance)%nat ∧
    counter_ chain' = counter_ chain + size_of keys ∧ (ok = true → length keys = distance).
Proof.
  revert skipped chain. induction distance as [|distance IH]; intros skipped chain Hc Hd.
  { exists []. rewrite app_nil_r, size_of_nil. simpl. split_and!; (done || lia). }
  cbn [derive_skipped]. unfold sbind. destruct (derive_next_message_key chain) as [[key|] chain1] eqn:E.
  - assert (counter_ chain1 = counter_ chain + 1) as Hc1.
    { unfold derive_next_message_key in E. destruct (expand_key_block _ MESSAGE_KEY_INFO 1); [|done].
      destruct (expand_key_block _ CHAIN_KEY_INFO 2); [|done]. injection E as _ <-. cbn [counter_].
      apply wrap_id. unfold fits in *. lia. }
    specialize (IH (skipped ++ [key]) chain1).
    destruct (derive_skipped distance (skipped ++ [key]) chain1) as [[ok skipped'] chain'].
    destruct IH as (keys & -> & Hlen & Hcount & Hok); [unfold fits in *; lia|lia|].
    exists (key :: keys). rewrite <-(assoc app), size_of_cons. simpl. split_and!; [done|lia|lia|].
    intros ->. by rewrite Hok.
  - assert (chain1 = chain) as ->.
    { unfold derive_next_message_key in E. destruct (expand_key_block _ MESSAGE_KEY_INFO 1); [|by injection E].
      destruct (expand_key_block _ CHAIN_KEY_INFO 2); [done|by injection E]. }
    exists []. rewrite app_nil_r, size_of_nil. simpl. split_and!; (done || lia).
Qed.

(** Catching up never goes back, derives at most a thousand keys whatever
    counter an envelope announces, and ends exactly at that counter when it
    succeeds, with one key for each message passed. *)
Theorem ratchet_catch_up_bounded (target : Z) (skipped : list bytes) (chain : dm_message_chain)
    (Htarget : u32 target) (Hchain : u32 (counter_ chain)) :
  let '((ok, skipped'), chain') := advance_to_counter target skipped chain in
  ∃ keys, skipped' = skipped ++ keys ∧ size_of keys <= MAX_SKIPPED_MESSAGE_KEYS ∧
    counter_ chain' = counter_ chain + size_of keys ∧
    (ok = true → counter_ chain' = target) ∧
    (target < counter_ chain ∨ MAX_SKIPPED_MESSAGE_KEYS < target - counter_ chain →
     ok = false ∧ keys = [] ∧ chain' = chain).
Proof.
  unfold advance_to_counter.
  destruct (Z.ltb_spec target (counter_ chain)).
  { exists []. rewrite app_nil_r, size_of_nil. split_and!; (done || lia). }
  destruct (Z.ltb_spec MAX_SKIPPED_MESSAGE_KEYS (target - counter_ chain)).
  { exists []. rewrite app_nil_r, size_of_nil. split_and!; (done || lia). }
  pose proof (derive_skipped_spec (Z.to_nat (target - counter_ chain)) skipped chain Hchain) as Hspec.
  destruct (derive_skipped _ skipped chain) as [[ok skipped'] chain'].
  destruct Hspec as (keys & -> & Hlen & Hcount & Hok); [unfold fits in *; lia|].
  unfold size_of in *. exists keys. split_and!; [done|lia|done| |lia].
  intros Htrue. specialize (Hok Htrue). lia.
Qed.
End correctness.

(** ** Witnesses *)

Section witnesses.
#[local] Existing Instance toy_sodium.
#[local] Existing Instance toy_sodium_laws.

Definition alice_seed : bytes := pad 32 (lit "alice").
Definition bob_seed : bytes := pad 32 (lit "bob").
Definition keypair_of (seed : bytes) : identity_keypair :=
  default (IdentityKeypair [] []) (derive_from_seed seed).
Definition bundle_of (owner : identity_keypair) : prekey_bundle_response.t :=
  let prekey := default [] (fst <$> derive_local_prekey owner) in
  prekey_bundle_response.mk (public_key_ owner) prekey
    (default [] (sign_message (build_prekey_signing_input (public_key_ owner) prekey) owner)) 0.
Definition drawn_keys : bytes * bytes := (pad 32 (lit "drawn"), lit "drawn").
Definition sealed_hello : bytes :=
  match seal_direct_message (Some drawn_keys) 1700000000 (keypair_of alice_seed)
          (bundle_of (keypair_of bob_seed)) (lit "hello bob") with
  | inr envelope => envelope
  | inl _ => []
  end.

Lemma sealed_hello_facts :
  derive_from_seed alice_seed = Some (keypair_of alice_seed) ∧
  derive_from_seed bob_seed = Some (keypair_of bob_seed) ∧
  published_bundle (keypair_of bob_seed) (bundle_of (keypair_of bob_seed)) ∧
  seal_direct_message (Some drawn_keys) 1700000000 (keypair_of alice_seed)
    (bundle_of (keypair_of bob_seed)) (lit "hello bob") = inr sealed_hello.
Proof.
  split; [vm_compute; reflexivity|]. split; [vm_compute; reflexivity|]. split; [|vm_compute; reflexivity].
  split; [reflexivity|]. eexists. vm_compute. reflexivity.
Qed.

(** Alice sends a text with a carriage return. *)
Definition sealed_return : bytes :=
  match seal_direct_message (Some drawn_keys) 1700000000 (keypair_of alice_seed)
          (bundle_of (keypair_of bob_seed)) (lit "hello" ++ [byte_of 13]) with
  | inr envelope => envelope
  | inl _ => []
  end.

Lemma direct_message_roundtrip_witness :
  open_direct_message (keypair_of bob_seed) sealed_hello = inr (lit "hello bob", 1700000000) ∧
  open_direct_message (keypair_of bob_seed) sealed_return = inl (lit "contenu du message illisible").
Proof.
  destruct sealed_hello_facts as (Ha & Hb & Hbundle & Hsealed). split.
  - refine (proj1 (direct_message_roundtrip alice_seed bob_seed _ _ drawn_keys.1 drawn_keys.2 1700000000 _ (lit "hello bob")
      sealed_hello Ha Hb eq_refl Hbundle _ Hsealed)). unfold fits. lia.
  - refine (proj1 (direct_message_roundtrip alice_seed bob_seed _ _ drawn_keys.1 drawn_keys.2 1700000000 _
      (lit "hello" ++ [byte_of 13]) sealed_return Ha Hb eq_refl Hbundle _ _)); [unfold fits; lia|vm_compute; reflexivity].
Defined.

Lemma displayed_sender_is_the_servers_word_witness :
  show_envelope (keypair_of bob_seed) (dm_envelope_record.mk 7 (pad 32 (lit "mallory")) sealed_hello) =
    (lit "  de " ++ take 16 (encode_hex (pad 32 (lit "mallory"))) ++ lit "... : " ++ lit "hello bob" ++ newline,
     Some 7).
Proof.
  destruct sealed_hello_facts as (Ha & Hb & Hbundle & Hsealed).
  refine (displayed_sender_is_the_servers_word alice_seed bob_seed _ _ drawn_keys.1 drawn_keys.2 1700000000 _
    (lit "hello bob") sealed_hello Ha Hb eq_refl Hbundle _ Hsealed 7 _ _);
    [unfold fits; lia|vm_compute; reflexivity].
Defined.

Lemma opened_envelope_was_sealed_witness :
  ∃ header key plaintext, seal_dm_envelope header key plaintext = Some sealed_hello.
Proof.
  assert (open_direct_message (keypair_of bob_seed) sealed_hello = inr (lit "hello bob", 1700000000)) as Hopen
    by (vm_compute; reflexivity).
  destruct (opened_envelope_was_sealed _ _ _ _ Hopen) as (h & p & s & root & key & plaintext & _ & _ & _ & E & _).
  exists h, key, plaintext. exact E.
Defined.

Lemma ratchet_catch_up_bounded_witness :
  let '((ok, skipped), chain) := advance_to_counter 3 [] (new_chain (pad 32 [])) in
  ∃ keys, skipped = [] ++ keys ∧ size_of keys <= MAX_SKIPPED_MESSAGE_KEYS ∧
    counter_ chain = 0 + size_of keys ∧ (ok = true → counter_ chain = 3) ∧
    (3 < 0 ∨ MAX_SKIPPED_MESSAGE_KEYS < 3 - 0 → ok = false ∧ keys = [] ∧ chain = new_chain (pad 32 [])).
Proof. refine (ratchet_catch_up_bounded 3 [] (new_chain (pad 32 [])) _ _); unfold fits; simpl; lia. Defined.
End witnesses.
