(* ===== verification/Recovery.v ===== *)
(** The recovery phrase of the master seed (common/crypto/recovery_phrase.cpp)
    and its word list (common/crypto/recovery_wordlist.cpp). *)

From Stdlib Require Import Sorting.Sorted.
From S2P Require Import Prelude.
From S2P Require Import TextTools.
From S2P Require Import Sodium.

(** ** recovery_wordlist.cpp *)

Definition RECOVERY_WORDLIST : list bytes := map lit [
  "abandon"; "ability"; "able"; "about"; "above"; "absent"; "absorb"; "abstract"; "absurd"; "abuse";
  "access"; "accident"; "account"; "accuse"; "achieve"; "acid"; "acoustic"; "acquire"; "across"; "act";
  "action"; "actor"; "actress"; "actual"; "adapt"; "add"; "addict"; "address"; "adjust"; "admit"; "adult";
  "advance"; "advice"; "aerobic"; "affair"; "afford"; "afraid"; "again"; "age"; "agent"; "agree"; "ahead";
  "aim"; "air"; "airport"; "aisle"; "alarm"; "album"; "alcohol"; "alert"; "alien"; "all"; "alley"; "allow";
  "almost"; "alone"; "alpha"; "already"; "also"; "alter"; "always"; "amateur"; "amazing"; "among"; "amount";
  "amused"; "analyst"; "anchor"; "ancient"; "anger"; "angle"; "angry"; "animal"; "ankle"; "announce";
  "annual"; "another"; "answer"; "antenna"; "antique"; "anxiety"; "any"; "apart"; "apology"; "appear";
  "apple"; "approve"; "april"; "arch"; "arctic"; "area"; "arena"; "argue"; "arm"; "armed"; "armor"; "army";
  "around"; "arrange"; "arrest"; "arrive"; "arrow"; "art"; "artefact"; "artist"; "artwork"; "ask"; "aspect";
  "assault"; "asset"; "assist"; "assume"; "asthma"; "athlete"; "atom"; "attack"; "attend"; "attitude";
  "attract"; "auction"; "audit"; "august"; "aunt"; "author"; "auto"; "autumn"; "average"; "avocado"; "avoid";
  "awake"; "aware"; "away"; "awesome"; "awful"; "awkward"; "axis"; "baby"; "bachelor"; "bacon"; "badge";
  "bag"; "balance"; "balcony"; "ball"; "bamboo"; "banana"; "banner"; "bar"; "barely"; "bargain"; "barrel";
  "base"; "basic"; "basket"; "battle"; "beach"; "bean"; "beauty"; "because"; "become"; "beef"; "before";
  "begin"; "behave"; "behind"; "believe"; "below"; "belt"; "bench"; "benefit"; "best"; "betray"; "better";
  "between"; "beyond"; "bicycle"; "bid"; "bike"; "bind"; "biology"; "bird"; "birth"; "bitter"; "black";
  "blade"; "blame"; "blanket"; "blast"; "bleak"; "bless"; "blind"; "blood"; "blossom"; "blouse"; "blue";
  "blur"; "blush"; "board"; "boat"; "body"; "boil"; "bomb"; "bone"; "bonus"; "book"; "boost"; "border";
  "boring"; "borrow"; "boss"; "bottom"; "bounce"; "box"; "boy"; "bracket"; "brain"; "brand"; "brass";
  "brave"; "bread"; "breeze"; "brick"; "bridge"; "brief"; "bright"; "bring"; "brisk"; "broccoli"; "broken";
  "bronze"; "broom"; "brother"; "brown"; "brush"; "bubble"; "buddy"; "budget"; "buffalo"; "build"; "bulb";
  "bulk"; "bullet"; "bundle"; "bunker"; "burden"; "burger"; "burst"; "bus"; "business"; "busy"; "butter";
  "buyer"; "buzz"; "cabbage"; "cabin"; "cable"; "cactus"; "cage"; "cake"; "call"; "calm"; "camera"; "camp";
  "can"; "canal"; "cancel"; "candy"; "cannon"; "canoe"; "canvas"; "canyon"; "capable"; "capital"; "captain";
  "car"; "carbon"; "card"; "cargo"; "carpet"; "carry"; "cart"; "case"; "cash"; "casino"; "castle"; "casual";
  "cat"; "catalog"; "catch"; "category"; "cattle"; "caught"; "cause"; "caution"; "cave"; "ceiling"; "celery";
  "cement"; "census"; "century"; "cereal"; "certain"; "chair"; "chalk"; "champion"; "change"; "chaos";
  "chapter"; "charge"; "chase"; "chat"; "cheap"; "check"; "cheese"; "chef"; "cherry"; "chest"; "chicken";
  "chief"; "child"; "chimney"; "choice"; "choose"; "chronic"; "chuckle"; "chunk"; "churn"; "cigar";
  "cinnamon"; "circle"; "citizen"; "city"; "civil"; "claim"; "clap"; "clarify"; "claw"; "clay"; "clean";
  "clerk"; "clever"; "click"; "client"; "cliff"; "climb"; "clinic"; "clip"; "clock"; "clog"; "close";
  "cloth"; "cloud"; "clown"; "club"; "clump"; "cluster"; "clutch"; "coach"; "coast"; "coconut"; "code";
  "coffee"; "coil"; "coin"; "collect"; "color"; "column"; "combine"; "come"; "comfort"; "comic"; "common";
  "company"; "concert"; "conduct"; "confirm"; "congress"; "connect"; "consider"; "control"; "convince";
  "cook"; "cool"; "copper"; "copy"; "coral"; "core"; "corn"; "correct"; "cost"; "cotton"; "couch"; "country";
  "couple"; "course"; "cousin"; "cover"; "coyote"; "crack"; "cradle"; "craft"; "cram"; "crane"; "crash";
  "crater"; "crawl"; "crazy"; "cream"; "credit"; "creek"; "crew"; "cricket"; "crime"; "crisp"; "critic";
  "crop"; "cross"; "crouch"; "crowd"; "crucial"; "cruel"; "cruise"; "crumble"; "crunch"; "crush"; "cry";
  "crystal"; "cube"; "culture"; "cup"; "cupboard"; "curious"; "current"; "curtain"; "curve"; "cushion";
  "custom"; "cute"; "cycle"; "dad"; "damage"; "damp"; "dance"; "danger"; "daring"; "dash"; "daughter";
  "dawn"; "day"; "deal"; "debate"; "debris"; "decade"; "december"; "decide"; "decline"; "decorate";
  "decrease"; "deer"; "defense"; "define"; "defy"; "degree"; "delay"; "deliver"; "demand"; "demise";
  "denial"; "dentist"; "deny"; "depart"; "depend"; "deposit"; "depth"; "deputy"; "derive"; "describe";
  "desert"; "design"; "desk"; "despair"; "destroy"; "detail"; "detect"; "develop"; "device"; "devote";
  "diagram"; "dial"; "diamond"; "diary"; "dice"; "diesel"; "diet"; "differ"; "digital"; "dignity"; "dilemma";
  "dinner"; "dinosaur"; "direct"; "dirt"; "disagree"; "discover"; "disease"; "dish"; "dismiss"; "disorder";
  "display"; "distance"; "divert"; "divide"; "divorce"; "dizzy"; "doctor"; "document"; "dog"; "doll";
  "dolphin"; "domain"; "donate"; "donkey"; "donor"; "door"; "dose"; "double"; "dove"; "draft"; "dragon";
  "drama"; "drastic"; "draw"; "dream"; "dress"; "drift"; "drill"; "drink"; "drip"; "drive"; "drop"; "drum";
  "dry"; "duck"; "dumb"; "dune"; "during"; "dust"; "dutch"; "duty"; "dwarf"; "dynamic"; "eager"; "eagle";
  "early"; "earn"; "earth"; "easily"; "east"; "easy"; "echo"; "ecology"; "economy"; "edge"; "edit";
  "educate"; "effort"; "egg"; "eight"; "either"; "elbow"; "elder"; "electric"; "elegant"; "element";
  "elephant"; "elevator"; "elite"; "else"; "embark"; "embody"; "embrace"; "emerge"; "emotion"; "employ";
  "empower"; "empty"; "enable"; "enact"; "end"; "endless"; "endorse"; "enemy"; "energy"; "enforce"; "engage";
  "engine"; "enhance"; "enjoy"; "enlist"; "enough"; "enrich"; "enroll"; "ensure"; "enter"; "entire"; "entry";
  "envelope"; "episode"; "equal"; "equip"; "era"; "erase"; "erode"; "erosion"; "error"; "erupt"; "escape";
  "essay"; "essence"; "estate"; "eternal"; "ethics"; "evidence"; "evil"; "evoke"; "evolve"; "exact";
  "example"; "excess"; "exchange"; "excite"; "exclude"; "excuse"; "execute"; "exercise"; "exhaust";
  "exhibit"; "exile"; "exist"; "exit"; "exotic"; "expand"; "expect"; "expire"; "explain"; "expose";
  "express"; "extend"; "extra"; "eye"; "eyebrow"; "fabric"; "face"; "faculty"; "fade"; "faint"; "faith";
  "fall"; "false"; "fame"; "family"; "famous"; "fan"; "fancy"; "fantasy"; "farm"; "fashion"; "fat"; "fatal";
  "father"; "fatigue"; "fault"; "favorite"; "feature"; "february"; "federal"; "fee"; "feed"; "feel";
  "female"; "fence"; "festival"; "fetch"; "fever"; "few"; "fiber"; "fiction"; "field"; "figure"; "file";
  "film"; "filter"; "final"; "find"; "fine"; "finger"; "finish"; "fire"; "firm"; "first"; "fiscal"; "fish";
  "fit"; "fitness"; "fix"; "flag"; "flame"; "flash"; "flat"; "flavor"; "flee"; "flight"; "flip"; "float";
  "flock"; "floor"; "flower"; "fluid"; "flush"; "fly"; "foam"; "focus"; "fog"; "foil"; "fold"; "follow";
  "food"; "foot"; "force"; "forest"; "forget"; "fork"; "fortune"; "forum"; "forward"; "fossil"; "foster";
  "found"; "fox"; "fragile"; "frame"; "frequent"; "fresh"; "friend"; "fringe"; "frog"; "front"; "frost";
  "frown"; "frozen"; "fruit"; "fuel"; "fun"; "funny"; "furnace"; "fury"; "future"; "gadget"; "gain";
  "galaxy"; "gallery"; "game"; "gap"; "garage"; "garbage"; "garden"; "garlic"; "garment"; "gas"; "gasp";
  "gate"; "gather"; "gauge"; "gaze"; "general"; "genius"; "genre"; "gentle"; "genuine"; "gesture"; "ghost";
  "giant"; "gift"; "giggle"; "ginger"; "giraffe"; "girl"; "give"; "glad"; "glance"; "glare"; "glass";
  "glide"; "glimpse"; "globe"; "gloom"; "glory"; "glove"; "glow"; "glue"; "goat"; "goddess"; "gold"; "good";
  "goose"; "gorilla"; "gospel"; "gossip"; "govern"; "gown"; "grab"; "grace"; "grain"; "grant"; "grape";
  "grass"; "gravity"; "great"; "green"; "grid"; "grief"; "grit"; "grocery"; "group"; "grow"; "grunt";
  "guard"; "guess"; "guide"; "guilt"; "guitar"; "gun"; "gym"; "habit"; "hair"; "half"; "hammer"; "hamster";
  "hand"; "happy"; "harbor"; "hard"; "harsh"; "harvest"; "hat"; "have"; "hawk"; "hazard"; "head"; "health";
  "heart"; "heavy"; "hedgehog"; "height"; "hello"; "helmet"; "help"; "hen"; "hero"; "hidden"; "high"; "hill";
  "hint"; "hip"; "hire"; "history"; "hobby"; "hockey"; "hold"; "hole"; "holiday"; "hollow"; "home"; "honey";
  "hood"; "hope"; "horn"; "horror"; "horse"; "hospital"; "host"; "hotel"; "hour"; "hover"; "hub"; "huge";
  "human"; "humble"; "humor"; "hundred"; "hungry"; "hunt"; "hurdle"; "hurry"; "hurt"; "husband"; "hybrid";
  "ice"; "icon"; "idea"; "identify"; "idle"; "ignore"; "ill"; "illegal"; "illness"; "image"; "imitate";
  "immense"; "immune"; "impact"; "impose"; "improve"; "impulse"; "inch"; "include"; "income"; "increase";
  "index"; "indicate"; "indoor"; "industry"; "infant"; "inflict"; "inform"; "inhale"; "inherit"; "initial";
  "inject"; "injury"; "inmate"; "inner"; "innocent"; "input"; "inquiry"; "insane"; "insect"; "inside";
  "inspire"; "install"; "intact"; "interest"; "into"; "invest"; "invite"; "involve"; "iron"; "island";
  "isolate"; "issue"; "item"; "ivory"; "jacket"; "jaguar"; "jar"; "jazz"; "jealous"; "jeans"; "jelly";
  "jewel"; "job"; "join"; "joke"; "journey"; "joy"; "judge"; "juice"; "jump"; "jungle"; "junior"; "junk";
  "just"; "kangaroo"; "keen"; "keep"; "ketchup"; "key"; "kick"; "kid"; "kidney"; "kind"; "kingdom"; "kiss";
  "kit"; "kitchen"; "kite"; "kitten"; "kiwi"; "knee"; "knife"; "knock"; "know"; "lab"; "label"; "labor";
  "ladder"; "lady"; "lake"; "lamp"; "language"; "laptop"; "large"; "later"; "latin"; "laugh"; "laundry";
  "lava"; "law"; "lawn"; "lawsuit"; "layer"; "lazy"; "leader"; "leaf"; "learn"; "leave"; "lecture"; "left";
  "leg"; "legal"; "legend"; "leisure"; "lemon"; "lend"; "length"; "lens"; "leopard"; "lesson"; "letter";
  "level"; "liar"; "liberty"; "library"; "license"; "life"; "lift"; "light"; "like"; "limb"; "limit"; "link";
  "lion"; "liquid"; "list"; "little"; "live"; "lizard"; "load"; "loan"; "lobster"; "local"; "lock"; "logic";
  "lonely"; "long"; "loop"; "lottery"; "loud"; "lounge"; "love"; "loyal"; "lucky"; "luggage"; "lumber";
  "lunar"; "lunch"; "luxury"; "lyrics"; "machine"; "mad"; "magic"; "magnet"; "maid"; "mail"; "main"; "major";
  "make"; "mammal"; "man"; "manage"; "mandate"; "mango"; "mansion"; "manual"; "maple"; "marble"; "march";
  "margin"; "marine"; "market"; "marriage"; "mask"; "mass"; "master"; "match"; "material"; "math"; "matrix";
  "matter"; "maximum"; "maze"; "meadow"; "mean"; "measure"; "meat"; "mechanic"; "medal"; "media"; "melody";
  "melt"; "member"; "memory"; "mention"; "menu"; "mercy"; "merge"; "merit"; "merry"; "mesh"; "message";
  "metal"; "method"; "middle"; "midnight"; "milk"; "million"; "mimic"; "mind"; "minimum"; "minor"; "minute";
  "miracle"; "mirror"; "misery"; "miss"; "mistake"; "mix"; "mixed"; "mixture"; "mobile"; "model"; "modify";
  "mom"; "moment"; "monitor"; "monkey"; "monster"; "month"; "moon"; "moral"; "more"; "morning"; "mosquito";
  "mother"; "motion"; "motor"; "mountain"; "mouse"; "move"; "movie"; "much"; "muffin"; "mule"; "multiply";
  "muscle"; "museum"; "mushroom"; "music"; "must"; "mutual"; "myself"; "mystery"; "myth"; "naive"; "name";
  "napkin"; "narrow"; "nasty"; "nation"; "nature"; "near"; "neck"; "need"; "negative"; "neglect"; "neither";
  "nephew"; "nerve"; "nest"; "net"; "network"; "neutral"; "never"; "news"; "next"; "nice"; "night"; "noble";
  "noise"; "nominee"; "noodle"; "normal"; "north"; "nose"; "notable"; "note"; "nothing"; "notice"; "novel";
  "now"; "nuclear"; "number"; "nurse"; "nut"; "oak"; "obey"; "object"; "oblige"; "obscure"; "observe";
  "obtain"; "obvious"; "occur"; "ocean"; "october"; "odor"; "off"; "offer"; "office"; "often"; "oil"; "okay";
  "old"; "olive"; "olympic"; "omit"; "once"; "one"; "onion"; "online"; "only"; "open"; "opera"; "opinion";
  "oppose"; "option"; "orange"; "orbit"; "orchard"; "order"; "ordinary"; "organ"; "orient"; "original";
  "orphan"; "ostrich"; "other"; "outdoor"; "outer"; "output"; "outside"; "oval"; "oven"; "over"; "own";
  "owner"; "oxygen"; "oyster"; "ozone"; "pact"; "paddle"; "page"; "pair"; "palace"; "palm"; "panda"; "panel";
  "panic"; "panther"; "paper"; "parade"; "parent"; "park"; "parrot"; "party"; "pass"; "patch"; "path";
  "patient"; "patrol"; "pattern"; "pause"; "pave"; "payment"; "peace"; "peanut"; "pear"; "peasant";
  "pelican"; "pen"; "penalty"; "pencil"; "people"; "pepper"; "perfect"; "permit"; "person"; "pet"; "phone";
  "photo"; "phrase"; "physical"; "piano"; "picnic"; "picture"; "piece"; "pig"; "pigeon"; "pill"; "pilot";
  "pink"; "pioneer"; "pipe"; "pistol"; "pitch"; "pizza"; "place"; "planet"; "plastic"; "plate"; "play";
  "please"; "pledge"; "pluck"; "plug"; "plunge"; "poem"; "poet"; "point"; "polar"; "pole"; "police"; "pond";
  "pony"; "pool"; "popular"; "portion"; "position"; "possible"; "post"; "potato"; "pottery"; "poverty";
  "powder"; "power"; "practice"; "praise"; "predict"; "prefer"; "prepare"; "present"; "pretty"; "prevent";
  "price"; "pride"; "primary"; "print"; "priority"; "prison"; "private"; "prize"; "problem"; "process";
  "produce"; "profit"; "program"; "project"; "promote"; "proof"; "property"; "prosper"; "protect"; "proud";
  "provide"; "public"; "pudding"; "pull"; "pulp"; "pulse"; "pumpkin"; "punch"; "pupil"; "puppy"; "purchase";
  "purity"; "purpose"; "purse"; "push"; "put"; "puzzle"; "pyramid"; "quality"; "quantum"; "quarter";
  "question"; "quick"; "quit"; "quiz"; "quote"; "rabbit"; "raccoon"; "race"; "rack"; "radar"; "radio";
  "rail"; "rain"; "raise"; "rally"; "ramp"; "ranch"; "random"; "range"; "rapid"; "rare"; "rate"; "rather";
  "raven"; "raw"; "razor"; "ready"; "real"; "reason"; "rebel"; "rebuild"; "recall"; "receive"; "recipe";
  "record"; "recycle"; "reduce"; "reflect"; "reform"; "refuse"; "region"; "regret"; "regular"; "reject";
  "relax"; "release"; "relief"; "rely"; "remain"; "remember"; "remind"; "remove"; "render"; "renew"; "rent";
  "reopen"; "repair"; "repeat"; "replace"; "report"; "require"; "rescue"; "resemble"; "resist"; "resource";
  "response"; "result"; "retire"; "retreat"; "return"; "reunion"; "reveal"; "review"; "reward"; "rhythm";
  "rib"; "ribbon"; "rice"; "rich"; "ride"; "ridge"; "rifle"; "right"; "rigid"; "ring"; "riot"; "ripple";
  "risk"; "ritual"; "rival"; "river"; "road"; "roast"; "robot"; "robust"; "rocket"; "romance"; "roof";
  "rookie"; "room"; "rose"; "rotate"; "rough"; "round"; "route"; "royal"; "rubber"; "rude"; "rug"; "rule";
  "run"; "runway"; "rural"; "sad"; "saddle"; "sadness"; "safe"; "sail"; "salad"; "salmon"; "salon"; "salt";
  "salute"; "same"; "sample"; "sand"; "satisfy"; "satoshi"; "sauce"; "sausage"; "save"; "say"; "scale";
  "scan"; "scare"; "scatter"; "scene"; "scheme"; "school"; "science"; "scissors"; "scorpion"; "scout";
  "scrap"; "screen"; "script"; "scrub"; "sea"; "search"; "season"; "seat"; "second"; "secret"; "section";
  "security"; "seed"; "seek"; "segment"; "select"; "sell"; "seminar"; "senior"; "sense"; "sentence";
  "series"; "service"; "session"; "settle"; "setup"; "seven"; "shadow"; "shaft"; "shallow"; "share"; "shed";
  "shell"; "sheriff"; "shield"; "shift"; "shine"; "ship"; "shiver"; "shock"; "shoe"; "shoot"; "shop";
  "short"; "shoulder"; "shove"; "shrimp"; "shrug"; "shuffle"; "shy"; "sibling"; "sick"; "side"; "siege";
  "sight"; "sign"; "silent"; "silk"; "silly"; "silver"; "similar"; "simple"; "since"; "sing"; "siren";
  "sister"; "situate"; "six"; "size"; "skate"; "sketch"; "ski"; "skill"; "skin"; "skirt"; "skull"; "slab";
  "slam"; "sleep"; "slender"; "slice"; "slide"; "slight"; "slim"; "slogan"; "slot"; "slow"; "slush"; "small";
  "smart"; "smile"; "smoke"; "smooth"; "snack"; "snake"; "snap"; "sniff"; "snow"; "soap"; "soccer"; "social";
  "sock"; "soda"; "soft"; "solar"; "soldier"; "solid"; "solution"; "solve"; "someone"; "song"; "soon";
  "sorry"; "sort"; "soul"; "sound"; "soup"; "source"; "south"; "space"; "spare"; "spatial"; "spawn"; "speak";
  "special"; "speed"; "spell"; "spend"; "sphere"; "spice"; "spider"; "spike"; "spin"; "spirit"; "split";
  "spoil"; "sponsor"; "spoon"; "sport"; "spot"; "spray"; "spread"; "spring"; "spy"; "square"; "squeeze";
  "squirrel"; "stable"; "stadium"; "staff"; "stage"; "stairs"; "stamp"; "stand"; "start"; "state"; "stay";
  "steak"; "steel"; "stem"; "step"; "stereo"; "stick"; "still"; "sting"; "stock"; "stomach"; "stone";
  "stool"; "story"; "stove"; "strategy"; "street"; "strike"; "strong"; "struggle"; "student"; "stuff";
  "stumble"; "style"; "subject"; "submit"; "subway"; "success"; "such"; "sudden"; "suffer"; "sugar";
  "suggest"; "suit"; "summer"; "sun"; "sunny"; "sunset"; "super"; "supply"; "supreme"; "sure"; "surface";
  "surge"; "surprise"; "surround"; "survey"; "suspect"; "sustain"; "swallow"; "swamp"; "swap"; "swarm";
  "swear"; "sweet"; "swift"; "swim"; "swing"; "switch"; "sword"; "symbol"; "symptom"; "syrup"; "system";
  "table"; "tackle"; "tag"; "tail"; "talent"; "talk"; "tank"; "tape"; "target"; "task"; "taste"; "tattoo";
  "taxi"; "teach"; "team"; "tell"; "ten"; "tenant"; "tennis"; "tent"; "term"; "test"; "text"; "thank";
  "that"; "theme"; "then"; "theory"; "there"; "they"; "thing"; "this"; "thought"; "three"; "thrive"; "throw";
  "thumb"; "thunder"; "ticket"; "tide"; "tiger"; "tilt"; "timber"; "time"; "tiny"; "tip"; "tired"; "tissue";
  "title"; "toast"; "tobacco"; "today"; "toddler"; "toe"; "together"; "toilet"; "token"; "tomato";
  "tomorrow"; "tone"; "tongue"; "tonight"; "tool"; "tooth"; "top"; "topic"; "topple"; "torch"; "tornado";
  "tortoise"; "toss"; "total"; "tourist"; "toward"; "tower"; "town"; "toy"; "track"; "trade"; "traffic";
  "tragic"; "train"; "transfer"; "trap"; "trash"; "travel"; "tray"; "treat"; "tree"; "trend"; "trial";
  "tribe"; "trick"; "trigger"; "trim"; "trip"; "trophy"; "trouble"; "truck"; "true"; "truly"; "trumpet";
  "trust"; "truth"; "try"; "tube"; "tuition"; "tumble"; "tuna"; "tunnel"; "turkey"; "turn"; "turtle";
  "twelve"; "twenty"; "twice"; "twin"; "twist"; "two"; "type"; "typical"; "ugly"; "umbrella"; "unable";
  "unaware"; "uncle"; "uncover"; "under"; "undo"; "unfair"; "unfold"; "unhappy"; "uniform"; "unique"; "unit";
  "universe"; "unknown"; "unlock"; "until"; "unusual"; "unveil"; "update"; "upgrade"; "uphold"; "upon";
  "upper"; "upset"; "urban"; "urge"; "usage"; "use"; "used"; "useful"; "useless"; "usual"; "utility";
  "vacant"; "vacuum"; "vague"; "valid"; "valley"; "valve"; "van"; "vanish"; "vapor"; "various"; "vast";
  "vault"; "vehicle"; "velvet"; "vendor"; "venture"; "venue"; "verb"; "verify"; "version"; "very"; "vessel";
  "veteran"; "viable"; "vibrant"; "vicious"; "victory"; "video"; "view"; "village"; "vintage"; "violin";
  "virtual"; "virus"; "visa"; "visit"; "visual"; "vital"; "vivid"; "vocal"; "voice"; "void"; "volcano";
  "volume"; "vote"; "voyage"; "wage"; "wagon"; "wait"; "walk"; "wall"; "walnut"; "want"; "warfare"; "warm";
  "warrior"; "wash"; "wasp"; "waste"; "water"; "wave"; "way"; "wealth"; "weapon"; "wear"; "weasel";
  "weather"; "web"; "wedding"; "weekend"; "weird"; "welcome"; "west"; "wet"; "whale"; "what"; "wheat";
  "wheel"; "when"; "where"; "whip"; "whisper"; "wide"; "width"; "wife"; "wild"; "will"; "win"; "window";
  "wine"; "wing"; "wink"; "winner"; "winter"; "wire"; "wisdom"; "wise"; "wish"; "witness"; "wolf"; "woman";
  "wonder"; "wood"; "wool"; "word"; "work"; "world"; "worry"; "worth"; "wrap"; "wreck"; "wrestle"; "wrist";
  "write"; "wrong"; "yard"; "year"; "yellow"; "you"; "young"; "youth"; "zebra"; "zero"; "zone"; "zoo"]%stdpp.

(** ** recovery_phrase.cpp *)

Definition RECOVERY_ENTROPY_SIZE : Z := 16.
Definition RECOVERY_WORD_COUNT : nat := 12.
Definition BITS_PER_WORD : nat := 11.
Definition CHECKSUM_BITS : nat := 4.

(** [operator<] of [std::string_view]: bytes compare as unsigned. *)
Fixpoint text_less (l k : bytes) : bool :=
  match l, k with
  | _, [] => false
  | [], _ :: _ => true
  | b :: l, c :: k => (byte_val b <? byte_val c) || ((byte_val b =? byte_val c) && text_less l k)
  end.

(** [std::lower_bound] on a sorted range: the first element not less. *)
Fixpoint lower_bound (words : list bytes) (word : bytes) : nat :=
  match words with
  | w :: words => if text_less w word then S (lower_bound words word) else 0%nat
  | [] => 0%nat
  end.

Definition find_word_index (word : bytes) : option Z :=
  let found := lower_bound RECOVERY_WORDLIST word in
  if decide (RECOVERY_WORDLIST !! found = Some word) then Some (Z.of_nat found) else None.

Definition is_space (b : byte) : bool := (byte_val b =? 32) || ((9 <=? byte_val b) && (byte_val b <=? 13)).
Definition lower (b : byte) : byte :=
  if in_range (chr "A") (chr "Z") b then byte_of (byte_val b + 32) else b.
Definition normalize_word (word : bytes) : bytes := map lower word.

Fixpoint take_while (p : byte → bool) (text : bytes) : bytes :=
  match text with
  | b :: text' => if p b then b :: take_while p text' else []
  | [] => []
  end.

(** The loop of [split_words]: every turn consumes a character, so the length
    of the text bounds them. *)
Fixpoint split_loop (fuel : nat) (text : bytes) (out : list bytes) : option (list bytes) :=
  match text, fuel with
  | [], _ => Some out
  | _, O => None
  | _, S fuel =>
      let text := drop_while is_space text in
      let word := take_while (λ b, negb (is_space b)) text in
      let rest := drop (length word) text in
      if decide (word = []) then split_loop fuel rest out
      else if (length out =? RECOVERY_WORD_COUNT)%nat then None
      else split_loop fuel rest (out ++ [normalize_word word])
  end.

Definition split_words (phrase : bytes) : option (list bytes) :=
  match split_loop (length phrase) phrase [] with
  | Some out => if (length out =? RECOVERY_WORD_COUNT)%nat then Some out else None
  | None => None
  end.

Definition bit_at (bits : bytes) (index : nat) : Z :=
  Z.land (Z.shiftr (byte_val (bits !!! (index / 8)%nat)) (Z.of_nat (7 - index mod 8))) 1.

(** [bits[position / 8] |= value << (7 - position % 8)]. *)
Definition set_bit (bits : bytes) (position : nat) (value : Z) : bytes :=
  <[(position / 8)%nat :=
      byte_of (Z.lor (byte_val (bits !!! (position / 8)%nat)) (Z.shiftl value (Z.of_nat (7 - position mod 8))))]> bits.

Definition word_index (bits : bytes) (word : nat) : Z :=
  fold_left (λ index bit, Z.lor (Z.shiftl index 1) (bit_at bits (word * BITS_PER_WORD + bit)))
    (seq 0 BITS_PER_WORD) 0.

Definition put_word (bits : bytes) (word : nat) (index : Z) : bytes :=
  fold_left (λ bits bit,
      let value := Z.land (Z.shiftr index (Z.of_nat (BITS_PER_WORD - 1 - bit))) 1 in
      set_bit bits (word * BITS_PER_WORD + bit) value)
    (seq 0 BITS_PER_WORD) bits.

Section recovery.
Context `{Sodium}.

Definition checksum_nibble (entropy : bytes) : byte :=
  byte_of (Z.land (byte_val (crypto_hash_sha256 entropy !!! 0%nat)) 0xF0).

Definition packed (entropy : bytes) : bytes := entropy ++ [checksum_nibble entropy].

Fixpoint append_words (bits : bytes) (word : nat) (count : nat) (phrase : bytes) : bytes :=
  match count with
  | O => phrase
  | S count =>
      let phrase := if (word =? 0)%nat then phrase else phrase ++ lit " " in
      append_words bits (S word) count (phrase ++ RECOVERY_WORDLIST !!! Z.to_nat (word_index bits word))
  end.

Definition entropy_to_phrase (entropy : bytes) : bytes :=
  append_words (packed entropy) 0 RECOVERY_WORD_COUNT [].

Fixpoint pack_words (words : list bytes) (word : nat) (bits : bytes) : option bytes :=
  match words with
  | [] => Some bits
  | w :: words =>
      match find_word_index w with
      | None => None
      | Some index => pack_words words (S word) (put_word bits word index)
      end
  end.

Definition phrase_to_entropy (phrase : bytes) : option bytes :=
  match split_words phrase with
  | None => None
  | Some words =>
      match pack_words words 0 (replicate 17 Byte.x00) with
      | None => None
      | Some bits =>
          let candidate := take 16 bits in
          if decide (Z.land (byte_val (bits !!! 16%nat)) 0xF0 = byte_val (checksum_nibble candidate))
          then Some candidate else None
      end
  end.

Definition RECOVERY_SALT : bytes := lit "hypercom-recovery-v1".
Definition RECOVERY_INFO : bytes := lit "hypercom-master-seed".

Definition derive_master_seed (entropy : bytes) : option bytes :=
  match extract_pseudo_random_key RECOVERY_SALT entropy with
  | Some pseudo_random_key => expand_key_block pseudo_random_key RECOVERY_INFO 1
  | None => None
  end.
End recovery.

(** ** The word list *)

Definition plain_word (w : bytes) : bool :=
  negb (bool_decide (w = [])) && forallb (λ b, negb (is_space b)) w && bool_decide (normalize_word w = w).

Lemma wordlist_length : length RECOVERY_WORDLIST = 2048%nat.
Proof. vm_compute. reflexivity. Qed.

Lemma wordlist_plain : forallb plain_word RECOVERY_WORDLIST = true.
Proof. vm_compute. reflexivity. Qed.

(** Each word is less than the next. *)
Fixpoint increasing (l : list bytes) : bool :=
  match l with
  | w :: (v :: _) as l' => text_less w v && increasing l'
  | _ => true
  end.

Lemma wordlist_increasing : increasing RECOVERY_WORDLIST = true.
Proof. vm_compute. reflexivity. Qed.

(** From here on the list is used through these facts. *)
#[global] Opaque RECOVERY_WORDLIST.

Lemma text_less_irreflexive l : text_less l l = false.
Proof. induction l as [|b l IH]; simpl; [done|]. rewrite IH, Z.ltb_irrefl. by rewrite andb_false_r. Qed.

Lemma text_less_trans l k m : text_less l k = true → text_less k m = true → text_less l m = true.
Proof.
  revert k m. induction l as [|b l IH]; intros [|c k] [|d m]; simpl; try done.
  rewrite !orb_true_iff, !andb_true_iff, !Z.ltb_lt, !Z.eqb_eq.
  intros [?|[? ?]] [?|[? ?]]; try (left; lia). right. split; [lia|by eapply IH].
Qed.

Lemma increasing_strongly l : increasing l = true → StronglySorted (λ w v, text_less w v = true) l.
Proof.
  intros Hi. apply Sorted_StronglySorted; [intros ? ? ?; apply text_less_trans|].
  induction l as [|w [|v l] IH]; [constructor|by repeat constructor|].
  cbn [increasing] in Hi. apply andb_true_iff in Hi as [? ?]. constructor; [by apply IH|by constructor].
Qed.

Lemma lower_bound_index l i w :
  StronglySorted (λ w v, text_less w v = true) l → l !! i = Some w → lower_bound l w = i.
Proof.
  intros Hs. revert i. induction Hs as [|v l Hs IH Hall]; intros i Hi; [done|].
  destruct i as [|i]; simpl in *.
  - injection Hi as ->. by rewrite text_less_irreflexive.
  - rewrite Forall_lookup in Hall. rewrite (Hall i w Hi). f_equal. by apply IH.
Qed.

Lemma word_at (i : nat) : (i < 2048)%nat →
  ∃ w, RECOVERY_WORDLIST !! i = Some w ∧ RECOVERY_WORDLIST !!! i = w ∧ plain_word w = true ∧
       find_word_index w = Some (Z.of_nat i).
Proof.
  intros Hi. destruct (lookup_lt_is_Some_2 RECOVERY_WORDLIST i) as [w Hw]; [by rewrite wordlist_length|].
  exists w. split_and!; [done|by apply list_lookup_total_correct| |].
  - pose proof wordlist_plain as Hp. rewrite forallb_forall in Hp. apply Hp.
    apply list_elem_of_In. by eapply list_elem_of_lookup_2.
  - unfold find_word_index.
    rewrite (lower_bound_index _ i w); [by rewrite decide_True|apply increasing_strongly, wordlist_increasing|done].
Qed.

Lemma find_word_index_Some w n : find_word_index w = Some n →
  0 <= n < 2048 ∧ RECOVERY_WORDLIST !!! Z.to_nat n = w.
Proof.
  unfold find_word_index. case_decide as E; [|done].
  intros Heq. apply (inj Some) in Heq. subst n. rewrite Nat2Z.id.
  split; [|by apply list_lookup_total_correct].
  apply lookup_lt_Some in E. rewrite wordlist_length in E. lia.
Qed.

(** ** Bits *)

Definition bit (bits : bytes) (p : nat) : bool :=
  Z.testbit (byte_val (bits !!! (p / 8)%nat)) (Z.of_nat (7 - p mod 8)).

Lemma bit_at_bit bits p : bit_at bits p = Z.b2z (bit bits p).
Proof.
  unfold bit_at, bit. rewrite Z.land_ones with (n := 1) by lia. change (2 ^ 1) with 2.
  rewrite <-Z.bit0_mod, Z.shiftr_spec by lia. by rewrite Z.add_0_l.
Qed.

Lemma bit_set bits p q (v : bool) : (p / 8 < length bits)%nat →
  bit (set_bit bits p (Z.b2z v)) q = if decide (p = q) then bit bits q || v else bit bits q.
Proof.
  intros Hp. unfold bit, set_bit. destruct (decide (p / 8 = q / 8)%nat) as [E|E].
  - rewrite <-E. rewrite list_lookup_total_insert, decide_True by done. rewrite byte_val_of. change 256 with (2 ^ 8).
    pose proof (Nat.mod_upper_bound p 8 ltac:(lia)). pose proof (Nat.mod_upper_bound q 8 ltac:(lia)).
    rewrite Z.mod_pow2_bits_low by lia. rewrite Z.lor_spec, Z.shiftl_spec by lia.
    case_decide as Epq.
    + subst q. rewrite Z.sub_diag. by destruct v.
    + assert (p mod 8 ≠ q mod 8)%nat.
      { intros Em. apply Epq. rewrite (Nat.div_mod p 8), (Nat.div_mod q 8) by lia. congruence. }
      destruct v; simpl Z.b2z; [|by rewrite Z.testbit_0_l, orb_false_r].
      destruct (Z.lt_trichotomy (Z.of_nat (7 - q mod 8)) (Z.of_nat (7 - p mod 8))) as [?|[?|?]]; [|lia|].
      * rewrite (Z.testbit_neg_r 1) by lia. by rewrite orb_false_r.
      * rewrite (Z.bits_above_log2 1) by (try change (Z.log2 1) with 0; lia). by rewrite orb_false_r.
  - rewrite list_lookup_total_insert_ne by done. rewrite decide_False; [done|]. congruence.
Qed.

Lemma length_set_bit bits p v : length (set_bit bits p v) = length bits.
Proof. apply length_insert. Qed.

Lemma byte_high_bits b n : 8 <= n → Z.testbit (byte_val b) n = false.
Proof.
  intros Hn. pose proof (byte_val_range b). rewrite <-(Z.mod_small (byte_val b) (2 ^ 8)) by lia.
  by apply Z.mod_pow2_bits_high.
Qed.

Lemma bits_ext (l k : bytes) : length l = length k →
  (∀ p, (p < 8 * length l)%nat → bit l p = bit k p) → l = k.
Proof.
  intros Hlen Hbits. apply list_eq_same_length with (n := length l); [done|done|].
  intros i x y Hi Hx Hy. apply byte_val_inj. apply Z.bits_inj'. intros n Hn.
  pose proof (byte_val_range x). pose proof (byte_val_range y).
  destruct (Z.lt_ge_cases n 8) as [Hn8|Hn8].
  - specialize (Hbits (i * 8 + (7 - Z.to_nat n))%nat ltac:(lia)). unfold bit in Hbits.
    assert ((i * 8 + (7 - Z.to_nat n)) / 8 = i)%nat as Hdiv.
    { rewrite Nat.div_add_l by lia. rewrite Nat.div_small by lia. lia. }
    assert ((i * 8 + (7 - Z.to_nat n)) mod 8 = 7 - Z.to_nat n)%nat as Hmod.
    { rewrite (Nat.add_comm (i * 8)), Nat.Div0.mod_add, Nat.mod_small by lia. done. }
    rewrite Hdiv, Hmod in Hbits.
    rewrite (list_lookup_total_correct _ _ _ Hx), (list_lookup_total_correct _ _ _ Hy) in Hbits.
    by replace (Z.of_nat (7 - (7 - Z.to_nat n))) with n in Hbits by lia.
  - by rewrite !byte_high_bits by lia.
Qed.

(** ** The twelve indexes *)

Definition partial_index (bits : bytes) (base n : nat) : Z :=
  fold_left (λ index bit, Z.lor (Z.shiftl index 1) (bit_at bits (base + bit))) (seq 0 n) 0.

Lemma partial_index_bits bits base n :
  0 <= partial_index bits base n < 2 ^ Z.of_nat n ∧
  ∀ k, (k < n)%nat → Z.testbit (partial_index bits base n) (Z.of_nat k) = bit bits (base + (n - 1 - k)).
Proof.
  induction n as [|n [Hr Hb]]; [split; [done|lia]|].
  assert (partial_index bits base (S n) =
          Z.lor (Z.shiftl (partial_index bits base n) 1) (Z.b2z (bit bits (base + n)))) as ->.
  { unfold partial_index. rewrite seq_S, fold_left_app. simpl. by rewrite bit_at_bit. }
  set (v := partial_index bits base n) in *.
  assert (Z.lor (Z.shiftl v 1) (Z.b2z (bit bits (base + n))) = 2 * v + Z.b2z (bit bits (base + n))) as E.
  { rewrite Z.shiftl_mul_pow2 by lia. change (2 ^ 1) with 2. destruct (bit bits (base + n)); simpl Z.b2z.
    - rewrite <-Z.add_nocarry_lor; [lia|]. apply Z.bits_inj'. intros m Hm. rewrite Z.land_spec, Z.bits_0.
      destruct (Z.eq_dec m 0) as [->|]; [by rewrite Z.mul_comm, Z.testbit_even_0|].
      rewrite (Z.bits_above_log2 1) by (try change (Z.log2 1) with 0; lia). by rewrite andb_false_r.
    - rewrite Z.lor_0_r. lia. }
  split.
  - rewrite E, Nat2Z.inj_succ, Z.pow_succ_r by lia. destruct (bit bits (base + n)); simpl Z.b2z; lia.
  - intros [|k] Hk.
    + rewrite E. change (Z.of_nat 0) with 0. rewrite Z.testbit_0_r. f_equal. lia.
    + rewrite E, Nat2Z.inj_succ, Z.testbit_succ_r by lia. rewrite Hb by lia. f_equal. lia.
Qed.

Lemma word_index_bits bits word :
  0 <= word_index bits word < 2048 ∧
  ∀ k, (k < 11)%nat → Z.testbit (word_index bits word) (Z.of_nat k) = bit bits (word * 11 + (10 - k)).
Proof. exact (partial_index_bits bits (word * 11) 11). Qed.

Lemma index_bit index k : Z.land (Z.shiftr index (Z.of_nat k)) 1 = Z.b2z (Z.testbit index (Z.of_nat k)).
Proof.
  rewrite Z.land_ones with (n := 1) by lia. change (2 ^ 1) with 2.
  rewrite <-Z.bit0_mod, Z.shiftr_spec by lia. by rewrite Z.add_0_l.
Qed.

Lemma put_word_bits bits word index n : (n <= 11)%nat → (word * 11 + n <= 8 * length bits)%nat →
  let bits' := fold_left (λ bits bit,
      set_bit bits (word * BITS_PER_WORD + bit) (Z.land (Z.shiftr index (Z.of_nat (BITS_PER_WORD - 1 - bit))) 1))
    (seq 0 n) bits in
  length bits' = length bits ∧
  ∀ q, bit bits' q = bit bits q ||
    (if decide (word * 11 <= q < word * 11 + n)%nat then Z.testbit index (Z.of_nat (10 - (q - word * 11))) else false).
Proof.
  unfold BITS_PER_WORD. induction n as [|n IH]; intros Hn Hlen.
  { simpl. split; [done|]. intros q. rewrite decide_False by lia. by rewrite orb_false_r. }
  rewrite seq_S, fold_left_app. destruct IH as [Hl Hb]; [lia|lia|]. cbn [fold_left].
  rewrite index_bit. split; [by rewrite length_set_bit|]. intros q.
  rewrite bit_set by (rewrite Hl; apply Nat.Div0.div_lt_upper_bound; lia). rewrite Hb.
  change (0 + n)%nat with n. replace (11 - 1 - n)%nat with (10 - n)%nat by lia. case_decide as E.
  - subst q. rewrite (decide_False (P := (_ ∧ _ < _ + n)%nat)) by lia. rewrite decide_True by lia.
    rewrite orb_false_r. do 3 f_equal. lia.
  - repeat case_decide; (done || lia).
Qed.

(** Where the indexes of a list of words end up. *)
Lemma pack_words_spec words n bits : length bits = 17%nat → (n + length words <= 12)%nat →
  ∀ bits', pack_words words n bits = Some bits' →
  length bits' = 17%nat ∧
  ∃ indexes, Forall2 (λ w i, find_word_index w = Some i) words indexes ∧
    ∀ q, bit bits' q = bit bits q ||
      (if decide (n * 11 <= q < (n + length words) * 11)%nat
       then Z.testbit (indexes !!! (q / 11 - n)%nat) (Z.of_nat (10 - q mod 11)) else false).
Proof.
  revert n bits. induction words as [|w words IH]; intros n bits Hlen Hn bits' Hpack.
  { simpl in Hpack. injection Hpack as <-. split; [done|]. exists []. split; [constructor|].
    intros q. cbn [length]. rewrite decide_False by lia. by rewrite orb_false_r. }
  cbn [pack_words length] in *. destruct (find_word_index w) as [i|] eqn:Ei; [|done].
  destruct (put_word_bits bits n i 11) as [Hl Hb]; [lia|lia|].
  change (fold_left _ _ _) with (put_word bits n i) in *.
  destruct (IH (S n) (put_word bits n i)) with (bits' := bits') as [Hlen' (idx & Hall & Hbits)]; [lia|lia|done|].
  split; [done|]. exists (i :: idx). split; [by constructor|]. intros q. rewrite Hbits, Hb.
  pose proof (Nat.div_mod q 11 ltac:(lia)) as Hq. pose proof (Nat.mod_upper_bound q 11 ltac:(lia)).
  destruct (decide (n * 11 <= q < n * 11 + 11)%nat) as [Hin|Hin].
  - rewrite (decide_False (P := (S n * 11 <= q < _)%nat)) by lia. rewrite decide_True by lia.
    assert (q / 11 = n)%nat as -> by lia. rewrite Nat.sub_diag. cbn [lookup_total list_lookup_total].
    rewrite orb_false_r. do 3 f_equal. lia.
  - rewrite orb_false_r. f_equal. case_decide as E1.
    + rewrite decide_True by lia. destruct (q / 11 - n)%nat as [|m] eqn:Em; [lia|].
      cbn [lookup_total list_lookup_total]. do 2 f_equal. lia.
    + by rewrite decide_False by lia.
Qed.

(** ** Splitting into words *)

(** A text whose words, in lower case, are these; blanks are free. *)
Inductive spells : bytes → list bytes → Prop :=
  | spells_blank text : forallb is_space text = true → spells text []
  | spells_word blanks word rest words :
      forallb is_space blanks = true → word ≠ [] → forallb (λ b, negb (is_space b)) word = true →
      from_option is_space true (head rest) = true → spells rest words →
      spells (blanks ++ word ++ rest) (normalize_word word :: words).

Lemma drop_while_app p (l k : bytes) : forallb p l = true → drop_while p (l ++ k) = drop_while p k.
Proof. induction l as [|b l IH]; simpl; [done|]. intros [-> ?]%andb_true_iff. by apply IH. Qed.

Lemma take_while_app p (l k : bytes) :
  forallb p l = true → from_option p false (head k) = false → take_while p (l ++ k) = l.
Proof.
  intros Hl Hk. induction l as [|b l IH]; simpl in *.
  - destruct k as [|c k]; [done|]. simpl in *. by rewrite Hk.
  - apply andb_true_iff in Hl as [-> ?]. f_equal. by apply IH.
Qed.

Lemma drop_while_split p (l : bytes) : ∃ front, l = front ++ drop_while p l ∧ forallb p front = true ∧
  from_option p false (head (drop_while p l)) = false.
Proof.
  induction l as [|b l (front & E & Hf & Hh)]; [by exists []|]. simpl. destruct (p b) eqn:Eb.
  - exists (b :: front). simpl. rewrite Eb. split_and!; [by f_equal|done|done].
  - exists []. simpl. by rewrite Eb.
Qed.

Lemma take_while_split p (l : bytes) : l = take_while p l ++ drop (length (take_while p l)) l ∧
  forallb p (take_while p l) = true ∧ from_option p false (head (drop (length (take_while p l)) l)) = false.
Proof.
  induction l as [|b l (E & Hf & Hh)]; [done|]. simpl. destruct (p b) eqn:Eb; simpl.
  - rewrite Eb. split_and!; [by f_equal|done|done].
  - by rewrite Eb.
Qed.

(** The body of a turn on a text that starts with these blanks and word. *)
Lemma split_loop_word fuel blanks word rest out :
  forallb is_space blanks = true → word ≠ [] → forallb (λ b, negb (is_space b)) word = true →
  from_option is_space true (head rest) = true →
  split_loop (S fuel) (blanks ++ word ++ rest) out =
    if (length out =? RECOVERY_WORD_COUNT)%nat then None
    else split_loop fuel rest (out ++ [normalize_word word]).
Proof.
  intros Hb Hne Hw Hr. destruct (blanks ++ word ++ rest) as [|c l] eqn:E.
  { by apply app_nil in E as [_ [? _]%app_nil]. }
  cbn [split_loop]. rewrite <-E, drop_while_app by done. rewrite drop_while_id.
  2:{ destruct word as [|b word]; [done|]. simpl in *. apply andb_true_iff in Hw as [Hw _].
      by destruct (is_space b). }
  rewrite take_while_app; [|done|].
  - rewrite decide_False by done. by rewrite drop_app_length.
  - destruct rest as [|b rest]; [done|]. simpl in *. by rewrite Hr.
Qed.

Lemma split_loop_spells text words : spells text words → ∀ fuel out,
  (length text <= fuel)%nat → (length out + length words <= 12)%nat →
  split_loop fuel text out = Some (out ++ words).
Proof.
  induction 1 as [text Hblank|blanks word rest words Hb Hne Hw Hr Hs IH]; intros fuel out Hf Hn.
  - rewrite app_nil_r. destruct text as [|c l]; [by destruct fuel|]. destruct fuel as [|fuel]; [simpl in Hf; lia|].
    cbn [split_loop]. rewrite <-(app_nil_r (c :: l)), drop_while_app by done. simpl. by destruct fuel.
  - destruct fuel as [|fuel].
    { rewrite !length_app in Hf. destruct word; [done|]. simpl in Hf. lia. }
    rewrite split_loop_word by done. simpl in Hn. destruct (Nat.eqb_spec (length out) RECOVERY_WORD_COUNT) as [E|E].
    { change RECOVERY_WORD_COUNT with 12%nat in E. lia. }
    rewrite IH; [by rewrite <-(assoc app)| |rewrite length_app; simpl; lia].
    rewrite !length_app in Hf. destruct word; [done|]. simpl in Hf. lia.
Qed.

Lemma split_loop_sound fuel text out out' :
  split_loop fuel text out = Some out' → ∃ words, spells text words ∧ out' = out ++ words.
Proof.
  revert text out. induction fuel as [|fuel IH]; intros text out Hsplit.
  { destruct text; [|done]. injection Hsplit as <-. exists []. rewrite app_nil_r. by split; [constructor|]. }
  destruct text as [|c l]; [injection Hsplit as <-; exists []; rewrite app_nil_r; by split; [constructor|]|].
  cbn [split_loop] in Hsplit. destruct (drop_while_split is_space (c :: l)) as (front & E & Hf & Hh).
  set (text := drop_while is_space (c :: l)) in *.
  destruct (take_while_split (λ b, negb (is_space b)) text) as (Et & Hw & Hr).
  set (word := take_while (λ b, negb (is_space b)) text) in *. case_decide as Ew.
  - rewrite Ew in *. cbn [length] in *. rewrite drop_0 in *.
    assert (text = []) as Enil.
    { destruct text as [|b text]; [done|]. simpl in Hh, Hr. by rewrite Hh in Hr. }
    rewrite Enil in *. destruct fuel; injection Hsplit as <-; exists []; rewrite !app_nil_r in *;
      (split; [constructor; by rewrite E|done]).
  - destruct (_ =? _)%nat; [done|]. destruct (IH _ _ Hsplit) as (words & Hs & ->).
    exists (normalize_word word :: words). rewrite <-(assoc app). split; [|done].
    rewrite E, Et. apply spells_word; [done|done|done| |done].
    destruct (drop (length word) text) as [|b rest]; [done|]. simpl in *. by apply negb_false_iff.
Qed.

Lemma split_words_spells phrase words : split_words phrase = Some words ↔ spells phrase words ∧ length words = 12%nat.
Proof.
  unfold split_words. split.
  - destruct (split_loop _ phrase []) as [out|] eqn:E; [|done].
    destruct (Nat.eqb_spec (length out) RECOVERY_WORD_COUNT) as [Hl|]; [|done]. intros [= <-].
    by apply split_loop_sound in E as (ws & ? & ->).
  - intros [Hs Hl]. rewrite (split_loop_spells _ _ Hs) by (simpl; lia). simpl.
    by rewrite Hl.
Qed.

(** ** The phrase and the entropy determine each other *)

Lemma index_ext i j : 0 <= i < 2048 → 0 <= j < 2048 →
  (∀ k, (k < 11)%nat → Z.testbit i (Z.of_nat k) = Z.testbit j (Z.of_nat k)) → i = j.
Proof.
  intros Hi Hj Hbits. rewrite <-(Z.mod_small i (2 ^ 11)), <-(Z.mod_small j (2 ^ 11)) by lia.
  apply Z.bits_inj'. intros n Hn. destruct (Z.lt_ge_cases n 11).
  - rewrite !Z.mod_pow2_bits_low by lia. specialize (Hbits (Z.to_nat n) ltac:(lia)). by rewrite Z2Nat.id in Hbits.
  - by rewrite !Z.mod_pow2_bits_high by lia.
Qed.

Lemma pack_words_total words n bits :
  Forall (λ w, is_Some (find_word_index w)) words → is_Some (pack_words words n bits).
Proof.
  intros Hall. revert n bits. induction Hall as [|w words [i Hi] _ IH]; intros n bits; [by eexists|].
  cbn [pack_words]. by rewrite Hi.
Qed.

Lemma bit_zeros q : (q < 136)%nat → bit (replicate 17 Byte.x00) q = false.
Proof.
  intros Hq. unfold bit. rewrite lookup_total_replicate_2 by (apply Nat.Div0.div_lt_upper_bound; lia).
  apply Z.testbit_0_l.
Qed.

Section exact.
Context `{Sodium}.

Definition phrase_words (entropy : bytes) : list bytes :=
  map (λ v, RECOVERY_WORDLIST !!! Z.to_nat (word_index (packed entropy) v)) (seq 0 12).

Lemma checksum_value entropy :
  byte_val (checksum_nibble entropy) = Z.land (byte_val (crypto_hash_sha256 entropy !!! 0%nat)) 0xF0.
Proof.
  unfold checksum_nibble. rewrite byte_val_of. apply Z.mod_small.
  destruct (crypto_hash_sha256 entropy !!! 0%nat); vm_compute; by split.
Qed.

Lemma checksum_low entropy k : (k < 4)%nat → Z.testbit (byte_val (checksum_nibble entropy)) (Z.of_nat k) = false.
Proof.
  intros Hk. rewrite checksum_value, Z.land_spec.
  assert (Z.testbit 0xF0 (Z.of_nat k) = false) as ->; [|by rewrite andb_false_r].
  destruct k as [|[|[|[|k]]]]; (done || lia).
Qed.

Lemma packed_bits entropy : size_of entropy = 16 →
  length (packed entropy) = 17%nat ∧ packed entropy !!! 16%nat = checksum_nibble entropy ∧
  take 16 (packed entropy) = entropy ∧ ∀ q, (132 <= q < 136)%nat → bit (packed entropy) q = false.
Proof.
  unfold size_of. intros Hs. assert (length entropy = 16%nat) as Hlen by lia. unfold packed.
  assert ((entropy ++ [checksum_nibble entropy]) !!! 16%nat = checksum_nibble entropy) as Hlast.
  { by rewrite lookup_total_app_r, Hlen by lia. }
  split_and!; [rewrite length_app; simpl; lia|done|by apply take_app_exact|].
  intros q Hq. unfold bit. assert (q / 8 = 16)%nat as -> by (symmetry; apply (Nat.div_unique q 8 16 (q - 128)); lia).
  rewrite Hlast. apply checksum_low. pose proof (Nat.div_mod q 8 ltac:(lia)) as E.
  assert (q / 8 = 16)%nat by (symmetry; apply (Nat.div_unique q 8 16 (q - 128)); lia). lia.
Qed.

Lemma phrase_word entropy v : (v < 12)%nat →
  ∃ w, phrase_words entropy !! v = Some w ∧ plain_word w = true ∧
       find_word_index w = Some (word_index (packed entropy) v).
Proof.
  intros Hv. destruct (word_index_bits (packed entropy) v) as [Hr _].
  destruct (word_at (Z.to_nat (word_index (packed entropy) v))) as (w & _ & Ew & Hp & Hf); [lia|].
  exists w. split_and!; [|done|by rewrite Z2Nat.id in Hf by lia].
  unfold phrase_words. rewrite list_lookup_fmap, lookup_seq_lt by done. simpl. by rewrite Ew.
Qed.

Lemma length_phrase_words entropy : length (phrase_words entropy) = 12%nat.
Proof. unfold phrase_words. by rewrite length_map, length_seq. Qed.

(** The bits of twelve words are the packed entropy they are drawn from. *)
Lemma packed_words entropy bits : size_of entropy = 16 →
  pack_words (phrase_words entropy) 0 (replicate 17 Byte.x00) = Some bits → bits = packed entropy.
Proof.
  intros Hs Hpack. destruct (packed_bits entropy Hs) as (Hlen & _ & _ & Hhigh).
  destruct (pack_words_spec (phrase_words entropy) 0 (replicate 17 Byte.x00)) with (bits' := bits)
    as [Hlen' (idx & Hall & Hbits)]; [done|by rewrite length_phrase_words|done|].
  apply bits_ext; [congruence|]. intros q Hq. rewrite Hbits, bit_zeros by lia. cbn [orb].
  rewrite length_phrase_words. case_decide as Hin; [|symmetry; apply Hhigh; lia].
  pose proof (Nat.div_mod q 11 ltac:(lia)) as Eq. pose proof (Nat.mod_upper_bound q 11 ltac:(lia)).
  destruct (phrase_word entropy (q / 11)) as (w & Hw & _ & Hf); [lia|].
  destruct (Forall2_lookup_l _ _ _ _ _ Hall Hw) as (i & Hi & Hfi).
  assert (i = word_index (packed entropy) (q / 11)) as -> by congruence.
  rewrite Nat.sub_0_r, (list_lookup_total_correct _ _ _ Hi).
  rewrite (proj2 (word_index_bits _ _)) by lia. f_equal. lia.
Qed.

(** Bits whose checksum is right are the packed entropy they carry. *)
Lemma valid_bits bits : length bits = 17%nat → (∀ q, (132 <= q < 136)%nat → bit bits q = false) →
  Z.land (byte_val (bits !!! 16%nat)) 0xF0 = byte_val (checksum_nibble (take 16 bits)) →
  size_of (take 16 bits) = 16 ∧ bits = packed (take 16 bits).
Proof.
  intros Hlen Hlow Hsum. assert (length (take 16 bits) = 16%nat) as Htake by (rewrite length_take; lia).
  split; [unfold size_of; lia|]. unfold packed.
  assert (bits !!! 16%nat = checksum_nibble (take 16 bits)) as Hlast.
  { apply byte_val_inj. rewrite <-Hsum. apply Z.bits_inj'. intros n Hn. rewrite Z.land_spec.
    destruct (Z.lt_ge_cases n 8) as [Hn8|]; [|by rewrite byte_high_bits].
    destruct (Z.lt_ge_cases n 4) as [Hn4|].
    - specialize (Hlow (135 - Z.to_nat n)%nat ltac:(lia)). unfold bit in Hlow.
      assert ((135 - Z.to_nat n) / 8 = 16)%nat as E8
        by (symmetry; apply (Nat.div_unique _ 8 16 (7 - Z.to_nat n)); lia).
      pose proof (Nat.div_mod (135 - Z.to_nat n) 8 ltac:(lia)) as Em. rewrite E8 in Hlow, Em.
      replace (Z.of_nat (7 - (135 - Z.to_nat n) mod 8)) with n in Hlow by lia. by rewrite Hlow.
    - assert (Z.testbit 0xF0 n = true) as ->; [|by rewrite andb_true_r].
      assert (n = 4 ∨ n = 5 ∨ n = 6 ∨ n = 7) as [->|[->|[->| ->]]] by lia; done. }
  rewrite <-Hlast. rewrite <-(take_drop 16 bits) at 1. f_equal.
  apply list_eq_same_length with (n := 1%nat); [done|rewrite length_drop; lia|].
  intros [|i] x y Hi Hx Hy; [|lia]. rewrite lookup_drop in Hx. simpl in Hy. injection Hy as <-.
  by rewrite (list_lookup_total_correct _ _ _ Hx).
Qed.

Lemma words_of_bits words bits : length words = 12%nat →
  pack_words words 0 (replicate 17 Byte.x00) = Some bits →
  length bits = 17%nat ∧ (∀ q, (132 <= q < 136)%nat → bit bits q = false) ∧
  (∀ entropy, bits = packed entropy → words = phrase_words entropy).
Proof.
  intros Hlen Hpack.
  destruct (pack_words_spec words 0 (replicate 17 Byte.x00)) with (bits' := bits)
    as [Hlen' (idx & Hall & Hbits)]; [done|lia|done|].
  split_and!; [done| |].
  { intros q Hq. rewrite Hbits, bit_zeros, decide_False by lia. done. }
  intros entropy E. apply list_eq_same_length with (n := 12%nat); [by rewrite length_phrase_words|done|].
  intros v x y Hv Hx Hy. destruct (phrase_word entropy v) as (w & Hw & _ & Hf); [done|].
  destruct (Forall2_lookup_l _ _ _ _ _ Hall Hx) as (i & Hi & Hfi).
  destruct (find_word_index_Some _ _ Hfi) as [Hri <-]. destruct (find_word_index_Some _ _ Hf) as [Hrw Ew].
  assert (w = y) as <- by congruence. rewrite <-Ew. do 2 f_equal. apply index_ext; [done|done|].
  intros k Hk. rewrite (proj2 (word_index_bits _ _)) by done. rewrite <-E, Hbits, bit_zeros by lia. cbn [orb].
  rewrite decide_True by lia.
  assert ((v * 11 + (10 - k)) / 11 = v)%nat as -> by (symmetry; apply (Nat.div_unique _ 11 v (10 - k)); lia).
  assert ((v * 11 + (10 - k)) mod 11 = 10 - k)%nat as -> by (symmetry; apply (Nat.mod_unique _ 11 v (10 - k)); lia).
  rewrite Nat.sub_0_r, (list_lookup_total_correct _ _ _ Hi). do 2 f_equal. lia.
Qed.

(** The words in a row, each after the first behind a space. *)
Lemma append_words_eq bits word count phrase :
  append_words bits word count phrase = phrase ++
    concat (map (λ v, (if (v =? 0)%nat then [] else lit " ") ++ RECOVERY_WORDLIST !!! Z.to_nat (word_index bits v))
      (seq word count)).
Proof.
  revert word phrase. induction count as [|count IH]; intros word phrase; simpl; [by rewrite app_nil_r|].
  rewrite IH. destruct (word =? 0)%nat; by rewrite <-!(assoc app).
Qed.

Lemma entropy_phrase_spells entropy word count : (word + count = 12)%nat →
  spells (concat (map (λ v, (if (v =? 0)%nat then [] else lit " ") ++
                            RECOVERY_WORDLIST !!! Z.to_nat (word_index (packed entropy) v)) (seq word count)))
    (map (λ v, RECOVERY_WORDLIST !!! Z.to_nat (word_index (packed entropy) v)) (seq word count)).
Proof.
  revert word. induction count as [|count IH]; intros word Hw; [by constructor|]. cbn [seq map concat].
  destruct (phrase_word entropy word) as (w & Ew & Hp & _); [lia|].
  unfold phrase_words in Ew. rewrite list_lookup_fmap, lookup_seq_lt in Ew by lia. simpl in Ew. injection Ew as ->.
  unfold plain_word in Hp. apply andb_true_iff in Hp as [[Hne Hns]%andb_true_iff Hnorm].
  apply bool_decide_eq_true in Hnorm. apply negb_true_iff, bool_decide_eq_false in Hne.
  rewrite <-Hnorm at 2. rewrite <-(assoc app). apply spells_word; [by destruct word|done|done| |by apply IH; lia].
  by destruct count.
Qed.

Lemma spelled_phrase entropy phrase : size_of entropy = RECOVERY_ENTROPY_SIZE →
  spells phrase (phrase_words entropy) → phrase_to_entropy phrase = Some entropy.
Proof.
  intros Hsize Hs. destruct (packed_bits entropy Hsize) as (Hlen & Hlast & Htake & _). unfold phrase_to_entropy.
  rewrite (proj2 (split_words_spells phrase _) (conj Hs (length_phrase_words entropy))).
  destruct (pack_words_total (phrase_words entropy) 0 (replicate 17 Byte.x00)) as [bits Ep].
  { apply Forall_lookup_2. intros v w Hw.
    destruct (phrase_word entropy v) as (w' & Hw' & _ & Hf).
    - apply lookup_lt_Some in Hw. by rewrite length_phrase_words in Hw.
    - assert (w' = w) as <- by congruence. by eexists. }
  rewrite Ep, (packed_words entropy bits Hsize Ep), Htake, Hlast. rewrite decide_True; [done|].
  rewrite checksum_value. by rewrite <-Z.land_assoc.
Qed.

(** A text is read as a seed's entropy exactly when its words, whatever
    their case and the blanks around them, are the twelve words of that
    entropy; the phrase the program writes is such a text. A text with
    another word, a missing word or a wrong checksum gives nothing. *)
Theorem recovery_phrase_exact (entropy phrase : bytes) (Hsize : size_of entropy = RECOVERY_ENTROPY_SIZE) :
  (phrase_to_entropy phrase = Some entropy ↔ spells phrase (phrase_words entropy)) ∧
  spells (entropy_to_phrase entropy) (phrase_words entropy).
Proof.
  destruct (packed_bits entropy Hsize) as (Hlen & Hlast & Htake & Hlow). split; [split|].
  - unfold phrase_to_entropy. destruct (split_words phrase) as [words|] eqn:Es; [|done].
    apply split_words_spells in Es as [Hs Hl].
    destruct (pack_words words 0 _) as [bits|] eqn:Ep; [|done].
    case_decide as Hsum; [|done]. intros [= <-].
    destruct (words_of_bits _ _ Hl Ep) as (Hbl & Hbz & Hwords).
    by rewrite <-(Hwords (take 16 bits) (proj2 (valid_bits bits Hbl Hbz Hsum))).
  - by apply spelled_phrase.
  - unfold entropy_to_phrase. rewrite append_words_eq. exact (entropy_phrase_spells entropy 0 12 eq_refl).
Qed.
End exact.

Section witness.
#[local] Existing Instance toy_sodium.

Lemma recovery_phrase_exact_witness :
  ∃ entropy phrase, size_of entropy = RECOVERY_ENTROPY_SIZE ∧
    (phrase_to_entropy phrase = Some entropy ↔ spells phrase (phrase_words entropy)).
Proof.
  exists (pad 16 (lit "some entropy")), (entropy_to_phrase (pad 16 (lit "some entropy"))).
  split; [vm_compute; reflexivity|]. refine (proj1 (recovery_phrase_exact _ _ _)). vm_compute. reflexivity.
Defined.
End witness.
