(* ===== verification/Files.v ===== *)
(** Files as the programs see them: paths to contents, and calls into the
    system any of which may fail. A write that fails may have written a part.
    The two ways the sources write a secret are here: through a stream
    (client/keystore/sealed_file.cpp) and through a descriptor
    (client/keystore/identity_store.cpp, server/net/server_static_key.cpp). *)

From S2P Require Import Prelude.

(** What the system answers to the n-th call: whether it fails and, for a
    write that does, how much it wrote. *)
Class FileSystem := {
  io_fails : nat → bool;
  io_written : nat → nat;
}.

Record disk := Disk { files : gmap bytes bytes; io_calls : nat }.

Section files.
Context `{FileSystem}.

(** One call: did it succeed. *)
Definition io_call : state disk bool := λ d, (negb (io_fails (io_calls d)), Disk (files d) (S (io_calls d))).

Definition set_file (path contents : bytes) : state disk unit :=
  smodify (λ d, Disk (<[path := contents]> (files d)) (io_calls d)).

(** [std::filesystem::is_regular_file] with an error code. *)
Definition is_regular_file (path : bytes) : state disk bool :=
  let* ok := io_call in sgets (λ d, ok && bool_decide (is_Some (files d !! path))).

(** The whole contents. *)
Definition read_file (path : bytes) : state disk (option bytes) :=
  let* ok := io_call in sgets (λ d, if (ok : bool) then files d !! path else None).

(** Open for writing, creating or truncating. *)
Definition open_truncated (path : bytes) : state disk bool :=
  let* ok := io_call in
  if (ok : bool) then do* set_file path [] in sret true else sret false.

(** Write to the file just opened. *)
Definition write_contents (path data : bytes) : state disk bool := λ d,
  let n := io_calls d in
  let written := if io_fails n then take (io_written n) data else data in
  (negb (io_fails n), Disk (<[path := written]> (files d)) (S n)).

(** ** sealed_file.cpp

    What the stream could not write is not looked at. *)

Definition write_sealed_file (path sealed : bytes) : state disk (option bytes) :=
  let* opened := open_truncated path in
  if negb opened then sret (Some (lit "ecriture impossible : " ++ path))
  else
    let* _ := write_contents path sealed in
    let* restricted := io_call in
    if negb restricted then sret (Some (lit "chmod 0600 impossible sur " ++ path)) else sret None.

Definition read_sealed_file (path : bytes) : state disk (option bytes) :=
  let* contents := read_file path in
  match contents with
  | Some (b :: rest) => sret (Some (b :: rest))
  | _ => sret None
  end.

(** ** identity_store.cpp, server_static_key.cpp

    The descriptor is opened at 0600 and every byte is accounted for. *)

Definition write_owner_only (path data : bytes) : state disk (option bytes) :=
  let* opened := open_truncated path in
  if negb opened then sret (Some (lit "ecriture impossible : " ++ path))
  else
    let* ok := write_contents path data in
    if negb ok then sret (Some (lit "ecriture incomplete : " ++ path)) else sret None.

(** ** What a call leaves alone *)

(** The contents of a path stay what they are. *)
Definition leaves_file (path : bytes) (d d' : disk) : Prop := files d' !! path = files d !! path.

#[export] Instance leaves_file_preorder path : PreOrder (leaves_file path).
Proof. split; unfold leaves_file; [by intros ?|]. intros x y z ? ?. congruence. Qed.

Definition no_failure : Prop := ∀ n, io_fails n = false.

Lemma read_file_result path d : no_failure → (read_file path d).1 = files d !! path.
Proof. intros Hok. unfold read_file, sbind, io_call, sgets. simpl. by rewrite Hok. Qed.

Lemma read_file_leaves path p : keeps (leaves_file p) (read_file path).
Proof. done. Qed.

Lemma is_regular_file_leaves path p : keeps (leaves_file p) (is_regular_file path).
Proof. done. Qed.

Lemma read_sealed_leaves path p : keeps (leaves_file p) (read_sealed_file path).
Proof.
  unfold read_sealed_file. apply keeps_bind; [apply _|apply read_file_leaves|].
  intros [[|]|]; by apply keeps_ret; apply _.
Qed.

(** Every other path is left alone by a write. *)
Lemma write_sealed_others path sealed p : p ≠ path → keeps (leaves_file p) (write_sealed_file path sealed).
Proof.
  intros Hp d. unfold leaves_file, write_sealed_file, open_truncated, write_contents, set_file, smodify, io_call, sbind, sret.
  cbn. repeat (case_match; cbn); simplify_eq/=; by rewrite ?lookup_insert_ne.
Qed.

Lemma write_sealed_succeeds path sealed d : no_failure →
  (write_sealed_file path sealed d).1 = None ∧ files (write_sealed_file path sealed d).2 !! path = Some sealed.
Proof.
  intros Hok. unfold write_sealed_file, open_truncated, write_contents, set_file, smodify, io_call, sbind, sret.
  cbn. rewrite !Hok. cbn. rewrite !Hok. cbn. by rewrite lookup_insert_eq.
Qed.

Lemma write_owner_only_succeeds path data d : 
  (write_owner_only path data d).1 = None → files (write_owner_only path data d).2 !! path = Some data.
Proof.
  unfold write_owner_only, open_truncated, write_contents, set_file, smodify, io_call, sbind, sret.
  cbn. destruct (io_fails (io_calls d)); cbn; [done|].
  destruct (io_fails (S (io_calls d))); cbn; [done|]. by rewrite lookup_insert_eq.
Qed.
(** What each of the two writers makes of its calls, for every answer of
    the system: [write_owner_only] reports success exactly when the whole of
    the data is there; [write_sealed_file] reports the same whether the write
    went through or stopped half-way, so that a full disk leaves a truncated
    file behind a success. *)
Theorem full_disk_goes_unreported (path data : bytes) (d : disk) :
  let opened := negb (io_fails (io_calls d)) in
  let written := negb (io_fails (S (io_calls d))) in
  let restricted := negb (io_fails (S (S (io_calls d)))) in
  let left := if written then data else take (io_written (S (io_calls d))) data in
  ((write_owner_only path data d).1 = None ↔ opened && written = true) ∧
  ((write_sealed_file path data d).1 = None ↔ opened && restricted = true) ∧
  (opened = true →
     files (write_owner_only path data d).2 !! path = Some left ∧
     files (write_sealed_file path data d).2 !! path = Some left).
Proof.
  unfold write_sealed_file, write_owner_only, open_truncated, write_contents, set_file, smodify, io_call, sbind, sret.
  cbn. destruct (io_fails (io_calls d)) eqn:E0; cbn; [split_and!; try done; by split|].
  destruct (io_fails (S (io_calls d))) eqn:E1; cbn; destruct (io_fails (S (S (io_calls d)))) eqn:E2; cbn;
    (split_and!; [by split|by split|intros _; by rewrite !lookup_insert_eq]).
Qed.
End files.
