(* ===== verification/Keystore.v ===== *)
(** The client's secrets at rest: the sealed format
    (common/crypto/keystore_envelope.cpp), the master seed
    (client/keystore/master_seed_store.cpp), identities of their own
    (identity_store.cpp), the identity on a server (server_identity.cpp), the
    list of servers (server_registry.cpp) and the commands that edit it
    (client/cli/cli_server_commands.cpp). What is drawn at random is an
    argument. *)

From S2P Require Import Prelude.
From S2P Require Import Wire.
From S2P Require Import TextField.
From S2P Require Import Codec.
From S2P Require Import TextTools.
From S2P Require Import Hex.
From S2P Require Import Sodium.
From S2P Require Import DirectMessages.
From S2P Require Import Recovery.
From S2P Require Import Files.
From S2P Require Import ClientOptions.

(** ** keystore_envelope.cpp *)

Definition KEYSTORE_MAGIC : bytes := lit "HYPCKEY1".
Definition KEYSTORE_MAGIC_SIZE : Z := 8.
Definition KEYSTORE_VERSION : Z := 1.
Definition KEYSTORE_HEADER_SIZE : Z := KEYSTORE_MAGIC_SIZE + 1 + 4 + 4 + ARGON2ID_SALT_SIZE + XCHACHA_NONCE_SIZE.

Section envelope.
Context `{Sodium}.

Definition derive_wrapping_key (passphrase salt : bytes) (operations memory_kib : Z) : option bytes :=
  crypto_pwhash passphrase salt operations (memory_kib * 1024).

(** The header [seal_blob] builds. *)
Definition keystore_header (operations memory_kib : Z) (salt nonce : bytes) : bytes :=
  append_u32 memory_kib (append_u32 operations (KEYSTORE_MAGIC ++ [byte_of KEYSTORE_VERSION])) ++ salt ++ nonce.

(** [salt] and [nonce] are what [fill_random_bytes] draws. *)
Definition seal_blob (salt nonce passphrase plaintext : bytes) : option bytes :=
  let operations := wrap 32 crypto_pwhash_OPSLIMIT_MODERATE in
  let memory_kib := wrap 32 (crypto_pwhash_MEMLIMIT_MODERATE / 1024) in
  match derive_wrapping_key passphrase salt operations memory_kib with
  | None => None
  | Some wrapping_key =>
      let header := keystore_header operations memory_kib salt nonce in
      match crypto_xaead_encrypt wrapping_key nonce header plaintext with
      | Some sealed => Some (header ++ sealed)
      | None => None
      end
  end.

Definition open_blob (passphrase sealed : bytes) : option bytes :=
  if size_of sealed <? KEYSTORE_HEADER_SIZE + AEAD_TAG_SIZE then None
  else if negb (bool_decide (take 8 sealed = KEYSTORE_MAGIC)) then None
  else if negb (byte_val (sealed !!! 8%nat) =? KEYSTORE_VERSION) then None
  else
    let operations := read_u32 sealed 9 in
    let memory_kib := read_u32 sealed 13 in
    let salt := take 16 (drop 17 sealed) in
    let nonce := take 24 (drop 33 sealed) in
    match derive_wrapping_key passphrase salt operations memory_kib with
    | None => None
    | Some wrapping_key => crypto_xaead_decrypt wrapping_key nonce (take 57 sealed) (drop 57 sealed)
    end.

Definition seal_identity_secret (salt nonce passphrase secret : bytes) : option bytes :=
  seal_blob salt nonce passphrase secret.

Definition open_identity_secret (passphrase sealed : bytes) : option bytes :=
  match open_blob passphrase sealed with
  | Some plaintext => if size_of plaintext =? ED25519_SECRET_KEY_SIZE then Some plaintext else None
  | None => None
  end.

(** ** server_identity.cpp *)

Definition IDENTITY_DERIVATION_SALT : bytes := lit "hypercom-server-identity-v1".

Definition derive_server_identity (master_seed server_key : bytes) : option identity_keypair :=
  match extract_pseudo_random_key IDENTITY_DERIVATION_SALT master_seed with
  | None => None
  | Some pseudo_random_key =>
      match expand_key_block pseudo_random_key server_key 1 with
      | None => None
      | Some derived => derive_from_seed derived
      end
  end.
End envelope.

(** ** master_seed_store.cpp *)

Section stores.
Context `{Sodium} `{FileSystem}.

(** The error, or nothing. *)
Definition seal_to_disk (path salt nonce passphrase seed : bytes) : state disk (option bytes) :=
  let* stored := is_regular_file path in
  if (stored : bool) then
    sret (Some (lit "une graine existe deja dans " ++ path ++
                lit " : l'ecraser reviendrait a perdre toutes les identites qui en derivent, sur tous les serveurs"))
  else if decide (passphrase = []) then sret (Some (lit "passphrase vide"))
  else
    match seal_blob salt nonce passphrase seed with
    | None => sret (Some (lit "scellement de la graine impossible"))
    | Some sealed => write_sealed_file path sealed
    end.

(** The error, or the seed and the phrase to show. *)
Definition create_seed (path entropy salt nonce passphrase : bytes) : state disk (bytes + (bytes * bytes)) :=
  match derive_master_seed entropy with
  | None => sret (inl (lit "derivation de la graine impossible"))
  | Some seed =>
      let phrase := entropy_to_phrase entropy in
      let* failure := seal_to_disk path salt nonce passphrase seed in
      match failure with
      | Some error => sret (inl error)
      | None => sret (inr (seed, phrase))
      end
  end.

Definition restore_seed (path salt nonce passphrase phrase : bytes) : state disk (bytes + bytes) :=
  match phrase_to_entropy phrase with
  | None => sret (inl (lit "phrase de recuperation invalide : 12 mots attendus, verifier l'orthographe et l'ordre"))
  | Some entropy =>
      match derive_master_seed entropy with
      | None => sret (inl (lit "derivation de la graine impossible"))
      | Some seed =>
          let* failure := seal_to_disk path salt nonce passphrase seed in
          match failure with
          | Some error => sret (inl error)
          | None => sret (inr seed)
          end
      end
  end.

Definition unlock_seed (path passphrase : bytes) : state disk (bytes + bytes) :=
  let* contents := read_sealed_file path in
  match contents with
  | None => sret (inl (lit "graine illisible : " ++ path))
  | Some sealed =>
      match open_blob passphrase sealed with
      | Some plaintext =>
          if size_of plaintext =? ED25519_SEED_SIZE then sret (inr plaintext)
          else sret (inl (lit "passphrase incorrecte ou graine alteree"))
      | None => sret (inl (lit "passphrase incorrecte ou graine alteree"))
      end
  end.

(** ** identity_store.cpp

    [drawn] is what [generate_random] gives. *)

Definition create_identity (path salt nonce passphrase : bytes) (drawn : option identity_keypair)
    : state disk (bytes + identity_keypair) :=
  let* stored := is_regular_file path in
  if (stored : bool) then
    sret (inl (lit "une identite existe deja dans " ++ path ++
               lit " : l'ecraser reviendrait a perdre le compte associe, sans aucun moyen de le recuperer"))
  else if decide (passphrase = []) then sret (inl (lit "une passphrase vide ne chiffre rien"))
  else
    match drawn with
    | None => sret (inl (lit "generation de la paire de cles impossible"))
    | Some out =>
        match seal_identity_secret salt nonce passphrase (secret_key_ out) with
        | None => sret (inl (lit "scellement de la cle privee impossible"))
        | Some sealed =>
            let* failure := write_owner_only path sealed in
            match failure with
            | Some error => sret (inl error)
            | None => sret (inr out)
            end
        end
    end.

Definition unlock_identity (path passphrase : bytes) : state disk (bytes + identity_keypair) :=
  let* contents := read_sealed_file path in
  match contents with
  | None => sret (inl (lit "identite illisible : " ++ path))
  | Some sealed =>
      match open_identity_secret passphrase sealed with
      | None => sret (inl (lit "passphrase incorrecte ou fichier d'identite altere"))
      | Some secret =>
          match derive_from_seed (take 32 secret) with
          | None => sret (inl (lit "reconstruction de la paire de cles impossible"))
          | Some unlocked => sret (inr unlocked)
          end
      end
  end.
End stores.

(** ** server_registry.hpp, server_registry.cpp *)

Module identity_source.
Inductive t := derived | imported.
Definition value (s : t) : Z := match s with derived => 0 | imported => 1 end.
End identity_source.

Record server_endpoint := ServerEndpoint {
  endpoint_host : bytes; endpoint_port : Z; endpoint_socks5_host : bytes; endpoint_socks5_port : Z }.

Record server_entry := ServerEntry {
  label : bytes;
  endpoint : server_endpoint;
  server_key : bytes;
  source : identity_source.t;
  imported_identity_path : bytes;
  trust_acknowledged : bool;
}.

Definition REGISTRY_VERSION : Z := 1.
Definition MAX_LABEL_LENGTH : Z := 48.
Definition MAX_HOST_LENGTH : Z := 256.
Definition MAX_PATH_LENGTH : Z := 512.
Definition MAX_SERVERS : Z := 64.

Definition write_entry (entry : server_entry) : byte_writer → byte_writer :=
  write_text_field (label entry) ▷
  write_text_field (endpoint_host (endpoint entry)) ▷
  write_integer 2 (endpoint_port (endpoint entry)) ▷
  write_text_field (endpoint_socks5_host (endpoint entry)) ▷
  write_integer 2 (endpoint_socks5_port (endpoint entry)) ▷
  write_fixed_bytes (server_key entry) ▷
  write_integer 1 (identity_source.value (source entry)) ▷
  write_text_field (imported_identity_path entry) ▷
  write_integer 1 (if trust_acknowledged entry then 1 else 0).

Definition read_entry : reader server_entry :=
  let? label := read_text_field MAX_LABEL_LENGTH in
  let? host := read_text_field MAX_HOST_LENGTH in
  let? port := read_integer 2 in
  let? socks5_host := read_text_field MAX_HOST_LENGTH in
  let? socks5_port := read_integer 2 in
  let? key := read_fixed_bytes X25519_PUBLIC_KEY_SIZE in
  let? raw_source := read_integer 1 in
  let? path := read_text_field MAX_PATH_LENGTH in
  let? raw_acknowledged := read_integer 1 in
  if identity_source.value identity_source.imported <? raw_source then rfail
  else
    rret (ServerEntry label (ServerEndpoint host port socks5_host socks5_port) key
            (if raw_source =? 0 then identity_source.derived else identity_source.imported)
            path (negb (raw_acknowledged =? 0))).

Definition parse_entries (plaintext : bytes) : option (list server_entry) :=
  let read : reader (list server_entry) :=
    let? version := read_integer 1 in
    if negb (version =? REGISTRY_VERSION) then rfail
    else
      let? count := read_integer 2 in
      if MAX_SERVERS <? count then rfail
      else read_record_items read_entry (Z.to_nat count) in
  (read (new_reader plaintext)).1.

(** What [save] seals. *)
Definition registry_plaintext (entries : list server_entry) : bytes :=
  output (write_integer 1 REGISTRY_VERSION ▷ write_integer 2 (wrap 16 (size_of entries)) ▷
          write_items write_entry entries).

Section registry.
Context `{Sodium} `{FileSystem}.

Definition load (path passphrase : bytes) : state disk (bytes + list server_entry) :=
  let* contents := read_sealed_file path in
  match contents with
  | None => sret (inl (lit "registre des serveurs illisible : " ++ path))
  | Some sealed =>
      match open_blob passphrase sealed with
      | None => sret (inl (lit "passphrase incorrecte ou registre altere"))
      | Some plaintext =>
          match parse_entries plaintext with
          | None => sret (inl (lit "registre des serveurs mal forme : " ++ path))
          | Some entries => sret (inr entries)
          end
      end
  end.

(** The error, or nothing. *)
Definition save (path salt nonce passphrase : bytes) (entries : list server_entry) : state disk (option bytes) :=
  if MAX_SERVERS <? size_of entries then sret (Some (lit "trop de serveurs enregistres"))
  else
    match seal_blob salt nonce passphrase (registry_plaintext entries) with
    | None => sret (Some (lit "scellement du registre impossible"))
    | Some sealed => write_sealed_file path sealed
    end.

(** ** cli_server_commands.cpp *)

Definition load_existing (path passphrase : bytes) : state disk (bytes + list server_entry) :=
  let* stored := is_regular_file path in
  if negb stored then sret (inr []) else load path passphrase.

Definition find_by_label (entries : list server_entry) (name : bytes) : option (nat * server_entry) :=
  list_find (λ entry, label entry = name) entries.

Definition decode_key (hex : bytes) : option bytes :=
  match decode_hex hex with
  | Some decoded => if size_of decoded =? X25519_PUBLIC_KEY_SIZE then Some decoded else None
  | None => None
  end.

Definition is_registry_command (command : bytes) : bool :=
  bool_decide (command = lit "server-add") || bool_decide (command = lit "server-list") ||
  bool_decide (command = lit "server-import") || bool_decide (command = lit "seed-restore").

(** [passphrase] is what [read_passphrase] gives. The error, or what is printed. *)
Definition run_server_add (salt nonce : bytes) (passphrase : bytes + bytes) (options : cli_options) (arguments : list bytes)
    : state disk (bytes + bytes) :=
  match arguments with
  | [] => sret (inl (lit "usage : server-add <hypercom://hote:port#cle> [nom]"))
  | text :: names =>
      match parse_invite_link text with
      | inl error => sret (inl error)
      | inr link =>
          let name := match names with n :: _ => n | [] => link_host link end in
          match decode_key (link_server_key_hex link), passphrase with
          | None, _ => sret (inl (lit "cle du serveur illisible"))
          | Some key, inl error => sret (inl error)
          | Some key, inr passphrase =>
              let entry := ServerEntry name
                (ServerEndpoint (link_host link) (link_port link) (socks5_host options) (socks5_port options))
                key identity_source.derived [] false in
              let* loaded := load_existing (registry_path options) passphrase in
              match loaded with
              | inl error => sret (inl error)
              | inr entries =>
                  match find_by_label entries name with
                  | Some _ => sret (inl (lit "un serveur porte deja le nom " ++ name))
                  | None =>
                      let* failure := save (registry_path options) salt nonce passphrase (entries ++ [entry]) in
                      match failure with
                      | Some error => sret (inl error)
                      | None => sret (inr (lit "serveur enregistre : " ++ name ++ newline))
                      end
                  end
              end
          end
      end
  end.

Definition list_entry (entry : server_entry) : bytes :=
  lit "  " ++ label entry ++ lit "  " ++ endpoint_host (endpoint entry) ++ lit ":" ++
  decimal (endpoint_port (endpoint entry)) ++ lit "  " ++ take 16 (encode_hex (server_key entry)) ++
  lit "  identite " ++
  match source entry with identity_source.imported => lit "importee" | identity_source.derived => lit "derivee" end ++
  newline.

Definition run_server_list (passphrase : bytes + bytes) (options : cli_options) : state disk (bytes + bytes) :=
  match passphrase with
  | inl error => sret (inl error)
  | inr passphrase =>
      let* loaded := load_existing (registry_path options) passphrase in
      match loaded with
      | inl error => sret (inl error)
      | inr entries =>
          sret (inr (decimal (size_of entries) ++ lit " serveur(s) :" ++ newline ++ concat (map list_entry entries)))
      end
  end.

Definition import_entry (path : bytes) (entry : server_entry) : server_entry :=
  ServerEntry (label entry) (endpoint entry) (server_key entry) identity_source.imported path (trust_acknowledged entry).

Definition run_server_import (salt nonce : bytes) (passphrase : bytes + bytes) (options : cli_options)
    (arguments : list bytes) : state disk (bytes + bytes) :=
  match arguments, passphrase with
  | name :: path :: _, inr passphrase =>
      let* loaded := load_existing (registry_path options) passphrase in
      match loaded with
      | inl error => sret (inl error)
      | inr entries =>
          match find_by_label entries name with
          | None => sret (inl (lit "serveur inconnu : " ++ name))
          | Some (i, entry) =>
              let* failure := save (registry_path options) salt nonce passphrase
                                (<[i := import_entry path entry]> entries) in
              match failure with
              | Some error => sret (inl error)
              | None => sret (inr (lit "identite rattachee a " ++ label entry ++ newline))
              end
          end
      end
  | _ :: _ :: _, inl error => sret (inl error)
  | _, _ => sret (inl (lit "usage : server-import <nom> <chemin_identite>"))
  end.

Definition run_seed_restore (salt nonce : bytes) (phrase passphrase : bytes + bytes) (options : cli_options)
    : state disk (bytes + bytes) :=
  match phrase, passphrase with
  | inl error, _ | _, inl error => sret (inl error)
  | inr phrase, inr passphrase =>
      let* restored := restore_seed (master_seed_path options) salt nonce passphrase phrase in
      match restored with
      | inl error => sret (inl error)
      | inr _ => sret (inr (lit "graine restauree dans " ++ master_seed_path options ++
                            lit " : les identites de vos serveurs sont retrouvees." ++ newline))
      end
  end.
End registry.

(** ** The sealed format *)

Section blobs.
Context `{SodiumLaws}.

Definition drawn_ok (salt nonce : bytes) : Prop :=
  size_of salt = ARGON2ID_SALT_SIZE ∧ size_of nonce = XCHACHA_NONCE_SIZE.

Lemma keystore_header_bytes operations memory_kib salt nonce :
  keystore_header operations memory_kib salt nonce =
    KEYSTORE_MAGIC ++ [byte_of KEYSTORE_VERSION] ++ le_bytes 4 operations ++ le_bytes 4 memory_kib ++ salt ++ nonce.
Proof. unfold keystore_header, append_u32. by rewrite <-!(assoc app). Qed.

Lemma keystore_header_size operations memory_kib salt nonce : drawn_ok salt nonce →
  length (keystore_header operations memory_kib salt nonce) = 57%nat.
Proof.
  intros [Hs Hn]. unfold size_of in *. rewrite keystore_header_bytes, !length_app, !length_le_bytes.
  change (length KEYSTORE_MAGIC) with 8%nat. unfold ARGON2ID_SALT_SIZE, XCHACHA_NONCE_SIZE in *. simpl. lia.
Qed.

(** The fields of a header, found where [open_blob] looks for them. *)
Lemma keystore_fields operations memory_kib salt nonce body :
  drawn_ok salt nonce → u32 operations → u32 memory_kib →
  let sealed := keystore_header operations memory_kib salt nonce ++ body in
  take 8 sealed = KEYSTORE_MAGIC ∧ byte_val (sealed !!! 8%nat) = KEYSTORE_VERSION ∧
  read_u32 sealed 9 = operations ∧ read_u32 sealed 13 = memory_kib ∧
  take 16 (drop 17 sealed) = salt ∧ take 24 (drop 33 sealed) = nonce ∧
  take 57 sealed = keystore_header operations memory_kib salt nonce ∧ drop 57 sealed = body.
Proof.
  intros Hd Ho Hm sealed. pose proof (keystore_header_size operations memory_kib salt nonce Hd) as Hlen.
  assert (take 57 sealed = keystore_header operations memory_kib salt nonce) as Ht by by apply take_app_exact.
  assert (drop 57 sealed = body) as Hb by by apply drop_app_exact.
  destruct Hd as [Hs Hn]. unfold size_of, ARGON2ID_SALT_SIZE, XCHACHA_NONCE_SIZE in Hs, Hn.
  set (h := KEYSTORE_MAGIC ++ [byte_of KEYSTORE_VERSION]).
  assert (sealed = h ++ le_bytes 4 operations ++ le_bytes 4 memory_kib ++ salt ++ nonce ++ body) as E.
  { unfold sealed. rewrite keystore_header_bytes. unfold h. by rewrite <-!(assoc app). }
  assert (length (le_bytes 4 operations) = 4%nat) as Hlo by apply length_le_bytes.
  assert (length (le_bytes 4 memory_kib) = 4%nat) as Hlm by apply length_le_bytes.
  split_and!; [rewrite E; reflexivity|rewrite E; reflexivity|..|done|done].
  - rewrite E. exact (read_u32_value h operations _ Ho).
  - rewrite E, (assoc app h). replace 13%nat with (length (h ++ le_bytes 4 operations)) by (rewrite length_app, Hlo; done).
    by apply read_u32_value.
  - rewrite E, !(assoc app), <-(assoc app _ nonce body), <-(assoc app _ salt), drop_app_exact.
    + apply take_app_exact. lia.
    + rewrite !length_app, Hlo, Hlm. done.
  - rewrite E, !(assoc app), <-(assoc app _ nonce body), drop_app_exact.
    + apply take_app_exact. lia.
    + rewrite !length_app, Hlo, Hlm. change (length h) with 9%nat. lia.
Qed.

Lemma open_sealed_blob salt nonce passphrase plaintext sealed :
  drawn_ok salt nonce → seal_blob salt nonce passphrase plaintext = Some sealed →
  open_blob passphrase sealed = Some plaintext.
Proof.
  intros Hd Hseal. unfold seal_blob in Hseal.
  set (operations := wrap 32 _) in Hseal. set (memory_kib := wrap 32 _) in Hseal.
  destruct (derive_wrapping_key passphrase salt operations memory_kib) as [key|] eqn:Ek; [|done].
  destruct (crypto_xaead_encrypt _ _ _ plaintext) as [body|] eqn:Ex; [|done].
  apply (inj Some) in Hseal. subst sealed. unfold open_blob.
  destruct (keystore_fields operations memory_kib salt nonce body)
    as (-> & -> & -> & -> & -> & -> & -> & ->); [done|by apply wrap_fits|by apply wrap_fits|].
  pose proof (xaead_encrypt_size _ _ _ _ _ Ex) as Hsize. pose proof (size_of_nonneg plaintext).
  rewrite size_of_app. pose proof (keystore_header_size operations memory_kib salt nonce Hd) as Hlen.
  change (KEYSTORE_HEADER_SIZE) with 57. unfold AEAD_TAG_SIZE in *.
  replace (_ <? _) with false by (symmetry; apply Z.ltb_ge; unfold size_of in *; lia).
  rewrite bool_decide_true by done. cbn [negb]. rewrite Z.eqb_refl. cbn [negb]. rewrite Ek.
  by apply xaead_decrypt_encrypt.
Qed.
End blobs.

(** ** Seeds and identities *)

Section safekeeping.
Context `{SodiumLaws} `{FileSystem}.

(** No operation of the stores destroys a secret that is there. *)
Definition keeps_files (d d' : disk) : Prop := ∀ p c, files d !! p = Some c → files d' !! p = Some c.

Lemma is_regular_file_eq path d : io_fails (io_calls d) = false →
  is_regular_file path d = (bool_decide (is_Some (files d !! path)), Disk (files d) (S (io_calls d))).
Proof. intros Hio. unfold is_regular_file, io_call, sgets, sbind. by rewrite Hio. Qed.

Lemma write_sealed_keeps path sealed d d0 :
  files d = files d0 → files d !! path = None → keeps_files d0 (write_sealed_file path sealed d).2.
Proof.
  intros E Hnew p c Hp. rewrite <-E in Hp. rewrite (write_sealed_others path sealed p); [done|]. congruence.
Qed.

Lemma write_owner_only_others path data p : p ≠ path → keeps (leaves_file p) (write_owner_only path data).
Proof.
  intros Hp d. unfold leaves_file, write_owner_only, open_truncated, write_contents, set_file, smodify, io_call, sbind, sret.
  cbn. repeat (case_match; cbn); simplify_eq/=; by rewrite ?lookup_insert_ne.
Qed.

(** Continuing with what does not touch the disk. *)
Lemma keeps_then {A B} d0 d (m : state disk A) (k : A → state disk B) :
  keeps_files d0 (m d).2 → (∀ a d1, (k a d1).2 = d1) → keeps_files d0 ((let* a := m in k a) d).2.
Proof. intros Hm Hk. unfold sbind. destruct (m d) as [a d1]. by rewrite Hk. Qed.

Lemma seal_to_disk_keeps path salt nonce passphrase seed d :
  io_fails (io_calls d) = false → keeps_files d (seal_to_disk path salt nonce passphrase seed d).2.
Proof.
  intros Hio. unfold seal_to_disk, sbind. rewrite is_regular_file_eq by done.
  case_bool_decide as Hstored; [by intros ?|]. case_decide; [by intros ?|].
  destruct (seal_blob _ _ _ _); [|by intros ?]. apply write_sealed_keeps; [done|].
  by apply eq_None_not_Some.
Qed.

Lemma seal_to_disk_refuses path salt nonce passphrase seed d :
  io_fails (io_calls d) = false → is_Some (files d !! path) →
  ∃ e, (seal_to_disk path salt nonce passphrase seed d).1 = Some e.
Proof.
  intros Hio Hs. unfold seal_to_disk, sbind. rewrite is_regular_file_eq by done.
  rewrite bool_decide_true by done. eexists. reflexivity.
Qed.

(** Creating or restoring a seed, and creating an identity, never change
    a file that exists, the secret's own included: unless the system hides
    the file from the check, the most they do is refuse. *)
Theorem stored_secrets_survive (path salt nonce passphrase : bytes) (d : disk)
    (Hvisible : io_fails (io_calls d) = false) :
  (∀ entropy, keeps_files d (create_seed path entropy salt nonce passphrase d).2) ∧
  (∀ phrase, keeps_files d (restore_seed path salt nonce passphrase phrase d).2) ∧
  (∀ drawn, keeps_files d (create_identity path salt nonce passphrase drawn d).2) ∧
  (files d !! path ≠ None → ∀ entropy drawn, ∃ e e',
     (create_seed path entropy salt nonce passphrase d).1 = inl e ∧
     (create_identity path salt nonce passphrase drawn d).1 = inl e').
Proof.
  split_and!.
  - intros entropy. unfold create_seed. destruct (derive_master_seed entropy); [|by intros ?].
    apply keeps_then; [by apply seal_to_disk_keeps|by intros [] ?].
  - intros phrase. unfold restore_seed. destruct (phrase_to_entropy phrase) as [entropy|]; [|by intros ?].
    destruct (derive_master_seed entropy); [|by intros ?].
    apply keeps_then; [by apply seal_to_disk_keeps|by intros [] ?].
  - intros drawn. unfold create_identity. unfold sbind at 1. rewrite is_regular_file_eq by done.
    case_bool_decide as Hstored; [by intros ?|]. case_decide; [by intros ?|].
    destruct drawn as [out|]; [|by intros ?]. destruct (seal_identity_secret _ _ _ _); [|by intros ?].
    apply keeps_then; [|by intros [] ?]. intros p c Hp.
    rewrite (write_owner_only_others path); [done|]. intros ->. apply Hstored. by exists c.
  - intros Hsome entropy drawn. assert (is_Some (files d !! path)) as Hs by (by apply not_eq_None_Some).
    destruct (create_identity path salt nonce passphrase drawn d) as [r d'] eqn:Ei.
    unfold create_identity, sbind in Ei. rewrite is_regular_file_eq, bool_decide_true in Ei by done.
    injection Ei as <- _. unfold create_seed. destruct (derive_master_seed entropy) as [seed|]; [|by eauto].
    destruct (seal_to_disk_refuses path salt nonce passphrase seed d Hvisible Hs) as [e He].
    unfold sbind. destruct (seal_to_disk _ _ _ _ _ d) as [failure d2]. cbn in He. subst failure. by eauto.
Qed.

(** ** The phrase brings everything back *)

Lemma read_sealed_file_eq path d contents : no_failure →
  files d !! path = Some contents → contents ≠ [] →
  read_sealed_file path d = (Some contents, Disk (files d) (S (io_calls d))).
Proof.
  intros Hok Hf Hne. unfold read_sealed_file, read_file, io_call, sgets, sbind, sret. rewrite Hok. cbn. rewrite Hf.
  by destruct contents.
Qed.

Lemma seal_to_disk_unlocks path salt nonce passphrase seed d d' :
  no_failure → drawn_ok salt nonce → size_of seed = ED25519_SEED_SIZE →
  seal_to_disk path salt nonce passphrase seed d = (None, d') →
  (unlock_seed path passphrase d').1 = inr seed.
Proof.
  intros Hok Hd Hseed. unfold seal_to_disk, sbind. rewrite is_regular_file_eq by done.
  case_bool_decide; [done|]. case_decide; [done|].
  destruct (seal_blob salt nonce passphrase seed) as [sealed|] eqn:Es; [|done]. intros Hwrite.
  set (d1 := Disk _ _) in Hwrite.
  destruct (write_sealed_succeeds path sealed d1 Hok) as [_ Hfile]. rewrite Hwrite in Hfile. cbn in Hfile.
  pose proof (open_sealed_blob salt nonce passphrase seed sealed Hd Es) as Hopen.
  assert (sealed ≠ []) as Hne by (intros ->; by unfold open_blob in Hopen).
  unfold unlock_seed, sbind. rewrite (read_sealed_file_eq path d' sealed) by done.
  by rewrite Hopen, Hseed, Z.eqb_refl.
Qed.

Lemma master_seed_total entropy : ∃ seed, derive_master_seed entropy = Some seed ∧ size_of seed = ED25519_SEED_SIZE.
Proof.
  unfold derive_master_seed, extract_pseudo_random_key, expand_key_block, compute_hmac.
  change (SYMMETRIC_KEY_SIZE <? size_of RECOVERY_SALT) with false. cbv iota.
  set (key := RECOVERY_SALT ++ _). destruct (hmac_total key (entropy ++ [])) as (prk & -> & Hprk); [done|].
  destruct (hmac_total prk (RECOVERY_INFO ++ [byte_of 1])) as (out & -> & Hout); [done|].
  by exists out.
Qed.

Lemma master_seed_size entropy seed : derive_master_seed entropy = Some seed → size_of seed = ED25519_SEED_SIZE.
Proof. intros E. destruct (master_seed_total entropy) as (seed' & E' & Hsize). congruence. Qed.

(** Argon2 finds the memory it asks for. *)
Definition has_memory (passphrase salt : bytes) : Prop :=
  is_Some (derive_wrapping_key passphrase salt (wrap 32 crypto_pwhash_OPSLIMIT_MODERATE)
             (wrap 32 (crypto_pwhash_MEMLIMIT_MODERATE / 1024))).

(** A place where a seed can be sealed: no file there yet, a passphrase, and
    what libsodium draws and needs. *)
Record sealable (path salt nonce passphrase : bytes) (d : disk) : Prop := Sealable {
  sealable_free : files d !! path = None;
  sealable_passphrase : passphrase ≠ [];
  sealable_drawn : drawn_ok salt nonce;
  sealable_memory : has_memory passphrase salt;
}.

Lemma seal_to_disk_succeeds path salt nonce passphrase seed d : no_failure → sealable path salt nonce passphrase d →
  ∃ d', seal_to_disk path salt nonce passphrase seed d = (None, d').
Proof.
  intros Hok [Hfree Hpass Hdrawn [key Hkey]]. unfold seal_to_disk, sbind. rewrite is_regular_file_eq by done.
  rewrite bool_decide_false by (rewrite Hfree; by intros [? [=]]). rewrite decide_False by done.
  unfold seal_blob. rewrite Hkey. set (header := keystore_header _ _ _ _).
  assert (size_of key = 32) as Hsize by (by eapply pwhash_size).
  destruct (xaead_encrypt_total key nonce header seed Hsize (proj2 Hdrawn)) as (sealed & ->).
  destruct (write_sealed_succeeds path (header ++ sealed) (Disk (files d) (S (io_calls d))) Hok) as [Hwritten _].
  destruct (write_sealed_file _ _ _) as [failure d']. cbn in Hwritten. subst failure. by exists d'.
Qed.

(** C25: the recovery phrase gives the identities back. On a disk whose calls do
    not fail, with a passphrase, a free path and the memory Argon2 needs, a seed
    is created, and can be unlocked with its passphrase; the phrase shown then
    spells twelve words. That phrase, typed in any case and spacing, on any other
    machine and under any new passphrase (with a free path and memory there too),
    is accepted and restores the very same seed, which unlocks there: the one
    all that the identities of the servers are derived from, besides their keys. *)
Theorem phrase_restores_identities (path entropy salt nonce passphrase : bytes) (d : disk)
    (Hsystem : no_failure) (Hentropy : size_of entropy = RECOVERY_ENTROPY_SIZE)
    (Hplace : sealable path salt nonce passphrase d) :
  ∃ seed phrase d1,
    create_seed path entropy salt nonce passphrase d = (inr (seed, phrase), d1) ∧
    (unlock_seed path passphrase d1).1 = inr seed ∧
    spells phrase (phrase_words entropy) ∧
    ∀ path' salt' nonce' passphrase' typed d',
      spells typed (phrase_words entropy) → sealable path' salt' nonce' passphrase' d' →
      ∃ d2, restore_seed path' salt' nonce' passphrase' typed d' = (inr seed, d2) ∧
        (unlock_seed path' passphrase' d2).1 = inr seed.
Proof.
  destruct (master_seed_total entropy) as (seed & Es & Hsize).
  destruct (seal_to_disk_succeeds path salt nonce passphrase seed d Hsystem Hplace) as [d1 Eseal].
  exists seed, (entropy_to_phrase entropy), d1. split; [|split; [|split]].
  - unfold create_seed. rewrite Es. unfold sbind. by rewrite Eseal.
  - by eapply seal_to_disk_unlocks; [..|exact Eseal]; [|exact (sealable_drawn _ _ _ _ _ Hplace)|].
  - unfold entropy_to_phrase. rewrite append_words_eq. exact (entropy_phrase_spells entropy 0 12 eq_refl).
  - intros path' salt' nonce' passphrase' typed d' Htyped Hplace'.
    destruct (seal_to_disk_succeeds path' salt' nonce' passphrase' seed d' Hsystem Hplace') as [d2 Eseal'].
    exists d2. split.
    + unfold restore_seed. rewrite (spelled_phrase entropy typed Hentropy Htyped), Es. unfold sbind. by rewrite Eseal'.
    + by eapply seal_to_disk_unlocks; [..|exact Eseal']; [|exact (sealable_drawn _ _ _ _ _ Hplace')|].
Qed.
End safekeeping.

(** ** The list of servers *)

Definition entry_ok (e : server_entry) : Prop :=
  text_ok MAX_LABEL_LENGTH (label e) ∧ text_ok MAX_HOST_LENGTH (endpoint_host (endpoint e)) ∧
  u16 (endpoint_port (endpoint e)) ∧ text_ok MAX_HOST_LENGTH (endpoint_socks5_host (endpoint e)) ∧
  u16 (endpoint_socks5_port (endpoint e)) ∧ size_of (server_key e) = X25519_PUBLIC_KEY_SIZE ∧
  text_ok MAX_PATH_LENGTH (imported_identity_path e).

#[export] Instance entry_ok_dec e : Decision (entry_ok e).
Proof. unfold entry_ok. apply _. Defined.

Lemma write_entry_appends e : appends (write_entry e).
Proof. unfold write_entry. wire_appends. Qed.

Lemma write_entry_bytes e : ∃ t, output (write_entry e) = output (write_text_field (label e)) ++ t.
Proof. eexists. unfold write_entry. by rewrite output_seq by wire_appends. Qed.

Lemma read_entry_reads e : entry_ok e → reads read_entry (output (write_entry e)) e.
Proof.
  destruct e as [l [h p sh sp] k s path t]. intros (Hl & Hh & Hp & Hsh & Hsp & Hk & Hpath). cbn in *.
  unfold write_entry, read_entry. cbn [label endpoint endpoint_host endpoint_port endpoint_socks5_host
    endpoint_socks5_port server_key source imported_identity_path trust_acknowledged].
  rewrite !output_seq by wire_appends.
  do 6 (eapply reads_bind; [eapply field_reads; [solve [eauto with fields]|done]|]).
  eapply reads_bind; [eapply field_reads; [apply field_integer|destruct s; unfold fits; simpl; lia]|].
  eapply reads_bind; [eapply field_reads; [solve [eauto with fields]|done]|].
  eapply reads_bind_ret; [eapply field_reads; [apply field_integer|destruct t; unfold fits; simpl; lia]|].
  by destruct s, t.
Qed.

Lemma read_entry_parses : parses read_entry (λ _ e, entry_ok e).
Proof.
  unfold read_entry.
  eapply parses_bind; [eapply field_parses; solve [eauto with fields]|intros ? ? [? _]].
  do 5 (eapply parses_bind; [eapply field_parses; solve [eauto with fields]|intros ? ? [? _]]).
  eapply parses_bind; [apply parses_integer|intros ? ? _].
  eapply parses_bind; [eapply field_parses; solve [eauto with fields]|intros ? ? [? _]].
  eapply parses_bind; [apply parses_integer|intros ? ? _].
  case_match; [apply parses_fail|]. apply parses_ret. unfold entry_ok. cbn. split_and!; done.
Qed.

Lemma read_entries_ok n : parses (read_record_items read_entry n) (λ _ es, Forall entry_ok es).
Proof.
  induction n as [|n IH]; simpl; [by apply parses_ret|].
  eapply parses_bind; [apply read_entry_parses|intros ? ? ?].
  eapply parses_bind; [apply IH|intros ? ? ?]. apply parses_ret. by constructor.
Qed.

Abbreviation entries_bytes := (items_bytes write_entry).

Lemma registry_plaintext_bytes es :
  registry_plaintext es = le_bytes 1 REGISTRY_VERSION ++ le_bytes 2 (wrap 16 (size_of es)) ++ entries_bytes es.
Proof.
  destruct (appends_intro _ _ (write_items_push write_entry write_entry_appends es)) as [Ha Ho].
  unfold registry_plaintext. by rewrite !output_seq, !output_integer, Ho by auto with wire.
Qed.

(** Reading the entries is what remains after the version and the count. *)
Lemma parse_entries_body es : size_of es <= MAX_SERVERS →
  ∃ r, reader_ok r ∧ rest r = entries_bytes es ∧
    parse_entries (registry_plaintext es) = (read_record_items read_entry (length es) r).1.
Proof.
  intros Hn. pose proof (size_of_nonneg es). unfold MAX_SERVERS in Hn.
  assert (fits 16 (size_of es)) as Hfits by (unfold fits; lia).
  unfold parse_entries. rewrite registry_plaintext_bytes, wrap_id by done.
  set (payload := _ ++ _). assert (reader_ok (new_reader payload)) as Hok0 by apply new_reader_ok.
  assert (rest (new_reader payload) = payload) as R0 by done.
  destruct (reader_ok_advance _ (le_bytes 1 REGISTRY_VERSION) _ Hok0 R0) as [Hok1 R1].
  destruct (reader_ok_advance _ _ _ Hok1 R1) as [Hok2 R2].
  eexists. split; [exact Hok2|]. split; [exact R2|].
  unfold rbind. rewrite (reads_integer 1 REGISTRY_VERSION) with (t := le_bytes 2 (size_of es) ++ entries_bytes es)
    by (done || unfold fits; vm_compute; done).
  rewrite Z.eqb_refl. cbn [negb]. rewrite (reads_integer 2 _ Hfits _ _ Hok1 R1).
  replace (MAX_SERVERS <? size_of es) with false by (unfold MAX_SERVERS; lia).
  unfold size_of. by rewrite Nat2Z.id.
Qed.

Lemma parse_registry_plaintext es : Forall entry_ok es → size_of es <= MAX_SERVERS →
  parse_entries (registry_plaintext es) = Some es.
Proof.
  intros Hok Hn. destruct (parse_entries_body es Hn) as (r & Hr & Hrest & ->).
  rewrite (record_items_reads read_entry write_entry entry_ok read_entry_reads es Hok r [] Hr);
    [done|by rewrite app_nil_r].
Qed.

Lemma parse_entries_ok plaintext es : parse_entries plaintext = Some es → Forall entry_ok es.
Proof.
  unfold parse_entries. set (p := rbind _ _).
  assert (parses p (λ _ es, Forall entry_ok es)) as Hp.
  { eapply parses_bind; [apply parses_integer|intros ? v _]. case_match; [apply parses_fail|].
    eapply parses_bind; [apply parses_integer|intros ? n _]. case_match; [apply parses_fail|].
    apply read_entries_ok. }
  destruct (p (new_reader plaintext)) as [[es'|] r'] eqn:E; [|done]. intros [= <-].
  by destruct (Hp _ _ _ (new_reader_ok _) E) as (? & _ & _ & _ & ?).
Qed.

Lemma rbind_rejects {A B} (p : reader A) (k : A → reader B) r : (p r).1 = None → (rbind p k r).1 = None.
Proof. unfold rbind. by destruct (p r) as [[|] ?]. Qed.

(** A name that is too long cannot be read, whatever follows. *)
Lemma long_text_rejected m text r t :
  reader_ok r → rest r = output (write_text_field text) ++ t → u32 (size_of text) → m < size_of text →
  (read_text_field m r).1 = None.
Proof.
  intros Hr Hrest Hu Hlong. destruct (read_text_field m r) as [[v|] r'] eqn:E; [|done].
  destruct (field_parses _ _ _ (field_text m) r v r' Hr E) as (e & He & _ & _ & [[Hm Hv] _] & ->).
  unfold write_text_field in *. rewrite Hrest in He. rewrite !output_length_prefixed, <-!(assoc app) in He.
  apply app_split_lengths in He as [He _]; [|by rewrite !length_le_bytes].
  apply (f_equal le_value) in He. rewrite !le_value_le_bytes in He.
  change (8 * Z.of_nat 4) with 32 in He.
  rewrite !(wrap_id 32 (size_of text)), !(wrap_id 32 (size_of v)) in He by done. exfalso. lia.
Qed.

Lemma long_label_rejected e r t : reader_ok r → rest r = output (write_entry e) ++ t →
  u32 (size_of (label e)) → MAX_LABEL_LENGTH < size_of (label e) → (read_entry r).1 = None.
Proof.
  intros Hr Hrest Hu Hlong. destruct (write_entry_bytes e) as [t' E]. rewrite E, <-(assoc app) in Hrest.
  pose proof (long_text_rejected _ _ _ _ Hr Hrest Hu Hlong) as Hnone.
  unfold read_entry. apply rbind_rejects. exact Hnone.
Qed.

Lemma items_bytes_cons {A} (w : A → byte_writer → byte_writer) a l :
  items_bytes w (a :: l) = output (w a) ++ items_bytes w l.
Proof. done. Qed.

Lemma long_label_locks es e : Forall entry_ok es → size_of es < MAX_SERVERS →
  u32 (size_of (label e)) → MAX_LABEL_LENGTH < size_of (label e) →
  parse_entries (registry_plaintext (es ++ [e])) = None.
Proof.
  intros Hok Hn Hu Hlong. destruct (parse_entries_body (es ++ [e])) as (r & Hr & Hrest & ->).
  { rewrite size_of_app, size_of_cons, size_of_nil. lia. }
  clear Hn. rewrite length_app. cbn [length]. revert r Hr Hrest.
  induction Hok as [|x es Hx _ IH]; intros r Hr Hrest; cbn [length Nat.add read_record_items].
  - rewrite app_nil_l, items_bytes_cons in Hrest. pose proof (long_label_rejected e r _ Hr Hrest Hu Hlong) as Hnone.
    by apply rbind_rejects.
  - rewrite <-app_comm_cons, items_bytes_cons in Hrest.
    destruct (reader_ok_advance _ _ _ Hr Hrest) as [Hr' Hrest'].
    unfold rbind at 1. rewrite (read_entry_reads x Hx r _ Hr Hrest).
    specialize (IH _ Hr' Hrest'). unfold rbind. by destruct (read_record_items _ _ _) as [[|] ?].
Qed.

Section registry_theorems.
Context `{SodiumLaws} `{FileSystem}.

Lemma save_then_read path salt nonce passphrase entries d d' :
  no_failure → drawn_ok salt nonce → save path salt nonce passphrase entries d = (None, d') →
  size_of entries <= MAX_SERVERS ∧
  ∃ sealed, files d' !! path = Some sealed ∧ sealed ≠ [] ∧
    open_blob passphrase sealed = Some (registry_plaintext entries).
Proof.
  intros Hok Hd. unfold save. destruct (Z.ltb_spec MAX_SERVERS (size_of entries)); [done|].
  destruct (seal_blob salt nonce passphrase _) as [sealed|] eqn:Es; [|done]. intros Hwrite.
  split; [lia|]. exists sealed.
  destruct (write_sealed_succeeds path sealed d Hok) as [_ Hfile]. rewrite Hwrite in Hfile.
  pose proof (open_sealed_blob salt nonce passphrase _ sealed Hd Es) as Hopen.
  split_and!; [done|intros ->; by unfold open_blob in Hopen|done].
Qed.

Lemma load_result path passphrase sealed plaintext d : no_failure →
  files d !! path = Some sealed → sealed ≠ [] → open_blob passphrase sealed = Some plaintext →
  (load path passphrase d).1 =
    match parse_entries plaintext with
    | None => inl (lit "registre des serveurs mal forme : " ++ path)
    | Some entries => inr entries
    end.
Proof.
  intros Hok Hf Hne Hopen. unfold load, sbind. rewrite (read_sealed_file_eq path d sealed) by done. rewrite Hopen.
  by destruct (parse_entries plaintext).
Qed.

(** A list of servers that was saved is loaded back entry for entry, when
    its entries are within the sizes the file format has. *)
Theorem registry_roundtrip (path salt nonce passphrase : bytes) (entries : list server_entry) (d d' : disk)
    (Hsystem : no_failure) (Hdrawn : drawn_ok salt nonce) (Hentries : Forall entry_ok entries)
    (Hsaved : save path salt nonce passphrase entries d = (None, d')) :
  (load path passphrase d').1 = inr entries.
Proof.
  destruct (save_then_read _ _ _ _ _ _ _ Hsystem Hdrawn Hsaved) as (Hn & sealed & Hf & Hne & Hopen).
  rewrite (load_result path passphrase sealed _ d' Hsystem Hf Hne Hopen).
  by rewrite (parse_registry_plaintext entries Hentries Hn).
Qed.

Lemma load_existing_ok path passphrase entries d d' :
  load_existing path passphrase d = (inr entries, d') → Forall entry_ok entries.
Proof.
  unfold load_existing, sbind. destruct (is_regular_file path d) as [[|] d1]; cbn [negb].
  - unfold load, sbind. destruct (read_sealed_file path d1) as [[sealed|] d2]; [|done].
    destruct (open_blob passphrase sealed) as [plaintext|]; [|done].
    destruct (parse_entries plaintext) as [es|] eqn:E; [|done]. intros [= <- _]. by eapply parse_entries_ok.
  - intros [= <- _]. constructor.
Qed.

(** Adding a server whose name is longer than 48 characters (the address
    of any onion service of version 3 has 62, and is its name when none is
    given) is reported as done, and from then on the list of servers cannot
    be loaded: every entry saved before is lost with it. *)
Theorem long_name_locks_registry (salt nonce passphrase text printed : bytes) (names : list bytes)
    (link : invite_link) (options : cli_options) (d d' : disk)
    (Hsystem : no_failure) (Hdrawn : drawn_ok salt nonce)
    (Hlink : parse_invite_link text = inr link)
    (Hlong : MAX_LABEL_LENGTH < size_of (default (link_host link) (head names)) < 2 ^ 32)
    (Hadded : run_server_add salt nonce (inr passphrase) options (text :: names) d = (inr printed, d')) :
  (run_server_list (inr passphrase) options d').1 =
    inl (lit "registre des serveurs mal forme : " ++ registry_path options).
Proof.
  unfold run_server_add in Hadded. rewrite Hlink in Hadded.
  set (name := match names with n :: _ => n | [] => link_host link end) in Hadded.
  assert (default (link_host link) (head names) = name) as Ename by (by destruct names). rewrite Ename in Hlong.
  destruct (decode_key (link_server_key_hex link)) as [key|]; [|done].
  unfold sbind in Hadded.
  destruct (load_existing (registry_path options) passphrase d) as [[e|entries] d1] eqn:El; [done|].
  destruct (find_by_label entries name) as [[i e]|]; [done|].
  set (entry := ServerEntry _ _ _ _ _ _) in Hadded.
  destruct (save (registry_path options) salt nonce passphrase (entries ++ [entry]) d1) as [[e|] d2] eqn:Es; [done|].
  injection Hadded as _ ->.
  destruct (save_then_read _ _ _ _ _ _ _ Hsystem Hdrawn Es) as (Hn & sealed & Hf & Hne & Hopen).
  rewrite size_of_app, size_of_cons, size_of_nil in Hn.
  assert (parse_entries (registry_plaintext (entries ++ [entry])) = None) as Hnone.
  { apply long_label_locks; [by eapply load_existing_ok|lia|split; [apply size_of_nonneg|exact (proj2 Hlong)]|exact (proj1 Hlong)]. }
  unfold run_server_list, sbind, load_existing. unfold sbind.
  rewrite is_regular_file_eq by done. rewrite Hf, bool_decide_true by by eexists. cbn [negb].
  pose proof (load_result (registry_path options) passphrase sealed _ (Disk (files d') (S (io_calls d'))) Hsystem Hf Hne Hopen)
    as Hload. rewrite Hnone in Hload.
  destruct (load _ _ _) as [r d3]. simpl in Hload. by subst r.
Qed.
End registry_theorems.

(** ** Witnesses *)

Section witnesses.
#[local] Existing Instance toy_sodium.
#[local] Existing Instance toy_sodium_laws.

(** A system that never fails, and a machine without files. *)
#[local] Instance sound_system : FileSystem := {| io_fails := λ _, false; io_written := λ _, 0%nat |}.

Definition empty_disk : disk := Disk ∅ 0.
Definition drawn_salt : bytes := pad 16 (lit "salt").
Definition drawn_nonce : bytes := pad 24 (lit "nonce").
Definition drawn_entropy : bytes := pad 16 (lit "entropy").

Lemma stored_secrets_survive_witness :
  ∃ path d, files d !! path = Some (lit "sealed") ∧ io_fails (io_calls d) = false ∧
    keeps_files d (create_seed path drawn_entropy drawn_salt drawn_nonce (lit "pass") d).2.
Proof.
  exists (lit "hypercom_master.key"), (Disk {[lit "hypercom_master.key" := lit "sealed"]} 0).
  split; [vm_compute; reflexivity|]. split; [reflexivity|].
  exact (proj1 (stored_secrets_survive _ _ _ _ (Disk {[lit "hypercom_master.key" := lit "sealed"]} 0) eq_refl) _).
Defined.

Lemma anywhere_sealable path passphrase : passphrase ≠ [] → sealable path drawn_salt drawn_nonce passphrase empty_disk.
Proof. intros Hp. split; [reflexivity|done|split; reflexivity|by eexists]. Qed.

(** The phrase typed in capitals on another machine. *)
Definition capitals (text : bytes) : bytes :=
  (λ b, if (97 <=? byte_val b) && (byte_val b <=? 122) then byte_of (byte_val b - 32) else b) <$> text.
Definition typed_phrase : bytes := lit "  " ++ capitals (entropy_to_phrase drawn_entropy) ++ newline.

Lemma typed_spells : spells typed_phrase (phrase_words drawn_entropy).
Proof.
  refine (proj1 (proj1 (split_words_spells typed_phrase (phrase_words drawn_entropy)) _)). vm_compute. reflexivity.
Qed.

Lemma phrase_restores_identities_witness :
  ∃ seed phrase d1 d2,
    create_seed (lit "seed") drawn_entropy drawn_salt drawn_nonce (lit "pass") empty_disk = (inr (seed, phrase), d1) ∧
    restore_seed (lit "elsewhere") drawn_salt drawn_nonce (lit "another") typed_phrase empty_disk = (inr seed, d2) ∧
    (unlock_seed (lit "elsewhere") (lit "another") d2).1 = inr seed.
Proof.
  destruct (phrase_restores_identities (lit "seed") drawn_entropy drawn_salt drawn_nonce (lit "pass") empty_disk)
    as (seed & phrase & d1 & Ecreate & _ & _ & Hrestore).
  - done.
  - reflexivity.
  - by apply anywhere_sealable.
  - destruct (Hrestore (lit "elsewhere") drawn_salt drawn_nonce (lit "another") typed_phrase empty_disk typed_spells)
      as (d2 & Erestore & Eunlock); [by apply anywhere_sealable|].
    exists seed, phrase, d1, d2. split; [exact Ecreate|]. split; [exact Erestore|exact Eunlock].
Defined.

Definition home_server : server_entry :=
  ServerEntry (lit "home") (ServerEndpoint (lit "relay.example") 7717 [] 0) (pad 32 (lit "key"))
    identity_source.imported (lit "old.key") true.

Lemma registry_roundtrip_witness :
  ∃ d', save (lit "servers") drawn_salt drawn_nonce (lit "pass") [home_server] empty_disk = (None, d') ∧
    (load (lit "servers") (lit "pass") d').1 = inr [home_server].
Proof.
  destruct (save (lit "servers") drawn_salt drawn_nonce (lit "pass") [home_server] empty_disk) as [[e|] d'] eqn:E;
    [vm_compute in E; discriminate E|].
  exists d'. split; [reflexivity|].
  refine (registry_roundtrip _ _ _ _ _ _ _ _ _ _ E); [done|split; reflexivity|].
  constructor; [|constructor]. by_decision.
Defined.

(** An onion address of version 3. *)
Definition onion_link : bytes :=
  format_invite_link (lit "pg6mmjiyjmcrsslvykfwnntlaru7p5svn6y2ymmju6nubxndf4pscryd.onion") 7717
    (encode_hex (pad 32 (lit "key"))).

Lemma long_name_locks_registry_witness :
  ∃ printed d',
    run_server_add drawn_salt drawn_nonce (inr (lit "pass")) default_options [onion_link] empty_disk = (inr printed, d') ∧
    (run_server_list (inr (lit "pass")) default_options d').1 =
      inl (lit "registre des serveurs mal forme : " ++ registry_path default_options).
Proof.
  destruct (run_server_add drawn_salt drawn_nonce (inr (lit "pass")) default_options [onion_link] empty_disk)
    as [[e|printed] d'] eqn:E; [vm_compute in E; discriminate E|].
  exists printed, d'. split; [reflexivity|].
  destruct (parse_invite_link onion_link) as [e|link] eqn:El; [vm_compute in El; discriminate El|].
  refine (long_name_locks_registry _ _ _ _ _ [] link _ _ _ _ _ El _ E); [done|split; reflexivity|].
  vm_compute in El. injection El as <-. split; reflexivity.
Defined.
End witnesses.
