(* ===== verification/Connection.v ===== *)
(** A client connection on the server (server/net): its socket with the
    queue of pending output, its application state, and the registry of live
    connections. *)

From S2P Require Import Prelude.
From S2P Require Import Wire.
From S2P Require Import Sodium.
From S2P Require Import Noise.
From S2P Require Import Config.

(** ** session_state.hpp *)

Module session_phase.
Inductive t := awaiting_handshake | awaiting_hello | awaiting_auth | authenticated.

#[global] Instance t_eq_dec : EqDecision t.
Proof. solve_decision. Defined.
End session_phase.

Record session_state := SessionState {
  phase : session_phase.t;
  announced_pubkey : bytes;
  challenge_nonce : bytes;
  user_id : Z;
  handle : bytes;
  peer_address : bytes;
  connected_at : Z;
  last_activity_at : Z;
}.

(** A value-initialized [session_state]. *)
Definition new_session : session_state :=
  SessionState session_phase.awaiting_handshake (replicate 32 Byte.x00) (replicate 32 Byte.x00)
    0 [] [] 0 0.

(** ** connection_socket.cpp *)

Definition MAX_PENDING_OUTPUT : Z := 4 * 1024 * 1024.
Definition READ_CHUNK_SIZE : Z := 16 * 1024.

Record connection_socket := ConnectionSocket {
  descriptor_ : Z;
  pending_output_ : bytes;
}.

Definition new_socket (descriptor : Z) : connection_socket := ConnectionSocket descriptor [].

(** What [recv] and [send] answer, call after call; when the list ends, the
    next call would block. *)
Inductive recv_result := Received (data : bytes) | EndOfStream | RecvInterrupted | RecvError.
Inductive send_result := Sent (size : nat) | SendInterrupted | SendError.

Fixpoint read_available (answers : list recv_result) (destination : bytes) : bool * bytes :=
  match answers with
  | [] => (true, destination)
  | Received data :: answers' => read_available answers' (destination ++ data)
  | EndOfStream :: _ => (false, destination)
  | RecvInterrupted :: answers' => read_available answers' destination
  | RecvError :: _ => (false, destination)
  end.

(** [Some has_remaining] when the call succeeds, with the bytes handed to the
    system. A [send] takes at most what it is given, and taking nothing is an
    error. *)
Fixpoint flush_pending_writes (answers : list send_result) (socket : connection_socket)
    : option bool * bytes * connection_socket :=
  match socket.(pending_output_) with
  | [] => (Some false, [], socket)
  | _ :: _ =>
      match answers with
      | [] => (Some true, [], socket)
      | Sent O :: _ => (None, [], socket)
      | Sent (S size) :: answers' =>
          let '(result, taken, socket') :=
            flush_pending_writes answers'
              (ConnectionSocket socket.(descriptor_) (drop (S size) socket.(pending_output_))) in
          (result, take (S size) socket.(pending_output_) ++ taken, socket')
      | SendInterrupted :: answers' => flush_pending_writes answers' socket
      | SendError :: _ => (None, [], socket)
      end
  end.

Definition queue_bytes (data : bytes) : state connection_socket bool := λ socket,
  if MAX_PENDING_OUTPUT <? size_of socket.(pending_output_) + size_of data then (false, socket)
  else (true, ConnectionSocket socket.(descriptor_) (socket.(pending_output_) ++ data)).

(** ** client_connection.hpp *)

Record client_connection := ClientConnection {
  socket : connection_socket;
  channel : noise_channel;
  session : session_state;
  input_buffer : bytes;
}.

(** ** connection_registry.cpp *)

Record connection_registry := ConnectionRegistry {
  registry_max_connections : Z;
  registry_max_per_address : Z;
  connections : gmap Z client_connection;
  address_counts : gmap bytes Z;
}.

Definition get_descriptor (entry : client_connection) : Z := entry.(socket).(descriptor_).

Definition address_of (entry : client_connection) : bytes := entry.(session).(peer_address).

(** [connections.size()] *)
Definition connection_count (r : connection_registry) : Z := Z.of_nat (size r.(connections)).

Definition set_connections (connections : gmap Z client_connection) (counts : gmap bytes Z)
    (r : connection_registry) : connection_registry :=
  ConnectionRegistry r.(registry_max_connections) r.(registry_max_per_address) connections counts.

(** [emplace] keeps an existing entry. *)
Definition insert_connection (entry : option client_connection) : state connection_registry bool := λ r,
  match entry with
  | None => (false, r)
  | Some entry =>
      if r.(registry_max_connections) <=? connection_count r then (false, r)
      else
        let address := address_of entry in
        if match r.(address_counts) !! address with
           | Some count => r.(registry_max_per_address) <=? count
           | None => false
           end
        then (false, r)
        else
          let descriptor := get_descriptor entry in
          let counts := <[address := wrap 32 (default 0 (r.(address_counts) !! address) + 1)]>
                          r.(address_counts) in
          let connections := match r.(connections) !! descriptor with
                             | Some _ => r.(connections)
                             | None => <[descriptor := entry]> r.(connections)
                             end in
          (true, set_connections connections counts r)
  end.

Definition remove_connection (descriptor : Z) (r : connection_registry) : connection_registry :=
  match r.(connections) !! descriptor with
  | None => r
  | Some entry =>
      let address := address_of entry in
      let counts :=
        match r.(address_counts) !! address with
        | None => r.(address_counts)
        | Some count =>
            if count <=? 1 then delete address r.(address_counts)
            else <[address := count - 1]> r.(address_counts)
        end in
      set_connections (delete descriptor r.(connections)) counts r
  end.

Definition find_connection (r : connection_registry) (descriptor : Z) : option client_connection :=
  r.(connections) !! descriptor.

Definition is_expired (now : Z) (limits : limits_config) (session : session_state) : bool :=
  let handshaking := negb (bool_decide (session.(phase) = session_phase.authenticated)) in
  if negb handshaking && (limits.(idle_timeout_seconds) =? 0) then false
  else
    let budget := if handshaking then limits.(handshake_timeout_seconds)
                  else limits.(idle_timeout_seconds) in
    (session.(last_activity_at) <? now) && (budget <? now - session.(last_activity_at)).

(** The order of an [unordered_map] is left to the map. *)
Definition collect_expired_descriptors (r : connection_registry) (now : Z) (limits : limits_config)
    : list Z :=
  omap (λ entry : Z * client_connection,
          if is_expired now limits entry.2.(session) then Some entry.1 else None)
    (map_to_list r.(connections)).

(** ** The promises of the socket *)

Inductive socket_op := Queue (data : bytes) | Flush (answers : list send_result).

(** Runs the operations; the result is the data accepted by [queue_bytes],
    the data handed to the system, and the socket. *)
Fixpoint socket_run (ops : list socket_op) (socket : connection_socket)
    : bytes * bytes * connection_socket :=
  match ops with
  | [] => ([], [], socket)
  | Queue data :: ops' =>
      let '(accepted, socket') := queue_bytes data socket in
      let '(queued, taken, socket'') := socket_run ops' socket' in
      ((if accepted then data else []) ++ queued, taken, socket'')
  | Flush answers :: ops' =>
      let '(_, flushed, socket') := flush_pending_writes answers socket in
      let '(queued, taken, socket'') := socket_run ops' socket' in
      (queued, flushed ++ taken, socket'')
  end.

Lemma flush_splits answers s :
  let '(_, taken, s') := flush_pending_writes answers s in
  taken ++ pending_output_ s' = pending_output_ s ∧ descriptor_ s' = descriptor_ s.
Proof.
  revert s. induction answers as [|[[|n]| |] answers IH]; intros s; simpl;
    destruct (pending_output_ s) as [|b l] eqn:E; simpl; rewrite ?E; try done; [|].
  - specialize (IH (ConnectionSocket (descriptor_ s) (drop n l))).
    destruct (flush_pending_writes _ _) as [[r taken] s'] eqn:Ef.
    destruct IH as [IH1 IH2]. simpl in *. split; [|done]. f_equal.
    rewrite <-app_assoc, IH1. apply take_drop.
  - rewrite <-E. apply IH.
Qed.

(** The output of a connection is a faithful byte stream: whatever is
    queued and however the system takes it, what has been sent followed by
    what is still pending is exactly the data [queue_bytes] accepted, in
    order, and no more than four mebibytes are ever pending. *)
Theorem socket_output_is_a_stream (ops : list socket_op) (descriptor : Z) :
  let '(queued, taken, s) := socket_run ops (new_socket descriptor) in
  queued = taken ++ pending_output_ s ∧ size_of (pending_output_ s) <= MAX_PENDING_OUTPUT.
Proof.
  enough (∀ s, size_of (pending_output_ s) <= MAX_PENDING_OUTPUT →
    let '(queued, taken, s') := socket_run ops s in
    pending_output_ s ++ queued = taken ++ pending_output_ s' ∧
    size_of (pending_output_ s') <= MAX_PENDING_OUTPUT) as H.
  { specialize (H (new_socket descriptor) ltac:(done)).
    by destruct (socket_run _ _) as [[queued taken] s']. }
  induction ops as [|[data|answers] ops IH]; intros s Hs; simpl.
  - by rewrite app_nil_r.
  - unfold queue_bytes.
    destruct (Z.ltb_spec MAX_PENDING_OUTPUT (size_of (pending_output_ s) + size_of data)).
    + specialize (IH s Hs). by destruct (socket_run _ _) as [[queued taken] s'].
    + specialize (IH (ConnectionSocket (descriptor_ s) (pending_output_ s ++ data))).
      simpl in IH. rewrite size_of_app in IH. specialize (IH ltac:(lia)).
      destruct (socket_run _ _) as [[queued taken] s'].
      destruct IH as [IH1 IH2]. split; [|done]. by rewrite app_assoc.
  - pose proof (flush_splits answers s) as Hf.
    destruct (flush_pending_writes answers s) as [[r flushed] s1]. destruct Hf as [Hf _].
    specialize (IH s1). rewrite <-Hf in Hs. rewrite size_of_app in Hs.
    pose proof (size_of_nonneg flushed). specialize (IH ltac:(lia)).
    destruct (socket_run _ _) as [[queued taken] s']. destruct IH as [IH1 IH2].
    split; [|done]. by rewrite <-Hf, <-!app_assoc, IH1.
Qed.

(** ** The registry invariant *)

Definition from_address (address : bytes) (conns : gmap Z client_connection) : gmap Z client_connection :=
  filter (λ entry, address_of entry.2 = address) conns.

Definition count_from (address : bytes) (conns : gmap Z client_connection) : Z :=
  Z.of_nat (size (from_address address conns)).

(** The table of counts holds exactly the number of live connections of each
    address that has any; the caps hold; every connection is registered under
    its descriptor. *)
Record registry_ok (r : connection_registry) : Prop := {
  counts_exact address : default 0 (address_counts r !! address) = count_from address (connections r);
  counts_positive address count : address_counts r !! address = Some count → 0 < count;
  total_capped : connection_count r <= Z.max 0 (registry_max_connections r);
  address_capped address :
    count_from address (connections r) <= Z.max 1 (registry_max_per_address r);
  keyed_by_descriptor fd entry : connections r !! fd = Some entry → get_descriptor entry = fd;
  caps_u32 : u32 (registry_max_connections r) ∧ u32 (registry_max_per_address r);
}.

Lemma count_from_insert a fd entry conns : conns !! fd = None →
  count_from a (<[fd := entry]> conns) =
    count_from a conns + (if decide (address_of entry = a) then 1 else 0).
Proof.
  intros Hfd. unfold count_from, from_address. case_decide as Ha.
  - rewrite map_filter_insert_True by done. rewrite map_size_insert_None; [lia|].
    by apply map_lookup_filter_None_2; left.
  - rewrite map_filter_insert_not' by (try done; intros y; rewrite Hfd; done). lia.
Qed.

Lemma count_from_delete a fd entry conns : conns !! fd = Some entry →
  count_from a (delete fd conns) =
    count_from a conns - (if decide (address_of entry = a) then 1 else 0).
Proof.
  intros Hfd. assert (delete fd conns !! fd = None) as Hd by apply lookup_delete_eq.
  pose proof (count_from_insert a fd entry _ Hd) as E. rewrite insert_delete_id in E by done. lia.
Qed.

Lemma registry_insert_ok entry r : registry_ok r →
  connections r !! get_descriptor entry = None →
  registry_ok (insert_connection (Some entry) r).2.
Proof.
  intros Hok Hfresh. pose proof Hok as [Hexact Hpos Htotal Haddr Hkey [Hu1 Hu2]].
  unfold insert_connection.
  destruct (Z.leb_spec (registry_max_connections r) (connection_count r)); [done|].
  set (a := address_of entry).
  destruct (match address_counts r !! a with Some _ => _ | None => _ end) eqn:Efull; [done|].
  rewrite Hfresh. simpl.
  assert (default 0 (address_counts r !! a) + 1 <= Z.max 1 (registry_max_per_address r)) as Hroom.
  { destruct (address_counts r !! a) as [n|] eqn:E; simpl; [|lia].
    apply Z.leb_gt in Efull. lia. }
  assert (0 <= default 0 (address_counts r !! a)) as Hnn by (rewrite Hexact; unfold count_from; lia).
  rewrite wrap_id by (unfold fits in *; lia).
  split; simpl.
  - intros b. rewrite count_from_insert by done. fold a. case_decide as Eb.
    + subst b. rewrite lookup_insert_eq. simpl. by rewrite Hexact.
    + rewrite lookup_insert_ne by done. rewrite Hexact. lia.
  - intros b n [[<- <-]|[_ Hn]]%lookup_insert_Some; [lia|by eapply Hpos].
  - unfold connection_count. simpl. rewrite map_size_insert_None by done.
    unfold connection_count in *. lia.
  - intros b. rewrite count_from_insert by done. fold a. case_decide as Eb.
    + subst b. rewrite <-Hexact. lia.
    + specialize (Haddr b). lia.
  - intros fd e [[<- <-]|[_ He]]%lookup_insert_Some; [done|by apply Hkey].
  - done.
Qed.

Lemma registry_remove_ok fd r : registry_ok r → registry_ok (remove_connection fd r).
Proof.
  intros Hok. pose proof Hok as [Hexact Hpos Htotal Haddr Hkey Hu]. unfold remove_connection.
  destruct (connections r !! fd) as [entry|] eqn:Ee; [|done].
  set (a := address_of entry).
  assert (0 < count_from a (connections r)) as Hsome.
  { unfold count_from. apply (Nat2Z.inj_lt 0), Nat.neq_0_lt_0.
    apply map_size_ne_0_lookup. exists fd, entry. by apply map_lookup_filter_Some_2. }
  rewrite <-Hexact in Hsome.
  destruct (address_counts r !! a) as [n|] eqn:Ea; [|simpl in Hsome; lia]. simpl in Hsome.
  assert (n = count_from a (connections r)) as Hn by (by rewrite <-Hexact, Ea).
  split; simpl.
  - intros b. rewrite (count_from_delete b fd entry) by done. fold a. case_decide as Eb.
    + subst b. destruct (Z.leb_spec n 1).
      * rewrite lookup_delete_eq. simpl. lia.
      * rewrite lookup_insert_eq. simpl. lia.
    + destruct (n <=? 1); [rewrite lookup_delete_ne by done|rewrite lookup_insert_ne by done];
        rewrite Hexact; lia.
  - intros b m. destruct (Z.leb_spec n 1).
    + intros [_ Hm]%lookup_delete_Some. by eapply Hpos.
    + intros [[<- <-]|[_ Hm]]%lookup_insert_Some; [lia|by eapply Hpos].
  - unfold connection_count in *. simpl. rewrite map_size_delete, Ee. lia.
  - intros b. rewrite (count_from_delete b fd entry) by done.
    specialize (Haddr b). case_decide; lia.
  - intros fd' e [_ He]%lookup_delete_Some. by apply Hkey.
  - done.
Qed.

(** What the server does with its registry: it accepts connections, the
    system giving each a descriptor that is not in use, and closes them. *)
Inductive registry_step : connection_registry → connection_registry → Prop :=
  | accept_step r entry : connections r !! get_descriptor entry = None →
      registry_step r (insert_connection (Some entry) r).2
  | close_step r fd : registry_step r (remove_connection fd r).

Definition empty_registry (limits : limits_config) : connection_registry :=
  ConnectionRegistry (max_connections limits) (max_connections_per_address limits) ∅ ∅.

Lemma empty_registry_ok limits :
  u32 (max_connections limits) → u32 (max_connections_per_address limits) →
  registry_ok (empty_registry limits).
Proof.
  intros H1 H2. split; simpl; try done.
  - unfold connection_count. simpl. rewrite map_size_empty. lia.
  - intros a. unfold count_from, from_address. rewrite map_filter_empty, map_size_empty. lia.
Qed.

(** In every registry the server reaches, the number of connections is
    within [max_connections], the number from one address within
    [max_connections_per_address] (or one, when the cap is zero), the table of
    addresses counts exactly the live connections and mentions no address
    that has none. *)
Theorem registry_caps_hold (limits : limits_config) (r : connection_registry)
    (Hcaps : u32 (max_connections limits) ∧ u32 (max_connections_per_address limits))
    (Hreach : rtc registry_step (empty_registry limits) r) :
  connection_count r <= max_connections limits ∧
  ∀ address,
    count_from address (connections r) <= Z.max 1 (max_connections_per_address limits) ∧
    address_counts r !! address =
      (if decide (count_from address (connections r) = 0) then None
       else Some (count_from address (connections r))).
Proof.
  assert (registry_ok r ∧ registry_max_connections r = max_connections limits ∧
    registry_max_per_address r = max_connections_per_address limits) as (Hok & E1 & E2).
  { assert (registry_ok (empty_registry limits)) as H0 by (apply empty_registry_ok; apply Hcaps).
    assert (registry_max_connections (empty_registry limits) = max_connections limits ∧
      registry_max_per_address (empty_registry limits) = max_connections_per_address limits)
      as [E1 E2] by done.
    revert H0 E1 E2. induction Hreach as [|r1 r2 r3 Hstep _ IH]; [done|].
    intros Hok E1 E2. apply IH; destruct Hstep as [r1 entry Hfresh|r1 fd].
    - by apply registry_insert_ok.
    - by apply registry_remove_ok.
    - unfold insert_connection. by repeat case_match.
    - unfold remove_connection. by repeat case_match.
    - unfold insert_connection. by repeat case_match.
    - unfold remove_connection. by repeat case_match. }
  split.
  - pose proof (total_capped r Hok). destruct Hcaps as [[? ?] _]. lia.
  - intros a. split; [rewrite <-E2; by apply address_capped|].
    pose proof (counts_exact r Hok a) as E.
    destruct (address_counts r !! a) as [n|] eqn:Ea; simpl in E.
    + pose proof (counts_positive r Hok a n Ea). rewrite decide_False by lia. by rewrite E.
    + by rewrite decide_True.
Qed.

Lemma registry_caps_hold_witness :
  connection_count (remove_connection 7 (empty_registry (limits default_config))) <= 512.
Proof.
  apply (registry_caps_hold (limits default_config)
    (remove_connection 7 (empty_registry (limits default_config)))).
  - split; unfold fits; simpl; lia.
  - apply rtc_once. constructor.
Defined.

(** The sweep closes exactly the connections that are silent for longer
    than their budget: the handshake timeout until they are authenticated,
    then the idle timeout, which closes nothing when it is zero. *)
Theorem sweep_is_exact (r : connection_registry) (now fd : Z) (limits : limits_config) :
  fd ∈ collect_expired_descriptors r now limits ↔
  ∃ entry, find_connection r fd = Some entry ∧
    let s := session entry in
    last_activity_at s < now ∧
    ((phase s ≠ session_phase.authenticated ∧
        handshake_timeout_seconds limits < now - last_activity_at s) ∨
     (phase s = session_phase.authenticated ∧ idle_timeout_seconds limits ≠ 0 ∧
        idle_timeout_seconds limits < now - last_activity_at s)).
Proof.
  unfold collect_expired_descriptors, find_connection. rewrite list_elem_of_omap. split.
  - intros ([fd' entry] & Hin & E). apply elem_of_map_to_list in Hin. simpl in E.
    destruct (is_expired now limits (session entry)) eqn:Ex; [|done]. injection E as ->.
    exists entry. split; [done|]. unfold is_expired in Ex.
    destruct (decide (phase (session entry) = session_phase.authenticated)) as [Hp|Hp];
      rewrite ?(bool_decide_true _ Hp), ?(bool_decide_false _ Hp) in Ex; simpl in Ex.
    + destruct (Z.eqb_spec (idle_timeout_seconds limits) 0); [done|].
      apply andb_true_iff in Ex as [?%Z.ltb_lt ?%Z.ltb_lt]. auto.
    + apply andb_true_iff in Ex as [?%Z.ltb_lt ?%Z.ltb_lt]. auto.
  - intros (entry & He & Hold & Hcase). exists (fd, entry).
    split; [by apply elem_of_map_to_list|]. simpl. unfold is_expired.
    destruct Hcase as [[Hp Hb]|(Hp & Hz & Hb)];
      rewrite ?(bool_decide_true _ Hp), ?(bool_decide_false _ Hp); simpl.
    + by rewrite (proj2 (Z.ltb_lt _ _) Hold), (proj2 (Z.ltb_lt _ _) Hb).
    + destruct (Z.eqb_spec (idle_timeout_seconds limits) 0); [done|].
      by rewrite (proj2 (Z.ltb_lt _ _) Hold), (proj2 (Z.ltb_lt _ _) Hb).
Qed.
