(* ===== verification/Database.v ===== *)
(** The server's database: the schema of db/migrations with its constraints,
    the statements the repositories run on it, and the execution of a
    statement by an engine that can fail (server/db/database_handle,
    sql_statement, sql_binder, sql_column_reader). *)

From Stdlib Require Import Sorting.Sorted.
From S2P Require Import Prelude.
From S2P Require Import Wire.
From S2P Require Import SocialMessages.
From S2P Require Import Config.

(** ** What the server takes from its environment

    SQLite, the clock and the random generator are not part of the program:
    a call into SQLite can fail for a reason of its own (a full disk, an I/O
    error), the order of rows that [ORDER BY] does not decide is the engine's,
    the clock and the generator answer what they want. *)

Class Environment := {
  (** does the n-th call into SQLite fail, and with what message *)
  sql_fails : nat → bool;
  sql_error : nat → bytes;
  (** does that failure roll back the transaction in progress *)
  sql_rolls_back : nat → bool;
  (** [ORDER BY] for a comparison of rows *)
  order_rows : ∀ {A : Type}, (A → A → bool) → list A → list A;
  (** the n-th reading of the system clock, in seconds, and the n-th draws
      from the random generator *)
  system_clock : nat → Z;
  random_bytes : nat → Z → bytes;
  random_keypair : nat → option (bytes * bytes);
}.

(** The rows come out permuted, and ordered when the comparison is. *)
Class EnvironmentLaws `{Environment} : Prop := {
  order_rows_permutes {A} (le : A → A → bool) l : order_rows le l ≡ₚ l;
  order_rows_sorted {A} (le : A → A → bool) l :
    (∀ a b c, le a b = true → le b c = true → le a c = true) →
    (∀ a b, le a b = true ∨ le b a = true) →
    StronglySorted (λ a b, le a b = true) (order_rows le l);
  random_bytes_size n size : 0 <= size → size_of (random_bytes n size) = size;
}.

(** ** The schema (db/migrations) *)

Module users.
Record row := Row { pubkey : bytes; handle : bytes; banned : bool }.
End users.

Module prekeys.
Record row := Row { prekey : bytes; signature : bytes; created_at : Z }.
End prekeys.

Module forums.
Record row := Row {
  name : bytes; founder_id : Z; description : bytes; theme_json : bytes; created_at : Z }.
End forums.

Module posts.
Record row := Row {
  forum_id : Z; author_id : Z; title : bytes; body : bytes; created_at : Z;
  deleted_at : option Z }.
End posts.

Module comments.
Record row := Row {
  post_id : Z; parent_comment_id : option Z; author_id : Z; body : bytes; created_at : Z;
  deleted_at : option Z }.
End comments.

Module profiles.
Record row := Row { display_name : bytes; bio : bytes; theme_json : bytes; banner_ref : bytes }.
End profiles.

Module dm_envelopes.
Record row := Row { recipient_id : Z; sender_pubkey : bytes; ciphertext : bytes }.
End dm_envelopes.

Module motd.
Record row := Row { body : bytes; active : bool; created_at : Z }.
End motd.

Module reports.
Record row := Row {
  kind : bytes; post_id : option Z; target_pubkey : option bytes; reporter_id : Z;
  reason : bytes; created_at : Z }.
End reports.

(** The value AUTOINCREMENT last gave out, per table. *)
Record sequences := Sequences {
  users_seq : Z; forums_seq : Z; posts_seq : Z; comments_seq : Z; dm_seq : Z; motd_seq : Z;
  reports_seq : Z }.

(** [friends] is keyed by (user_id, friend_id) and holds the status, [top8]
    by (user_id, slot) and holds the friend's id; [prekeys] and [profiles] by
    user_id; the others by id. *)
Record tables := Tables {
  t_users : gmap Z users.row;
  t_prekeys : gmap Z prekeys.row;
  t_forums : gmap Z forums.row;
  t_posts : gmap Z posts.row;
  t_comments : gmap Z comments.row;
  t_profiles : gmap Z profiles.row;
  t_friends : gmap (Z * Z) Z;
  t_top8 : gmap (Z * Z) Z;
  t_dm : gmap Z dm_envelopes.row;
  t_motd : gmap Z motd.row;
  t_reports : gmap Z reports.row;
  t_seq : sequences;
}.

Definition empty_tables : tables :=
  Tables ∅ ∅ ∅ ∅ ∅ ∅ ∅ ∅ ∅ ∅ ∅ (Sequences 0 0 0 0 0 0 0).

Definition set_users v s t := Tables v (t_prekeys t) (t_forums t) (t_posts t) (t_comments t)
  (t_profiles t) (t_friends t) (t_top8 t) (t_dm t) (t_motd t) (t_reports t) s.
Definition set_prekeys v t := Tables (t_users t) v (t_forums t) (t_posts t) (t_comments t)
  (t_profiles t) (t_friends t) (t_top8 t) (t_dm t) (t_motd t) (t_reports t) (t_seq t).
Definition set_forums v s t := Tables (t_users t) (t_prekeys t) v (t_posts t) (t_comments t)
  (t_profiles t) (t_friends t) (t_top8 t) (t_dm t) (t_motd t) (t_reports t) s.
Definition set_posts v s t := Tables (t_users t) (t_prekeys t) (t_forums t) v (t_comments t)
  (t_profiles t) (t_friends t) (t_top8 t) (t_dm t) (t_motd t) (t_reports t) s.
Definition set_comments v s t := Tables (t_users t) (t_prekeys t) (t_forums t) (t_posts t) v
  (t_profiles t) (t_friends t) (t_top8 t) (t_dm t) (t_motd t) (t_reports t) s.
Definition set_profiles v t := Tables (t_users t) (t_prekeys t) (t_forums t) (t_posts t)
  (t_comments t) v (t_friends t) (t_top8 t) (t_dm t) (t_motd t) (t_reports t) (t_seq t).
Definition set_friends v t := Tables (t_users t) (t_prekeys t) (t_forums t) (t_posts t)
  (t_comments t) (t_profiles t) v (t_top8 t) (t_dm t) (t_motd t) (t_reports t) (t_seq t).
Definition set_top8 v t := Tables (t_users t) (t_prekeys t) (t_forums t) (t_posts t)
  (t_comments t) (t_profiles t) (t_friends t) v (t_dm t) (t_motd t) (t_reports t) (t_seq t).
Definition set_dm v s t := Tables (t_users t) (t_prekeys t) (t_forums t) (t_posts t)
  (t_comments t) (t_profiles t) (t_friends t) (t_top8 t) v (t_motd t) (t_reports t) s.
Definition set_motd v s t := Tables (t_users t) (t_prekeys t) (t_forums t) (t_posts t)
  (t_comments t) (t_profiles t) (t_friends t) (t_top8 t) (t_dm t) v (t_reports t) s.
Definition set_reports v s t := Tables (t_users t) (t_prekeys t) (t_forums t) (t_posts t)
  (t_comments t) (t_profiles t) (t_friends t) (t_top8 t) (t_dm t) (t_motd t) v s.

(** The next AUTOINCREMENT value; past the largest rowid the insertion
    fails. *)
Definition next_id (seq : Z) : option Z := if seq <? 2 ^ 63 - 1 then Some (seq + 1) else None.

(** [COLLATE NOCASE] folds the 26 upper case letters of ASCII. *)
Definition fold_case (b : byte) : byte :=
  if in_range (chr "A") (chr "Z") b then byte_of (byte_val b + 32) else b.
Definition nocase (handle : bytes) : bytes := map fold_case handle.

(** ** The constraints, as the insertions meet them

    [None] is a violated constraint: the statement fails and changes
    nothing. *)

Definition has_user (id : Z) (t : tables) : bool := bool_decide (is_Some (t_users t !! id)).

Definition exists_row {A} (P : A → bool) (m : gmap Z A) : bool :=
  existsb (λ kv : Z * A, P kv.2) (map_to_list m).

Definition insert_user (pubkey handle : bytes) (t : tables) : option (tables * Z) :=
  if negb (size_of pubkey =? 32)
     || exists_row (λ r, bool_decide (users.pubkey r = pubkey)
                         || bool_decide (nocase (users.handle r) = nocase handle)) (t_users t)
  then None
  else
    match next_id (users_seq (t_seq t)) with
    | None => None
    | Some id =>
        let s := t_seq t in
        Some (set_users (<[id := users.Row pubkey handle false]> (t_users t))
                (Sequences id (forums_seq s) (posts_seq s) (comments_seq s) (dm_seq s)
                   (motd_seq s) (reports_seq s)) t, id)
    end.

Definition upsert_prekey (user_id : Z) (r : prekeys.row) (t : tables) : option tables :=
  if negb (has_user user_id t) || negb (size_of (prekeys.prekey r) =? 32)
     || negb (size_of (prekeys.signature r) =? 64)
  then None else Some (set_prekeys (<[user_id := r]> (t_prekeys t)) t).

Definition insert_forum (r : forums.row) (t : tables) : option (tables * Z) :=
  if negb (has_user (forums.founder_id r) t)
     || exists_row (λ r', bool_decide (forums.name r' = forums.name r)) (t_forums t)
  then None
  else
    match next_id (forums_seq (t_seq t)) with
    | None => None
    | Some id =>
        let s := t_seq t in
        Some (set_forums (<[id := r]> (t_forums t))
                (Sequences (users_seq s) id (posts_seq s) (comments_seq s) (dm_seq s)
                   (motd_seq s) (reports_seq s)) t, id)
    end.

Definition insert_post (r : posts.row) (t : tables) : option (tables * Z) :=
  if negb (has_user (posts.author_id r) t)
     || negb (bool_decide (is_Some (t_forums t !! posts.forum_id r)))
  then None
  else
    match next_id (posts_seq (t_seq t)) with
    | None => None
    | Some id =>
        let s := t_seq t in
        Some (set_posts (<[id := r]> (t_posts t))
                (Sequences (users_seq s) (forums_seq s) id (comments_seq s) (dm_seq s)
                   (motd_seq s) (reports_seq s)) t, id)
    end.

Definition insert_comment (r : comments.row) (t : tables) : option (tables * Z) :=
  if negb (has_user (comments.author_id r) t)
     || negb (bool_decide (is_Some (t_posts t !! comments.post_id r)))
     || match comments.parent_comment_id r with
        | Some parent => negb (bool_decide (is_Some (t_comments t !! parent)))
        | None => false
        end
  then None
  else
    match next_id (comments_seq (t_seq t)) with
    | None => None
    | Some id =>
        let s := t_seq t in
        Some (set_comments (<[id := r]> (t_comments t))
                (Sequences (users_seq s) (forums_seq s) (posts_seq s) id (dm_seq s)
                   (motd_seq s) (reports_seq s)) t, id)
    end.

Definition upsert_profile (user_id : Z) (r : profiles.row) (t : tables) : option tables :=
  if negb (has_user user_id t) then None
  else Some (set_profiles (<[user_id := r]> (t_profiles t)) t).

Definition upsert_friend (user_id friend_id status : Z) (t : tables) : option tables :=
  if negb (has_user user_id t) || negb (has_user friend_id t) || (user_id =? friend_id)
     || negb ((0 <=? status) && (status <=? 2))
  then None else Some (set_friends (<[(user_id, friend_id) := status]> (t_friends t)) t).

Definition insert_top8 (user_id slot friend_id : Z) (t : tables) : option tables :=
  if negb (has_user user_id t) || negb (has_user friend_id t)
     || negb ((0 <=? slot) && (slot <=? 7))
     || bool_decide (is_Some (t_top8 t !! (user_id, slot)))
  then None else Some (set_top8 (<[(user_id, slot) := friend_id]> (t_top8 t)) t).

Definition insert_dm (r : dm_envelopes.row) (t : tables) : option (tables * Z) :=
  if negb (has_user (dm_envelopes.recipient_id r) t)
     || negb (size_of (dm_envelopes.sender_pubkey r) =? 32)
  then None
  else
    match next_id (dm_seq (t_seq t)) with
    | None => None
    | Some id =>
        let s := t_seq t in
        Some (set_dm (<[id := r]> (t_dm t))
                (Sequences (users_seq s) (forums_seq s) (posts_seq s) (comments_seq s) id
                   (motd_seq s) (reports_seq s)) t, id)
    end.

Definition insert_motd (r : motd.row) (t : tables) : option (tables * Z) :=
  if motd.active r && exists_row motd.active (t_motd t) then None
  else
    match next_id (motd_seq (t_seq t)) with
    | None => None
    | Some id =>
        let s := t_seq t in
        Some (set_motd (<[id := r]> (t_motd t))
                (Sequences (users_seq s) (forums_seq s) (posts_seq s) (comments_seq s) (dm_seq s)
                   id (reports_seq s)) t, id)
    end.

Definition insert_report (r : reports.row) (t : tables) : option (tables * Z) :=
  if negb (bool_decide (reports.kind r = lit "post") || bool_decide (reports.kind r = lit "account"))
     || match reports.post_id r with
        | Some id => negb (bool_decide (is_Some (t_posts t !! id)))
        | None => false
        end
     || match reports.target_pubkey r with
        | Some key => negb (size_of key =? 32)
        | None => false
        end
     || negb (has_user (reports.reporter_id r) t)
  then None
  else
    match next_id (reports_seq (t_seq t)) with
    | None => None
    | Some id =>
        let s := t_seq t in
        Some (set_reports (<[id := r]> (t_reports t))
                (Sequences (users_seq s) (forums_seq s) (posts_seq s) (comments_seq s) (dm_seq s)
                   (motd_seq s) id) t, id)
    end.

(** ** Running statements *)

(** One database connection: the tables as it sees them, what a rollback
    would restore while a transaction is open, and the two values SQLite
    keeps about the last statement. *)
Record database := DatabaseState {
  db_tables : tables;
  saved : option tables;
  last_insert_id : Z;
  changed_row_count : Z;
}.

(** What is on disk: an open transaction has written nothing yet. *)
Definition durable (d : database) : tables := default (db_tables d) (saved d).

(** Everything the handlers share: the database, how often the environment
    was asked, and the log. *)
Record world := World {
  db : database;
  calls : nat;
  clock_reads : nat;
  entropy_reads : nat;
  log_entries : list (Z * log_level.t * bytes);
}.

Definition set_db (d : database) (w : world) : world :=
  World d (calls w) (clock_reads w) (entropy_reads w) (log_entries w).

Definition tick (w : world) : world :=
  World (db w) (S (calls w)) (clock_reads w) (entropy_reads w) (log_entries w).

Section running.
Context `{Environment}.

(** unix_clock.cpp *)
Definition get_unix_timestamp : state world Z := λ w,
  let seconds := system_clock (clock_reads w) in
  (if seconds <? 0 then 0 else seconds,
   World (db w) (calls w) (S (clock_reads w)) (entropy_reads w) (log_entries w)).

(** sodium_runtime.cpp *)
Definition fill_random_bytes (size : Z) : state world bytes := λ w,
  if size =? 0 then ([], w)
  else (random_bytes (entropy_reads w) size,
        World (db w) (calls w) (clock_reads w) (S (entropy_reads w)) (log_entries w)).

(** logger.cpp: an entry of an enabled level is written. *)
Definition write_entry (policy : logging_config) (entry_level : log_level.t) (message : bytes)
    : state world unit :=
  if (log_level.value (level policy) <=? log_level.value entry_level)
     && negb (bool_decide (level policy = log_level.silent))
  then
    let* now := get_unix_timestamp in
    smodify (λ w, World (db w) (calls w) (clock_reads w) (entropy_reads w)
                    (log_entries w ++ [(now, entry_level, message)]))
  else sret tt.

(** A call into SQLite that fails on its own account. *)
Definition fault (w : world) : database :=
  let d := db w in
  match saved d with
  | Some t => if sql_rolls_back (calls w)
              then DatabaseState t None (last_insert_id d) (changed_row_count d) else d
  | None => d
  end.

(** The constructor of [sql_statement] with its [bind_...] calls: a failed
    preparation makes every bind fail. *)
Definition prepare : state world bool := λ w, (negb (sql_fails (calls w)), tick w).

(** [step_row] of a statement that writes: is the answer [done]? The
    statement gives the new tables, the rowid it inserted and the number of
    rows it changed, or violates a constraint. *)
Record written := Written { new_tables : tables; inserted : option Z; changed : Z }.

Definition step_done (statement : tables → option written) : state world bool := λ w,
  if sql_fails (calls w) then (false, tick (set_db (fault w) w))
  else match statement (db_tables (db w)) with
       | None => (false, tick w)
       | Some o =>
           (true, tick (set_db (DatabaseState (new_tables o) (saved (db w))
                                  (default (last_insert_id (db w)) (inserted o)) (changed o)) w))
       end.

(** [step_row] of a query: the next of its rows, if the answer is [row]. *)
Definition step_row {A} (rows : list A) : state world (option A) := λ w,
  if sql_fails (calls w) then (None, tick (set_db (fault w) w)) else (head rows, tick w).

Definition query {A} (q : tables → A) : state world A := sgets (λ w, q (db_tables (db w))).

Definition get_last_insert_id : state world Z := sgets (λ w, last_insert_id (db w)).
Definition get_changed_row_count : state world Z := sgets (λ w, changed_row_count (db w)).

(** A statement run once: prepared, bound and stepped. *)
Definition run_statement (statement : tables → option written) : state world bool :=
  let* ready := prepare in
  if negb ready then sret false else step_done statement.

(** [while (statement.step_row() == step_result::row) { ... }]: the body
    gives the accumulators after a row and whether to go on, or fails
    ([return false]). *)
Fixpoint while_rows {A S} (body : A → S → option (S * bool)) (rows : list A) (out : S)
    : state world (option S) :=
  match rows with
  | [] => do* step_row (@nil A) in sret (Some out)
  | row :: rows' =>
      let* answer := step_row (row :: rows') in
      match answer with
      | None => sret (Some out)
      | Some row =>
          match body row out with
          | None => sret None
          | Some (out', false) => sret (Some out')
          | Some (out', true) => while_rows body rows' out'
          end
      end
  end.

(** A loop that reads every row into a record. *)
Definition read_rows {A B} (read : A → option B) (rows : list A) : state world (option (list B)) :=
  while_rows (λ row out, match read row with
                         | None => None
                         | Some record => Some (out ++ [record], true)
                         end) rows [].

(** The same, stopping at [limit] records; [true] when rows were left. *)
Definition read_rows_limited {A B} (read : A → option B) (limit : Z) (rows : list A)
    : state world (option (list B * bool)) :=
  while_rows (λ row out,
                if limit <=? size_of out.1 then Some ((out.1, true), false)
                else match read row with
                     | None => None
                     | Some record => Some ((out.1 ++ [record], false), true)
                     end) rows ([], false).

(** ** [execute_script], for the scripts of the program *)

Inductive script :=
  | begin_immediate | commit | rollback | checkpoint
  | update (statement : tables → option written).

(** [BEGIN] fails inside a transaction, [COMMIT] and [ROLLBACK] outside of
    one, and a checkpoint cannot run inside one. *)
Definition run_script (s : script) (d : database) : option database :=
  match s, saved d with
  | begin_immediate, None =>
      Some (DatabaseState (db_tables d) (Some (db_tables d)) (last_insert_id d) (changed_row_count d))
  | begin_immediate, Some _ => None
  | commit, Some _ =>
      Some (DatabaseState (db_tables d) None (last_insert_id d) (changed_row_count d))
  | commit, None => None
  | rollback, Some t =>
      Some (DatabaseState t None (last_insert_id d) (changed_row_count d))
  | rollback, None => None
  | checkpoint, None => Some d
  | checkpoint, Some _ => None
  | update statement, _ =>
      match statement (db_tables d) with
      | None => None
      | Some o => Some (DatabaseState (new_tables o) (saved d)
                          (default (last_insert_id d) (inserted o)) (changed o))
      end
  end.

(** The error message is the engine's. *)
Definition execute_script (s : script) : state world (bool * bytes) := λ w,
  if sql_fails (calls w) then ((false, sql_error (calls w)), tick (set_db (fault w) w))
  else match run_script s (db w) with
       | None => ((false, sql_error (calls w)), tick w)
       | Some d => ((true, []), tick (set_db d w))
       end.

Definition execute (s : script) : state world bool :=
  let* result := execute_script s in sret result.1.
End running.
