(* ===== verification/Migrations.v ===== *)
(** Bringing a database to the current schema
    (server/db/migration_runner.cpp): the scripts of a directory, in the order
    of their names, each in a transaction of its own with the record that it
    ran. What a script does to a schema is SQLite's business, so the schema and
    the effect of a script are parameters; the transactions, the failures and
    the record of the scripts are not. Scripts hold no transaction control of
    their own (those of db/migrations do not). *)

From S2P Require Import Prelude.
From S2P Require Import TextTools.
From S2P Require Import Config.
From S2P Require Import Database.

Record migration_file := MigrationFile {
  migration_name : bytes;
  (** [None] when the file cannot be opened *)
  migration_script : option bytes;
}.

(** [std::string]'s order: the bytes, unsigned, a prefix first. *)
Fixpoint bytes_le (l k : bytes) : bool :=
  match l, k with
  | [], _ => true
  | _ :: _, [] => false
  | b :: l, c :: k => if byte_val b =? byte_val c then bytes_le l k else byte_val b <? byte_val c
  end.

(** Is this the name of a script: its extension is [.sql]. *)
Definition is_sql_file (name : bytes) : bool :=
  ends_with (lit ".sql") name && negb (bool_decide (name = lit ".sql")).

Fixpoint insert_by_name (file : migration_file) (files : list migration_file) : list migration_file :=
  match files with
  | [] => [file]
  | other :: rest =>
      if bytes_le (migration_name file) (migration_name other) then file :: files
      else other :: insert_by_name file rest
  end.

Definition sort_by_name (files : list migration_file) : list migration_file := foldr insert_by_name [] files.

Section migrations.
Context `{Environment}.
Context {Schema : Type}.
(** A script run to its end or to its first error. *)
Context (run_script : bytes → Schema → Schema * option bytes).

(** A database: its schema, and [schema_migrations]. *)
Record content := Content { schema : Schema; applied_at : gmap bytes Z }.

Record connection := Connection {
  committed : content;
  transaction : option content;
  engine_calls : nat;
  clock_readings : nat;
  notices : list (Z * log_level.t * bytes);
}.

Definition current (c : connection) : content := default (committed c) (transaction c).

Definition set_transaction (x : option content) (c : connection) : connection :=
  Connection (committed c) x (S (engine_calls c)) (clock_readings c) (notices c).

(** What a statement leaves: in the transaction, or at once without one. *)
Definition put_current (x : content) (c : connection) : connection :=
  match transaction c with
  | Some _ => set_transaction (Some x) c
  | None => Connection x None (S (engine_calls c)) (clock_readings c) (notices c)
  end.

(** A call that fails on the engine's account, which may end the transaction. *)
Definition engine_fault (c : connection) : connection :=
  set_transaction (if sql_rolls_back (engine_calls c) then None else transaction c) c.

(** [execute_script]: the error, or nothing. *)
Definition execute_script (effect : content → content * option bytes) : state connection (option bytes) := λ c,
  if sql_fails (engine_calls c) then (Some (sql_error (engine_calls c)), engine_fault c)
  else let '(x, error) := effect (current c) in (error, put_current x c).

Definition begin_immediate : state connection (option bytes) := λ c,
  if sql_fails (engine_calls c) then (Some (sql_error (engine_calls c)), engine_fault c)
  else match transaction c with
       | Some _ => (Some (lit "cannot start a transaction within a transaction"), set_transaction (transaction c) c)
       | None => (None, set_transaction (Some (committed c)) c)
       end.

Definition commit : state connection (option bytes) := λ c,
  if sql_fails (engine_calls c) then (Some (sql_error (engine_calls c)), engine_fault c)
  else match transaction c with
       | None => (Some (lit "cannot commit - no transaction is active"), set_transaction None c)
       | Some x => (None, Connection x None (S (engine_calls c)) (clock_readings c) (notices c))
       end.

Definition rollback : state connection (option bytes) := λ c,
  if sql_fails (engine_calls c) then (Some (sql_error (engine_calls c)), engine_fault c)
  else match transaction c with
       | None => (Some (lit "cannot rollback - no transaction is active"), set_transaction None c)
       | Some _ => (None, set_transaction None c)
       end.

(** ** migration_runner.cpp *)

(** [entries] is the directory: its regular files, or [None] when there is no
    such directory. *)
Definition collect_migration_files (directory : bytes) (entries : option (list migration_file))
    : bytes + list migration_file :=
  match entries with
  | None => inl (lit "repertoire de migrations introuvable : " ++ directory)
  | Some entries => inr (sort_by_name (filter (λ file, is_sql_file (migration_name file)) entries))
  end.

(** Preparing and binding a statement. *)
Definition bind_statement : state connection bool := λ c,
  (negb (sql_fails (engine_calls c)), set_transaction (transaction c) c).

Definition is_already_applied (name : bytes) : state connection (option bool) :=
  let* bound := bind_statement in
  if negb bound then sret None
  else λ c,
    if sql_fails (engine_calls c) then (None, engine_fault c)
    else (Some (bool_decide (is_Some (applied_at (current c) !! name))), set_transaction (transaction c) c).

Definition read_clock : state connection Z := λ c,
  let seconds := system_clock (clock_readings c) in
  (if seconds <? 0 then 0 else seconds,
   Connection (committed c) (transaction c) (engine_calls c) (S (clock_readings c)) (notices c)).

(** The row, whose name is a primary key. *)
Definition record_row (name : bytes) (now : Z) (x : content) : content * option bytes :=
  match applied_at x !! name with
  | Some _ => (x, Some (lit "UNIQUE constraint failed: schema_migrations.name"))
  | None => (Content (schema x) (<[name := now]> (applied_at x)), None)
  end.

Definition record_applied_migration (name : bytes) : state connection (option bytes) :=
  let* bound := bind_statement in
  if negb bound then sret (Some (lit "liaison impossible pour schema_migrations"))
  else
    let* now := read_clock in
    let* failure := execute_script (record_row name now) in
    sret (match failure with
          | Some _ => Some (lit "enregistrement de la migration " ++ name ++ lit " impossible")
          | None => None
          end).

Definition run_effect (script : bytes) (x : content) : content * option bytes :=
  let '(s, error) := run_script script (schema x) in (Content s (applied_at x), error).

(** The error that is shown after a rollback. *)
Definition migration_failure (name error : bytes) : bytes :=
  name ++ lit " : " ++ error ++ newline ++
  lit "  La base n'a pas ete modifiee. Voir docs/ADMIN.md, section « Migrations », pour resoudre puis relancer.".

Definition apply_one_migration (file : migration_file) : state connection (option bytes) :=
  match migration_script file with
  | None => sret (Some (lit "lecture impossible : " ++ migration_name file))
  | Some script =>
      let* failure := begin_immediate in
      match failure with
      | Some error => sret (Some error)
      | None =>
          let* failure :=
            (let* failure := execute_script (run_effect script) in
             match failure with
             | Some error => sret (Some error)
             | None => record_applied_migration (migration_name file)
             end) in
          match failure with
          | Some error => do* rollback in sret (Some (migration_failure (migration_name file) error))
          | None => commit
          end
      end
  end.

(** [logger::write_entry] *)
Definition write_notice (policy : logging_config) (text : bytes) : state connection unit :=
  if (log_level.value (level policy) <=? log_level.value log_level.info) && negb (bool_decide (level policy = log_level.silent))
  then
    let* now := read_clock in
    smodify (λ c, Connection (committed c) (transaction c) (engine_calls c) (clock_readings c)
                    (notices c ++ [(now, log_level.info, text)]))
  else sret tt.

Fixpoint apply_files (policy : logging_config) (files : list migration_file) : state connection (option bytes) :=
  match files with
  | [] => sret None
  | file :: files =>
      let* applied := is_already_applied (migration_name file) in
      match applied with
      | None => sret (Some (lit "lecture de schema_migrations impossible"))
      | Some true => apply_files policy files
      | Some false =>
          do* write_notice policy (lit "application de la migration " ++ migration_name file) in
          let* failure := apply_one_migration file in
          match failure with
          | Some error => sret (Some error)
          | None => apply_files policy files
          end
      end
  end.

(** The error, or nothing. *)
Definition apply_pending_migrations (policy : logging_config) (directory : bytes)
    (entries : option (list migration_file)) : state connection (option bytes) :=
  let* failure := execute_script (λ x, (x, None)) in
  match failure with
  | Some error => sret (Some error)
  | None =>
      match collect_migration_files directory entries with
      | inl error => sret (Some error)
      | inr files => apply_files policy files
      end
  end.

(** ** What a run leaves *)

(** The scripts of a list, run in its order from one content to another,
    those already recorded left out. *)
Inductive migrated : list migration_file → content → content → Prop :=
  | migrated_nil x : migrated [] x x
  | migrated_skip file files x y :
      is_Some (applied_at x !! migration_name file) → migrated files x y → migrated (file :: files) x y
  | migrated_run file files x y script s now :
      migration_script file = Some script → applied_at x !! migration_name file = None →
      run_script script (schema x) = (s, None) →
      migrated files (Content s (<[migration_name file := now]> (applied_at x))) y →
      migrated (file :: files) x y.

(** Inside a transaction nothing is committed. *)
Lemma execute_in_transaction effect c x r c' : transaction c = Some x → execute_script effect c = (r, c') →
  committed c' = committed c ∧ (r = None → transaction c' = Some (effect x).1 ∧ (effect x).2 = None).
Proof.
  intros Ht. unfold execute_script, engine_fault, put_current, current. rewrite Ht.
  destruct (sql_fails (engine_calls c)); [by intros [= <- <-]|]. cbn [default id].
  destruct (effect x) as [y error]. intros [= <- <-]. split; [done|]. by intros ->.
Qed.

Lemma record_in_transaction name c x r c' : transaction c = Some x → record_applied_migration name c = (r, c') →
  committed c' = committed c ∧
  (r = None → ∃ now, transaction c' = Some (Content (schema x) (<[name := now]> (applied_at x)))).
Proof.
  intros Ht. unfold record_applied_migration, bind_statement, read_clock, sbind. cbn.
  destruct (sql_fails (engine_calls c)); cbn; [by intros [= <- <-]|].
  set (now := if _ <? 0 then _ else _). set (c1 := Connection _ _ _ _ _).
  destruct (execute_script (record_row name now) c1) as [r' c2] eqn:E.
  apply (execute_in_transaction _ c1 x) in E as [Hc Hr]; [|done].
  intros [= <- <-]. split; [done|]. destruct r'; [done|]. intros _. destruct (Hr eq_refl) as [E1 E2].
  exists now. revert E1 E2. unfold record_row. by destruct (applied_at x !! name).
Qed.

Lemma rollback_commits_nothing c r c' : rollback c = (r, c') → committed c' = committed c.
Proof.
  unfold rollback, engine_fault. destruct (sql_fails _); [by intros [= _ <-]|].
  by destruct (transaction c); intros [= _ <-].
Qed.

(** The script and its record, in the transaction. *)
Lemma script_in_transaction script name c x r c' : transaction c = Some x →
  (let* failure := execute_script (run_effect script) in
   match failure with
   | Some error => sret (Some error)
   | None => record_applied_migration name
   end) c = (r, c') →
  committed c' = committed c ∧
  (r = None → ∃ s now, run_script script (schema x) = (s, None) ∧
                       transaction c' = Some (Content s (<[name := now]> (applied_at x)))).
Proof.
  intros Ht. unfold sbind.
  destruct (execute_script (run_effect script) c) as [r1 c1] eqn:E1.
  apply (execute_in_transaction _ c x) in E1 as [Hc1 Hr1]; [|done].
  destruct r1 as [error|]; [by intros [= <- <-]|]. destruct (Hr1 eq_refl) as [Ht1 Hs]. intros E2.
  apply (record_in_transaction name c1 _ _ _ Ht1) in E2 as [Hc2 Hr2]. split; [congruence|].
  intros Hr. destruct (Hr2 Hr) as [now Ht2]. unfold run_effect in *.
  destruct (run_script script (schema x)) as [s error]. exists s, now. by simpl in *; subst.
Qed.

(** One script: all of it, or nothing. *)
Lemma apply_one_spec file c r c' : transaction c = None → apply_one_migration file c = (r, c') →
  match r with
  | Some _ => committed c' = committed c
  | None => transaction c' = None ∧
      ∃ script s now, migration_script file = Some script ∧ run_script script (schema (committed c)) = (s, None) ∧
        committed c' = Content s (<[migration_name file := now]> (applied_at (committed c)))
  end.
Proof.
  intros Ht. unfold apply_one_migration. destruct (migration_script file) as [script|]; [|by intros [= <- <-]].
  unfold sbind at 1. unfold begin_immediate, engine_fault. rewrite Ht.
  destruct (sql_fails (engine_calls c)); [by intros [= <- <-]|]. unfold sbind at 1.
  set (c1 := set_transaction _ c).
  destruct ((let* failure := _ in _) c1) as [r2 c2] eqn:E2.
  apply (script_in_transaction _ _ c1 (committed c)) in E2 as [Hc2 Hr2]; [|done].
  destruct r2 as [error|].
  - unfold sbind. destruct (rollback c2) as [r3 c3] eqn:E3. intros [= <- <-].
    by rewrite (rollback_commits_nothing _ _ _ E3).
  - destruct (Hr2 eq_refl) as (s & now & Hs & Ht2). unfold commit, engine_fault. rewrite Ht2.
    destruct (sql_fails (engine_calls c2)); intros [= <- <-]; [done|]. cbn. split; [done|]. by exists script, s, now.
Qed.

(** Outside a transaction: what leaves the database as it is. *)
Definition same_content (c c' : connection) : Prop := committed c' = committed c ∧ transaction c' = None.

Lemma is_already_applied_spec name c r c' : transaction c = None → is_already_applied name c = (r, c') →
  same_content c c' ∧ (∀ b, r = Some b → b = bool_decide (is_Some (applied_at (committed c) !! name))).
Proof.
  intros Ht. unfold is_already_applied, bind_statement, engine_fault, current, sbind, sret. cbn.
  destruct (sql_fails (engine_calls c)); cbn; [by intros [= <- <-]|]. rewrite !Ht.
  destruct (sql_fails (S (engine_calls c))); intros [= <- <-]; (split; [split; [done|cbn; by repeat case_match]|by intros ? [= <-]]).
Qed.

Lemma write_notice_same policy text c : transaction c = None → same_content c (write_notice policy text c).2.
Proof. intros Ht. unfold write_notice. by repeat case_match. Qed.

Lemma same_content_trans c1 c2 c3 : same_content c1 c2 → same_content c2 c3 → same_content c1 c3.
Proof. intros [? ?] [? ?]. split; congruence. Qed.

(** The scripts before the first failure ran, and no other did. *)
Lemma apply_files_spec policy files c r c' : transaction c = None → apply_files policy files c = (r, c') →
  ∃ done rest, files = done ++ rest ∧ migrated done (committed c) (committed c') ∧
    (r = None → rest = [] ∧ transaction c' = None).
Proof.
  revert c. induction files as [|file files IH]; intros c Ht; cbn [apply_files].
  { intros [= <- <-]. exists [], []. split_and!; [done|constructor|done]. }
  unfold sbind at 1. destruct (is_already_applied (migration_name file) c) as [r1 c1] eqn:E1.
  destruct (is_already_applied_spec _ _ _ _ Ht E1) as [[Hc1 Ht1] Hb].
  destruct r1 as [[|]|].
  - intros E. destruct (IH c1 Ht1 E) as (done & rest & -> & Hm & Hr). exists (file :: done), rest.
    split_and!; [done| |done]. apply migrated_skip; [|congruence].
    specialize (Hb true eq_refl). by symmetry in Hb; apply bool_decide_eq_true in Hb.
  - unfold sbind at 1.
    destruct (write_notice policy (lit "application de la migration " ++ migration_name file) c1) as [u c2] eqn:E2.
    pose proof (write_notice_same policy (lit "application de la migration " ++ migration_name file) c1 Ht1) as [Hc2 Ht2].
    rewrite E2 in Hc2, Ht2. cbn [snd] in Hc2, Ht2. unfold sbind at 1.
    destruct (apply_one_migration file c2) as [r3 c3] eqn:E3. apply (apply_one_spec _ _ _ _ Ht2) in E3.
    assert (committed c2 = committed c) as Hc by congruence. rewrite Hc in E3.
    destruct r3 as [error|].
    + intros [= <- <-]. exists [], (file :: files). rewrite E3. split_and!; [done|constructor|done].
    + destruct E3 as (Ht3 & script & s & now & Hscript & Hrun & Hc3). intros E.
      destruct (IH c3 Ht3 E) as (done & rest & -> & Hm & Hr). exists (file :: done), rest.
      split_and!; [done| |done]. rewrite Hc3 in Hm. eapply migrated_run; eauto.
      specialize (Hb false eq_refl). symmetry in Hb; apply bool_decide_eq_false in Hb.
      by apply eq_None_not_Some.
  - intros [= <- <-]. exists [], (file :: files). rewrite Hc1. split_and!; [done|constructor|done].
Qed.

Lemma execute_create_table c r c' : transaction c = None →
  execute_script (λ x, (x, None)) c = (r, c') → same_content c c'.
Proof.
  intros Ht. unfold execute_script, engine_fault, put_current, current. rewrite Ht.
  destruct (sql_fails (engine_calls c)); intros [= _ <-]; [|done]. split; [done|]. cbn. by repeat case_match.
Qed.

Lemma migrated_keeps files x y name : migrated files x y → is_Some (applied_at x !! name) → is_Some (applied_at y !! name).
Proof.
  induction 1 as [|? ? ? ? _ _ IH|f fs x y script s now _ Hnone _ _ IH]; auto. intros Hx. apply IH. cbn.
  destruct (decide (migration_name f = name)) as [<-|Hne]; [by rewrite lookup_insert_eq|by rewrite lookup_insert_ne].
Qed.

(** Every script of a finished run is recorded. *)
Lemma migrated_records files x y : migrated files x y →
  Forall (λ file, is_Some (applied_at y !! migration_name file)) files.
Proof.
  induction 1 as [|f fs x y Hin Hm IH|f fs x y script s now _ _ _ Hm IH]; [done| |]; constructor; try done.
  - by eapply migrated_keeps.
  - eapply migrated_keeps; [exact Hm|]. cbn. by rewrite lookup_insert_eq.
Qed.

(** Recorded scripts are left out. *)
Lemma migrated_recorded files x y :
  Forall (λ file, is_Some (applied_at x !! migration_name file)) files → migrated files x y → y = x.
Proof.
  intros Hf Hm. induction Hm as [|f fs x y _ _ IH|f fs x y script s now _ Hnone _ _ _]; [done| |].
  - apply IH. by apply Forall_inv_tail in Hf.
  - apply Forall_inv in Hf. rewrite Hnone in Hf. by destruct Hf.
Qed.

Lemma pending_spec policy directory entries c r c' : transaction c = None →
  apply_pending_migrations policy directory entries c = (r, c') →
  ∃ done rest, migrated done (committed c) (committed c') ∧
    (∀ files, collect_migration_files directory entries = inr files → files = done ++ rest) ∧
    (r = None → collect_migration_files directory entries = inr done ∧ transaction c' = None).
Proof.
  intros Ht. unfold apply_pending_migrations. unfold sbind at 1.
  destruct (execute_script _ c) as [r1 c1] eqn:E1. destruct (execute_create_table _ _ _ Ht E1) as [Hc1 Ht1].
  destruct r1 as [error|].
  { intros [= <- <-]. rewrite Hc1.
    exists [], (default [] (match collect_migration_files directory entries with inr files => Some files | _ => None end)).
    split_and!; [constructor| |done]. by intros files ->. }
  destruct (collect_migration_files directory entries) as [error|files] eqn:Ec.
  { intros [= <- <-]. rewrite Hc1. exists [], []. by split_and!; [constructor| |]. }
  intros E. destruct (apply_files_spec _ _ _ _ _ Ht1 E) as (done & rest & -> & Hm & Hr).
  exists done, rest. rewrite Hc1 in Hm. split_and!; [done|by intros ? [= <-]|].
  intros ->. destruct (Hr eq_refl) as [-> ?]. by rewrite app_nil_r.
Qed.
End migrations.

Section guarantees.
Context `{Environment} {Schema : Type} (run_script : bytes → Schema → Schema * option bytes).

(** C27: whatever calls into SQLite fail, a run leaves the database with the
    first scripts of the directory, in the order of their names and each
    applied once and recorded, and nothing of the others; it reports success
    only when none is left; and after a success another run, whatever then
    fails, changes nothing. *)
Theorem migrations_all_or_nothing (policy : logging_config) (directory : bytes)
    (entries : option (list migration_file)) (c c' : connection) (r : option bytes)
    (Hclosed : transaction c = None)
    (Hrun : apply_pending_migrations run_script policy directory entries c = (r, c')) :
  ∃ done rest,
    migrated run_script done (committed c) (committed c') ∧
    (∀ files, collect_migration_files directory entries = inr files → files = done ++ rest) ∧
    (r = None →
       collect_migration_files directory entries = inr done ∧
       ∀ c2, transaction c2 = None → committed c2 = committed c' →
         committed (apply_pending_migrations run_script policy directory entries c2).2 = committed c').
Proof.
  destruct (pending_spec _ _ _ _ _ _ _ Hclosed Hrun) as (done & rest & Hm & Hf & Hr).
  exists done, rest. split_and!; [done..|]. intros Hok. destruct (Hr Hok) as [Hc _]. split; [done|].
  intros c2 Ht2 Hc2. destruct (apply_pending_migrations run_script policy directory entries c2) as [r3 c3] eqn:E3.
  destruct (pending_spec _ _ _ _ _ _ _ Ht2 E3) as (done3 & rest3 & Hm3 & Hf3 & _). cbn [snd]. rewrite Hc2 in Hm3.
  apply (migrated_recorded run_script done3 _ _); [|exact Hm3].
  pose proof (migrated_records _ _ _ _ Hm) as Hall. rewrite (Hf3 _ Hc) in Hall. by apply Forall_app in Hall as [? _].
Qed.
End guarantees.

(** ** Witness *)

Section witnesses.
#[local] Instance second_commit_fails : Environment := {|
  sql_fails n := Nat.eqb n 14; sql_error := λ _, lit "disk I/O error"; sql_rolls_back := λ _, true;
  order_rows A _ l := l; system_clock := λ _, 1700000000; random_bytes _ _ := []; random_keypair := λ _, None |}.

(** A schema as the list of the scripts that made it. *)
Definition append_script (script : bytes) (schema : list bytes) : list bytes * option bytes :=
  (schema ++ [script], None).

Definition script_directory : option (list migration_file) :=
  Some [MigrationFile (lit "0002_users.sql") (Some (lit "B")); MigrationFile (lit "README") None;
        MigrationFile (lit "0001_schema.sql") (Some (lit "A"))].

Definition new_database : connection (Schema := list bytes) := Connection (Content [] ∅) None 0 0 [].

(** The commit of the second script fails: the first one stays. *)
Lemma migrations_all_or_nothing_witness :
  ∃ r c', apply_pending_migrations append_script (logging default_config) (lit "db/migrations") script_directory
            new_database = (r, c') ∧
    is_Some r ∧ schema (committed c') = [lit "A"] ∧
    ∃ done rest, migrated append_script done (Content [] ∅) (committed c') ∧
      (∀ files, collect_migration_files (lit "db/migrations") script_directory = inr files → files = done ++ rest).
Proof.
  destruct (apply_pending_migrations append_script (logging default_config) (lit "db/migrations") script_directory
              new_database) as [r c'] eqn:E.
  exists r, c'. split; [reflexivity|].
  destruct (migrations_all_or_nothing append_script _ _ _ _ _ _ (eq_refl : transaction new_database = None) E) as (done & rest & Hm & Hf & _).
  pose proof E as E'. vm_compute in E'. injection E' as Er Ec.
  split; [rewrite <-Er; by eexists|]. split; [rewrite <-Ec; reflexivity|].
  exists done, rest. split; [exact Hm|exact Hf].
Defined.
End witnesses.
