(* ===== verification/ClientNet.v ===== *)
(** The client's end of a connection (client/net): the socket
    (tcp_client_socket.cpp), the SOCKS5 proxy (socks5_connector.cpp), the
    encrypted connection (server_connection.cpp) and the exchange of messages
    (message_exchange.hpp).

    The network is the answers it gives: whether a host can be reached, and
    what the successive calls of [recv] and [send] return; after the last
    answer [recv] times out and [send] takes everything. *)

From S2P Require Import Prelude.
From S2P Require Import Wire.
From S2P Require Import Framing.
From S2P Require Import TextTools.
From S2P Require Import SessionMessages.
From S2P Require Import Sodium.
From S2P Require Import Noise.
From S2P Require Import Connection.
From S2P Require Import Keystore.

(** ** tcp_client_socket.cpp *)

Definition CLIENT_READ_CHUNK_SIZE : Z := 16 * 1024.

Record tcp_client_socket := ClientSocket {
  connected : bool;
  sent_bytes : bytes;
  dialled : list (bytes * Z);
  recv_answers : list recv_result;
  send_answers : list send_result;
}.

(** What became of [getaddrinfo] and of the attempts to connect. *)
Inductive dial_result := HostUnknown | Refused | Connected.

(** [network] answers for a host and a port. The result is the error. *)
Definition connect_to_host (network : bytes → Z → dial_result) (host : bytes) (port : Z)
    : state tcp_client_socket (option bytes) := λ s,
  let after connected :=
    ClientSocket connected [] (dialled s ++ [(host, port)]) (recv_answers s) (send_answers s) in
  match network host port with
  | HostUnknown => (Some (lit "hote introuvable : " ++ host), after false)
  | Refused => (Some (lit "connexion refusee : " ++ host ++ lit ":" ++ decimal port), after false)
  | Connected => (None, after true)
  end.

(** The loop over the calls of [send]: the verdict, the answers left and what
    went out. *)
Fixpoint send_loop (answers : list send_result) (data : bytes) : bool * list send_result * bytes :=
  match data with
  | [] => (true, answers, [])
  | _ :: _ =>
      match answers with
      | [] => (true, [], data)
      | Sent O :: answers => (false, answers, [])
      | Sent n :: answers =>
          let '(ok, answers, out) := send_loop answers (drop n data) in (ok, answers, take n data ++ out)
      | SendInterrupted :: answers => send_loop answers data
      | SendError :: answers => (false, answers, [])
      end
  end.

(** Without a connection the call fails. *)
Definition send_all (data : bytes) : state tcp_client_socket bool := λ s,
  if negb (connected s) then (bool_decide (data = []), s)
  else
    let '(ok, answers, out) := send_loop (send_answers s) data in
    (ok, ClientSocket true (sent_bytes s ++ out) (dialled s) (recv_answers s) answers).

(** One call of [recv]: is the connection still there, and the buffer. *)
Definition receive_available (destination : bytes) : state tcp_client_socket (bool * bytes) := λ s,
  let after answers := ClientSocket (connected s) (sent_bytes s) (dialled s) answers (send_answers s) in
  if negb (connected s) then ((false, destination), s)
  else
  match recv_answers s with
  | [] => ((true, destination), after [])
  | Received data :: answers => ((true, destination ++ data), after answers)
  | RecvInterrupted :: answers => ((true, destination), after answers)
  | EndOfStream :: answers | RecvError :: answers => ((false, destination), after answers)
  end.

(** ** socks5_connector.cpp *)

Definition SOCKS_VERSION : Z := 0x05.
Definition AUTH_NONE : Z := 0x00.
Definition COMMAND_CONNECT : Z := 0x01.
Definition ADDRESS_TYPE_DOMAIN : Z := 0x03.
Definition ADDRESS_TYPE_IPV4 : Z := 0x01.
Definition ADDRESS_TYPE_IPV6 : Z := 0x04.
Definition REPLY_SUCCESS : Z := 0x00.
Definition MAX_DOMAIN_LENGTH : Z := 255.
Definition MAX_READ_ATTEMPTS : nat := 150.

Definition describe_reply_code (code : Z) : bytes :=
  if code =? 1 then lit "echec general du proxy"
  else if code =? 2 then lit "connexion refusee par la regle du proxy"
  else if code =? 3 then lit "reseau injoignable"
  else if code =? 4 then lit "hote injoignable : l'adresse .onion existe-t-elle ?"
  else if code =? 5 then lit "connexion refusee par la cible"
  else if code =? 6 then lit "delai expire"
  else if code =? 7 then lit "commande non supportee par le proxy"
  else if code =? 8 then lit "type d'adresse non supporte par le proxy"
  else lit "code de reponse inconnu".

(** The loop of [read_exactly]. *)
Fixpoint read_attempts (attempts : nat) (buffer : bytes) (needed : Z)
    : state tcp_client_socket (option bytes * bytes) :=
  match attempts with
  | O => sret (None, buffer)
  | S attempts =>
      if negb (size_of buffer <? needed) then sret (None, buffer)
      else
        let* '(alive, buffer) := receive_available buffer in
        if negb alive then sret (Some (lit "proxy SOCKS5 : connexion fermee pendant la negociation"), buffer)
        else read_attempts attempts buffer needed
  end.

(** The error, and the buffer. *)
Definition read_exactly (buffer : bytes) (needed : Z) : state tcp_client_socket (option bytes * bytes) :=
  let* '(failure, buffer) := read_attempts MAX_READ_ATTEMPTS buffer needed in
  match failure with
  | Some error => sret (Some error, buffer)
  | None =>
      if size_of buffer <? needed then
        sret (Some (lit "proxy SOCKS5 : aucune reponse. Tor est-il demarre ?"), buffer)
      else sret (None, buffer)
  end.

Definition reply_byte (reply : bytes) (index : nat) : Z := byte_val (reply !!! index).

Definition negotiate_no_auth : state tcp_client_socket (option bytes) :=
  let* sent := send_all (map byte_of [SOCKS_VERSION; 1; AUTH_NONE]) in
  if negb sent then sret (Some (lit "proxy SOCKS5 : envoi impossible. Tor ecoute-t-il ?"))
  else
    let* '(failure, reply) := read_exactly [] 2 in
    match failure with
    | Some error => sret (Some error)
    | None =>
        if negb (reply_byte reply 0 =? SOCKS_VERSION) || negb (reply_byte reply 1 =? AUTH_NONE)
        then sret (Some (lit "proxy SOCKS5 : le proxy exige une authentification"))
        else sret None
    end.

Definition connect_request (host : bytes) (port : Z) : bytes :=
  map byte_of [SOCKS_VERSION; COMMAND_CONNECT; 0; ADDRESS_TYPE_DOMAIN; size_of host] ++ host ++
  map byte_of [Z.shiftr port 8; Z.land port 0xFF].

Definition send_connect_request (host : bytes) (port : Z) : state tcp_client_socket (option bytes) :=
  if bool_decide (host = []) || (MAX_DOMAIN_LENGTH <? size_of host) then
    sret (Some (lit "proxy SOCKS5 : nom d'hote de longueur invalide"))
  else
    let* sent := send_all (connect_request host port) in
    if negb sent then sret (Some (lit "proxy SOCKS5 : envoi de la demande impossible")) else sret None.

Definition measure_bound_address (address_type first_byte : Z) : Z :=
  if address_type =? ADDRESS_TYPE_IPV4 then 4
  else if address_type =? ADDRESS_TYPE_IPV6 then 16
  else if address_type =? ADDRESS_TYPE_DOMAIN then first_byte + 1
  else 0.

(** The error, or nothing. *)
Definition perform_socks5_connect (target_host : bytes) (target_port : Z) : state tcp_client_socket (option bytes) :=
  let* failure := negotiate_no_auth in
  match failure with
  | Some error => sret (Some error)
  | None =>
      let* failure := send_connect_request target_host target_port in
      match failure with
      | Some error => sret (Some error)
      | None =>
          let* '(failure, reply) := read_exactly [] 5 in
          match failure with
          | Some error => sret (Some error)
          | None =>
              if negb (reply_byte reply 0 =? SOCKS_VERSION) then
                sret (Some (lit "proxy SOCKS5 : reponse non conforme"))
              else if negb (reply_byte reply 1 =? REPLY_SUCCESS) then
                sret (Some (lit "proxy SOCKS5 : " ++ describe_reply_code (reply_byte reply 1)))
              else
                let address_size := measure_bound_address (reply_byte reply 3) (reply_byte reply 4) in
                if address_size =? 0 then
                  sret (Some (lit "proxy SOCKS5 : type d'adresse inattendu dans la reponse"))
                else
                  let* '(failure, _) := read_exactly reply (4 + address_size + 2) in sret failure
          end
      end
  end.

(** ** server_connection.cpp *)

Definition CLIENT_MAX_NOISE_MESSAGE_SIZE : Z := MAX_FRAME_SIZE + AEAD_TAG_SIZE.
Definition MAX_RECEIVE_ATTEMPTS : nat := 50.

Record server_connection := ServerConnection {
  socket_ : tcp_client_socket;
  server_static_public_ : bytes;
  handshake_ : noise_handshake_initiator;
  transport_ : option noise_transport;
  input_buffer_ : bytes;
  open_ : bool;
}.

Section server_connection.
Context `{Sodium}.

(** The constructor. *)
Definition new_connection (server_static_public : bytes) (socket : tcp_client_socket) : server_connection :=
  ServerConnection socket server_static_public (new_initiator server_static_public) None [] false.

Definition is_open (c : server_connection) : bool := open_ c.

Definition on_socket {A} (m : state tcp_client_socket A) : state server_connection A :=
  zoom socket_ (λ s c, ServerConnection s (server_static_public_ c) (handshake_ c) (transport_ c)
                         (input_buffer_ c) (open_ c)) m.
Definition on_initiator {A} (m : state noise_handshake_initiator A) : state server_connection A :=
  zoom handshake_ (λ h c, ServerConnection (socket_ c) (server_static_public_ c) h (transport_ c)
                            (input_buffer_ c) (open_ c)) m.
Definition set_buffer (buffer : bytes) : state server_connection unit :=
  smodify (λ c, ServerConnection (socket_ c) (server_static_public_ c) (handshake_ c) (transport_ c) buffer (open_ c)).
Definition set_open (is_open : bool) : state server_connection unit :=
  smodify (λ c, ServerConnection (socket_ c) (server_static_public_ c) (handshake_ c) (transport_ c)
                  (input_buffer_ c) is_open).
Definition set_transport (t : option noise_transport) : state server_connection unit :=
  smodify (λ c, ServerConnection (socket_ c) (server_static_public_ c) (handshake_ c) t (input_buffer_ c) (open_ c)).

(** A failure that closes the connection. *)
Definition close_with {A} (error : bytes) : state server_connection (bytes + A) :=
  do* set_open false in sret (inl error).

Fixpoint pull_attempts (attempts : nat) : state server_connection (bytes + bytes) :=
  match attempts with
  | O => sret (inl (lit "aucune reponse du serveur"))
  | S attempts =>
      let* buffer := sgets input_buffer_ in
      match extract_length_prefixed_message buffer CLIENT_MAX_NOISE_MESSAGE_SIZE with
      | extracted out rest => do* set_buffer rest in sret (inr out)
      | malformed => close_with (lit "trame invalide recue du serveur")
      | incomplete =>
          let* '(alive, buffer) := on_socket (receive_available buffer) in
          do* set_buffer buffer in
          if negb alive then close_with (lit "connexion fermee par le serveur")
          else pull_attempts attempts
      end
  end.

(** The error, or the message. *)
Definition pull_next_message : state server_connection (bytes + bytes) := pull_attempts MAX_RECEIVE_ATTEMPTS.

(** [ephemeral] is what [generate_x25519_keypair] draws; the result is the
    error. *)
Definition perform_handshake (ephemeral : option (bytes * bytes)) : state server_connection (option bytes) :=
  let* first_message := on_initiator (write_first_message ephemeral []) in
  match first_message with
  | None => sret (Some (lit "handshake : premier message impossible a construire"))
  | Some first_message =>
      let* sent := on_socket (send_all (append_length_prefixed_message first_message [])) in
      if negb sent then sret (Some (lit "handshake : envoi impossible"))
      else
        let* response := pull_next_message in
        match response with
        | inl error => sret (Some error)
        | inr response =>
            let* payload := on_initiator (read_second_message response) in
            match payload with
            | None => sret (Some (lit "handshake refuse : la cle du serveur ne correspond pas a celle epinglee"))
            | Some _ =>
                let* keys := sgets (λ c, i_export_transport_keys (handshake_ c)) in
                match keys with
                | None => sret (Some (lit "handshake : derivation des cles de transport impossible"))
                | Some (send_key, receive_key) =>
                    do* set_transport (Some (new_transport send_key receive_key)) in sret None
                end
            end
        end
  end.

Definition open_session (network : bytes → Z → dial_result) (ephemeral : option (bytes * bytes))
    (endpoint : server_endpoint) : state server_connection (option bytes) :=
  do* smodify (λ c, ServerConnection (socket_ c) (server_static_public_ c)
                      (new_initiator (server_static_public_ c)) None [] false) in
  let through_proxy := negb (bool_decide (endpoint_socks5_host endpoint = [])) in
  let dial_host := if through_proxy then endpoint_socks5_host endpoint else endpoint_host endpoint in
  let dial_port := if through_proxy then endpoint_socks5_port endpoint else endpoint_port endpoint in
  let* failure := on_socket (connect_to_host network dial_host dial_port) in
  match failure with
  | Some error => sret (Some error)
  | None =>
      let* failure :=
        (if through_proxy
         then on_socket (perform_socks5_connect (endpoint_host endpoint) (endpoint_port endpoint))
         else sret None) in
      match failure with
      | Some error => sret (Some error)
      | None =>
          do* set_open true in
          let* failure := perform_handshake ephemeral in
          match failure with
          | Some error => do* set_open false in sret (Some error)
          | None => sret None
          end
      end
  end.

(** On the transport there is. *)
Definition on_cipher {A} (m : fallible noise_transport A) : fallible server_connection A := λ c,
  match transport_ c with
  | None => (None, c)
  | Some t => let '(a, t') := m t in
      (a, ServerConnection (socket_ c) (server_static_public_ c) (handshake_ c) (Some t') (input_buffer_ c) (open_ c))
  end.

Definition has_channel (c : server_connection) : bool :=
  open_ c && match transport_ c with Some _ => true | None => false end.

Definition send_frame (type : message_type.t) (payload : bytes) : state server_connection bool :=
  let* usable := sgets has_channel in
  if negb usable then sret false
  else
    match encode_frame type payload with
    | None => sret false
    | Some frame =>
        let* sealed := on_cipher (encrypt_message frame) in
        match sealed with
        | None => sret false
        | Some sealed => on_socket (send_all (append_length_prefixed_message sealed []))
        end
    end.

Definition receive_frame : state server_connection (bytes + (frame_header * bytes)) :=
  let* usable := sgets has_channel in
  if negb usable then sret (inl (lit "session fermee"))
  else
    let* sealed := pull_next_message in
    match sealed with
    | inl error => sret (inl error)
    | inr sealed =>
        let* frame := on_cipher (decrypt_message sealed) in
        match frame with
        | None => close_with (lit "dechiffrement impossible : session compromise")
        | Some frame =>
            match decode_frame_header frame with
            | Some header =>
                if negb (size_of frame =? FRAME_LENGTH_FIELD_SIZE + body_size header)
                then close_with (lit "trame mal formee")
                else sret (inr (header, drop (Z.to_nat FRAME_HEADER_SIZE) frame))
            | None => close_with (lit "trame mal formee")
            end
        end
    end.

(** ** message_exchange.hpp *)

Definition send_typed_message (type : message_type.t) (write_to : byte_writer → byte_writer)
    : state server_connection bool := send_frame type (output write_to).

(** The error, or the message. *)
Definition receive_typed_message {message} (expected : message_type.t) (read_from : reader message)
    : state server_connection (bytes + message) :=
  let* received := receive_frame in
  match received with
  | inl error => sret (inl error)
  | inr (header, payload) =>
      if decide (type header = message_type.status_error) then
        match (status_error_response.read_from (new_reader payload)).1 with
        | Some failure => sret (inl (lit "erreur serveur : " ++ status_error_response.detail failure))
        | None => sret (inl (lit "erreur serveur illisible"))
        end
      else if negb (bool_decide (type header = expected)) then sret (inl (lit "reponse inattendue du serveur"))
      else
        match (read_from (new_reader payload)).1 with
        | Some message => sret (inr message)
        | None => sret (inl (lit "reponse mal formee"))
        end
  end.
End server_connection.

(** ** Bytes through the socket *)

(** What a run of [recv] brings, and that none of its calls found the
    connection closed. *)
Definition received_bytes (answers : list recv_result) : bytes :=
  concat (map (λ a, match a with Received data => data | _ => [] end) answers).

Definition stays_open (answer : recv_result) : Prop :=
  match answer with Received _ | RecvInterrupted => True | EndOfStream | RecvError => False end.

Lemma send_loop_sound answers data ok answers' out :
  send_loop answers data = (ok, answers', out) →
  (∃ lost, data = out ++ lost) ∧ (ok = true → out = data).
Proof.
  revert data answers' out. induction answers as [|a answers IH]; intros [|b data] answers' out; cbn [send_loop].
  - intros [= <- <- <-]. by split; [exists []|].
  - intros [= <- <- <-]. split; [exists []; by rewrite app_nil_r|done].
  - intros [= <- <- <-]. by split; [exists []|].
  - destruct a as [[|n]| |].
    + intros [= <- <- <-]. by split; [exists (b :: data)|].
    + destruct (send_loop answers (drop (S n) (b :: data))) as [[ok1 rest1] out1] eqn:E.
      intros [= <- <- <-]. apply IH in E as [[lost E] Hok]. split.
      * exists lost. simpl in *. by rewrite <-(assoc app), <-E, take_drop.
      * intros ->. rewrite Hok by done. simpl. by rewrite take_drop.
    + apply IH.
    + intros [= <- <- <-]. by split; [exists (b :: data)|].
Qed.

Lemma send_all_sent data s s' : connected s = true → send_all data s = (true, s') →
  sent_bytes s' = sent_bytes s ++ data ∧ connected s' = true ∧ recv_answers s' = recv_answers s ∧ dialled s' = dialled s.
Proof.
  intros Hc. unfold send_all. rewrite Hc. cbn [negb].
  destruct (send_loop (send_answers s) data) as [[ok answers] out] eqn:E.
  intros [= -> <-]. apply send_loop_sound in E as [_ Hout]. by rewrite Hout.
Qed.

(** ** One message out of the stream *)

Lemma extract_appended m tail maximum : 0 < size_of m <= maximum → u32 (size_of m) →
  extract_length_prefixed_message (append_length_prefixed_message m [] ++ tail) maximum = extracted m tail.
Proof.
  intros Hm Hu. rewrite append_length_prefixed_bytes, app_nil_l, wrap_id by done.
  rewrite extract_unfold, <-app_assoc. rewrite decide_True by (rewrite length_app, length_le_bytes; lia).
  rewrite take_app_exact, drop_app_exact by (by rewrite length_le_bytes).
  rewrite le_value_le_bytes, wrap_id by done. cbv zeta.
  replace (size_of m =? 0) with false by lia. replace (maximum <? size_of m) with false by lia. cbn [orb].
  rewrite decide_True by (unfold size_of; rewrite !length_app, length_le_bytes; lia).
  rewrite (take_app_exact m) by (unfold size_of; lia).
  rewrite app_assoc, drop_app_exact; [done|]. rewrite length_app, length_le_bytes. unfold size_of. lia.
Qed.

(** What is extracted from the front of a stream is its first message. *)
Lemma extract_prefix front later m tail maximum : 0 < size_of m <= maximum → u32 (size_of m) →
  front ++ later = append_length_prefixed_message m [] ++ tail →
  match extract_length_prefixed_message front maximum with
  | extracted out rest => out = m ∧ rest ++ later = tail
  | incomplete => later ≠ []
  | malformed => False
  end.
Proof.
  intros Hm Hu Heq. pose proof (extract_appended m tail maximum Hm Hu) as Hwhole. rewrite <-Heq in Hwhole.
  destruct (extract_length_prefixed_message front maximum) as [out rest| |] eqn:E.
  - rewrite (extract_app_extracted _ later _ _ _ E) in Hwhole. by injection Hwhole as -> ->.
  - intros ->. rewrite app_nil_r in Hwhole. congruence.
  - rewrite (extract_app_malformed _ later _ E) in Hwhole. done.
Qed.

(** The connection with the buffer and the answers replaced. *)
Definition advance (buffer : bytes) (answers : list recv_result) (c : server_connection) : server_connection :=
  ServerConnection
    (ClientSocket (connected (socket_ c)) (sent_bytes (socket_ c)) (dialled (socket_ c)) answers
       (send_answers (socket_ c)))
    (server_static_public_ c) (handshake_ c) (transport_ c) buffer (open_ c).

Lemma advance_id c : advance (input_buffer_ c) (recv_answers (socket_ c)) c = c.
Proof. by destruct c as [[] ? ? ? ? ?]. Qed.

(** One turn of the loop that waits. *)
Lemma pull_attempts_wait attempts c answer answers :
  connected (socket_ c) = true → stays_open answer → recv_answers (socket_ c) = answer :: answers →
  extract_length_prefixed_message (input_buffer_ c) CLIENT_MAX_NOISE_MESSAGE_SIZE = incomplete →
  pull_attempts (S attempts) c =
    pull_attempts attempts (advance (input_buffer_ c ++ received_bytes [answer]) answers c).
Proof.
  intros Hc Ha Hr He. cbn [pull_attempts]. unfold sbind at 1, sgets. rewrite He.
  unfold on_socket, zoom, receive_available, set_buffer, smodify, sbind. rewrite Hc, Hr. cbn [negb].
  unfold advance. rewrite Hc.
  destruct answer as [data| | |]; try done; unfold received_bytes; cbn [map concat]; by rewrite ?app_nil_r.
Qed.

Lemma pull_attempts_extract attempts c out rest :
  extract_length_prefixed_message (input_buffer_ c) CLIENT_MAX_NOISE_MESSAGE_SIZE = extracted out rest →
  pull_attempts (S attempts) c = (inr out, advance rest (recv_answers (socket_ c)) c).
Proof.
  intros He. cbn [pull_attempts]. unfold sbind at 1, sgets. rewrite He. by destruct c as [[] ? ? ? ? ?].
Qed.

Lemma pull_attempts_delivers attempts c answers later m tail :
  connected (socket_ c) = true → recv_answers (socket_ c) = answers ++ later → Forall stays_open answers →
  (length answers < attempts)%nat → 0 < size_of m <= CLIENT_MAX_NOISE_MESSAGE_SIZE →
  input_buffer_ c ++ received_bytes answers = append_length_prefixed_message m [] ++ tail →
  ∃ rest left, pull_attempts attempts c = (inr m, advance rest (left ++ later) c) ∧
    Forall stays_open left ∧ (length left <= length answers)%nat ∧ rest ++ received_bytes left = tail.
Proof.
  intros Hc Hr Ha Hlen Hm Heq.
  assert (u32 (size_of m)) as Hu by (unfold fits, CLIENT_MAX_NOISE_MESSAGE_SIZE, MAX_FRAME_SIZE, AEAD_TAG_SIZE in *; lia).
  revert c answers Hc Hr Ha Hlen Heq. induction attempts as [|attempts IH]; intros c answers Hc Hr Ha Hlen Heq; [lia|].
  pose proof (extract_prefix _ _ _ _ _ Hm Hu Heq) as Hext.
  destruct (extract_length_prefixed_message (input_buffer_ c) CLIENT_MAX_NOISE_MESSAGE_SIZE) as [out rest| |] eqn:E;
    [|destruct answers as [|answer answers]; [done|]|done].
  - destruct Hext as [-> Hrest]. exists rest, answers. rewrite (pull_attempts_extract _ _ _ _ E), Hr. done.
  - apply Forall_cons in Ha as [Ha1 Ha2]. simpl in Hlen.
    rewrite (pull_attempts_wait attempts c answer (answers ++ later)) by done.
    destruct (IH (advance (input_buffer_ c ++ received_bytes [answer]) (answers ++ later) c) answers)
      as (rest & left & Hp & Hl & Hn & Ht); try done; [lia| |].
    + etransitivity; [|exact Heq]. cbn [advance input_buffer_]. unfold received_bytes. cbn [map concat]. by rewrite app_nil_r, <-app_assoc.
    + exists rest, left. rewrite Hp. split_and!; [done|done|simpl; lia|done].
Qed.

(** ** Waiting changes nothing but the input *)

(** What waiting for a message leaves as it was. *)
Definition same_session (c c' : server_connection) : Prop :=
  server_static_public_ c' = server_static_public_ c ∧ handshake_ c' = handshake_ c ∧
  transport_ c' = transport_ c ∧ connected (socket_ c') = connected (socket_ c) ∧
  sent_bytes (socket_ c') = sent_bytes (socket_ c) ∧ dialled (socket_ c') = dialled (socket_ c) ∧
  send_answers (socket_ c') = send_answers (socket_ c).

#[export] Instance same_session_preorder : PreOrder same_session.
Proof. split; [by intros c|]. unfold same_session. intros c1 c2 c3 ? ?. intuition congruence. Qed.

(** One turn of the loop, spelled out. *)
Definition with_input (buffer : bytes) (socket : tcp_client_socket) (is_open : bool) (c : server_connection) :=
  ServerConnection socket (server_static_public_ c) (handshake_ c) (transport_ c) buffer is_open.

Lemma pull_attempts_turn attempts c :
  pull_attempts (S attempts) c =
    match extract_length_prefixed_message (input_buffer_ c) CLIENT_MAX_NOISE_MESSAGE_SIZE with
    | extracted out rest => (inr out, with_input rest (socket_ c) (open_ c) c)
    | malformed => (inl (lit "trame invalide recue du serveur"), with_input (input_buffer_ c) (socket_ c) false c)
    | incomplete =>
        let '((alive, buffer), socket) := receive_available (input_buffer_ c) (socket_ c) in
        if (alive : bool) then pull_attempts attempts (with_input buffer socket (open_ c) c)
        else (inl (lit "connexion fermee par le serveur"), with_input buffer socket false c)
    end.
Proof.
  cbn [pull_attempts]. unfold sbind at 1, sgets.
  destruct (extract_length_prefixed_message _ _); [done| |done].
  unfold on_socket, zoom, sbind at 1. destruct (receive_available (input_buffer_ c) (socket_ c)) as [[[] buffer] socket]; done.
Qed.

Lemma receive_available_socket buffer s :
  let s' := (receive_available buffer s).2 in
  connected s' = connected s ∧ sent_bytes s' = sent_bytes s ∧ dialled s' = dialled s ∧ send_answers s' = send_answers s.
Proof. unfold receive_available. destruct s as [[] ? ? [|[]] ?]; done. Qed.

Lemma pull_attempts_only attempts c r c' : pull_attempts attempts c = (r, c') →
  same_session c c' ∧ (∀ m, r = inr m → open_ c' = open_ c).
Proof.
  revert c. induction attempts as [|attempts IH]; intros c; [by intros [= <- <-]|].
  rewrite pull_attempts_turn. destruct (extract_length_prefixed_message _ _) as [out rest| |];
    [by intros [= <- <-]| |by intros [= <- <-]].
  pose proof (receive_available_socket (input_buffer_ c) (socket_ c)) as Hs.
  destruct (receive_available (input_buffer_ c) (socket_ c)) as [[alive buffer] socket]. cbn [snd] in Hs.
  assert (∀ is_open, same_session c (with_input buffer socket is_open c)) as Hc by (by unfold same_session).
  destruct alive.
  - intros E. apply IH in E as [Hs' Ho]. split; [by rewrite (Hc (open_ c))|exact Ho].
  - intros [= <- <-]. by split.
Qed.

(** A message that is pulled is the first one of the bytes that were buffered
    and those that the calls brought; what is behind it stays buffered. *)
Lemma pull_attempts_bytes attempts c m c' : pull_attempts attempts c = (inr m, c') →
  ∃ answers, recv_answers (socket_ c) = answers ++ recv_answers (socket_ c') ∧
    input_buffer_ c ++ received_bytes answers = append_length_prefixed_message m [] ++ input_buffer_ c'.
Proof.
  revert c. induction attempts as [|attempts IH]; intros c; [done|]. rewrite pull_attempts_turn.
  destruct (extract_length_prefixed_message _ _) as [out rest| |] eqn:E; [|clear E|done].
  { intros [= <- <-]. exists []. split; [done|]. cbn. rewrite app_nil_r. by apply extract_front in E. }
  assert (∀ buffer socket, receive_available (input_buffer_ c) (socket_ c) = ((true, buffer), socket) →
    ∃ brought, recv_answers (socket_ c) = brought ++ recv_answers socket ∧ buffer = input_buffer_ c ++ received_bytes brought) as Hone.
  { intros buffer socket. unfold receive_available. destruct (connected (socket_ c)); [|done]. cbn [negb].
    destruct (recv_answers (socket_ c)) as [|[data| | |] answers]; intros [= <- <-]; cbn [recv_answers].
    - exists []. cbn. by rewrite app_nil_r.
    - exists [Received data]. cbn. by rewrite app_nil_r.
    - exists [RecvInterrupted]. cbn. by rewrite app_nil_r. }
  destruct (receive_available (input_buffer_ c) (socket_ c)) as [[[] buffer] socket]; [|done].
  destruct (Hone buffer socket eq_refl) as (brought & Ebrought & ->).
  intros Hp. apply IH in Hp as (answers & Eanswers & Ebytes). cbn [with_input socket_ input_buffer_] in Eanswers, Ebytes.
  exists (brought ++ answers). split; [by rewrite Ebrought, Eanswers, <-app_assoc|].
  unfold received_bytes. rewrite map_app, concat_app. fold (received_bytes brought) (received_bytes answers).
  by rewrite app_assoc.
Qed.

(** ** How long an answer can be *)

Definition chunk_ok (answer : recv_result) : Prop :=
  match answer with Received data => size_of data <= CLIENT_READ_CHUNK_SIZE | _ => True end.

Lemma receive_available_chunk buffer s :
  Forall chunk_ok (recv_answers s) →
  size_of (receive_available buffer s).1.2 <= size_of buffer + CLIENT_READ_CHUNK_SIZE ∧
  Forall chunk_ok (recv_answers (receive_available buffer s).2).
Proof.
  unfold receive_available. destruct s as [con ? ? answers ?]. cbn. assert (0 <= CLIENT_READ_CHUNK_SIZE) by done.
  destruct con; cbn; [|by split; [lia|]].
  intros Hf. destruct Hf as [|[data| | |] answers Ha Hf]; cbn; (split; [|done]); try lia.
  rewrite size_of_app. simpl in Ha. lia.
Qed.

Lemma pull_attempts_bound attempts c m c' :
  Forall chunk_ok (recv_answers (socket_ c)) → pull_attempts (S attempts) c = (inr m, c') →
  FRAME_LENGTH_FIELD_SIZE + size_of m <= size_of (input_buffer_ c) + Z.of_nat attempts * CLIENT_READ_CHUNK_SIZE.
Proof.
  assert (0 <= CLIENT_READ_CHUNK_SIZE) as Hchunk by done.
  revert c. induction attempts as [|attempts IH]; intros c Hf; rewrite pull_attempts_turn;
    destruct (extract_length_prefixed_message _ _) as [out rest| |] eqn:E; try done.
  1,3: intros [= -> _]; apply extract_shrinks in E as (E & _ & _); unfold size_of, FRAME_LENGTH_FIELD_SIZE; lia.
  - by destruct (receive_available _ _) as [[[] ?] ?].
  - pose proof (receive_available_chunk (input_buffer_ c) (socket_ c) Hf) as [Hsize Hf'].
    destruct (receive_available _ _) as [[[] buffer] socket]; [|done]. cbn [fst snd] in *.
    intros Hp. apply IH in Hp; [|done]. cbn [with_input input_buffer_] in Hp. lia.
Qed.
