(* ===== verification/ClientChannel.v ===== *)
(** What a client can rely on, over the network of [ClientNet]: the session with
    the server whose key it holds, the frames that cross it, how long the wait
    for an answer is, and what a proxy hides. *)

From S2P Require Import Prelude.
From S2P Require Import Wire.
From S2P Require Import Framing.
From S2P Require Import Sodium.
From S2P Require Import Noise.
From S2P Require Import Connection.
From S2P Require Import Keystore.
From S2P Require Import ClientNet.

(** ** Both ends of the channel *)

Section promises.
Context `{SodiumLaws}.

Definition sends (answer : send_result) : Prop :=
  match answer with Sent n => n ≠ 0%nat | SendInterrupted => True | SendError => False end.

Lemma send_loop_succeeds answers data : Forall sends answers →
  ∃ answers', send_loop answers data = (true, answers', data) ∧ Forall sends answers'.
Proof.
  intros Hf. revert data. induction Hf as [|a answers Ha Hf IH]; intros [|b data]; cbn [send_loop]; eauto.
  destruct a as [[|n]| |]; try done.
  destruct (IH (drop (S n) (b :: data))) as (answers' & -> & Hf'). exists answers'.
  split; [|done]. by rewrite take_drop.
Qed.

Lemma send_all_succeeds data s : connected s = true → Forall sends (send_answers s) →
  ∃ answers', send_all data s =
    (true, ClientSocket true (sent_bytes s ++ data) (dialled s) (recv_answers s) answers') ∧ Forall sends answers'.
Proof.
  intros Hc Hf. unfold send_all. rewrite Hc. cbn [negb].
  destruct (send_loop_succeeds (send_answers s) data Hf) as (answers' & -> & ?). eauto.
Qed.

(** The client's transport and the server's, in step. *)
Definition paired (c : server_connection) (channel : noise_channel) : Prop :=
  ∃ t t', transport_ c = Some t ∧ Noise.transport_ channel = Some t' ∧
    receive_state_ t' = send_state_ t ∧ receive_state_ t = send_state_ t' ∧
    key_ok (send_state_ t) ∧ key_ok (receive_state_ t).

Lemma sealed_size ad m c sealed c' : key_ok c → encrypt_with_ad ad m c = (Some sealed, c') →
  size_of m <= size_of sealed <= size_of m + AEAD_TAG_SIZE.
Proof.
  intros Hk E. assert (0 <= AEAD_TAG_SIZE) by done. destruct (has_key_ c) eqn:Hh.
  - destruct (decide (nonce_counter_ c = UINT64_MAX)) as [Hn|Hn].
    + unfold encrypt_with_ad in E. by rewrite Hh, (proj2 (Z.eqb_eq _ _) Hn) in E.
    + destruct (encrypt_with_ad_spec c ad m Hk Hh Hn) as (s & Es & Hs & _). rewrite Es in E.
      injection E as <- <-. lia.
  - unfold encrypt_with_ad in E. rewrite Hh in E. injection E as <- <-. lia.
Qed.

Lemma key_ok_after ad m c sealed c' : key_ok c → encrypt_with_ad ad m c = (sealed, c') → key_ok c'.
Proof. intros Hk E. pose proof (encrypt_key_ok ad m c Hk) as Hk'. by rewrite E in Hk'. Qed.

Lemma encode_frame_size type payload frame : encode_frame type payload = Some frame →
  0 < size_of frame <= MAX_FRAME_SIZE.
Proof.
  intros E. pose proof (encode_frame_decodes type payload) as Hd. rewrite E in Hd.
  destruct Hd as (Hp & _ & Hs & _). pose proof (size_of_nonneg payload). rewrite Hs.
  unfold MAX_PAYLOAD_SIZE, FRAME_HEADER_SIZE, FRAME_LENGTH_FIELD_SIZE, FRAME_TYPE_FIELD_SIZE, MAX_FRAME_SIZE in *. lia.
Qed.

(** What the server's channel opens of what the client sends. *)
Lemma sent_frame_opens type payload c c' channel :
  paired c channel → connected (socket_ c) = true → send_frame type payload c = (true, c') →
  ∃ frame sealed channel',
    encode_frame type payload = Some frame ∧
    sent_bytes (socket_ c') = sent_bytes (socket_ c) ++ append_length_prefixed_message sealed [] ∧
    open_message sealed channel = (Some frame, channel') ∧ paired c' channel'.
Proof.
  intros (t & t' & Ht & Ht' & Hup & Hdown & Hks & Hkr) Hc. unfold send_frame, sbind, sgets. cbn beta iota.
  destruct (has_channel c); [|done]. cbn [negb].
  destruct (encode_frame type payload) as [frame|] eqn:Ef; [|done].
  unfold on_cipher. rewrite Ht. unfold encrypt_message, zoom.
  destruct (encrypt_with_ad [] frame (send_state_ t)) as [[sealed|] c1] eqn:Ee; [|done].
  unfold on_socket, zoom. cbn [socket_].
  destruct (send_all _ _) as [ok s1] eqn:Es. intros [= -> <-]. apply send_all_sent in Es as (Hsent & _); [|done].
  exists frame, sealed, (NoiseChannel (Noise.handshake_ channel) (Some (NoiseTransport (send_state_ t') c1))).
  cbn. rewrite Hsent. split_and!; [done|done| |].
  - unfold open_message, on_transport, decrypt_message, zoom. rewrite Ht', Hup.
    by rewrite (cipher_lockstep _ _ _ _ _ Hks Ee).
  - exists (NoiseTransport c1 (receive_state_ t)), (NoiseTransport (send_state_ t') c1). cbn.
    split_and!; try done. exact (key_ok_after _ _ _ _ _ Hks Ee).
Qed.

(** What the client receives of what the server's channel sealed. *)
Lemma sealed_frame_arrives type payload frame sealed c channel channel' answers later tail :
  paired c channel → has_channel c = true → connected (socket_ c) = true →
  encode_frame type payload = Some frame → seal_message frame channel = (Some sealed, channel') →
  recv_answers (socket_ c) = answers ++ later → Forall stays_open answers →
  (length answers < MAX_RECEIVE_ATTEMPTS)%nat →
  input_buffer_ c ++ received_bytes answers = append_length_prefixed_message sealed [] ++ tail →
  ∃ c' left, receive_frame c = (inr (FrameHeader (1 + size_of payload) type, payload), c') ∧
    paired c' channel' ∧ has_channel c' = true ∧ connected (socket_ c') = true ∧
    recv_answers (socket_ c') = left ++ later ∧ Forall stays_open left ∧ (length left <= length answers)%nat ∧
    input_buffer_ c' ++ received_bytes left = tail.
Proof.
  intros (t & t' & Ht & Ht' & Hup & Hdown & Hks & Hkr) Husable Hc Ef Hseal Hr Ha Hlen Heq.
  pose proof (encode_frame_size _ _ _ Ef) as Hframe.
  revert Hseal. unfold seal_message, on_transport, encrypt_message, zoom. rewrite Ht', <-Hdown.
  destruct (encrypt_with_ad [] frame (receive_state_ t)) as [o c1] eqn:Ee. intros [= -> <-].
  pose proof (sealed_size _ _ _ _ _ Hkr Ee) as Hsealed.
  destruct (pull_attempts_delivers MAX_RECEIVE_ATTEMPTS c answers later sealed tail)
    as (rest & left & Hp & Hl & Hn & Htail); try done.
  { unfold CLIENT_MAX_NOISE_MESSAGE_SIZE. lia. }
  eexists _, left. unfold receive_frame, sbind at 1, sgets. rewrite Husable. cbn [negb].
  unfold sbind at 1, pull_next_message. rewrite Hp. unfold sbind at 1, on_cipher. cbn [advance transport_].
  rewrite Ht. unfold decrypt_message, zoom. rewrite (cipher_lockstep _ _ _ _ _ Hkr Ee).
  pose proof (encode_frame_decodes type payload) as Hd. rewrite Ef in Hd. destruct Hd as (_ & Hh & Hs & Hdrop).
  rewrite Hh, Hs. cbn [body_size]. rewrite Z.eqb_refl. cbn [negb]. rewrite Hdrop.
  split; [reflexivity|]. split_and!; try done.
  - exists (NoiseTransport (send_state_ t) c1), (NoiseTransport c1 (receive_state_ t')). cbn.
    split_and!; try done. exact (key_ok_after _ _ _ _ _ Hkr Ee).
  - unfold has_channel in *. cbn. rewrite Ht in Husable. by destruct (open_ c).
Qed.

(** Fresh transports in step. *)
Lemma fresh_paired c channel k1 k2 : size_of k1 = 32 → size_of k2 = 32 →
  transport_ c = Some (new_transport k1 k2) → Noise.transport_ channel = Some (new_transport k2 k1) → paired c channel.
Proof. intros H1 H2 E1 E2. exists (new_transport k1 k2), (new_transport k2 k1). by cbn. Qed.

(** The handshake against the server's channel. *)
Lemma handshake_pairs sp ss ip se rp re :
  size_of ip = 32 → size_of rp = 32 → agree ip se sp ss → agree ip se rp re →
  ∃ first second channel k1 k2,
    size_of k1 = 32 ∧ size_of k2 = 32 ∧ size_of first = 32 + AEAD_TAG_SIZE ∧ size_of second = 32 + AEAD_TAG_SIZE ∧
    accept_handshake_message (Some (rp, re)) first (new_channel sp ss) = (Some second, channel) ∧
    Noise.transport_ channel = Some (new_transport k2 k1) ∧
    ∀ c answers later tail,
      handshake_ c = new_initiator sp → open_ c = true → connected (socket_ c) = true →
      Forall sends (send_answers (socket_ c)) →
      recv_answers (socket_ c) = answers ++ later → Forall stays_open answers →
      (length answers < MAX_RECEIVE_ATTEMPTS)%nat →
      input_buffer_ c ++ received_bytes answers = append_length_prefixed_message second [] ++ tail →
      ∃ c' left, perform_handshake (Some (ip, se)) c = (None, c') ∧
        sent_bytes (socket_ c') = sent_bytes (socket_ c) ++ append_length_prefixed_message first [] ∧
        transport_ c' = Some (new_transport k1 k2) ∧ has_channel c' = true ∧ connected (socket_ c') = true ∧
        dialled (socket_ c') = dialled (socket_ c) ∧ Forall sends (send_answers (socket_ c')) ∧
        recv_answers (socket_ c') = left ++ later ∧ Forall stays_open left ∧ (length left <= length answers)%nat ∧
        input_buffer_ c' ++ received_bytes left = tail.
Proof.
  intros Hip Hrp Hes Hee.
  destruct (handshake_agrees sp ss ip se rp re Hip Hrp Hes Hee)
    as (first & client1 & second & client2 & channel & k1 & k2 & Hk1 & Hk2 & Hfirst & Hsize & E1 & E2 & E3 & E4 & E5).
  exists first, second, channel, k1, k2. split_and!; [done..|].
  intros c answers later tail Hi Ho Hc Hsend Hr Ha Hlen Heq.
  assert (0 < size_of second <= CLIENT_MAX_NOISE_MESSAGE_SIZE) as Hsecond by (by rewrite Hsize).
  unfold perform_handshake. unfold sbind at 1, on_initiator at 1, zoom at 1. rewrite Hi, E1.
  unfold sbind at 1, on_socket at 1, zoom at 1. cbn [socket_].
  destruct (send_all_succeeds (append_length_prefixed_message first []) (socket_ c) Hc Hsend) as (sa & -> & Hsa).
  cbn [negb]. unfold sbind at 1, pull_next_message.
  set (c1 := ServerConnection
    (ClientSocket true (sent_bytes (socket_ c) ++ append_length_prefixed_message first []) (dialled (socket_ c))
       (recv_answers (socket_ c)) sa) (server_static_public_ c) client1 (transport_ c) (input_buffer_ c) (open_ c)).
  match goal with |- context [pull_attempts MAX_RECEIVE_ATTEMPTS ?x] => change x with c1 end.
  destruct (pull_attempts_delivers MAX_RECEIVE_ATTEMPTS c1 answers later second tail)
    as (rest & left & Hp & Hl & Hn & Htail); try done.
  rewrite Hp. unfold sbind at 1, on_initiator, zoom. cbn [advance handshake_ c1]. rewrite E3.
  unfold sbind at 1, sgets. cbn [handshake_]. rewrite E4.
  unfold sbind, set_transport, smodify, sret. eexists _, left. split; [reflexivity|].
  split_and!; try done.
  unfold has_channel. cbn. by rewrite Ho.
Qed.

(** What starting a session leaves to the handshake. *)
Lemma open_session_direct network ephemeral endpoint c :
  endpoint_socks5_host endpoint = [] → network (endpoint_host endpoint) (endpoint_port endpoint) = Connected →
  open_session network ephemeral endpoint c =
    (let* failure := perform_handshake ephemeral in
     match failure with
     | Some error => do* set_open false in sret (Some error)
     | None => sret None
     end)
    (ServerConnection
       (ClientSocket true [] (dialled (socket_ c) ++ [(endpoint_host endpoint, endpoint_port endpoint)])
          (recv_answers (socket_ c)) (send_answers (socket_ c)))
       (server_static_public_ c) (new_initiator (server_static_public_ c)) None [] true).
Proof.
  intros Hs Hn. unfold open_session. rewrite bool_decide_true by done. cbn [negb].
  unfold sbind at 1, smodify at 1. unfold sbind at 1, on_socket at 1, zoom at 1, connect_to_host. cbn [socket_].
  rewrite Hn. reflexivity.
Qed.

(** C28: a client that has the server's key and reaches it without a proxy
    gets a session: the bytes it sends are the first message of the handshake,
    and when the reply of the server's channel to that message comes back, in
    whatever pieces and with whatever timeouts between them (fewer than 50
    calls), the call succeeds and the two ends hold matching transports. *)
Theorem open_session_pairs (sp ss ip se rp re : bytes)
    (Hip : size_of ip = 32) (Hrp : size_of rp = 32)
    (Hes : agree ip se sp ss) (Hee : agree ip se rp re) :
  ∃ first second channel,
    accept_handshake_message (Some (rp, re)) first (new_channel sp ss) = (Some second, channel) ∧
    ∀ c network endpoint answers later,
      server_static_public_ c = sp →
      endpoint_socks5_host endpoint = [] → network (endpoint_host endpoint) (endpoint_port endpoint) = Connected →
      Forall sends (send_answers (socket_ c)) →
      recv_answers (socket_ c) = answers ++ later → Forall stays_open answers →
      (length answers < MAX_RECEIVE_ATTEMPTS)%nat →
      received_bytes answers = append_length_prefixed_message second [] →
      ∃ c' left, open_session network (Some (ip, se)) endpoint c = (None, c') ∧
        sent_bytes (socket_ c') = append_length_prefixed_message first [] ∧
        paired c' channel ∧ has_channel c' = true ∧
        recv_answers (socket_ c') = left ++ later ∧ input_buffer_ c' ++ received_bytes left = [].
Proof.
  destruct (handshake_pairs sp ss ip se rp re Hip Hrp Hes Hee) as (first & second & channel & k1 & k2 & Hk1 & Hk2 & _ & _ & Ha & Hch & Hs).
  exists first, second, channel. split; [exact Ha|].
  intros c network endpoint answers later Hsp Hsocks Hnet Hsend Hr Hopen Hlen Heq.
  rewrite (open_session_direct network _ endpoint c Hsocks Hnet). set (c0 := ServerConnection _ _ _ _ _ _).
  destruct (Hs c0 answers later []) as (c' & left & E & Hsent & Hp & Hopen' & _ & _ & _ & Hrecv & _ & _ & Hbuf); try done.
  { cbn. by rewrite Hsp. }
  { cbn. by rewrite app_nil_r. }
  exists c', left. unfold sbind. rewrite E. split_and!; try done. by apply (fresh_paired _ _ k1 k2).
Qed.

(** Once the ends are paired, what one sends the other gets: a frame the
    client sends is one length-prefixed message that the server's channel opens
    to exactly that type and payload; a frame the server's channel seals,
    delivered in whatever pieces, is received with exactly its type and
    payload; and after either the ends are paired again. *)
Theorem frames_cross_intact (c : server_connection) (channel : noise_channel)
    (Hpaired : paired c channel) (Hopen : has_channel c = true) (Hconnected : connected (socket_ c) = true) :
  (∀ type payload c', send_frame type payload c = (true, c') →
     ∃ frame sealed channel',
       encode_frame type payload = Some frame ∧
       sent_bytes (socket_ c') = sent_bytes (socket_ c) ++ append_length_prefixed_message sealed [] ∧
       open_message sealed channel = (Some frame, channel') ∧ paired c' channel') ∧
  (∀ type payload frame sealed channel' answers later tail,
     encode_frame type payload = Some frame → seal_message frame channel = (Some sealed, channel') →
     recv_answers (socket_ c) = answers ++ later → Forall stays_open answers →
     (length answers < MAX_RECEIVE_ATTEMPTS)%nat →
     input_buffer_ c ++ received_bytes answers = append_length_prefixed_message sealed [] ++ tail →
     ∃ c' left, receive_frame c = (inr (FrameHeader (1 + size_of payload) type, payload), c') ∧
       paired c' channel' ∧ has_channel c' = true ∧
       recv_answers (socket_ c') = left ++ later ∧ input_buffer_ c' ++ received_bytes left = tail).
Proof.
  split; [intros type payload c'; by apply sent_frame_opens|].
  intros type payload frame sealed channel' answers later tail Ef Es Hr Ha Hlen Heq.
  destruct (sealed_frame_arrives type payload frame sealed c channel channel' answers later tail)
    as (c' & left & E & Hp & Hch & _ & Hrecv & _ & _ & Hbuf); try done.
  exists c', left. by split_and!.
Qed.

(** C31: whatever the network brings, an answer is taken only from bytes that
    are, to the last one, a sealing under the session's key: the first message
    of what was buffered and received, its length in front, is what encrypting
    the frame that is taken gives at the very counter the client was at; the
    counter then moves on, the bytes behind the message stay buffered, and the
    header and the payload are the ones of that frame. So nothing is taken that
    was altered, sealed under another key, or sealed at another place of the
    order (in particular an answer that was taken before). *)
Theorem answers_are_authentic (c c' : server_connection) (header : frame_header) (payload : bytes)
    (Hreceived : receive_frame c = (inr (header, payload), c')) :
  ∃ answers t t' sealed frame,
    recv_answers (socket_ c) = answers ++ recv_answers (socket_ c') ∧
    input_buffer_ c ++ received_bytes answers = append_length_prefixed_message sealed [] ++ input_buffer_ c' ∧
    transport_ c = Some t ∧ transport_ c' = Some t' ∧
    encrypt_with_ad [] frame (receive_state_ t) = (Some sealed, receive_state_ t') ∧
    send_state_ t' = send_state_ t ∧
    decode_frame_header frame = Some header ∧ size_of frame = FRAME_LENGTH_FIELD_SIZE + body_size header ∧
    payload = drop (Z.to_nat FRAME_HEADER_SIZE) frame.
Proof.
  revert Hreceived. unfold receive_frame, sbind at 1, sgets. destruct (has_channel c) eqn:Hch; [|done]. cbn [negb].
  unfold sbind at 1, pull_next_message.
  destruct (pull_attempts MAX_RECEIVE_ATTEMPTS c) as [[error|sealed] c1] eqn:Ep; [done|].
  destruct (pull_attempts_bytes _ _ _ _ Ep) as (answers & Eanswers & Ebytes).
  apply pull_attempts_only in Ep as [(_ & _ & Htr & _) _].
  unfold sbind at 1, on_cipher. rewrite Htr. unfold has_channel in Hch.
  destruct (transport_ c) as [t|]; [|by destruct (open_ c)].
  unfold decrypt_message, zoom. destruct (decrypt_with_ad [] sealed (receive_state_ t)) as [[frame|] r'] eqn:Ed; [|done].
  destruct (decode_frame_header frame) as [h|] eqn:Eh; [|done].
  destruct (size_of frame =? FRAME_LENGTH_FIELD_SIZE + body_size h) eqn:Es; [|done]. cbn [negb]. unfold sret.
  intros [= <- <- <-]. exists answers, t, (NoiseTransport (send_state_ t) r'), sealed, frame. cbn.
  split_and!; try done; [by apply decrypted_was_encrypted|lia].
Qed.

(** The wait for an answer counts calls and not time: whatever the network
    does, no message is received whose bytes are more than what is buffered
    and 49 reads of 16 KiB, so on an empty buffer no message of the largest
    frame size is, however fast the network. *)
Theorem answers_are_bounded (c c' : server_connection) (m : bytes)
    (Hchunks : Forall chunk_ok (recv_answers (socket_ c)))
    (Hpulled : pull_next_message c = (inr m, c')) :
  FRAME_LENGTH_FIELD_SIZE + size_of m <= size_of (input_buffer_ c) + 49 * CLIENT_READ_CHUNK_SIZE ∧
  (input_buffer_ c = [] → size_of m < MAX_FRAME_SIZE).
Proof.
  pose proof (pull_attempts_bound 49 c m c' Hchunks Hpulled) as Hb. split; [exact Hb|].
  intros Hn. rewrite Hn in Hb. unfold FRAME_LENGTH_FIELD_SIZE, CLIENT_READ_CHUNK_SIZE, MAX_FRAME_SIZE in *.
  rewrite size_of_nil in Hb. lia.
Qed.

(** After a silence the connection stays open and usable: the answer
    that comes late is what the next call receives, whatever was asked in
    between. *)
Theorem late_answer_answers_the_next (c : server_connection) (later : list recv_result)
    (Hopen : has_channel c = true) (Hconnected : connected (socket_ c) = true) (Hempty : input_buffer_ c = [])
    (Hsilence : recv_answers (socket_ c) = replicate MAX_RECEIVE_ATTEMPTS RecvInterrupted ++ later) :
  receive_frame c = (inl (lit "aucune reponse du serveur"), advance [] later c) ∧
  has_channel (advance [] later c) = true.
Proof.
  assert (∀ n c, connected (socket_ c) = true → input_buffer_ c = [] →
            recv_answers (socket_ c) = replicate n RecvInterrupted ++ later →
            pull_attempts n c = (inl (lit "aucune reponse du serveur"), advance [] later c)) as Hwait.
  { clear. induction n as [|n IH]; intros c Hc Hb Hr.
    - destruct c as [[] ? ? ? ? ?]. cbn in *. by subst.
    - rewrite (pull_attempts_wait n c RecvInterrupted (replicate n RecvInterrupted ++ later)); [|done..|by rewrite Hb].
      rewrite Hb. rewrite IH by done. done. }
  split; [|unfold has_channel in *; done].
  unfold receive_frame, sbind, sgets, pull_next_message. rewrite Hopen. cbn [negb]. by rewrite (Hwait _ c).
Qed.
End promises.

(** ** Through a proxy *)

(** Nothing is dialled, and what is sent only grows. *)
Definition stays_dialled (s s' : tcp_client_socket) : Prop :=
  dialled s' = dialled s ∧ sent_bytes s `prefix_of` sent_bytes s'.

#[export] Instance stays_dialled_preorder : PreOrder stays_dialled.
Proof.
  split; [by intros s|]. intros s1 s2 s3 [E1 P1] [E2 P2]. split; [congruence|by etransitivity].
Qed.

Lemma receive_available_dials buffer : keeps stays_dialled (receive_available buffer).
Proof.
  intros s. pose proof (receive_available_socket buffer s) as (_ & E1 & E2 & _). split; [done|by rewrite E1].
Qed.

Lemma send_all_dials data : keeps stays_dialled (send_all data).
Proof.
  intros s. unfold send_all. destruct (connected s); cbn [negb]; [|done].
  destruct (send_loop (send_answers s) data) as [[ok answers] out]. split; [done|by apply prefix_app_r].
Qed.

Lemma read_attempts_dials attempts buffer needed : keeps stays_dialled (read_attempts attempts buffer needed).
Proof.
  revert buffer. induction attempts as [|attempts IH]; intros buffer; cbn [read_attempts]; [apply keeps_ret, _|].
  destruct (negb _); [apply keeps_ret, _|]. apply keeps_bind; [apply _|apply receive_available_dials|].
  intros [[] buffer']; cbn [negb]; [apply IH|apply keeps_ret, _].
Qed.

Lemma read_exactly_dials buffer needed : keeps stays_dialled (read_exactly buffer needed).
Proof.
  unfold read_exactly. apply keeps_bind; [apply _|apply read_attempts_dials|].
  intros [[error|] buffer']; [apply keeps_ret, _|]. case_match; apply keeps_ret, _.
Qed.

(** The bytes a successful negotiation has sent. *)
Definition greeting : bytes := map byte_of [SOCKS_VERSION; 1; AUTH_NONE].

Lemma send_all_appends data s s' : send_all data s = (true, s') → sent_bytes s' = sent_bytes s ++ data.
Proof.
  destruct (connected s) eqn:Hc; [by intros (? & _)%send_all_sent|]. unfold send_all. rewrite Hc. cbn [negb].
  case_bool_decide as Hd; [|done]. intros [= <-]. by rewrite Hd, app_nil_r.
Qed.

Lemma read_exactly_sent buffer needed s r s' : read_exactly buffer needed s = (r, s') →
  dialled s' = dialled s ∧ sent_bytes s' = sent_bytes s.
Proof.
  assert (∀ attempts buffer s, dialled (read_attempts attempts buffer needed s).2 = dialled s ∧
            sent_bytes (read_attempts attempts buffer needed s).2 = sent_bytes s) as Hread.
  { clear. induction attempts as [|attempts IH]; intros buffer s; cbn [read_attempts]; [done|].
    destruct (negb _); [done|]. unfold sbind.
    pose proof (receive_available_socket buffer s) as (_ & E1 & E2 & _).
    destruct (receive_available buffer s) as [[alive buffer'] s1]. cbn [snd] in *.
    destruct alive; cbn [negb]; [|by rewrite <-E1, <-E2]. destruct (IH buffer' s1) as [-> ->]. done. }
  unfold read_exactly, sbind. destruct (Hread MAX_READ_ATTEMPTS buffer s) as [E1 E2].
  destruct (read_attempts MAX_READ_ATTEMPTS buffer needed s) as [[[error|] buffer'] s1]; cbn [snd] in *;
    [|case_match]; by intros [= _ <-].
Qed.

Lemma socks5_result host port s r s' : perform_socks5_connect host port s = (r, s') →
  dialled s' = dialled s ∧
  (r = None → sent_bytes s' = sent_bytes s ++ greeting ++ connect_request host port ∧ 0 < size_of host <= MAX_DOMAIN_LENGTH).
Proof.
  unfold perform_socks5_connect, negotiate_no_auth, send_connect_request, sbind, sret.
  pose proof (send_all_dials greeting s) as [D1 _]. fold greeting.
  destruct (send_all greeting s) as [[] s1] eqn:E1; cbn [negb snd] in *; [|by intros [= <- <-]].
  apply send_all_appends in E1.
  destruct (read_exactly [] 2 s1) as [[[e|] reply] s2] eqn:E2; apply read_exactly_sent in E2 as [D2 S2];
    [intros [= <- <-]; split; [congruence|done]|].
  destruct (_ || _); [intros [= <- <-]; split; [congruence|done]|].
  destruct (bool_decide (host = []) || (MAX_DOMAIN_LENGTH <? size_of host)) eqn:Eh;
    [intros [= <- <-]; split; [congruence|done]|].
  pose proof (send_all_dials (connect_request host port) s2) as [D3 _].
  destruct (send_all (connect_request host port) s2) as [[] s3] eqn:E3; cbn [negb snd] in *;
    [|intros [= <- <-]; split; [congruence|done]].
  apply send_all_appends in E3.
  destruct (read_exactly [] 5 s3) as [[[e|] reply'] s4] eqn:E4; apply read_exactly_sent in E4 as [D4 S4];
    [intros [= <- <-]; split; [congruence|done]|].
  destruct (negb _); [intros [= <- <-]; split; [congruence|done]|].
  destruct (negb _); [intros [= <- <-]; split; [congruence|done]|].
  destruct (_ =? 0); [intros [= <- <-]; split; [congruence|done]|].
  destruct (read_exactly reply' _ s4) as [[e rest] s5] eqn:E5. apply read_exactly_sent in E5 as [D5 S5].
  intros [= <- <-]. split; [congruence|]. intros _.
  apply orb_false_iff in Eh as [Hne%bool_decide_eq_false Hmax].
  split; [by rewrite S5, S4, E3, S2, E1, <-app_assoc|].
  destruct host; [done|]. rewrite size_of_cons in *. pose proof (size_of_nonneg host). lia.
Qed.

Section proxy.
Context `{Sodium}.

Definition session_dials (c c' : server_connection) : Prop := stays_dialled (socket_ c) (socket_ c').

#[export] Instance session_dials_preorder : PreOrder session_dials.
Proof. unfold session_dials. split; [by intros c|]. intros c1 c2 c3 ? ?. by etransitivity. Qed.

Lemma pull_next_dials : keeps session_dials pull_next_message.
Proof.
  intros c. destruct (pull_next_message c) as [r c'] eqn:E. apply pull_attempts_only in E as [Hs _].
  destruct Hs as (_ & _ & _ & _ & E1 & E2 & _). split; cbn [snd]; [done|by rewrite E1].
Qed.

Lemma perform_handshake_dials ephemeral : keeps session_dials (perform_handshake ephemeral).
Proof.
  assert (∀ {A} (m : state noise_handshake_initiator A), keeps session_dials (on_initiator m)) as Hinit.
  { intros A m c. unfold on_initiator, zoom. by destruct (m (handshake_ c)). }
  unfold perform_handshake. apply keeps_bind; [apply _|apply Hinit|]. intros [first|]; [|apply keeps_ret, _].
  apply keeps_bind; [apply _| |intros [] ; cbn [negb]; [|apply keeps_ret, _]].
  { intros c. pose proof (send_all_dials (append_length_prefixed_message first []) (socket_ c)) as Hs.
    unfold on_socket, zoom, session_dials. by destruct (send_all _ (socket_ c)). }
  apply keeps_bind; [apply _|apply pull_next_dials|]. intros [error|response]; [apply keeps_ret, _|].
  apply keeps_bind; [apply _|apply Hinit|]. intros [payload|]; [|apply keeps_ret, _].
  apply keeps_bind; [apply _|apply keeps_gets, _|]. intros [[send receive]|]; [|apply keeps_ret, _].
  apply keeps_bind; [apply _|by intros c|]. intros _. apply keeps_ret, _.
Qed.

(** The rest of [open_session], once the host dialled answers. *)
Lemma finish_session_dials ephemeral :
  keeps session_dials
    (do* set_open true in
     let* failure := perform_handshake ephemeral in
     match failure with
     | Some error => do* set_open false in sret (Some error)
     | None => sret None
     end).
Proof.
  assert (∀ b, keeps session_dials (set_open b)) as Hset by (by intros b c).
  apply keeps_bind; [apply _|apply Hset|]. intros _.
  apply keeps_bind; [apply _|apply perform_handshake_dials|].
  intros [error|]; [apply keeps_bind; [apply _|apply Hset|intros _]|]; apply keeps_ret, _.
Qed.

(** One host is dialled for a session, whatever happens: the proxy when
    there is one, so that the name of the server is then neither resolved nor
    connected to by the client; and a session that opens through a proxy has
    first sent it the greeting and one request that names the server and its
    port, before anything of the handshake. *)
Theorem only_the_proxy_is_dialled (network : bytes → Z → dial_result) (ephemeral : option (bytes * bytes))
    (endpoint : server_endpoint) (c : server_connection) :
  let '(failure, c') := open_session network ephemeral endpoint c in
  let through_proxy := bool_decide (endpoint_socks5_host endpoint ≠ []) in
  dialled (socket_ c') = dialled (socket_ c) ++
    [if through_proxy then (endpoint_socks5_host endpoint, endpoint_socks5_port endpoint)
     else (endpoint_host endpoint, endpoint_port endpoint)] ∧
  (through_proxy = true → failure = None →
     (greeting ++ connect_request (endpoint_host endpoint) (endpoint_port endpoint))
       `prefix_of` sent_bytes (socket_ c') ∧
     0 < size_of (endpoint_host endpoint) <= MAX_DOMAIN_LENGTH).
Proof.
  unfold open_session, sbind at 1, smodify. unfold sbind at 1, on_socket at 1, zoom at 1, connect_to_host.
  cbn [socket_]. destruct (decide (endpoint_socks5_host endpoint = [])) as [Hn|Hn].
  - rewrite bool_decide_true, (bool_decide_false (_ ≠ [])) by auto. cbn [negb].
    destruct (network _ _); [done|done|]. unfold sbind at 1, sret at 1. set (c0 := ServerConnection _ _ _ _ _ _).
    pose proof (finish_session_dials ephemeral c0) as [Hd _]. destruct ((do* set_open true in _) c0) as [r c'].
    split; [exact Hd|done].
  - rewrite bool_decide_false, (bool_decide_true (_ ≠ [])) by done. cbn [negb].
    destruct (network _ _); [done|done|]. unfold sbind at 1, on_socket, zoom. cbn [socket_].
    destruct (perform_socks5_connect _ _ _) as [[error|] s1] eqn:E; apply socks5_result in E as [Hd Hs].
    + split; [exact Hd|done].
    + destruct (Hs eq_refl) as [Hsent Hsize]. set (c0 := ServerConnection s1 _ _ _ _ _).
      pose proof (finish_session_dials ephemeral c0) as [Hd' Hs']. destruct ((do* set_open true in _) c0) as [r c'].
      cbn [snd] in *. split; [rewrite Hd'; exact Hd|]. intros _ _. split; [|exact Hsize].
      cbn in Hsent. cbn in Hs'. by rewrite Hsent in Hs'.
Qed.
End proxy.

(** ** Witnesses *)

Section witnesses.
#[local] Existing Instance toy_sodium.
#[local] Existing Instance toy_sodium_laws.

Definition tor_key : bytes := replicate 32 (byte_of 7).
Definition fresh_socket (answers : list recv_result) : tcp_client_socket := ClientSocket true [] [] answers [].

(** A session with its channel open, and a server's channel in step with it. *)
Definition open_connection (answers : list recv_result) : server_connection :=
  ServerConnection (fresh_socket answers) tor_key (new_initiator tor_key) (Some (new_transport tor_key tor_key)) [] true.
Definition open_channel : noise_channel :=
  NoiseChannel (new_responder tor_key tor_key) (Some (new_transport tor_key tor_key)).

Lemma open_connection_paired answers : paired (open_connection answers) open_channel.
Proof. exists (new_transport tor_key tor_key), (new_transport tor_key tor_key). by repeat split. Qed.

Definition pong_frame : bytes := default [] (encode_frame message_type.ping_response [byte_of 1]).
Definition sealed_pong : bytes := default [] (seal_message pong_frame open_channel).1.

(** The answer, a byte at a time with a timeout between. *)
Definition slow_answers : list recv_result :=
  [Received (take 3 (append_length_prefixed_message sealed_pong [])); RecvInterrupted;
   Received (drop 3 (append_length_prefixed_message sealed_pong []))].

(** A client that has not dialled yet, and the reply of a server as it comes:
    three bytes, a timeout, the rest. *)
Definition idle_client (reply : bytes) : server_connection :=
  ServerConnection
    (ClientSocket false [] [] [Received (take 3 reply); RecvInterrupted; Received (drop 3 reply)] [Sent 5; SendInterrupted])
    (toy_key (byte_of 1)) (new_initiator (toy_key (byte_of 1))) None [] false.

Lemma open_session_pairs_witness :
  ∃ first second channel c',
    accept_handshake_message (Some (toy_key (byte_of 3), toy_key (byte_of 3))) first
      (new_channel (toy_key (byte_of 1)) (toy_key (byte_of 1))) = (Some second, channel) ∧
    open_session (λ _ _, Connected) (Some (toy_key (byte_of 2), toy_key (byte_of 2)))
      (ServerEndpoint (lit "relay.example") 7717 [] 0)
      (idle_client (append_length_prefixed_message second [])) = (None, c') ∧
    paired c' channel ∧ has_channel c' = true.
Proof.
  destruct (open_session_pairs (toy_key (byte_of 1)) (toy_key (byte_of 1)) (toy_key (byte_of 2)) (toy_key (byte_of 2))
              (toy_key (byte_of 3)) (toy_key (byte_of 3)) eq_refl eq_refl (toy_agree _ _) (toy_agree _ _))
    as (first & second & channel & E & Hclient).
  set (reply := append_length_prefixed_message second []) in *.
  destruct (Hclient (idle_client reply) (λ _ _, Connected) (ServerEndpoint (lit "relay.example") 7717 [] 0)
              [Received (take 3 reply); RecvInterrupted; Received (drop 3 reply)] []) as (c' & left & Eopen & _ & Hp & Hch & _).
  - reflexivity.
  - reflexivity.
  - reflexivity.
  - by repeat constructor.
  - reflexivity.
  - by repeat constructor.
  - vm_compute. lia.
  - cbn. rewrite app_nil_r. apply take_drop.
  - exists first, second, channel, c'. exact (conj E (conj Eopen (conj Hp Hch))).
Defined.

Lemma frames_cross_intact_witness :
  ∃ c', receive_frame (open_connection slow_answers)
          = (inr (FrameHeader 2 message_type.ping_response, [byte_of 1]), c').
Proof.
  destruct (proj2 (frames_cross_intact (open_connection slow_answers) open_channel
                     (open_connection_paired slow_answers) eq_refl eq_refl)
              message_type.ping_response [byte_of 1] pong_frame sealed_pong (seal_message pong_frame open_channel).2
              slow_answers [] []) as (c' & left & E & _).
  - vm_compute. reflexivity.
  - vm_compute. reflexivity.
  - vm_compute. reflexivity.
  - repeat constructor.
  - vm_compute. lia.
  - vm_compute. reflexivity.
  - exists c'. exact E.
Defined.

Lemma answers_are_authentic_witness :
  ∃ header payload c' answers sealed frame r,
    receive_frame (open_connection slow_answers) = (inr (header, payload), c') ∧
    received_bytes answers = append_length_prefixed_message sealed [] ++ input_buffer_ c' ∧
    encrypt_with_ad [] frame (receive_state_ (new_transport tor_key tor_key)) = (Some sealed, r).
Proof.
  destruct (receive_frame (open_connection slow_answers)) as [[error|[header payload]] c'] eqn:E;
    [vm_compute in E; discriminate E|].
  destruct (answers_are_authentic _ _ _ _ E) as (answers & t & t' & sealed & frame & _ & Hbytes & Ht & _ & Hs & _).
  assert (t = new_transport tor_key tor_key) as -> by (vm_compute in Ht; injection Ht as <-; vm_compute; reflexivity).
  exists header, payload, c', answers, sealed, frame, (receive_state_ t').
  split; [reflexivity|]. split; [exact Hbytes|exact Hs].
Defined.

Lemma answers_are_bounded_witness :
  ∃ m c', pull_next_message (open_connection slow_answers) = (inr m, c') ∧ size_of m < MAX_FRAME_SIZE.
Proof.
  destruct (pull_next_message (open_connection slow_answers)) as [[error|m] c'] eqn:E;
    [vm_compute in E; discriminate E|].
  exists m, c'. split; [reflexivity|].
  refine (proj2 (answers_are_bounded (open_connection slow_answers) c' m _ E) eq_refl).
  repeat constructor; vm_compute; discriminate.
Defined.
End witnesses.
