(* ===== verification/ClientSession.v ===== *)
(** The login of a client (client/net/client_session.cpp): hello, the signature
    of the challenge, registration. *)

From S2P Require Import Prelude.
From S2P Require Import Wire.
From S2P Require Import Framing.
From S2P Require Import SessionMessages.
From S2P Require Import Sodium.
From S2P Require Import Noise.
From S2P Require Import DirectMessages.
From S2P Require Import ClientNet.

Record client_session := ClientSession {
  challenge_nonce_ : bytes;
  handle_ : bytes;
  user_id_ : Z;
  needs_registration_ : bool;
}.

(** The constructor. *)
Definition new_session : client_session := ClientSession (replicate 32 Byte.x00) [] 0 true.

(** A session and the connection it works on. *)
Record client := Client { connection_ : server_connection; session_ : client_session }.

Definition on_link {A} (m : state server_connection A) : state client A :=
  zoom connection_ (λ c s, Client c (session_ s)) m.
Definition set_session (session : client_session) : state client unit :=
  smodify (λ s, Client (connection_ s) session).

Section login.
Context `{Sodium}.
Context (identity : identity_keypair).

Definition needs_registration (s : client_session) : bool := needs_registration_ s.
Definition get_handle (s : client_session) : bytes := handle_ s.

(** The error, or nothing. *)
Definition sign_and_send_response : state client (option bytes) :=
  let* nonce := sgets (λ s, challenge_nonce_ (session_ s)) in
  match sign_message (build_auth_signing_input nonce (public_key_ identity)) identity with
  | None => sret (Some (lit "signature du defi impossible"))
  | Some signature =>
      let* sent := on_link (send_typed_message message_type.auth_response
                              (auth_response.write_to (auth_response.mk signature))) in
      if negb sent then sret (Some (lit "envoi de la reponse d'authentification impossible")) else sret None
  end.

(** The session an acceptance makes. *)
Definition accepted_session (nonce : bytes) (accepted : auth_accepted.t) : client_session :=
  ClientSession nonce (auth_accepted.handle accepted) (auth_accepted.user_id accepted) false.

Definition authenticate : state client (option bytes) :=
  let* sent := on_link (send_typed_message message_type.hello_request
                          (hello_request.write_to (hello_request.mk PROTOCOL_VERSION (public_key_ identity)))) in
  if negb sent then sret (Some (lit "envoi du hello impossible"))
  else
    let* challenge := on_link (receive_typed_message message_type.auth_challenge auth_challenge.read_from) in
    match challenge with
    | inl error => sret (Some error)
    | inr challenge =>
        let* session := sgets session_ in
        let nonce := auth_challenge.nonce challenge in
        do* set_session (ClientSession nonce (handle_ session) (user_id_ session) (needs_registration_ session)) in
        let* failure := sign_and_send_response in
        match failure with
        | Some error => sret (Some error)
        | None =>
            let* received := on_link receive_frame in
            match received with
            | inl error => sret (Some error)
            | inr (header, payload) =>
                if decide (type header = message_type.auth_accepted) then
                  match (auth_accepted.read_from (new_reader payload)).1 with
                  | None => sret (Some (lit "reponse d'authentification mal formee"))
                  | Some accepted => do* set_session (accepted_session nonce accepted) in sret None
                  end
                else if decide (type header = message_type.status_ok) then
                  do* set_session (ClientSession nonce (handle_ session) (user_id_ session) true) in sret None
                else sret (Some (lit "authentification refusee par le serveur"))
            end
        end
    end.

Definition register_handle (handle : bytes) : state client (option bytes) :=
  if negb (validate_handle handle) then
    sret (Some (lit "pseudo invalide : 3 a 32 caracteres, lettres, chiffres, tiret ou souligne, ne commencant pas par un chiffre"))
  else
    let* sent := on_link (send_typed_message message_type.register_request
                            (register_request.write_to (register_request.mk handle))) in
    if negb sent then sret (Some (lit "envoi de l'enregistrement impossible"))
    else
      let* accepted := on_link (receive_typed_message message_type.auth_accepted auth_accepted.read_from) in
      match accepted with
      | inl error => sret (Some error)
      | inr accepted =>
          let* session := sgets session_ in
          do* set_session (accepted_session (challenge_nonce_ session) accepted) in sret None
      end.
End login.
