(* ===== verification/ClientCommands.v ===== *)
(** The commands of the command line client
    (client/cli/cli_{forum,content,content_delete,social,top8,dm,report}_commands.cpp)
    and their dispatch (dispatch_command of client/cli_main.cpp). A command talks over
    the connection, prints, and ends with an error or without; what is drawn at
    random and the time of day are arguments. *)

From S2P Require Import Prelude.
From S2P Require Import Wire.
From S2P Require Import Framing.
From S2P Require Import Codec.
From S2P Require Import SessionMessages.
From S2P Require Import ContentMessages.
From S2P Require Import SocialMessages.
From S2P Require Import TextTools.
From S2P Require Import Hex.
From S2P Require Import Sodium.
From S2P Require Import ClientOptions.
From S2P Require Import DirectMessages.
From S2P Require Import Files.
From S2P Require Import Keystore.
From S2P Require Import ClientNet.
From S2P Require Import ClientSession.

(** The connection and the session of a command, and what it has printed. *)
Record cli_context := CliContext { client_ : client; printed : bytes }.

(** The error, or nothing. *)
Abbreviation command := (state cli_context (option bytes)).

Definition talk {A} (m : state server_connection A) : state cli_context A :=
  zoom client_ (λ c s, CliContext c (printed s)) (on_link m).
Definition say (text : bytes) : state cli_context unit :=
  smodify (λ s, CliContext (client_ s) (printed s ++ text)).

Definition fails (error : bytes) : command := sret (Some error).
Definition done_saying (text : bytes) : command := do* say text in sret None.

(** [std::from_chars] on the text, whatever follows the digits. *)
Definition parse_identifier (text : bytes) : option Z := fst <$> from_chars_unsigned 64 text.

Definition parse_public_key (text : bytes) : option bytes :=
  match decode_hex text with
  | Some decoded => if size_of decoded =? PUBLIC_KEY_SIZE then Some decoded else None
  | None => None
  end.

Definition INVALID_KEY : bytes := lit "cle publique invalide : 64 caracteres hexadecimaux attendus".
Definition EMPTY_SLOT_MARKER : bytes := lit "-".

Section commands.
Context `{Sodium}.
Context (identity : identity_keypair).

(** A request, and the answer of the expected type. *)
Definition ask {R A} `{WireFormat R, WireFormat A} (type : message_type.t) (request : R) (expected : message_type.t)
    (answered : A → command) : command :=
  let* sent := talk (send_typed_message type (write_to request)) in
  if negb sent then fails (lit "envoi impossible")
  else
    let* answer := talk (receive_typed_message expected read_from) in
    match answer with
    | inl error => fails error
    | inr answer => answered answer
    end.

(** A request that is answered by [status_ok]. *)
Definition order {R} `{WireFormat R} (type : message_type.t) (request : R) (confirmation : bytes) : command :=
  ask type request message_type.status_ok (λ _ : status_ok_response.t, done_saying confirmation).

(** ** cli_forum_commands.cpp *)

Definition run_forum_create (arguments : list bytes) : command :=
  match arguments with
  | name :: description :: _ =>
      ask message_type.forum_create_request (forum_create_request.mk name description [])
        message_type.forum_info_response (λ response,
          let forum := forum_info_response.forum response in
          done_saying (lit "forum cree : #" ++ decimal (forum_record.id forum) ++ lit " " ++
                       forum_record.name forum ++ newline))
  | _ => fails (lit "usage : forum-create <nom> <description>")
  end.

Definition forum_line (forum : forum_record.t) : bytes :=
  lit "  #" ++ decimal (forum_record.id forum) ++ lit "  " ++ forum_record.name forum ++ lit "  (" ++
  decimal (forum_record.post_count forum) ++ lit " posts, fonde par " ++ forum_record.founder_handle forum ++
  lit ")" ++ newline ++
  (if decide (forum_record.description forum = []) then []
   else lit "        " ++ forum_record.description forum ++ newline).

Definition run_forum_list : command :=
  ask message_type.forum_list_request (forum_list_request.mk 0 DEFAULT_LIST_ITEMS)
    message_type.forum_list_response (λ response,
      let forums := forum_list_response.forums response in
      done_saying (decimal (size_of forums) ++ lit " forum(s) sur " ++
                   decimal (forum_list_response.total_count response) ++ lit " :" ++ newline ++
                   concat (map forum_line forums))).

(** ** cli_content_commands.cpp *)

Definition run_post_create (arguments : list bytes) : command :=
  match arguments with
  | forum :: title :: body :: _ =>
      match parse_identifier forum with
      | None => fails (lit "identifiant de forum invalide")
      | Some forum_id =>
          ask message_type.post_create_request (post_create_request.mk forum_id title body)
            message_type.post_info_response (λ response,
              done_saying (lit "post cree : #" ++ decimal (post_record.id (post_info_response.post response)) ++ newline))
      end
  | _ => fails (lit "usage : post <forum_id> <titre> <corps>")
  end.

Definition post_line (post : post_record.t) : bytes :=
  lit "  #" ++ decimal (post_record.id post) ++ lit "  " ++ post_record.title post ++ lit "  <" ++
  post_record.author_handle post ++ lit ">  " ++ decimal (post_record.comment_count post) ++
  lit " commentaire(s)" ++ newline.

Definition run_post_list (arguments : list bytes) : command :=
  match arguments with
  | [] => fails (lit "usage : posts <forum_id>")
  | forum :: _ =>
      match parse_identifier forum with
      | None => fails (lit "identifiant de forum invalide")
      | Some forum_id =>
          ask message_type.post_list_request (post_list_request.mk forum_id 0 DEFAULT_LIST_ITEMS)
            message_type.post_list_response (λ response,
              let posts := post_list_response.posts response in
              done_saying (decimal (size_of posts) ++ lit " post(s) sur " ++
                           decimal (post_list_response.total_count response) ++ lit " :" ++ newline ++
                           concat (map post_line posts)))
      end
  end.

Definition print_indented_comment (comment : comment_record.t) : bytes :=
  concat (replicate (Z.to_nat (comment_record.depth comment)) (lit "  ")) ++
  lit "|- #" ++ decimal (comment_record.id comment) ++ lit " <" ++ comment_record.author_handle comment ++
  lit "> " ++ comment_record.body comment ++ newline.

Definition run_thread_fetch (arguments : list bytes) : command :=
  match arguments with
  | [] => fails (lit "usage : thread <post_id>")
  | post :: _ =>
      match parse_identifier post with
      | None => fails (lit "identifiant de post invalide")
      | Some post_id =>
          ask message_type.thread_fetch_request (thread_fetch_request.mk post_id)
            message_type.thread_response (λ response,
              let post := thread_response.post response in
              done_saying (lit "#" ++ decimal (post_record.id post) ++ lit "  " ++ post_record.title post ++ lit "  <" ++
                           post_record.author_handle post ++ lit ">" ++ newline ++ post_record.body post ++ newline ++
                           lit "---" ++ newline ++
                           concat (map print_indented_comment (thread_response.comments response)) ++
                           (if thread_response.truncated response =? 0 then [] else lit "(fil tronque)" ++ newline)))
      end
  end.

Definition run_comment_create (arguments : list bytes) : command :=
  match arguments with
  | post :: parent :: body :: _ =>
      match parse_identifier post, parse_identifier parent with
      | Some post_id, Some parent_comment_id =>
          ask message_type.comment_create_request (comment_create_request.mk post_id parent_comment_id body)
            message_type.comment_info_response (λ response,
              done_saying (lit "commentaire cree : #" ++
                           decimal (comment_record.id (comment_info_response.comment response)) ++ newline))
      | _, _ => fails (lit "identifiant invalide")
      end
  | _ => fails (lit "usage : comment <post_id> <parent_id|0> <corps>")
  end.

(** ** cli_content_delete_commands.cpp *)

Definition run_post_delete (arguments : list bytes) : command :=
  match arguments with
  | [] => fails (lit "usage : post-delete <post_id>")
  | post :: _ =>
      match parse_identifier post with
      | None => fails (lit "identifiant invalide")
      | Some post_id =>
          order message_type.post_delete_request (post_delete_request.mk post_id) (lit "post retire" ++ newline)
      end
  end.

Definition run_comment_delete (arguments : list bytes) : command :=
  match arguments with
  | [] => fails (lit "usage : comment-delete <comment_id>")
  | comment :: _ =>
      match parse_identifier comment with
      | None => fails (lit "identifiant invalide")
      | Some comment_id =>
          order message_type.comment_delete_request (comment_delete_request.mk comment_id)
            (lit "commentaire retire" ++ newline)
      end
  end.

(** ** cli_social_commands.cpp *)

Definition run_profile_set (arguments : list bytes) : command :=
  match arguments with
  | display_name :: bio :: _ =>
      order message_type.profile_set_request (profile_set_request.mk display_name bio [] [])
        (lit "profil mis a jour" ++ newline)
  | _ => fails (lit "usage : profile-set <nom_affiche> <bio>")
  end.

Definition run_profile_get (arguments : list bytes) : command :=
  match arguments with
  | [] => fails (lit "usage : profile-get <pubkey_hex>")
  | key :: _ =>
      match parse_public_key key with
      | None => fails INVALID_KEY
      | Some target_pubkey =>
          ask message_type.profile_get_request (profile_get_request.mk target_pubkey)
            message_type.profile_response (λ response,
              let profile := profile_response.profile response in
              done_saying (lit "@" ++ profile_record.handle profile ++ lit "  (" ++ profile_record.display_name profile ++
                           lit ")" ++ newline ++ profile_record.bio profile ++ newline))
      end
  end.

Definition run_friend_add (arguments : list bytes) : command :=
  match arguments with
  | [] => fails (lit "usage : friend-add <pubkey_hex>")
  | key :: _ =>
      match parse_public_key key with
      | None => fails INVALID_KEY
      | Some target_pubkey =>
          order message_type.friend_add_request (friend_add_request.mk target_pubkey friendship_status.accepted)
            (lit "ami ajoute" ++ newline)
      end
  end.

Definition friend_line (entry : friend_record.t) : bytes :=
  lit "  @" ++ friend_record.handle entry ++ lit "  " ++ encode_hex (friend_record.pubkey entry) ++ newline.

Definition run_friend_list : command :=
  let* sent := talk (send_frame message_type.friend_list_request []) in
  if negb sent then fails (lit "envoi impossible")
  else
    let* received := talk (receive_typed_message message_type.friend_list_response friend_list_response.read_from) in
    match received with
    | inl error => fails error
    | inr response =>
        let friends := friend_list_response.friends response in
        done_saying (decimal (size_of friends) ++ lit " ami(s) :" ++ newline ++ concat (map friend_line friends))
    end.

(** ** cli_top8_commands.cpp *)

(** The keys, an empty slot as zeros. *)
Fixpoint parse_slots (arguments : list bytes) : option (list bytes) :=
  match arguments with
  | [] => Some []
  | argument :: arguments' =>
      match (if decide (argument = EMPTY_SLOT_MARKER) then Some (replicate 32 Byte.x00) else parse_public_key argument) with
      | None => None
      | Some slot =>
          match parse_slots arguments' with
          | None => None
          | Some slots => Some (slot :: slots)
          end
      end
  end.

Definition run_top8_set (arguments : list bytes) : command :=
  if negb (size_of arguments =? TOP8_SLOT_COUNT) then
    fails (lit "usage : top8-set <8 cles hex ou '-' pour une case vide>")
  else
    match parse_slots arguments with
    | None => fails INVALID_KEY
    | Some slots =>
        order message_type.top8_set_request (top8_set_request.mk slots) (lit "top 8 enregistre" ++ newline)
    end.

Definition find_slot_detail (response : top8_response.t) (slot : bytes) : option friend_record.t :=
  snd <$> list_find (λ record, friend_record.pubkey record = slot) (top8_response.details response).

Definition slot_line (response : top8_response.t) (index : nat) (slot : bytes) : bytes :=
  lit "  " ++ decimal (Z.of_nat index + 1) ++
  match find_slot_detail response slot with
  | Some detail => lit ". @" ++ friend_record.handle detail ++ lit "  (" ++ friend_record.display_name detail ++ lit ")"
  | None => lit ". --"
  end ++ newline.

Definition run_top8_get (arguments : list bytes) : command :=
  match arguments with
  | [] => fails (lit "usage : top8-get <pubkey_hex>")
  | key :: _ =>
      match parse_public_key key with
      | None => fails INVALID_KEY
      | Some target_pubkey =>
          ask message_type.top8_get_request (top8_get_request.mk target_pubkey)
            message_type.top8_response (λ response,
              done_saying (concat (imap (slot_line response) (top8_response.slots response))))
      end
  end.

(** ** cli_report_commands.cpp *)

Definition run_report_post (arguments : list bytes) : command :=
  match arguments with
  | [] => fails (lit "usage : report-post <post_id> [motif]")
  | post :: rest =>
      match parse_identifier post with
      | None => fails (lit "identifiant invalide")
      | Some post_id =>
          order message_type.report_post_request (report_post_request.mk post_id (default [] (head rest)))
            (lit "post signale" ++ newline)
      end
  end.

Definition run_report_account (arguments : list bytes) : command :=
  match arguments with
  | [] => fails (lit "usage : report-account <pubkey_hex> [motif]")
  | key :: rest =>
      match parse_public_key key with
      | None => fails INVALID_KEY
      | Some target_pubkey =>
          order message_type.report_account_request (report_account_request.mk target_pubkey (default [] (head rest)))
            (lit "compte signale" ++ newline)
      end
  end.

(** ** cli_dm_commands.cpp *)

Definition run_prekey_publish : command :=
  match derive_local_prekey identity with
  | None => fails (lit "derivation de la prekey impossible")
  | Some (prekey, _) =>
      match sign_message (build_prekey_signing_input (public_key_ identity) prekey) identity with
      | None => fails (lit "signature de la prekey impossible")
      | Some signature =>
          order message_type.prekey_publish_request (prekey_publish_request.mk prekey signature)
            (lit "prekey publiee" ++ newline)
      end
  end.

Definition run_dm_send (ephemeral : option (bytes * bytes)) (now : Z) (arguments : list bytes) : command :=
  match arguments with
  | key :: text :: _ =>
      match parse_public_key key with
      | None => fails (lit "cle publique invalide")
      | Some recipient_pubkey =>
          ask message_type.prekey_fetch_request (prekey_fetch_request.mk recipient_pubkey)
            message_type.prekey_bundle_response (λ bundle,
              match seal_direct_message ephemeral now identity bundle text with
              | inl error => fails error
              | inr ciphertext =>
                  order message_type.dm_send_request (dm_send_request.mk recipient_pubkey ciphertext)
                    (lit "message chiffre depose (" ++ decimal (size_of ciphertext) ++
                     lit " octets opaques pour le serveur)" ++ newline)
              end)
      end
  | _ => fails (lit "usage : dm-send <pubkey_hex> <texte>")
  end.

(** The page shown, then the acknowledgement of what opened. *)
Definition show_and_acknowledge (response : dm_list_response.t) : command :=
  let '(text, envelope_ids) := show_mailbox identity (dm_list_response.envelopes response) in
  do* say text in
  if decide (envelope_ids = []) then sret None
  else
    let* sent := talk (send_typed_message message_type.dm_ack_request
                         (write_to (dm_ack_request.mk envelope_ids))) in
    if negb sent then fails (lit "accuse de reception impossible")
    else
      let* acknowledged := talk (receive_typed_message message_type.status_ok status_ok_response.read_from) in
      match acknowledged with
      | inl error => fails error
      | inr _ => sret None
      end.

Definition run_dm_fetch : command :=
  ask message_type.dm_fetch_request (dm_fetch_request.mk 0 MAX_DM_BATCH_ITEMS)
    message_type.dm_list_response show_and_acknowledge.

(** ** cli_main.cpp *)

Definition dispatch_command (ephemeral : option (bytes * bytes)) (now : Z) (options : cli_options) : command :=
  let name := ClientOptions.command options in
  let arguments := ClientOptions.arguments options in
  if decide (name = lit "whoami") then
    let* session := sgets (λ s, session_ (client_ s)) in
    done_saying (lit "@" ++ get_handle session ++ newline ++ encode_hex (public_key_ identity) ++ newline)
  else if decide (name = lit "forum-create") then run_forum_create arguments
  else if decide (name = lit "forum-list") then run_forum_list
  else if decide (name = lit "post") then run_post_create arguments
  else if decide (name = lit "posts") then run_post_list arguments
  else if decide (name = lit "thread") then run_thread_fetch arguments
  else if decide (name = lit "comment") then run_comment_create arguments
  else if decide (name = lit "post-delete") then run_post_delete arguments
  else if decide (name = lit "comment-delete") then run_comment_delete arguments
  else if decide (name = lit "profile-set") then run_profile_set arguments
  else if decide (name = lit "profile-get") then run_profile_get arguments
  else if decide (name = lit "friend-add") then run_friend_add arguments
  else if decide (name = lit "friends") then run_friend_list
  else if decide (name = lit "prekey-publish") then run_prekey_publish
  else if decide (name = lit "top8-set") then run_top8_set arguments
  else if decide (name = lit "top8-get") then run_top8_get arguments
  else if decide (name = lit "dm-send") then run_dm_send ephemeral now arguments
  else if decide (name = lit "dm-fetch") then run_dm_fetch
  else if decide (name = lit "report-post") then run_report_post arguments
  else if decide (name = lit "report-account") then run_report_account arguments
  else fails (lit "commande inconnue : " ++ name).
End commands.
