(* ===== verification/ClientMain.v ===== *)
(** The command line program (client/cli_main.cpp): which server and which
    identity a command is for, the session it opens, and how the program ends.
    Its surroundings (the environment's variables, standard input, what is drawn
    at random, the network) are a record; the files are the state. The prompts
    are not part of what is printed here. *)

From S2P Require Import Prelude.
From S2P Require Import TextTools.
From S2P Require Import Hex.
From S2P Require Import Sodium.
From S2P Require Import Noise.
From S2P Require Import ClientOptions.
From S2P Require Import DirectMessages.
From S2P Require Import Recovery.
From S2P Require Import Files.
From S2P Require Import Keystore.
From S2P Require Import ClientNet.
From S2P Require Import ClientSession.
From S2P Require Import ClientCommands.

(** ** cli_options.cpp: the usage and the passphrase *)

Definition print_cli_usage : bytes :=
  lit "hypercom_cli -- client en ligne de commande" ++ newline ++
  newline ++
  lit "  --host <adresse>       defaut 127.0.0.1" ++ newline ++
  lit "  --port <port>          defaut 7717" ++ newline ++
  lit "  --server-key <hex>     cle statique du serveur, 64 caracteres" ++ newline ++
  lit "  --connect-file <chemin> fichier host+port+server-key partage" ++ newline ++
  lit "                          par l'administrateur (ecrase par tout" ++ newline ++
  lit "                          flag place apres sur la ligne)" ++ newline ++
  lit "  --identity <chemin>    fichier de cle privee chiffree" ++ newline ++
  lit "  --server <nom>         serveur du registre a viser" ++ newline ++
  lit "  --master-seed <chemin> graine dont derivent les identites" ++ newline ++
  lit "  --servers <chemin>     registre chiffre des serveurs" ++ newline ++
  lit "  --tor                  passe par Tor (127.0.0.1:9050). Implicite" ++ newline ++
  lit "                          si --host se termine par .onion" ++ newline ++
  lit "  --socks5 <hote:port>   proxy SOCKS5 autre que celui par defaut" ++ newline ++
  lit "  --direct               force la connexion directe, sans proxy" ++ newline ++
  lit "  --replay-intro         (client graphique) rejoue l'accueil" ++ newline ++
  newline ++
  lit "Commandes de registre (aucune connexion) :" ++ newline ++
  lit "  server-add <hypercom://hote:port#cle> [nom]" ++ newline ++
  lit "  server-list" ++ newline ++
  lit "  server-import <nom> <chemin_identite>" ++ newline ++
  lit "  seed-restore           recree la graine depuis les 12 mots" ++ newline ++
  lit "                          (HYPERCOM_RECOVERY_PHRASE ou demandes)" ++ newline ++
  newline ++
  lit "Commandes :" ++ newline ++
  lit "  register <pseudo>" ++ newline ++
  lit "  whoami" ++ newline ++
  lit "  forum-create <nom> <description>" ++ newline ++
  lit "  forum-list" ++ newline ++
  lit "  post <forum_id> <titre> <corps>" ++ newline ++
  lit "  posts <forum_id>" ++ newline ++
  lit "  thread <post_id>" ++ newline ++
  lit "  comment <post_id> <parent_id|0> <corps>" ++ newline ++
  lit "  post-delete <post_id>        retire SON propre post" ++ newline ++
  lit "  comment-delete <comment_id>  retire SON propre commentaire" ++ newline ++
  lit "  profile-set <nom_affiche> <bio>" ++ newline ++
  lit "  profile-get <pubkey_hex>" ++ newline ++
  lit "  friend-add <pubkey_hex>" ++ newline ++
  lit "  friends" ++ newline ++
  lit "  prekey-publish" ++ newline ++
  lit "  dm-send <pubkey_hex> <texte>" ++ newline ++
  lit "  dm-fetch" ++ newline ++
  lit "  report-post <post_id> [motif]" ++ newline ++
  lit "  report-account <pubkey_hex> [motif]" ++ newline ++
  newline ++
  lit "La passphrase se lit dans HYPERCOM_PASSPHRASE, ou est demandee." ++ newline.

(** [variable]: HYPERCOM_PASSPHRASE; [typed]: the lines of standard input. *)
Definition read_passphrase (variable : option bytes) (typed : list bytes) : bytes + bytes :=
  match variable, typed with
  | Some passphrase, _ => inr passphrase
  | None, [] => inl (lit "passphrase requise")
  | None, passphrase :: _ =>
      if decide (passphrase = []) then inl (lit "passphrase requise") else inr passphrase
  end.

(** HYPERCOM_RECOVERY_PHRASE or a line; and the lines left. *)
Definition read_recovery_phrase (variable : option bytes) (typed : list bytes) : (bytes + bytes) * list bytes :=
  match variable, typed with
  | Some phrase, _ => (inr phrase, typed)
  | None, [] => (inl (lit "phrase de recuperation requise"), [])
  | None, phrase :: rest => (inr phrase, rest)
  end.

Definition print_recovery_phrase (phrase : bytes) : bytes :=
  newline ++ lit "PHRASE DE RECUPERATION (12 mots) -- a noter MAINTENANT :" ++ newline ++ newline ++
  lit "    " ++ phrase ++ newline ++ newline ++
  lit "Elle ne sera plus jamais affichee. Avec elle, on retrouve toutes vos identites" ++ newline ++
  lit "sur tous les serveurs ; sans elle, perdre hypercom_master.key les perd toutes." ++ newline ++
  lit "Ne la partagez avec personne : qui la connait EST vous." ++ newline ++ newline.

(** What the program finds around it. [line] is the socket the network gives,
    with the answers it will bring. *)
Record surroundings := Surroundings {
  passphrase_variable : option bytes;
  phrase_variable : option bytes;
  typed : list bytes;
  drawn_entropy_ : bytes;
  drawn_salt_ : bytes;
  drawn_nonce_ : bytes;
  drawn_identity_ : option identity_keypair;
  drawn_handshake_ : option (bytes * bytes);
  drawn_envelope_ : option (bytes * bytes);
  time_of_day : Z;
  network : bytes → Z → dial_result;
  line : tcp_client_socket;
}.

Section program.
Context `{Sodium} `{FileSystem}.

(** ** Which server, which identity *)

Definition decode_server_key (text : bytes) : bytes + bytes :=
  match decode_hex text with
  | Some decoded =>
      if size_of decoded =? X25519_PUBLIC_KEY_SIZE then inr decoded
      else inl (lit "--server-key doit faire 64 caracteres hexadecimaux")
  | None => inl (lit "--server-key doit faire 64 caracteres hexadecimaux")
  end.

Definition resolve_server (options : cli_options) (passphrase : bytes) : state disk (bytes + server_entry) :=
  if decide (server_label options = []) then
    match decode_server_key (server_key_hex options) with
    | inl error => sret (inl error)
    | inr key =>
        sret (inr (ServerEntry (host options)
                     (ServerEndpoint (host options) (port options) (socks5_host options) (socks5_port options))
                     key identity_source.imported (identity_path options) false))
    end
  else
    let* loaded := load (registry_path options) passphrase in
    match loaded with
    | inl error => sret (inl error)
    | inr entries =>
        match list_find (λ entry, label entry = server_label options) entries with
        | Some (_, entry) => sret (inr entry)
        | None => sret (inl (lit "serveur inconnu dans le registre : " ++ server_label options))
        end
    end.

Definition new_identity_notice (path : bytes) : bytes :=
  lit "aucune identite dans " ++ path ++ lit ", creation d'une nouvelle paire de cles." ++ newline ++
  lit "ATTENTION : cette cle EST le compte. Perdue, elle ne se recupere pas, et personne ne peut la reinitialiser." ++
  newline.

(** The seed the derived identities come from, created when there is none;
    and what is printed. *)
Definition resolve_seed (s : surroundings) (path passphrase : bytes) : state disk ((bytes + bytes) * bytes) :=
  let* stored := is_regular_file path in
  if (stored : bool) then
    let* unlocked := unlock_seed path passphrase in sret (unlocked, [])
  else
    let* created := create_seed path (drawn_entropy_ s) (drawn_salt_ s) (drawn_nonce_ s) passphrase in
    match created with
    | inl error => sret (inl error, [])
    | inr (seed, phrase) => sret (inr seed, print_recovery_phrase phrase)
    end.

(** The error or the identity, and what is printed. *)
Definition resolve_identity (s : surroundings) (options : cli_options) (entry : server_entry) (passphrase : bytes)
    : state disk ((bytes + identity_keypair) * bytes) :=
  match source entry with
  | identity_source.imported =>
      let path := imported_identity_path entry in
      let* stored := is_regular_file path in
      if (stored : bool) then
        let* unlocked := unlock_identity path passphrase in sret (unlocked, [])
      else
        let* created := create_identity path (drawn_salt_ s) (drawn_nonce_ s) passphrase (drawn_identity_ s) in
        sret (created, new_identity_notice path)
  | identity_source.derived =>
      let* '(seed, shown) := resolve_seed s (master_seed_path options) passphrase in
      match seed with
      | inl error => sret (inl error, shown)
      | inr seed =>
          match derive_server_identity seed (server_key entry) with
          | None => sret (inl (lit "derivation de l'identite impossible"), shown)
          | Some out => sret (inr out, shown)
          end
      end
  end.

(** ** The session of a command *)

(** How a run ends: its error, what it printed, and its connection if it got
    as far. *)
Record run := Run { failure : option bytes; output_ : bytes; link : option client }.

Definition run_command (s : surroundings) (identity : identity_keypair) (options : cli_options) (c : client)
    (shown : bytes) : run :=
  if decide (ClientOptions.command options = lit "register") then
    match ClientOptions.arguments options with
    | [] => Run (Some (lit "usage : register <pseudo>")) shown (Some c)
    | handle :: _ =>
        match register_handle handle c with
        | (Some error, c) => Run (Some error) shown (Some c)
        | (None, c) => Run None (shown ++ lit "compte cree : @" ++ get_handle (session_ c) ++ newline) (Some c)
        end
    end
  else if needs_registration (session_ c) then
    Run (Some (lit "cette cle n'a pas encore de compte : lancer d'abord 'register <pseudo>'")) shown (Some c)
  else
    let '(error, context) :=
      dispatch_command identity (drawn_envelope_ s) (time_of_day s) options (CliContext c shown) in
    Run error (printed context) (Some (client_ context)).

(** Establishes the channel, authenticates, then executes. *)
Definition run_session (s : surroundings) (entry : server_entry) (identity : identity_keypair) (options : cli_options)
    (shown : bytes) : run :=
  let '(error, connection) :=
    open_session (network s) (drawn_handshake_ s) (endpoint entry) (new_connection (server_key entry) (line s)) in
  match error with
  | Some error => Run (Some error) shown (Some (Client connection new_session))
  | None =>
      let '(error, c) := authenticate identity (Client connection new_session) in
      match error with
      | Some error => Run (Some error) shown (Some c)
      | None => run_command s identity options c shown
      end
  end.

Definition run_cli (s : surroundings) (options : cli_options) : state disk run :=
  match read_passphrase (passphrase_variable s) (typed s) with
  | inl error => sret (Run (Some error) [] None)
  | inr passphrase =>
      let* entry := resolve_server options passphrase in
      match entry with
      | inl error => sret (Run (Some error) [] None)
      | inr entry =>
          let* '(resolved, shown) := resolve_identity s options entry passphrase in
          match resolved with
          | inl error => sret (Run (Some error) shown None)
          | inr owner => sret (run_session s entry owner options shown)
          end
      end
  end.

(** ** main *)

Definition run_registry_command (s : surroundings) (options : cli_options) : state disk (bytes + bytes) :=
  let passphrase := read_passphrase (passphrase_variable s) (typed s) in
  if decide (ClientOptions.command options = lit "server-add") then
    run_server_add (drawn_salt_ s) (drawn_nonce_ s) passphrase options (ClientOptions.arguments options)
  else if decide (ClientOptions.command options = lit "server-list") then run_server_list passphrase options
  else if decide (ClientOptions.command options = lit "seed-restore") then
    let '(phrase, rest) := read_recovery_phrase (phrase_variable s) (typed s) in
    run_seed_restore (drawn_salt_ s) (drawn_nonce_ s) phrase (read_passphrase (passphrase_variable s) rest) options
  else run_server_import (drawn_salt_ s) (drawn_nonce_ s) passphrase options (ClientOptions.arguments options).

(** The exit code, what is on standard output and what is on standard error;
    and the connection. *)
Record exit := Exit { code : Z; stdout : bytes; stderr : bytes; connection_left : option client }.

Definition main (sodium_ready : bool) (s : surroundings) (argv : list bytes) : state disk exit :=
  if negb sodium_ready then sret (Exit 1 [] (lit "libsodium n'a pas pu s'initialiser" ++ newline) None)
  else
    let* readable := sgets files in
    match parse_cli_options readable argv default_options true true with
    | inl error => sret (Exit 2 print_cli_usage (error ++ newline ++ newline) None)
    | inr options =>
        if is_registry_command (ClientOptions.command options) then
          let* result := run_registry_command s options in
          match result with
          | inl error => sret (Exit 3 [] (error ++ newline) None)
          | inr text => sret (Exit 0 text [] None)
          end
        else
          let* r := run_cli s options in
          match failure r with
          | Some error => sret (Exit 4 (output_ r) (error ++ newline) (link r))
          | None => sret (Exit 0 (output_ r) [] (link r))
          end
    end.
End program.

(** ** The identity of a server is the same every time *)

Section stability.
Context `{SodiumLaws} `{FileSystem}.
Context (Hsystem : no_failure).

Lemma read_sealed_calm path d :
  read_sealed_file path d =
    (match files d !! path with Some (b :: contents) => Some (b :: contents) | _ => None end,
     Disk (files d) (S (io_calls d))).
Proof.
  unfold read_sealed_file, read_file, io_call, sgets, sbind, sret. rewrite Hsystem. cbn.
  by destruct (files d !! path) as [[]|].
Qed.

Lemma is_regular_calm path d :
  is_regular_file path d = (bool_decide (is_Some (files d !! path)), Disk (files d) (S (io_calls d))).
Proof. by apply is_regular_file_eq. Qed.

(** Unlocking only reads, and succeeds on a file that is there. *)
Lemma unlock_seed_reads path passphrase d d' : files d = files d' →
  (unlock_seed path passphrase d).1 = (unlock_seed path passphrase d').1 ∧
  files (unlock_seed path passphrase d).2 = files d.
Proof.
  intros E. unfold unlock_seed, sbind. rewrite !read_sealed_calm, E.
  destruct (files d' !! path) as [[|b contents]|]; [done| |done].
  by repeat case_match.
Qed.

Lemma unlock_identity_reads path passphrase d d' : files d = files d' →
  (unlock_identity path passphrase d).1 = (unlock_identity path passphrase d').1 ∧
  files (unlock_identity path passphrase d).2 = files d.
Proof.
  intros E. unfold unlock_identity, sbind. rewrite !read_sealed_calm, E.
  destruct (files d' !! path) as [[|b contents]|]; [done| |done].
  by repeat case_match.
Qed.

Lemma unlock_seed_present path passphrase d seed :
  (unlock_seed path passphrase d).1 = inr seed → is_Some (files d !! path).
Proof. unfold unlock_seed, sbind. rewrite read_sealed_calm. by destruct (files d !! path) as [[]|]. Qed.

Lemma unlock_identity_present path passphrase d out :
  (unlock_identity path passphrase d).1 = inr out → is_Some (files d !! path).
Proof. unfold unlock_identity, sbind. rewrite read_sealed_calm. by destruct (files d !! path) as [[]|]. Qed.

(** What is created can be unlocked. *)
Lemma create_seed_unlocks path entropy salt nonce passphrase d d1 seed phrase : drawn_ok salt nonce →
  create_seed path entropy salt nonce passphrase d = (inr (seed, phrase), d1) →
  (unlock_seed path passphrase d1).1 = inr seed.
Proof.
  intros Hd E. unfold create_seed in E. destruct (derive_master_seed entropy) as [s|] eqn:Es; [|done].
  unfold sbind in E. destruct (seal_to_disk path salt nonce passphrase s d) as [[e|] d1'] eqn:Eseal; [done|].
  injection E as -> <- ->. eapply seal_to_disk_unlocks; [done..|by eapply master_seed_size|done].
Qed.

Lemma create_identity_unlocks path salt nonce passphrase drawn d d1 out seed : drawn_ok salt nonce →
  size_of seed = ED25519_SEED_SIZE → derive_from_seed seed = Some out → drawn = Some out →
  create_identity path salt nonce passphrase drawn d = (inr out, d1) →
  (unlock_identity path passphrase d1).1 = inr out.
Proof.
  intros Hd Hseed Hout -> E. unfold create_identity, sbind in E. rewrite is_regular_calm in E.
  case_bool_decide; [done|]. case_decide; [done|].
  destruct (seal_identity_secret salt nonce passphrase (secret_key_ out)) as [sealed|] eqn:Es; [|done].
  destruct (write_owner_only path sealed _) as [[error|] d2] eqn:Ew; [done|]. injection E as <-.
  pose proof (write_owner_only_succeeds path sealed (Disk (files d) (S (io_calls d)))) as Hfile.
  rewrite Ew in Hfile. specialize (Hfile eq_refl). cbn in Hfile.
  pose proof (open_sealed_blob _ _ _ _ _ Hd Es) as Hopen.
  unfold derive_from_seed in Hout. destruct (crypto_sign_seed_keypair seed) as [[p k]|] eqn:Ek; [|done].
  destruct (seed_keypair_shape _ _ _ Ek) as [-> Hp]. injection Hout as <-. cbn [secret_key_] in Hopen.
  unfold unlock_identity, sbind. rewrite read_sealed_calm, Hfile.
  destruct sealed as [|b sealed]; [by unfold open_blob in Hopen|].
  unfold open_identity_secret. rewrite Hopen, size_of_app, Hseed, Hp, Z.eqb_refl.
  change ED25519_SEED_SIZE with 32 in Hseed.
  rewrite take_app_exact by (unfold size_of in Hseed; lia). unfold derive_from_seed. by rewrite Ek.
Qed.

Lemma create_identity_drawn path salt nonce passphrase drawn d d1 out :
  create_identity path salt nonce passphrase drawn d = (inr out, d1) → drawn = Some out.
Proof.
  unfold create_identity, sbind. destruct (is_regular_file path d) as [[] d0]; [done|]. case_decide; [done|].
  destruct drawn as [x|]; [|done]. destruct (seal_identity_secret _ _ _ _); [|done].
  destruct (write_owner_only _ _ _) as [[]]; [done|]. by intros [= ->].
Qed.

Context (s : surroundings).
Context (Hdrawn : drawn_ok (drawn_salt_ s) (drawn_nonce_ s)).
Context (Hgenerated : ∀ drawn, drawn_identity_ s = Some drawn →
  ∃ seed, size_of seed = ED25519_SEED_SIZE ∧ derive_from_seed seed = Some drawn).

Lemma resolved_seed_again path passphrase d d1 seed shown :
  resolve_seed s path passphrase d = ((inr seed, shown), d1) →
  ∀ s', ∃ d2, resolve_seed s' path passphrase d1 = ((inr seed, []), d2) ∧ files d2 = files d1.
Proof.
  intros E s'. assert ((unlock_seed path passphrase d1).1 = inr seed) as Hunlock.
  { unfold resolve_seed, sbind in E. rewrite is_regular_calm in E. case_bool_decide.
    - destruct (unlock_seed path passphrase _) as [unlocked d2] eqn:Eu. injection E as -> <- ->.
      pose proof (unlock_seed_reads path passphrase (Disk (files d) (S (io_calls d))) d1) as Hr.
      pose proof (unlock_seed_reads path passphrase (Disk (files d) (S (io_calls d))) d eq_refl) as [_ Hf].
      rewrite Eu in Hr, Hf. by destruct (Hr (eq_sym Hf)) as [<- _].
    - destruct (create_seed _ _ _ _ _ _) as [[error|[created phrase]] d2] eqn:Ec; [done|]. injection E as -> <- ->.
      by eapply create_seed_unlocks. }
  unfold resolve_seed, sbind. rewrite is_regular_calm.
  rewrite bool_decide_true by (by eapply unlock_seed_present).
  set (d0 := Disk (files d1) (S (io_calls d1))). destruct (unlock_seed_reads path passphrase d0 d1 eq_refl) as [Hr Hf].
  rewrite Hunlock in Hr. destruct (unlock_seed path passphrase d0) as [unlocked d2]. cbn in Hr, Hf. subst unlocked.
  by exists d2.
Qed.

(** C26: on a disk whose calls do not fail, the identity the program uses for a
    server does not change from one run to the next. However it came about (an
    identity file, one just drawn, a master seed, one just created), a later run
    with the same options and passphrase resolves the same key pair, draws
    nothing, says nothing about a new key, and leaves the files as they are. *)
Theorem identity_is_stable (options : cli_options) (entry : server_entry) (passphrase : bytes) (d d1 : disk)
    (out : identity_keypair) (shown : bytes)
    (Hresolved : resolve_identity s options entry passphrase d = ((inr out, shown), d1)) :
  ∀ s', ∃ d2, resolve_identity s' options entry passphrase d1 = ((inr out, []), d2) ∧ files d2 = files d1.
Proof.
  intros s'. unfold resolve_identity in *. destruct (source entry).
  - unfold sbind in *. destruct (resolve_seed s _ _ d) as [[[error|seed] shown'] d'] eqn:Es; [done|].
    destruct (derive_server_identity seed (server_key entry)) as [derived|] eqn:Ed; [|done]. injection Hresolved as -> <- ->.
    destruct (resolved_seed_again _ _ _ _ _ _ Es s') as (d2 & E2 & Hf). exists d2. by rewrite E2, Ed.
  - set (path := imported_identity_path entry) in *.
    assert ((unlock_identity path passphrase d1).1 = inr out) as Hunlock.
    { unfold sbind in Hresolved. rewrite is_regular_calm in Hresolved. case_bool_decide.
      - destruct (unlock_identity path passphrase _) as [unlocked d2] eqn:Eu. injection Hresolved as -> <- ->.
        pose proof (unlock_identity_reads path passphrase (Disk (files d) (S (io_calls d))) d1) as Hr.
        pose proof (unlock_identity_reads path passphrase (Disk (files d) (S (io_calls d))) d eq_refl) as [_ Hf].
        rewrite Eu in Hr, Hf. by destruct (Hr (eq_sym Hf)) as [<- _].
      - destruct (create_identity _ _ _ _ _ _) as [created d2] eqn:Ec. injection Hresolved as -> <- ->.
        pose proof (create_identity_drawn _ _ _ _ _ _ _ _ Ec) as Eout.
        destruct (Hgenerated _ Eout) as (seed & Hseed & Hderive). exact (create_identity_unlocks _ _ _ _ _ _ _ _ seed Hdrawn Hseed Hderive Eout Ec). }
    unfold sbind. rewrite is_regular_calm, bool_decide_true by (by eapply unlock_identity_present).
    set (d0 := Disk (files d1) (S (io_calls d1))). destruct (unlock_identity_reads path passphrase d0 d1 eq_refl) as [Hr Hf].
    rewrite Hunlock in Hr. destruct (unlock_identity path passphrase d0) as [unlocked d2]. cbn in Hr, Hf. subst unlocked.
    by exists d2.
Qed.
End stability.

(** ** Witness *)

Section witnesses.
#[local] Existing Instance toy_sodium.
#[local] Existing Instance toy_sodium_laws.
#[local] Existing Instance sound_system.

Definition fresh_surroundings (passphrase : bytes) : surroundings :=
  Surroundings (Some passphrase) None [] drawn_entropy drawn_salt drawn_nonce (Some (keypair_of alice_seed)) (Some drawn_keys)
    (Some drawn_keys) 1700000000 (λ _ _, Connected) (ClientSocket false [] [] [] []).

(** On a machine without files, in direct mode: the first run draws the
    identity, the second one finds it. *)
Lemma identity_is_stable_witness : ∃ entry d0 shown d1 d2,
  resolve_server (set_server_key (encode_hex (pad 32 (lit "key"))) default_options) (lit "pass") empty_disk = (inr entry, d0) ∧
  resolve_identity (fresh_surroundings (lit "pass")) default_options entry (lit "pass") d0
    = ((inr (keypair_of alice_seed), shown), d1) ∧
  resolve_identity (fresh_surroundings []) default_options entry (lit "pass") d1
    = ((inr (keypair_of alice_seed), []), d2) ∧ files d2 = files d1.
Proof.
  destruct (resolve_server (set_server_key (encode_hex (pad 32 (lit "key"))) default_options) (lit "pass") empty_disk)
    as [[error|entry] d0] eqn:E0; [vm_compute in E0; discriminate E0|].
  destruct (resolve_identity (fresh_surroundings (lit "pass")) default_options entry (lit "pass") d0)
    as [[r shown] d1] eqn:E.
  assert (r = inr (keypair_of alice_seed)) as ->.
  { vm_compute in E0. injection E0 as <- <-. change r with (r, shown).1. change (r, shown) with ((r, shown), d1).1. rewrite <-E.
    vm_compute. reflexivity. }
  destruct (@identity_is_stable toy_sodium toy_sodium_laws sound_system (λ _, eq_refl) (fresh_surroundings (lit "pass")) (conj eq_refl eq_refl)) with
    (s' := fresh_surroundings []) (options := default_options) (entry := entry) (passphrase := lit "pass") (d := d0) (d1 := d1)
    (out := keypair_of alice_seed) (shown := shown) as (d2 & E2 & Hf).
  { intros drawn [= <-]. exists alice_seed. split; [reflexivity|exact (proj1 sealed_hello_facts)]. }
  { exact E. }
  exists entry, d0, shown, d1, d2. split; [reflexivity|split; [exact E|split; [exact E2|exact Hf]]].
Defined.
End witnesses.
