(* ===== verification/Startup.v ===== *)
(** Starting the server (server/server_main.cpp): reading and checking
    hypercom.conf, the static key the clients pin
    (server/net/server_static_key.cpp), and the connect file that carries it to
    them, which is the file [ClientOptions.load_connect_file] reads. *)

From S2P Require Import Prelude.
From S2P Require Import TextTools.
From S2P Require Import Hex.
From S2P Require Import Sodium.
From S2P Require Import Config.
From S2P Require Import ConfigFile.
From S2P Require Import ClientOptions.
From S2P Require Import DirectMessages.
From S2P Require Import Files.
From S2P Require Import Database.

(** The files and the log. *)
Record startup := Startup { start_disk : disk; start_world : world }.

Definition on_disk {A} (m : state disk A) : state startup A :=
  zoom start_disk (λ d s, Startup d (start_world s)) m.
Definition on_log {A} (m : state world A) : state startup A :=
  zoom start_world (λ w s, Startup (start_disk s) w) m.

(** ** server_main.cpp: the configuration *)

(** The configuration if it is accepted, and what goes to the error stream.
    [contents] is [None] when the file cannot be opened. *)
Definition load_validated_config (path : bytes) (contents : option bytes) : option server_config * bytes :=
  let '(parsed, out, errors) := parse_config_file path contents default_config [] in
  if negb parsed then (None, format_config_errors path errors)
  else
    let '(accepted, problems, warnings) := validate_config out [] [] in
    let shown := concat (map (λ warning, lit "AVERTISSEMENT " ++ warning ++ newline) warnings) in
    if negb accepted then
      (None, shown ++ lit "configuration refusee : " ++ path ++ newline ++
             concat (map (λ problem, lit "  " ++ problem ++ newline) problems))
    else (Some out, shown).

(** ** server_static_key.cpp *)

Section keys.
Context `{Sodium} `{FileSystem}.

(** The first 32 bytes; a shorter file is no key. *)
Definition read_secret_file (path : bytes) : state disk (option bytes) :=
  let* contents := read_file path in
  match contents with
  | Some contents =>
      if X25519_SECRET_KEY_SIZE <=? size_of contents
      then sret (Some (take (Z.to_nat X25519_SECRET_KEY_SIZE) contents)) else sret None
  | None => sret None
  end.

(** The error, or the public and the secret key. [drawn] is what
    [generate_x25519_keypair] draws. *)
Definition load_or_create_server_key (path : bytes) (drawn : option (bytes * bytes))
    : state disk (bytes + (bytes * bytes)) :=
  let* stored := read_secret_file path in
  match stored with
  | Some secret_key =>
      match compute_public_from_secret secret_key with
      | Some public_key => sret (inr (public_key, secret_key))
      | None => sret (inl (lit "cle serveur illisible ou invalide : " ++ path))
      end
  | None =>
      match drawn with
      | None => sret (inl (lit "generation de la cle serveur impossible"))
      | Some (public_key, secret_key) =>
          let* failure := write_owner_only path secret_key in
          match failure with
          | Some error => sret (inl error)
          | None => sret (inr (public_key, secret_key))
          end
      end
  end.

(** ** server_main.cpp: the key announced *)

Context `{Environment}.

Definition announce_server_key (config : server_config) (public_key : bytes) : state startup unit :=
  on_log (write_entry (logging config) log_level.info (lit "cle statique du serveur : " ++ encode_hex public_key)).

(** The host the connect file names. *)
Definition connect_host (config : server_config) : bytes :=
  if decide (advertised_host (clearnet config) = []) then bind_address (clearnet config)
  else advertised_host (clearnet config).

Definition connect_file_text (config : server_config) (public_key : bytes) : bytes :=
  lit "host=" ++ connect_host config ++ newline ++
  lit "port=" ++ decimal (Config.port (clearnet config)) ++ newline ++
  lit "server_key=" ++ encode_hex public_key ++ newline.

Definition write_connect_file (config : server_config) (public_key : bytes) : state startup unit :=
  let path := connect_file_path (paths config) in
  if bool_decide (path = []) || negb (enabled (clearnet config)) then sret tt
  else
    let* opened := on_disk (open_truncated path) in
    if negb opened then
      on_log (write_entry (logging config) log_level.warning (lit "fichier de connexion non ecrit : " ++ path))
    else
      do* on_disk (write_contents path (connect_file_text config public_key)) in
      do* (if decide (connect_host config = lit "0.0.0.0") then
             on_log (write_entry (logging config) log_level.warning
               (lit "fichier de connexion : host=0.0.0.0 n'est joignable par personne. Declarer advertised_host dans [clearnet] avant de transmettre le fichier."))
           else sret tt) in
      on_log (write_entry (logging config) log_level.info (lit "fichier de connexion : " ++ path)).
End keys.

(** ** What the connect file says *)

Section theorems.
Context `{Sodium} `{FileSystem} `{Environment}.

Lemma on_log_disk {A} (m : state world A) s : start_disk (on_log m s).2 = start_disk s.
Proof. unfold on_log, zoom. by destruct (m (start_world s)). Qed.

(** The file when the calls succeed. *)
Lemma write_connect_file_contents config public_key s :
  no_failure → connect_file_path (paths config) ≠ [] → enabled (clearnet config) = true →
  files (start_disk (write_connect_file config public_key s).2) !! connect_file_path (paths config)
  = Some (connect_file_text config public_key).
Proof.
  intros Hok Hpath Hclear. unfold write_connect_file. rewrite bool_decide_false, Hclear by done.
  cbn [negb orb]. set (path := connect_file_path (paths config)). set (text := connect_file_text config public_key).
  unfold sbind at 1. unfold on_disk at 1, zoom, open_truncated, set_file, io_call, smodify, sbind, sret.
  rewrite Hok. cbn [negb]. unfold on_disk, zoom, write_contents. cbn [start_disk io_calls files]. rewrite Hok.
  assert (∀ (a b : startup → unit * startup) t,
            (∀ u, start_disk (a u).2 = start_disk u) → (∀ u, start_disk (b u).2 = start_disk u) →
            start_disk (let '(_, u) := a t in b u).2 = start_disk t) as Hseq.
  { intros a b t Ha Hb. specialize (Ha t). destruct (a t) as [x u]. by rewrite Hb. }
  rewrite Hseq; [cbn; by rewrite lookup_insert_eq| |intros u; apply on_log_disk].
  intros u. case_decide; [apply on_log_disk|done].
Qed.

(** Without blanks there is nothing to trim. *)
Lemma trimmed_no_blank text : Forall (λ b, is_trailing_blank b = false) text → trimmed text.
Proof.
  intros Hf. split.
  - destruct Hf as [|b text Hb _]; [done|]. simpl. unfold is_trailing_blank in Hb.
    by apply orb_false_iff in Hb as [? _].
  - destruct text as [|b text] using rev_ind; [done|]. rewrite last_snoc. simpl.
    by apply Forall_app in Hf as [_ Hb%Forall_inv].
Qed.

Lemma decimal_no_blank n : u64 n → Forall (λ b, is_trailing_blank b = false) (decimal n).
Proof.
  intros Hn. eapply Forall_impl; [apply (decimal_all_digits n Hn)|]. intros b. by destruct b.
Qed.

Lemma encode_hex_characters k : Forall (λ b, is_hex_character b = true) (encode_hex k).
Proof. induction k as [|b k IH]; [done|]. cbn [encode_hex]. repeat constructor; [by destruct b..|done]. Qed.

Lemma encode_hex_no_blank k : Forall (λ b, is_trailing_blank b = false) (encode_hex k).
Proof. eapply Forall_impl; [apply encode_hex_characters|]. intros b. by destruct b. Qed.

Lemma encode_hex_avoids k b : is_hex_character b = false → b ∉ encode_hex k.
Proof.
  intros Hb Hin. pose proof (encode_hex_characters k) as Hk.
  eapply Forall_forall in Hk; [|exact Hin]. simpl in Hk. congruence.
Qed.

(** The three settings, as the client applies their lines. *)
Lemma apply_host_line h o : trimmed h → apply_connect_line (lit "host" ++ byte_of (chr "=") :: h) o = inr (set_host h o).
Proof.
  intros Ht. unfold apply_connect_line. rewrite split_first_eq by by_decision.
  change (trim_spaces (lit "host")) with (lit "host"). by rewrite decide_True, trim_spaces_id.
Qed.

Lemma apply_port_line p o : 1 <= p <= 65535 →
  apply_connect_line (lit "port" ++ byte_of (chr "=") :: decimal p) o = inr (set_port p o).
Proof.
  intros Hp. unfold apply_connect_line. rewrite split_first_eq by by_decision.
  change (trim_spaces (lit "port")) with (lit "port"). rewrite decide_False, decide_True by done.
  rewrite trim_spaces_id by (apply trimmed_no_blank, decimal_no_blank; unfold fits; lia).
  unfold parse_port. rewrite <-(app_nil_r (decimal p)). rewrite from_chars_decimal by (done || unfold fits; lia).
  replace (p =? 0) with false by lia. by replace (65535 <? p) with false by lia.
Qed.

Lemma apply_key_line k o :
  apply_connect_line (lit "server_key" ++ byte_of (chr "=") :: encode_hex k) o = inr (set_server_key (encode_hex k) o).
Proof.
  unfold apply_connect_line. rewrite split_first_eq by by_decision.
  change (trim_spaces (lit "server_key")) with (lit "server_key"). rewrite !decide_False, decide_True by done.
  by rewrite trim_spaces_id by apply trimmed_no_blank, encode_hex_no_blank.
Qed.

(** The lines of the file are the ones the server wrote. *)
Lemma connect_file_lines c k :
  byte_of 10 ∉ connect_host c → u16 (Config.port (clearnet c)) →
  getlines (connect_file_text c k) =
    [lit "host" ++ byte_of (chr "=") :: connect_host c;
     lit "port" ++ byte_of (chr "=") :: decimal (Config.port (clearnet c));
     lit "server_key" ++ byte_of (chr "=") :: encode_hex k].
Proof.
  intros Hh Hp. rewrite <-(getlines_join [_; _; _]).
  - unfold connect_file_text. cbn [map concat]. by rewrite <-!(assoc app), app_nil_r.
  - assert (∀ key value, byte_of 10 ∉ lit key → byte_of 10 ∉ value →
              byte_of 10 ∉ lit key ++ byte_of (chr "=") :: value) as Hline.
    { intros key value Hk Hv. apply newline_app; [done|]. rewrite not_elem_of_cons. by split. }
    apply Forall_cons; split; [by apply Hline; [by_decision|]|].
    apply Forall_cons; split; [apply Hline; [by_decision|]; apply decimal_avoids; [unfold fits in *; lia|done]|].
    apply Forall_cons; split; [|done]. apply Hline; [by_decision|by apply encode_hex_avoids].
Qed.

Lemma writable_connect_host c : config_writable c → writable (connect_host c).
Proof.
  intros [_ Htexts]. rewrite !Forall_cons in Htexts. destruct Htexts as (? & ? & _). unfold connect_host. by case_decide.
Qed.

(** The configuration a start goes on with. *)
Lemma load_validated_accepts path contents c shown :
  load_validated_config path contents = (Some c, shown) →
  config_writable c ∧ listener_usable (clearnet c).
Proof.
  unfold load_validated_config, parse_config_file. destruct contents as [text|]; [|done].
  destruct (parse_config_text text default_config []) as [[parsed out] errs] eqn:E.
  destruct parsed; [|done]. cbn [negb].
  pose proof (validate_nil out [] []) as Hv. destruct (validate_config out [] []) as [[accepted problems] warnings].
  destruct accepted; [|done]. cbn [negb fst] in *. intros [= <- _].
  destruct Hv as [Hv _]. destruct (Hv eq_refl) as (_ & _ & Hclear & _).
  split; [by eapply parsed_config_writable|done].
Qed.

(** C32: from one end to the other: where the calls to the disk do not fail, for
    every hypercom.conf the server accepts with a clearnet listener and a
    connect file, the file written at startup,
    given to a client as [--connect-file], is taken without error and sets
    exactly the advertised host (or the bind address), the port and the key
    the server announced, with the Tor proxy when the host is an onion. *)
Theorem connect_file_reaches_client (path : bytes) (contents : option bytes) (c : server_config) (shown : bytes)
    (public_key : bytes) (s : startup)
    (Hloaded : load_validated_config path contents = (Some c, shown))
    (Hclear : enabled (clearnet c) = true)
    (Hpath : connect_file_path (paths c) ≠ [])
    (Hkey : size_of public_key = X25519_PUBLIC_KEY_SIZE)
    (Hok : no_failure) :
  let started := (write_connect_file c public_key s).2 in
  ∃ o, parse_cli_options (files (start_disk started)) [lit "--connect-file"; connect_file_path (paths c)]
         default_options false true = inr o ∧
    host o = connect_host c ∧ ClientOptions.port o = Config.port (clearnet c) ∧
    decode_hex (server_key_hex o) = Some public_key ∧
    (socks5_host o, socks5_port o) =
      if ends_with ONION_SUFFIX (connect_host c) then (DEFAULT_TOR_SOCKS_HOST, DEFAULT_TOR_SOCKS_PORT) else ([], 0).
Proof.
  destruct (load_validated_accepts _ _ _ _ Hloaded) as [Hwritable Huse]. pose proof (proj1 Hwritable) as [Hport _].
  destruct (Huse Hclear) as [_ Hnonzero]. apply writable_connect_host in Hwritable as [Htrim Hnl].
  assert (1 <= Config.port (clearnet c) <= 65535) as Hrange by (unfold fits in Hport; lia).
  intros started. pose proof (write_connect_file_contents c public_key s Hok Hpath Hclear) as Hfile. fold started in Hfile.
  unfold parse_cli_options. cbn [parse_arguments]. rewrite !decide_False, decide_True by done.
  unfold load_connect_file. rewrite Hfile, connect_file_lines by done. cbn [apply_connect_lines].
  rewrite apply_host_line, apply_port_line, apply_key_line by done. cbn [andb].
  assert (size_of (encode_hex public_key) = 64) as Hsize by (rewrite encode_hex_size, Hkey; done).
  unfold set_server_key, set_port, set_host. cbn [host socks5_host].
  destruct (ends_with ONION_SUFFIX (connect_host c)); cbn; rewrite Hsize; cbn; eexists; (split; [done|]); cbn;
    (split_and!; [done..|apply decode_hex_encode|done]).
Qed.

(** ** The static key *)

Lemma read_secret_none path d :
  (∀ contents, (read_file path d).1 = Some contents → size_of contents < X25519_SECRET_KEY_SIZE) →
  read_secret_file path d = (None, (read_file path d).2).
Proof.
  intros Hshort. unfold read_secret_file, sbind. destruct (read_file path d) as [[contents|] d1]; [|done].
  replace (X25519_SECRET_KEY_SIZE <=? size_of contents) with false; [done|].
  specialize (Hshort contents eq_refl). simpl in Hshort. lia.
Qed.

Lemma read_secret_some path d stored : no_failure →
  files d !! path = Some stored → X25519_SECRET_KEY_SIZE <= size_of stored →
  read_secret_file path d = (Some (take 32 stored), Disk (files d) (S (io_calls d))).
Proof.
  intros Hok Hfile Hsize. unfold read_secret_file, read_file, io_call, sgets, sbind. rewrite Hok. cbn [negb files].
  rewrite Hfile. by replace (X25519_SECRET_KEY_SIZE <=? size_of stored) with true by lia.
Qed.

(** A key that is there is used. *)
Lemma load_stored_key path drawn d stored public : no_failure →
  files d !! path = Some stored → X25519_SECRET_KEY_SIZE <= size_of stored →
  compute_public_from_secret (take 32 stored) = Some public →
  load_or_create_server_key path drawn d = (inr (public, take 32 stored), Disk (files d) (S (io_calls d))).
Proof.
  intros Hok Hfile Hsize Hpub. unfold load_or_create_server_key, sbind at 1.
  by rewrite (read_secret_some _ _ _ Hok Hfile Hsize), Hpub.
Qed.

(** A key that is drawn is stored. *)
Lemma create_stores path (drawn : option (bytes * bytes)) d d1 public secret :
  (∀ public secret, drawn = Some (public, secret) →
     size_of secret = X25519_SECRET_KEY_SIZE ∧ compute_public_from_secret secret = Some public) →
  match drawn with
  | None => sret (inl (lit "generation de la cle serveur impossible"))
  | Some (public_key, secret_key) =>
      let* failure := write_owner_only path secret_key in
      match failure with Some error => sret (inl error) | None => sret (inr (public_key, secret_key)) end
  end d = (inr (public, secret), d1) →
  ∃ stored, files d1 !! path = Some stored ∧ X25519_SECRET_KEY_SIZE <= size_of stored ∧
    take 32 stored = secret ∧ compute_public_from_secret secret = Some public.
Proof.
  destruct drawn as [[p s]|]; [|done]. intros Hd. destruct (Hd p s eq_refl) as [Hsize Hpub].
  pose proof (write_owner_only_succeeds path s d) as Hw. unfold sbind.
  destruct (write_owner_only path s d) as [[error|] d2]; [done|]. intros [= <- <- <-].
  exists s. split_and!; [by apply Hw|lia| |done].
  apply take_ge. unfold size_of in Hsize. change X25519_SECRET_KEY_SIZE with 32 in Hsize. lia.
Qed.

(** Whatever the calls answer, the pair that is loaded or created is the one
    of the file: the secret key is its first bytes, and the public key the one
    that goes with it. *)
Lemma loaded_key_is_stored path (drawn : option (bytes * bytes)) d d1 public secret :
  (∀ public secret, drawn = Some (public, secret) →
     size_of secret = X25519_SECRET_KEY_SIZE ∧ compute_public_from_secret secret = Some public) →
  load_or_create_server_key path drawn d = (inr (public, secret), d1) →
  ∃ stored, files d1 !! path = Some stored ∧ X25519_SECRET_KEY_SIZE <= size_of stored ∧
    take 32 stored = secret ∧ compute_public_from_secret secret = Some public.
Proof.
  intros Hdrawn. unfold load_or_create_server_key. unfold sbind at 1, read_secret_file, sbind at 1, read_file, sbind at 1, io_call.
  destruct (io_fails (io_calls d)); cbn [negb].
  { unfold sret at 1. by apply (create_stores path drawn). }
  unfold sgets at 1. cbn [files]. destruct (files d !! path) as [stored|] eqn:Efile; [|unfold sret at 1; by apply (create_stores path drawn)].
  destruct (Z.leb_spec X25519_SECRET_KEY_SIZE (size_of stored)) as [Hsize|_]; [|unfold sret at 1; by apply (create_stores path drawn)].
  unfold sret at 1. change (Z.to_nat X25519_SECRET_KEY_SIZE) with 32%nat.
  destruct (compute_public_from_secret (take 32 stored)) as [p|] eqn:Ep; [|done]. intros [= <- <- <-]. by exists stored.
Qed.

(** The connect file is the only one that is written. *)
Lemma write_connect_file_others `{Environment} config public_key s path : path ≠ connect_file_path (paths config) →
  files (start_disk (write_connect_file config public_key s).2) !! path = files (start_disk s) !! path.
Proof.
  intros Hpath. unfold write_connect_file. destruct (_ || _); [done|].
  unfold open_truncated, write_contents, set_file, smodify, io_call, on_disk, on_log, zoom, sbind, sret. cbn.
  repeat (case_match; cbn); simplify_eq/=; by rewrite ?lookup_insert_ne.
Qed.

(** The key clients pin does not change by itself: when one start has
    loaded or created a key, every later start that reads its file gets the
    same pair, whatever it would have drawn, and leaves the files as they
    are. *)
Theorem server_key_is_stable (path : bytes) (drawn : option (bytes * bytes)) (d d1 : disk) (key : bytes * bytes)
    (Hok : no_failure)
    (Hdrawn : ∀ public secret, drawn = Some (public, secret) →
       size_of secret = X25519_SECRET_KEY_SIZE ∧ compute_public_from_secret secret = Some public)
    (Hfirst : load_or_create_server_key path drawn d = (inr key, d1)) :
  ∀ drawn', (load_or_create_server_key path drawn' d1).1 = inr key ∧
            files (load_or_create_server_key path drawn' d1).2 = files d1.
Proof.
  intros drawn'. destruct key as [public secret].
  assert (∃ stored, files d1 !! path = Some stored ∧ X25519_SECRET_KEY_SIZE <= size_of stored ∧
            take 32 stored = secret ∧ compute_public_from_secret secret = Some public) as (stored & Hf & Hs & <- & Hp).
  2:{ by rewrite (load_stored_key path drawn' d1 stored public). }
  revert Hfirst. unfold load_or_create_server_key. unfold sbind at 1.
  destruct (files d !! path) as [stored|] eqn:Efile.
  - destruct (decide (X25519_SECRET_KEY_SIZE <= size_of stored)) as [Hs|Hs].
    + rewrite (read_secret_some _ _ _ Hok Efile Hs). destruct (compute_public_from_secret (take 32 stored)) as [p|] eqn:Ep; [|done].
      intros [= <- <- <-]. by exists stored.
    + rewrite read_secret_none by (rewrite read_file_result, Efile by done; intros ? [= <-]; lia).
      apply (create_stores path drawn _ d1); auto.
  - rewrite read_secret_none by (by rewrite read_file_result, Efile). apply (create_stores path drawn _ d1); auto.
Qed.

(** A key file that cannot be read, or is shorter than a key, is not
    refused: the server draws another key, overwrites the file with it and
    goes on, as if there had been none. *)
Theorem unreadable_server_key_is_replaced (path contents public secret : bytes) (d : disk)
    (Hfile : files d !! path = Some contents)
    (Hbad : io_fails (io_calls d) = true ∨ size_of contents < X25519_SECRET_KEY_SIZE)
    (Hopen : io_fails (S (io_calls d)) = false)
    (Hwrite : io_fails (S (S (io_calls d))) = false) :
  ∃ d', load_or_create_server_key path (Some (public, secret)) d = (inr (public, secret), d') ∧
        files d' = <[path := secret]> (files d).
Proof.
  unfold load_or_create_server_key, sbind at 1. rewrite read_secret_none.
  - unfold write_owner_only, open_truncated, write_contents, set_file, read_file, io_call, sgets, smodify, sbind, sret.
    cbn. rewrite Hopen. cbn. rewrite Hwrite. cbn. eexists. split; [done|]. cbn. by rewrite insert_insert_eq.
  - unfold read_file, io_call, sgets, sbind. cbn. destruct (io_fails (io_calls d)); cbn; [done|].
    rewrite Hfile. intros ? [= <-]. by destruct Hbad.
Qed.
End theorems.

(** ** Witnesses *)

Section witnesses.
#[local] Existing Instance toy_sodium.

(** A system that never fails, and a clock. *)
#[local] Instance sound_system : FileSystem := {| io_fails := λ _, false; io_written := λ _, 0%nat |}.
Lemma sound_system_ok : no_failure.
Proof. by intros n. Qed.

#[local] Instance quiet : Environment := {|
  sql_fails := λ _, false; sql_error := λ _, []; sql_rolls_back := λ _, false;
  order_rows A _ l := l; system_clock := λ _, 0; random_bytes _ _ := []; random_keypair := λ _, None |}.

Definition onion_conf : bytes :=
  concat (map (λ line, lit line ++ newline)
    ["[clearnet]"; "enabled = yes"; "bind_address = 0.0.0.0"; "port = 7717";
     "advertised_host = relay.example.onion"; "[paths]"; "connect_file = run/connect.txt"]%string).

Definition server_public : bytes := pad 32 (lit "server").
Definition fresh_start : startup := Startup (Disk ∅ 0) (World (DatabaseState empty_tables None 0 0) 0 0 0 []).

Lemma connect_file_reaches_client_witness :
  ∃ c shown o,
    load_validated_config (lit "hypercom.conf") (Some onion_conf) = (Some c, shown) ∧
    parse_cli_options (files (start_disk (write_connect_file c server_public fresh_start).2))
      [lit "--connect-file"; lit "run/connect.txt"] default_options false true = inr o ∧
    host o = lit "relay.example.onion" ∧ socks5_port o = 9050.
Proof.
  destruct (load_validated_config (lit "hypercom.conf") (Some onion_conf)) as [[c|] shown] eqn:E;
    [|vm_compute in E; discriminate E].
  pose proof E as E'. vm_compute in E'. injection E' as Ec _.
  assert (enabled (clearnet c) = true) as Hclear by (rewrite <-Ec; reflexivity).
  assert (connect_file_path (paths c) = lit "run/connect.txt") as Hp by (rewrite <-Ec; reflexivity).
  assert (connect_file_path (paths c) ≠ []) as Hne by (rewrite Hp; discriminate).
  destruct (connect_file_reaches_client _ _ c _ server_public fresh_start E Hclear Hne eq_refl sound_system_ok)
    as (o & Ho & Hh & _ & _ & Hs).
  exists c, shown, o. rewrite Hp in Ho. split; [reflexivity|]. split; [exact Ho|].
  split; [by rewrite Hh, <-Ec|]. rewrite <-Ec in Hs. injection Hs as _ Hs. exact Hs.
Defined.

Lemma server_key_is_stable_witness :
  ∃ key d1,
    load_or_create_server_key (lit "server.key") (Some (server_public, server_public)) (Disk ∅ 0) = (inr key, d1) ∧
    (load_or_create_server_key (lit "server.key") None d1).1 = inr key.
Proof.
  destruct (load_or_create_server_key (lit "server.key") (Some (server_public, server_public)) (Disk ∅ 0))
    as [[e|key] d1] eqn:E; [vm_compute in E; discriminate E|].
  exists key, d1. split; [reflexivity|].
  refine (proj1 (server_key_is_stable _ _ _ _ _ sound_system_ok _ E None)).
  intros p s Heq. injection Heq as <- <-. split; vm_compute; reflexivity.
Defined.

Lemma unreadable_server_key_is_replaced_witness :
  ∃ d d', files d !! lit "server.key" = Some (lit "truncated") ∧
    load_or_create_server_key (lit "server.key") (Some (server_public, server_public)) d
      = (inr (server_public, server_public), d') ∧
    files d' = <[lit "server.key" := server_public]> (files d).
Proof.
  set (d := Disk {[lit "server.key" := lit "truncated"]} 0).
  destruct (unreadable_server_key_is_replaced (lit "server.key") (lit "truncated") server_public server_public d)
    as (d' & Hr & Hf); [reflexivity|right; reflexivity|reflexivity|reflexivity|].
  exists d, d'. split; [reflexivity|]. split; [exact Hr|exact Hf].
Defined.
End witnesses.
