(* ===== verification/Repositories.v ===== *)
(** The repositories (server/db/*_repository): one operation per method, each
    the statements it runs and the records it fills. *)

From S2P Require Import Prelude.
From S2P Require Import TextTools.
From S2P Require Import Wire.
From S2P Require Import SessionMessages.
From S2P Require Import ContentMessages.
From S2P Require Import SocialMessages.
From S2P Require Import Config.
From S2P Require Import Database.

(** ** Reading rows *)

(** [WHERE id = ?1] on a primary key. *)
Definition by_id {A} (id : Z) (m : gmap Z A) : list (Z * A) :=
  match m !! id with Some r => [(id, r)] | None => [] end.

Definition rows_where {A} (P : A → bool) (m : gmap Z A) : list (Z * A) :=
  List.filter (λ kv : Z * A, P kv.2) (map_to_list m).

(** [SELECT COUNT( * ) ... WHERE]. *)
Definition count_where {A} (P : A → bool) (m : gmap Z A) : Z := size_of (rows_where P m).

(** sql_column_reader: a blob column into a fixed-size array. *)
Definition read_key (column : bytes) : option bytes :=
  if size_of column =? PUBLIC_KEY_SIZE then Some column else None.

(** [LIMIT ?1 OFFSET ?2]. *)
Definition window {A} (offset limit : Z) (rows : list A) : list A :=
  take (Z.to_nat limit) (drop (Z.to_nat offset) rows).

(** [substr(body, 1, n)] of a TEXT value counts characters: a byte from 0xC0
    up takes the continuation bytes that follow it along. *)
Fixpoint skip_continuations (text : bytes) : bytes :=
  match text with
  | b :: text' => if (Z.land (byte_val b) 0xC0 =? 0x80) then skip_continuations text' else text
  | [] => []
  end.

Definition character_size (text : bytes) : nat :=
  match text with
  | [] => O
  | b :: text' =>
      if 0xC0 <=? byte_val b then (length text - length (skip_continuations text'))%nat else 1%nat
  end.

Fixpoint utf8_prefix (n : nat) (text : bytes) : bytes :=
  match n with
  | O => []
  | S n' =>
      match text with
      | [] => []
      | _ :: _ => take (character_size text) text ++ utf8_prefix n' (drop (character_size text) text)
      end
  end.

(** The default collation compares bytes. *)
Fixpoint bytes_le (l k : bytes) : bool :=
  match l, k with
  | [], _ => true
  | _ :: _, [] => false
  | b :: l', c :: k' =>
      if byte_val b <? byte_val c then true
      else if byte_val b =? byte_val c then bytes_le l' k' else false
  end.

Section repositories.
Context `{Environment}.

(** ** user_repository.cpp *)

Record user_row := UserRow { id : Z; pubkey : bytes; handle : bytes; banned : bool }.

Definition read_user_row (row : Z * users.row) : option user_row :=
  let '(id, r) := row in
  match read_key (users.pubkey r) with
  | None => None
  | Some key => Some (UserRow id key (users.handle r) (users.banned r))
  end.

(** A query that is stepped once. *)
Definition find_one {A B} (q : tables → list A) (read : A → option B) : state world (option B) :=
  let* ready := prepare in
  if negb ready then sret None
  else
    let* rows := query q in
    let* answer := step_row rows in
    sret (answer ≫= read).

Definition find_by_pubkey (pubkey : bytes) : state world (option user_row) :=
  find_one (λ t, rows_where (λ r, bool_decide (users.pubkey r = pubkey)) (t_users t)) read_user_row.

Definition find_user_by_id (id : Z) : state world (option user_row) :=
  find_one (λ t, by_id id (t_users t)) read_user_row.

(** An INSERT whose rowid the caller asks for. *)
Definition insert_returning (insertion : tables → option (tables * Z)) : state world (option Z) :=
  let* inserted := step_done (λ t, '(t', id) ← insertion t; Some (Written t' (Some id) 1)) in
  if negb inserted then sret None
  else let* id := get_last_insert_id in sret (Some id).

Definition create_user (pubkey handle : bytes) : state world (option Z) :=
  let* ready := prepare in
  if negb ready then sret None else insert_returning (insert_user pubkey handle).

(** An UPDATE of the row [id]: no row, no change. *)
Definition update_row {A} (get : tables → gmap Z A) (set : gmap Z A → tables → tables)
    (id : Z) (P : A → bool) (f : A → A) (t : tables) : option written :=
  match get t !! id with
  | Some r => if P r then Some (Written (set (<[id := f r]> (get t)) t) None 1)
              else Some (Written t None 0)
  | None => Some (Written t None 0)
  end.

Definition set_banned (user_id : Z) (banned : bool) : state world bool :=
  run_statement (update_row t_users (λ m t, set_users m (t_seq t) t) user_id (λ _, true)
                   (λ r, users.Row (users.pubkey r) (users.handle r) banned)).

(** ** prekey_repository.cpp *)

Definition replace_prekey (user_id : Z) (prekey signature : bytes) : state world bool :=
  let* ready := prepare in
  if negb ready then sret false
  else
    let* now := get_unix_timestamp in
    step_done (λ t, t' ← upsert_prekey user_id (prekeys.Row prekey signature (to_i64 now)) t;
                    Some (Written t' None 1)).

Definition find_bundle_by_pubkey (owner_pubkey : bytes)
    : state world (option prekey_bundle_response.t) :=
  find_one
    (λ t, omap (λ u : Z * users.row, t_prekeys t !! u.1)
            (rows_where (λ r, bool_decide (users.pubkey r = owner_pubkey)) (t_users t)))
    (λ r, if (size_of (prekeys.prekey r) =? PUBLIC_KEY_SIZE)
             && (size_of (prekeys.signature r) =? SIGNATURE_SIZE)
          then Some (prekey_bundle_response.mk owner_pubkey (prekeys.prekey r)
                       (prekeys.signature r) (to_u64 (prekeys.created_at r)))
          else None).

(** ** forum_repository.cpp *)

(** A row of SELECT_FORUM: the forum with its founder and its post count. *)
Definition forum_view (t : tables) (row : Z * forums.row) : option (Z * forums.row * users.row * Z) :=
  u ← t_users t !! forums.founder_id row.2;
  Some (row, u, count_where (λ p, posts.forum_id p =? row.1) (t_posts t)).

Definition read_forum_record (row : Z * forums.row * users.row * Z) : option forum_record.t :=
  let '(id, f, u, post_count) := row in
  match read_key (users.pubkey u) with
  | None => None
  | Some key =>
      Some (forum_record.mk (to_u64 id) (forums.name f) (forums.description f) key
              (users.handle u) (forums.theme_json f) (to_u64 (forums.created_at f))
              (wrap 32 post_count))
  end.

Definition create_forum (founder_id : Z) (name description theme_json : bytes)
    : state world (option Z) :=
  let* ready := prepare in
  if negb ready then sret None
  else
    let* now := get_unix_timestamp in
    insert_returning (insert_forum (forums.Row name founder_id description theme_json (to_i64 now))).

Definition find_forum_by_id (id : Z) : state world (option forum_record.t) :=
  find_one (λ t, omap (forum_view t) (by_id id (t_forums t))) read_forum_record.

Definition find_forum_by_name (name : bytes) : state world (option forum_record.t) :=
  find_one (λ t, omap (forum_view t)
                   (rows_where (λ r, bool_decide (forums.name r = name)) (t_forums t)))
    read_forum_record.

(** A [SELECT COUNT( * )] statement, its count a [std::int64_t]. *)
Definition count_query (q : tables → Z) : state world (option Z) :=
  find_one (λ t, [q t]) Some.

Definition newest_first {A} (created_at : A → Z) (a b : A) : bool := created_at b <=? created_at a.

Definition list_forums (offset limit : Z) : state world (option (list forum_record.t * Z)) :=
  let* counted := count_query (λ t, Z.of_nat (size (t_forums t))) in
  match counted with
  | None => sret None
  | Some count =>
      let* ready := prepare in
      if negb ready then sret None
      else
        let* rows := query (λ t, window offset limit
          (order_rows (newest_first (λ v : Z * forums.row * users.row * Z, forums.created_at v.1.1.2))
             (omap (forum_view t) (map_to_list (t_forums t))))) in
        let* records := read_rows read_forum_record rows in
        sret (records ← records; Some (records, wrap 32 count))
  end.

(** ** post_repository.cpp *)

Definition post_view (t : tables) (row : Z * posts.row) : option (Z * posts.row * users.row * Z) :=
  u ← t_users t !! posts.author_id row.2;
  Some (row, u, count_where (λ c, comments.post_id c =? row.1) (t_comments t)).

(** [body] is the expression selected for the body. *)
Definition read_post_record (body : bytes → bytes) (row : Z * posts.row * users.row * Z)
    : option post_record.t :=
  let '(id, p, u, comment_count) := row in
  match read_key (users.pubkey u) with
  | None => None
  | Some key =>
      Some (post_record.mk (to_u64 id) (to_u64 (posts.forum_id p)) key (users.handle u)
              (posts.title p) (body (posts.body p)) (to_u64 (posts.created_at p))
              (wrap 32 comment_count))
  end.

Definition create_post (forum_id author_id : Z) (title body : bytes) : state world (option Z) :=
  let* ready := prepare in
  if negb ready then sret None
  else
    let* now := get_unix_timestamp in
    insert_returning (insert_post (posts.Row forum_id author_id title body (to_i64 now) None)).

Definition find_post_by_id (id : Z) : state world (option post_record.t) :=
  find_one (λ t, omap (post_view t) (by_id id (t_posts t))) (read_post_record (λ body, body)).

Definition preview (body : bytes) : bytes := utf8_prefix (Z.to_nat MAX_POST_PREVIEW_LENGTH) body.

Definition list_by_forum (forum_id offset limit : Z) : state world (option (list post_record.t * Z)) :=
  let* counted := count_query (λ t, count_where (λ p, posts.forum_id p =? forum_id) (t_posts t)) in
  match counted with
  | None => sret None
  | Some count =>
      let* ready := prepare in
      if negb ready then sret None
      else
        let* rows := query (λ t, window offset limit
          (order_rows (newest_first (λ v : Z * posts.row * users.row * Z, posts.created_at v.1.1.2))
             (omap (post_view t) (rows_where (λ p, posts.forum_id p =? forum_id) (t_posts t))))) in
        let* records := read_rows (read_post_record preview) rows in
        sret (records ← records; Some (records, wrap 32 count))
  end.

(** What a deletion leaves of a post. *)
Definition erase_post (now : Z) (p : posts.row) : posts.row :=
  posts.Row (posts.forum_id p) (posts.author_id p) [] [] (posts.created_at p) (Some (to_i64 now)).

Definition delete_post_where (post_id : Z) (P : posts.row → bool) : state world bool :=
  let* ready := prepare in
  if negb ready then sret false
  else
    let* now := get_unix_timestamp in
    let* done := step_done (update_row t_posts (λ m t, set_posts m (t_seq t) t) post_id P
                              (erase_post now)) in
    if negb done then sret false
    else let* changes := get_changed_row_count in sret (0 <? changes).

Definition delete_own_post (post_id author_id : Z) : state world bool :=
  delete_post_where post_id
    (λ p, (posts.author_id p =? author_id) && bool_decide (posts.deleted_at p = None)).

Definition admin_delete_post (post_id : Z) : state world bool :=
  delete_post_where post_id (λ p, bool_decide (posts.deleted_at p = None)).

(** ** comment_repository.cpp *)

Definition MAX_COMMENT_DEPTH : Z := 24.

(** [printf('%010d', id)]. *)
Definition format_010d (n : Z) : bytes :=
  let digits := decimal_digits 20 (Z.abs n) in
  if n <? 0 then byte_of (chr "-") :: replicate (9 - length digits) (byte_of 48) ++ digits
  else replicate (10 - length digits) (byte_of 48) ++ digits.

Record thread_row := ThreadRow {
  thread_id : Z; thread_comment : comments.row; depth : Z; path : bytes }.

Definition thread_roots (post_id : Z) (t : tables) : list thread_row :=
  map (λ c : Z * comments.row, ThreadRow c.1 c.2 0 (format_010d c.1))
    (rows_where (λ c, (comments.post_id c =? post_id)
                      && bool_decide (comments.parent_comment_id c = None)) (t_comments t)).

(** One round of the recursive query: the replies to the rows of the last
    round that are not too deep. *)
Definition thread_replies (t : tables) (round : list thread_row) : list thread_row :=
  concat (map (λ r : thread_row,
    if depth r <? MAX_COMMENT_DEPTH then
      map (λ c : Z * comments.row,
             ThreadRow c.1 c.2 (depth r + 1) (path r ++ lit "/" ++ format_010d c.1))
        (rows_where (λ c, bool_decide (comments.parent_comment_id c = Some (thread_id r)))
           (t_comments t))
    else []) round).

(** The recursion stops when a round is empty; the depth rises by one per
    round and stops at MAX_COMMENT_DEPTH, so 25 rounds are all there are. *)
Fixpoint thread_rounds (fuel : nat) (t : tables) (round : list thread_row) : list thread_row :=
  match fuel with
  | O => round
  | S fuel' =>
      match round with
      | [] => []
      | _ :: _ => round ++ thread_rounds fuel' t (thread_replies t round)
      end
  end.

Definition thread_query (post_id limit : Z) (t : tables) : list (thread_row * users.row) :=
  take (Z.to_nat limit)
    (order_rows (λ a b : thread_row * users.row, bytes_le (path a.1) (path b.1))
       (omap (λ r, u ← t_users t !! comments.author_id (thread_comment r); Some (r, u))
          (thread_rounds 25 t (thread_roots post_id t)))).

Definition read_comment_record (row : thread_row * users.row) : option comment_record.t :=
  let '(r, u) := row in
  let c := thread_comment r in
  match read_key (users.pubkey u) with
  | None => None
  | Some key =>
      Some (comment_record.mk (to_u64 (thread_id r)) (to_u64 (comments.post_id c))
              (to_u64 (default 0 (comments.parent_comment_id c))) key (users.handle u)
              (comments.body c) (to_u64 (comments.created_at c)) (wrap 16 (depth r)))
  end.

(** [NULLIF(?2, 0)]. *)
Definition nullif_zero (z : Z) : option Z := if z =? 0 then None else Some z.

Definition create_comment (post_id parent_comment_id author_id : Z) (body : bytes)
    : state world (option Z) :=
  let* ready := prepare in
  if negb ready then sret None
  else
    let* now := get_unix_timestamp in
    insert_returning (insert_comment
      (comments.Row post_id (nullif_zero parent_comment_id) author_id body (to_i64 now) None)).

Definition find_comment_by_id (id : Z) : state world (option comment_record.t) :=
  find_one (λ t, omap (λ c : Z * comments.row,
                         u ← t_users t !! comments.author_id c.2; Some (ThreadRow c.1 c.2 0 [], u))
                   (by_id id (t_comments t)))
    read_comment_record.

Definition list_thread (post_id limit : Z) : state world (option (list comment_record.t * bool)) :=
  let* ready := prepare in
  if negb ready then sret None
  else
    let* rows := query (thread_query post_id (limit + 1)) in
    read_rows_limited read_comment_record limit rows.

Definition check_parent_belongs_to_post (parent_comment_id post_id : Z) : state world bool :=
  let* found := find_one (λ t, List.filter (λ c : Z * comments.row, comments.post_id c.2 =? post_id)
                                (by_id parent_comment_id (t_comments t))) Some in
  sret (bool_decide (is_Some found)).

Definition erase_comment (now : Z) (c : comments.row) : comments.row :=
  comments.Row (comments.post_id c) (comments.parent_comment_id c) (comments.author_id c) []
    (comments.created_at c) (Some (to_i64 now)).

Definition delete_own_comment (comment_id author_id : Z) : state world bool :=
  let* ready := prepare in
  if negb ready then sret false
  else
    let* now := get_unix_timestamp in
    let* done := step_done (update_row t_comments (λ m t, set_comments m (t_seq t) t) comment_id
      (λ c, (comments.author_id c =? author_id) && bool_decide (comments.deleted_at c = None))
      (erase_comment now)) in
    if negb done then sret false
    else let* changes := get_changed_row_count in sret (0 <? changes).
End repositories.
