(* ===== verification/SocialRepositories.v ===== *)
(** The repositories of profiles, friendships, the top 8, direct messages,
    the message of the day, reports and statistics (server/db). *)

From S2P Require Import Prelude.
From S2P Require Import Wire.
From S2P Require Import SessionMessages.
From S2P Require Import ContentMessages.
From S2P Require Import SocialMessages.
From S2P Require Import Config.
From S2P Require Import Database.
From S2P Require Import Repositories.

Section repositories.
Context `{Environment}.

(** ** profile_repository.cpp *)

Definition replace_profile (user_id : Z) (request : profile_set_request.t) : state world bool :=
  run_statement (λ t,
    t' ← upsert_profile user_id
           (profiles.Row (profile_set_request.display_name request) (profile_set_request.bio request)
              (profile_set_request.theme_json request)
              (profile_set_request.banner_reference request)) t;
    Some (Written t' None 1)).

(** A value-initialized [profile_set_request]. *)
Definition empty_profile : profile_set_request.t := profile_set_request.mk [] [] [] [].

(** A LEFT JOIN with COALESCE: the columns of a missing profile are empty. *)
Definition profile_of (t : tables) (user_id : Z) : profiles.row :=
  default (profiles.Row [] [] [] []) (t_profiles t !! user_id).

Definition find_profile_by_pubkey (pubkey : bytes) : state world (option profile_record.t) :=
  find_one
    (λ t, map (λ u : Z * users.row, (u.2, profile_of t u.1))
            (rows_where (λ r, bool_decide (users.pubkey r = pubkey)) (t_users t)))
    (λ '(u, p),
       match read_key (users.pubkey u) with
       | None => None
       | Some key => Some (profile_record.mk key (users.handle u) (profiles.display_name p)
                             (profiles.bio p) (profiles.theme_json p) (profiles.banner_ref p))
       end).

(** ** friend_repository.cpp *)

Definition replace_friendship (user_id friend_id : Z) (status : friendship_status.t)
    : state world bool :=
  run_statement (λ t,
    t' ← upsert_friend user_id friend_id (friendship_status.value status) t;
    Some (Written t' None 1)).

Record friend_view := FriendView { friend_user : users.row; friend_name : bytes; friend_status : Z }.

(** The CHECK constraint leaves no other value than those of the enum. *)
Definition read_friend_record (v : friend_view) : option friend_record.t :=
  match read_key (users.pubkey (friend_user v)) with
  | None => None
  | Some key =>
      Some (friend_record.mk key (users.handle (friend_user v)) (friend_name v)
              (default friendship_status.requested (friendship_status.cast (friend_status v))))
  end.

Definition friends_query (user_id limit : Z) (t : tables) : list friend_view :=
  take (Z.to_nat limit)
    (order_rows (λ a b : friend_view, bytes_le (users.handle (friend_user a)) (users.handle (friend_user b)))
       (omap (λ f : (Z * Z) * Z,
                if f.1.1 =? user_id then
                  u ← t_users t !! f.1.2;
                  Some (FriendView u (profiles.display_name (profile_of t f.1.2)) f.2)
                else None)
          (map_to_list (t_friends t)))).

Definition list_friends (user_id limit : Z) : state world (option (list friend_record.t)) :=
  let* ready := prepare in
  if negb ready then sret None
  else
    let* rows := query (friends_query user_id limit) in
    read_rows read_friend_record rows.

(** ** top8_repository.cpp *)

Record top8_entry := Top8Entry { slot : Z; friend_id : Z }.

Definition delete_slots (user_id : Z) (t : tables) : tables :=
  set_top8 (filter (λ kv : (Z * Z) * Z, kv.1.1 ≠ user_id) (t_top8 t)) t.

(** [reset_for_reuse] and the binds: nothing works on a statement that was
    never prepared. *)
Definition rebind (ready : bool) : state world bool := if ready then prepare else sret false.

Fixpoint insert_slots (ready : bool) (user_id : Z) (entries : list top8_entry) (succeeded : bool)
    : state world bool :=
  match entries with
  | [] => sret succeeded
  | entry :: entries' =>
      if negb succeeded then sret succeeded
      else
        let* bound := rebind ready in
        let* succeeded :=
          if bound then
            step_done (λ t, t' ← insert_top8 user_id (slot entry) (friend_id entry) t;
                            Some (Written t' None 1))
          else sret false in
        insert_slots ready user_id entries' succeeded
  end.

(** The end of a transaction: COMMIT or ROLLBACK, and the verdict. *)
Definition finish_transaction (succeeded : bool) : state world bool :=
  let* finished := execute (if succeeded then commit else rollback) in
  sret (finished && succeeded).

Definition replace_slots (user_id : Z) (entries : list top8_entry) : state world bool :=
  let* begun := execute begin_immediate in
  if negb begun then sret false
  else
    let* succeeded := run_statement (λ t, Some (Written (delete_slots user_id t) None 0)) in
    let* ready := prepare in
    let* succeeded := insert_slots ready user_id entries succeeded in
    finish_transaction succeeded.

Record slot_view := SlotView { slot_number : Z; slot_friend : friend_view }.

Definition slots_query (user_id : Z) (t : tables) : list slot_view :=
  order_rows (λ a b : slot_view, slot_number a <=? slot_number b)
    (omap (λ s : (Z * Z) * Z,
             if s.1.1 =? user_id then
               u ← t_users t !! s.2;
               Some (SlotView s.1.2
                 (FriendView u (profiles.display_name (profile_of t s.2))
                    (default 1 (t_friends t !! (user_id, s.2)))))
             else None)
       (map_to_list (t_top8 t))).

Definition empty_slots : list bytes := replicate 8 (replicate 32 Byte.x00).

(** One row of the loop of [list_slots]: a slot out of range is skipped. *)
Definition read_slot (row : slot_view) (out : list bytes * list friend_record.t)
    : option ((list bytes * list friend_record.t) * bool) :=
  let '(slots, details) := out in
  let slot := to_u64 (slot_number row) in
  if size_of slots <=? slot then Some ((slots, details), true)
  else
    match read_friend_record (slot_friend row) with
    | None => None
    | Some record =>
        Some ((<[Z.to_nat slot := friend_record.pubkey record]> slots, details ++ [record]), true)
    end.

Definition list_slots (user_id : Z) : state world (option top8_response.t) :=
  let* ready := prepare in
  if negb ready then sret None
  else
    let* rows := query (slots_query user_id) in
    let* out := while_rows read_slot rows (empty_slots, []) in
    sret ('(slots, details) ← out; Some (top8_response.mk slots details)).

(** ** dm_repository.cpp *)

Definition insert_envelope (recipient_id : Z) (sender_pubkey ciphertext : bytes)
    : state world (option Z) :=
  let* ready := prepare in
  if negb ready then sret None
  else insert_returning (insert_dm (dm_envelopes.Row recipient_id sender_pubkey ciphertext)).

Definition read_envelope (row : Z * dm_envelopes.row) : option dm_envelope_record.t :=
  match read_key (dm_envelopes.sender_pubkey row.2) with
  | None => None
  | Some key => Some (dm_envelope_record.mk (to_u64 row.1) key (dm_envelopes.ciphertext row.2))
  end.

Definition mailbox_query (recipient_id since_id limit : Z) (t : tables) : list (Z * dm_envelopes.row) :=
  take (Z.to_nat limit)
    (order_rows (λ a b : Z * dm_envelopes.row, a.1 <=? b.1)
       (List.filter (λ r : Z * dm_envelopes.row,
                       (dm_envelopes.recipient_id r.2 =? recipient_id) && (since_id <? r.1))
          (map_to_list (t_dm t)))).

Definition list_for_recipient (recipient_id since_id limit : Z)
    : state world (option dm_list_response.t) :=
  let* ready := prepare in
  if negb ready then sret None
  else
    let* rows := query (mailbox_query recipient_id (to_i64 since_id) (limit + 1)) in
    let* out := read_rows_limited read_envelope limit rows in
    sret ('(envelopes, more) ← out;
          Some (dm_list_response.mk envelopes (if (more : bool) then 1 else 0))).

Definition delete_envelope (id recipient_id : Z) (t : tables) : option written :=
  match t_dm t !! id with
  | Some r =>
      if dm_envelopes.recipient_id r =? recipient_id
      then Some (Written (set_dm (delete id (t_dm t)) (t_seq t) t) None 1)
      else Some (Written t None 0)
  | None => Some (Written t None 0)
  end.

Fixpoint delete_envelopes (ready : bool) (recipient_id : Z) (ids : list Z) (succeeded : bool)
    : state world bool :=
  match ids with
  | [] => sret succeeded
  | identifier :: ids' =>
      if negb succeeded then sret succeeded
      else
        let* bound := rebind ready in
        let* succeeded :=
          if bound then step_done (delete_envelope (to_i64 identifier) recipient_id)
          else sret false in
        delete_envelopes ready recipient_id ids' succeeded
  end.

Definition delete_acknowledged (recipient_id : Z) (ids : list Z) : state world bool :=
  let* begun := execute begin_immediate in
  if negb begun then sret false
  else
    let* ready := prepare in
    let* succeeded := delete_envelopes ready recipient_id ids true in
    finish_transaction succeeded.

Definition count_pending (recipient_id : Z) : state world (option Z) :=
  let* counted := count_query (λ t,
    count_where (λ r, dm_envelopes.recipient_id r =? recipient_id) (t_dm t)) in
  sret (wrap 32 <$> counted).

(** ** motd_repository.cpp *)

Definition find_active_motd : state world (option motd_push.t) :=
  find_one (λ t, take 1 (rows_where motd.active (t_motd t)))
    (λ r : Z * motd.row, Some (motd_push.mk (to_u64 r.1) (motd.body r.2))).

Definition deactivate_all (t : tables) : option written :=
  let active := rows_where motd.active (t_motd t) in
  Some (Written
    (set_motd ((λ r, motd.Row (motd.body r) false (motd.created_at r)) <$> t_motd t) (t_seq t) t)
    None (size_of active)).

Definition publish_motd (body : bytes) : state world bool :=
  let* begun := execute begin_immediate in
  if negb begun then sret false
  else
    let* succeeded := execute (update deactivate_all) in
    let* succeeded :=
      if negb succeeded then sret false
      else
        let* ready := prepare in
        if negb ready then sret false
        else
          let* now := get_unix_timestamp in
          step_done (λ t, '(t', id) ← insert_motd (motd.Row body true (to_i64 now)) t;
                          Some (Written t' (Some id) 1)) in
    finish_transaction succeeded.

Definition clear_active_motd : state world bool := execute (update deactivate_all).

(** ** report_repository.cpp *)

Record report_row := ReportRow {
  report_id : Z; report_kind : bytes; report_post_id : Z; report_target : bytes;
  report_reporter : Z; report_reason : bytes; report_created_at : Z }.

Definition read_report_row (row : Z * reports.row) : option report_row :=
  let r := row.2 in
  let raw_pubkey := default [] (reports.target_pubkey r) in
  Some (ReportRow row.1 (reports.kind r) (default 0 (reports.post_id r))
          (if size_of raw_pubkey =? 32 then raw_pubkey else replicate 32 Byte.x00)
          (reports.reporter_id r) (reports.reason r) (reports.created_at r)).

Definition record_report (kind : bytes) (post_id : option Z) (target : option bytes)
    (reporter_id : Z) (reason : bytes) : state world bool :=
  let* ready := prepare in
  if negb ready then sret false
  else
    let* now := get_unix_timestamp in
    step_done (λ t, '(t', id) ← insert_report
                      (reports.Row kind post_id target reporter_id reason (to_i64 now)) t;
                    Some (Written t' (Some id) 1)).

Definition record_post_report (post_id reporter_id : Z) (reason : bytes) : state world bool :=
  record_report (lit "post") (Some post_id) None reporter_id reason.

Definition record_account_report (target_pubkey : bytes) (reporter_id : Z) (reason : bytes)
    : state world bool :=
  record_report (lit "account") None (Some target_pubkey) reporter_id reason.

Definition list_reports (limit : Z) : state world (option (list report_row)) :=
  let* ready := prepare in
  if negb ready then sret None
  else
    let* rows := query (λ t, take (Z.to_nat limit)
      (order_rows (λ a b : Z * reports.row, reports.created_at a.2 <=? reports.created_at b.2)
         (map_to_list (t_reports t)))) in
    read_rows read_report_row rows.

(** A DELETE that finds no row is done all the same. *)
Definition clear_report (id : Z) : state world bool :=
  run_statement (λ t,
    Some (Written (set_reports (delete id (t_reports t)) (t_seq t) t) None
            (if bool_decide (is_Some (t_reports t !! id)) then 1 else 0))).

(** ** stats_repository.cpp *)

Record server_counts := ServerCounts {
  count_users : Z; count_forums : Z; count_posts : Z; count_comments : Z; pending_envelopes : Z }.

Definition count_rows (q : tables → Z) : state world (option Z) := count_query q.

Definition collect_counts : fallible world server_counts :=
  let! users := count_rows (λ t, Z.of_nat (size (t_users t))) in
  let! forums := count_rows (λ t, Z.of_nat (size (t_forums t))) in
  let! posts := count_rows (λ t, Z.of_nat (size (t_posts t))) in
  let! comments := count_rows (λ t, Z.of_nat (size (t_comments t))) in
  let! envelopes := count_rows (λ t, Z.of_nat (size (t_dm t))) in
  fret (ServerCounts users forums posts comments envelopes).
End repositories.
