(* ===== verification/Handlers.v ===== *)
(** The request handlers (server/handlers): what a handler can touch, the
    single way out of the server, the session guard and one definition per
    handler. *)

From S2P Require Import Prelude.
From S2P Require Import Wire.
From S2P Require Import Framing.
From S2P Require Import TextField.
From S2P Require Import Codec.
From S2P Require Import SessionMessages.
From S2P Require Import ContentMessages.
From S2P Require Import SocialMessages.
From S2P Require Import RateLimit.
From S2P Require Import Sodium.
From S2P Require Import Noise.
From S2P Require Import Config.
From S2P Require Import Connection.
From S2P Require Import Database.
From S2P Require Import Repositories.
From S2P Require Import SocialRepositories.

(** What the processing of a connection's input works on: the world shared by
    all connections, the shared rate tables, and the connection. *)
Record machine := Machine {
  shared : world;
  tracker : rate_tracker;
  connection : client_connection;
}.

Definition on_world {A} (m : state world A) : state machine A :=
  zoom shared (λ w s, Machine w (tracker s) (connection s)) m.

Definition on_connection {A} (m : state client_connection A) : state machine A :=
  zoom connection (λ c s, Machine (shared s) (tracker s) c) m.

Definition on_socket {A} (m : state connection_socket A) : state client_connection A :=
  zoom socket (λ k c, ClientConnection k (channel c) (session c) (input_buffer c)) m.

Definition on_channel {A} (m : state noise_channel A) : state client_connection A :=
  zoom channel (λ k c, ClientConnection (socket c) k (session c) (input_buffer c)) m.

Definition get_session : state machine session_state := sgets (λ s, session (connection s)).

Definition put_session (k : session_state) : state machine unit :=
  on_connection (smodify (λ c, ClientConnection (socket c) (channel c) k (input_buffer c))).

Section handlers.
Context `{Sodium, Environment}.
Context (config : server_config).

(** ** response_builder.cpp *)

Definition send_raw_message (type : message_type.t) (payload : bytes) : state client_connection bool :=
  match encode_frame type payload with
  | None => sret false
  | Some frame =>
      let* sealed := on_channel (seal_message frame) in
      match sealed with
      | None => sret false
      | Some sealed => on_socket (queue_bytes (append_length_prefixed_message sealed []))
      end
  end.

Definition send_message {A} `{WireFormat A} (type : message_type.t) (message : A)
    : state machine bool :=
  on_connection (send_raw_message type (target_ (write_to message (new_writer [])))).

Definition send_status_ok (reference_id : Z) : state machine bool :=
  send_message message_type.status_ok (status_ok_response.mk reference_id).

Definition send_status_error (code : error_code.t) : state machine bool :=
  send_message message_type.status_error (status_error_response.mk code (describe_error_code code)).

(** ** session_guard.cpp *)

Definition is_registered (k : session_state) : bool :=
  bool_decide (phase k = session_phase.authenticated) && negb (user_id k =? 0).

Definition require_registered_session : state machine bool :=
  let* k := get_session in
  if is_registered k then sret true
  else do* send_status_error error_code.not_authenticated in sret false.

(** [if (!require_registered_session(context)) { return true; }] *)
Definition registered (handler : session_state → state machine bool) : state machine bool :=
  let* allowed := require_registered_session in
  if negb allowed then sret true
  else let* k := get_session in handler k.

(** [if (!request.read_from(reader)) { return false; }] *)
Definition with_request {A} `{WireFormat A} (reader : byte_reader) (handler : A → state machine bool)
    : state machine bool :=
  match (read_from reader).1 with
  | None => sret false
  | Some request => handler request
  end.

(** An optional result, or the status error sent instead. *)
Definition or_error {A} (found : option A) (code : error_code.t) (handler : A → state machine bool)
    : state machine bool :=
  match found with
  | None => send_status_error code
  | Some a => handler a
  end.

(** ** session_handler.cpp *)

Definition accept_session (user : user_row) (k : session_state) : session_state :=
  SessionState session_phase.authenticated (announced_pubkey k) (challenge_nonce k)
    (Repositories.id user) (Repositories.handle user) (peer_address k) (connected_at k)
    (last_activity_at k).

Definition send_accepted_session (user : user_row) : state machine bool :=
  let* k := get_session in
  do* put_session (accept_session user k) in
  let* now := on_world get_unix_timestamp in
  let* sent := send_message message_type.auth_accepted
    (auth_accepted.mk (to_u64 (Repositories.id user)) (Repositories.handle user) now) in
  if negb sent then sret false
  else
    let* announcement := on_world find_active_motd in
    match announcement with
    | None => sret true
    | Some announcement => send_message message_type.motd_push announcement
    end.

Definition announce (pubkey nonce : bytes) (k : session_state) : session_state :=
  SessionState (phase k) pubkey nonce (user_id k) (Connection.handle k) (peer_address k)
    (connected_at k) (last_activity_at k).

Definition enter (p : session_phase.t) (k : session_state) : session_state :=
  SessionState p (announced_pubkey k) (challenge_nonce k) (user_id k) (Connection.handle k)
    (peer_address k) (connected_at k) (last_activity_at k).

Definition handle_hello_request (reader : byte_reader) : state machine bool :=
  let* k := get_session in
  if negb (bool_decide (phase k = session_phase.awaiting_hello)) then
    send_status_error error_code.already_authenticated
  else with_request reader (λ request : hello_request.t,
    if negb (hello_request.protocol_version request =? PROTOCOL_VERSION) then
      send_status_error error_code.unsupported_version
    else
      let* nonce := on_world (fill_random_bytes AUTH_NONCE_SIZE) in
      let k := announce (hello_request.client_pubkey request) nonce k in
      do* put_session k in
      let* existing := on_world (find_by_pubkey (hello_request.client_pubkey request)) in
      let* now := on_world get_unix_timestamp in
      do* put_session (enter session_phase.awaiting_auth k) in
      send_message message_type.auth_challenge
        (auth_challenge.mk PROTOCOL_VERSION nonce (match existing with Some _ => 1 | None => 0 end) now)).

(** A session whose key is proven but has no account. *)
Definition prove_key (k : session_state) : session_state :=
  SessionState session_phase.authenticated (announced_pubkey k) (challenge_nonce k) 0
    (Connection.handle k) (peer_address k) (connected_at k) (last_activity_at k).

Definition handle_auth_response (reader : byte_reader) : state machine bool :=
  let* k := get_session in
  if negb (bool_decide (phase k = session_phase.awaiting_auth)) then
    send_status_error error_code.not_authenticated
  else with_request reader (λ response : auth_response.t,
    let signed_input := build_auth_signing_input (challenge_nonce k) (announced_pubkey k) in
    if negb (verify_signature (announced_pubkey k) signed_input (auth_response.signature response))
    then sret false
    else
      let* existing := on_world (find_by_pubkey (announced_pubkey k)) in
      match existing with
      | Some existing =>
          if Repositories.banned existing then send_status_error error_code.account_banned
          else send_accepted_session existing
      | None =>
          do* put_session (prove_key k) in
          send_status_ok 0
      end).

Definition handle_register_request (reader : byte_reader) : state machine bool :=
  let* k := get_session in
  if negb (bool_decide (phase k = session_phase.authenticated)) || negb (user_id k =? 0) then
    send_status_error error_code.already_authenticated
  else if negb (registration_open config) then
    send_status_error error_code.permission_denied
  else with_request reader (λ request : register_request.t,
    if negb (validate_handle (register_request.handle request)) then
      send_status_error error_code.invalid_field
    else
      let* created_id := on_world (create_user (announced_pubkey k) (register_request.handle request)) in
      or_error created_id error_code.handle_unavailable (λ created_id,
        let* created := on_world (find_user_by_id created_id) in
        or_error created error_code.internal_error (λ created,
          do* on_world (replace_profile created_id empty_profile) in
          send_accepted_session created))).

Definition handle_ping_request (reader : byte_reader) : state machine bool :=
  with_request reader (λ request : ping_request.t,
    let* now := on_world get_unix_timestamp in
    send_message message_type.ping_response (ping_response.mk (ping_request.token request) now)).

(** ** account_handler.cpp *)

Definition handle_prekey_publish_request (reader : byte_reader) : state machine bool :=
  registered (λ k, with_request reader (λ request : prekey_publish_request.t,
    let* replaced := on_world (replace_prekey (user_id k) (prekey_publish_request.prekey request)
                                 (prekey_publish_request.signature request)) in
    if negb replaced then send_status_error error_code.internal_error
    else send_status_ok 0)).

Definition handle_prekey_fetch_request (reader : byte_reader) : state machine bool :=
  registered (λ _, with_request reader (λ request : prekey_fetch_request.t,
    let* bundle := on_world (find_bundle_by_pubkey (prekey_fetch_request.target_pubkey request)) in
    or_error bundle error_code.not_found (λ bundle,
      send_message message_type.prekey_bundle_response bundle))).

(** ** forum_handler.cpp *)

Definition handle_forum_create_request (reader : byte_reader) : state machine bool :=
  registered (λ k, with_request reader (λ request : forum_create_request.t,
    if negb (validate_forum_name (forum_create_request.name request)) then
      send_status_error error_code.invalid_field
    else
      let* created_id := on_world (create_forum (user_id k) (forum_create_request.name request)
        (forum_create_request.description request) (forum_create_request.theme_json request)) in
      or_error created_id error_code.duplicate_entry (λ created_id,
        let* forum := on_world (find_forum_by_id created_id) in
        or_error forum error_code.internal_error (λ forum,
          send_message message_type.forum_info_response (forum_info_response.mk forum))))).

Definition clamp_list_limit (requested : Z) : Z :=
  Z.min (if requested =? 0 then DEFAULT_LIST_ITEMS else requested) MAX_LIST_ITEMS.

Definition handle_forum_list_request (reader : byte_reader) : state machine bool :=
  registered (λ _, with_request reader (λ request : forum_list_request.t,
    let limit := Z.min (if forum_list_request.limit request =? 0 then DEFAULT_LIST_ITEMS
                        else forum_list_request.limit request) MAX_LIST_ITEMS in
    let* listed := on_world (list_forums (forum_list_request.offset request) limit) in
    or_error listed error_code.internal_error (λ '(forums, total_count),
      send_message message_type.forum_list_response (forum_list_response.mk forums total_count)))).

(** ** content_handler.cpp *)

Definition handle_post_create_request (reader : byte_reader) : state machine bool :=
  registered (λ k, with_request reader (λ request : post_create_request.t,
    if bool_decide (post_create_request.title request = [])
       || bool_decide (post_create_request.body request = [])
    then send_status_error error_code.invalid_field
    else
      let forum_id := to_i64 (post_create_request.forum_id request) in
      let* forum := on_world (find_forum_by_id forum_id) in
      or_error forum error_code.not_found (λ _,
        let* created_id := on_world (create_post forum_id (user_id k)
          (post_create_request.title request) (post_create_request.body request)) in
        or_error created_id error_code.internal_error (λ created_id,
          let* post := on_world (find_post_by_id created_id) in
          or_error post error_code.internal_error (λ post,
            send_message message_type.post_info_response (post_info_response.mk post)))))).

Definition handle_post_list_request (reader : byte_reader) : state machine bool :=
  registered (λ _, with_request reader (λ request : post_list_request.t,
    let* listed := on_world (list_by_forum (to_i64 (post_list_request.forum_id request))
      (post_list_request.offset request) (clamp_list_limit (post_list_request.limit request))) in
    or_error listed error_code.internal_error (λ '(posts, total_count),
      send_message message_type.post_list_response (post_list_response.mk posts total_count)))).

Definition handle_thread_fetch_request (reader : byte_reader) : state machine bool :=
  registered (λ _, with_request reader (λ request : thread_fetch_request.t,
    let post_id := to_i64 (thread_fetch_request.post_id request) in
    let* post := on_world (find_post_by_id post_id) in
    or_error post error_code.not_found (λ post,
      let* thread := on_world (list_thread post_id MAX_THREAD_COMMENTS) in
      or_error thread error_code.internal_error (λ '(comments, truncated),
        send_message message_type.thread_response
          (thread_response.mk post comments (if (truncated : bool) then 1 else 0)))))).

Definition handle_comment_create_request (reader : byte_reader) : state machine bool :=
  registered (λ k, with_request reader (λ request : comment_create_request.t,
    if bool_decide (comment_create_request.body request = []) then
      send_status_error error_code.invalid_field
    else
      let post_id := to_i64 (comment_create_request.post_id request) in
      let parent_id := to_i64 (comment_create_request.parent_comment_id request) in
      let* parent_post := on_world (find_post_by_id post_id) in
      or_error parent_post error_code.not_found (λ _,
        let* grafted :=
          if comment_create_request.parent_comment_id request =? 0 then sret true
          else on_world (check_parent_belongs_to_post parent_id post_id) in
        if negb grafted then send_status_error error_code.invalid_field
        else
          let* created_id := on_world (create_comment post_id parent_id (user_id k)
            (comment_create_request.body request)) in
          or_error created_id error_code.internal_error (λ created_id,
            let* comment := on_world (find_comment_by_id created_id) in
            or_error comment error_code.internal_error (λ comment,
              send_message message_type.comment_info_response (comment_info_response.mk comment)))))).

(** ** content_delete_handler.cpp *)

Definition checkpoint_after_deletion : state machine unit :=
  let* result := on_world (execute_script checkpoint) in
  if negb result.1 then
    on_world (write_entry (logging config) log_level.warning
      (lit "point de controle WAL apres suppression : " ++ result.2))
  else sret tt.

Definition handle_post_delete_request (reader : byte_reader) : state machine bool :=
  registered (λ k, with_request reader (λ request : post_delete_request.t,
    let* deleted := on_world (delete_own_post (to_i64 (post_delete_request.post_id request)) (user_id k)) in
    if negb deleted then send_status_error error_code.permission_denied
    else
      do* checkpoint_after_deletion in
      send_status_ok (post_delete_request.post_id request))).

Definition handle_comment_delete_request (reader : byte_reader) : state machine bool :=
  registered (λ k, with_request reader (λ request : comment_delete_request.t,
    let* deleted := on_world (delete_own_comment
      (to_i64 (comment_delete_request.comment_id request)) (user_id k)) in
    if negb deleted then send_status_error error_code.permission_denied
    else
      do* checkpoint_after_deletion in
      send_status_ok (comment_delete_request.comment_id request))).

(** ** profile_handler.cpp *)

Definition handle_profile_get_request (reader : byte_reader) : state machine bool :=
  registered (λ _, with_request reader (λ request : profile_get_request.t,
    let* profile := on_world (find_profile_by_pubkey (profile_get_request.target_pubkey request)) in
    or_error profile error_code.not_found (λ profile,
      send_message message_type.profile_response (profile_response.mk profile)))).

Definition handle_profile_set_request (reader : byte_reader) : state machine bool :=
  registered (λ k, with_request reader (λ request : profile_set_request.t,
    let* replaced := on_world (replace_profile (user_id k) request) in
    if negb replaced then send_status_error error_code.internal_error
    else send_status_ok 0)).

(** ** social_handler.cpp *)

Definition is_empty_slot (key : bytes) : bool := forallb (λ b, byte_val b =? 0) key.

Fixpoint resolve_top8_entries (index : Z) (slots : list bytes) : fallible world (list top8_entry) :=
  match slots with
  | [] => fret []
  | key :: slots' =>
      if is_empty_slot key then resolve_top8_entries (index + 1) slots'
      else
        let! target := find_by_pubkey key in
        let! entries := resolve_top8_entries (index + 1) slots' in
        fret (Top8Entry (wrap 8 index) (Repositories.id target) :: entries)
  end.

Definition handle_friend_add_request (reader : byte_reader) : state machine bool :=
  registered (λ k, with_request reader (λ request : friend_add_request.t,
    let* target := on_world (find_by_pubkey (friend_add_request.target_pubkey request)) in
    or_error target error_code.not_found (λ target,
      if Repositories.id target =? user_id k then send_status_error error_code.invalid_field
      else
        let* replaced := on_world (replace_friendship (user_id k) (Repositories.id target)
                                     (friend_add_request.status request)) in
        if negb replaced then send_status_error error_code.internal_error
        else send_status_ok (to_u64 (Repositories.id target))))).

Definition handle_friend_list_request (reader : byte_reader) : state machine bool :=
  registered (λ k,
    let* friends := on_world (list_friends (user_id k) MAX_FRIEND_ITEMS) in
    or_error friends error_code.internal_error (λ friends,
      send_message message_type.friend_list_response (friend_list_response.mk friends))).

Definition handle_top8_set_request (reader : byte_reader) : state machine bool :=
  registered (λ k, with_request reader (λ request : top8_set_request.t,
    let* entries := on_world (resolve_top8_entries 0 (top8_set_request.slots request)) in
    or_error entries error_code.not_found (λ entries,
      let* replaced := on_world (replace_slots (user_id k) entries) in
      if negb replaced then send_status_error error_code.internal_error
      else send_status_ok 0))).

Definition handle_top8_get_request (reader : byte_reader) : state machine bool :=
  registered (λ _, with_request reader (λ request : top8_get_request.t,
    let* target := on_world (find_by_pubkey (top8_get_request.target_pubkey request)) in
    or_error target error_code.not_found (λ target,
      let* response := on_world (list_slots (Repositories.id target)) in
      or_error response error_code.internal_error (λ response,
        send_message message_type.top8_response response)))).

(** ** dm_handler.cpp *)

Definition handle_dm_send_request (reader : byte_reader) : state machine bool :=
  registered (λ k, with_request reader (λ request : dm_send_request.t,
    if bool_decide (dm_send_request.ciphertext request = []) then
      send_status_error error_code.invalid_field
    else
      let* recipient := on_world (find_by_pubkey (dm_send_request.recipient_pubkey request)) in
      or_error recipient error_code.not_found (λ recipient,
        let* created_id := on_world (insert_envelope (Repositories.id recipient)
          (announced_pubkey k) (dm_send_request.ciphertext request)) in
        or_error created_id error_code.internal_error (λ created_id,
          send_status_ok (to_u64 created_id))))).

Definition handle_dm_fetch_request (reader : byte_reader) : state machine bool :=
  registered (λ k, with_request reader (λ request : dm_fetch_request.t,
    let limit := Z.min (if dm_fetch_request.limit request =? 0 then MAX_DM_BATCH_ITEMS
                        else dm_fetch_request.limit request) MAX_DM_BATCH_ITEMS in
    let* response := on_world (list_for_recipient (user_id k) (dm_fetch_request.since_id request) limit) in
    or_error response error_code.internal_error (λ response,
      send_message message_type.dm_list_response response))).

Definition handle_dm_ack_request (reader : byte_reader) : state machine bool :=
  registered (λ k, with_request reader (λ request : dm_ack_request.t,
    let* deleted := on_world (delete_acknowledged (user_id k) (dm_ack_request.envelope_ids request)) in
    if negb deleted then send_status_error error_code.internal_error
    else send_status_ok (to_u64 (size_of (dm_ack_request.envelope_ids request))))).

(** ** report_handler.cpp *)

Definition handle_report_post_request (reader : byte_reader) : state machine bool :=
  registered (λ k, with_request reader (λ request : report_post_request.t,
    let post_id := to_i64 (report_post_request.post_id request) in
    let* target := on_world (find_post_by_id post_id) in
    or_error target error_code.not_found (λ _,
      let* recorded := on_world (record_post_report post_id (user_id k)
                                   (report_post_request.reason request)) in
      if negb recorded then send_status_error error_code.internal_error
      else send_status_ok (report_post_request.post_id request)))).

Definition handle_report_account_request (reader : byte_reader) : state machine bool :=
  registered (λ k, with_request reader (λ request : report_account_request.t,
    let* target := on_world (find_by_pubkey (report_account_request.target_pubkey request)) in
    or_error target error_code.not_found (λ _,
      let* recorded := on_world (record_account_report (report_account_request.target_pubkey request)
                                   (user_id k) (report_account_request.reason request)) in
      if negb recorded then send_status_error error_code.internal_error
      else send_status_ok 0))).
End handlers.
