(* ===== verification/Server.v ===== *)
(** From the bytes of a connection to the handlers (server/handlers:
    request_router, connection_processor): routing by family, the handshake,
    the dispatch of a frame and the loop over the input. *)

From S2P Require Import Prelude.
From S2P Require Import Wire.
From S2P Require Import Framing.
From S2P Require Import TextField.
From S2P Require Import Codec.
From S2P Require Import SessionMessages.
From S2P Require Import ContentMessages.
From S2P Require Import SocialMessages.
From S2P Require Import RateLimit.
From S2P Require Import Sodium.
From S2P Require Import Noise.
From S2P Require Import Config.
From S2P Require Import Connection.
From S2P Require Import Database.
From S2P Require Import Repositories.
From S2P Require Import SocialRepositories.
From S2P Require Import Handlers.

Section server.
Context `{Sodium, Environment}.
Context (config : server_config).

(** ** request_router.cpp

    A router yields [None] when its family does not know the type
    ([handled = false]). *)

Definition route_session_family (type : message_type.t) : option (byte_reader → state machine bool) :=
  match type with
  | message_type.hello_request => Some handle_hello_request
  | message_type.auth_response => Some handle_auth_response
  | message_type.register_request => Some (handle_register_request config)
  | message_type.ping_request => Some handle_ping_request
  | _ => None
  end.

Definition route_content_family (type : message_type.t) : option (byte_reader → state machine bool) :=
  match type with
  | message_type.forum_create_request => Some handle_forum_create_request
  | message_type.forum_list_request => Some handle_forum_list_request
  | message_type.post_create_request => Some handle_post_create_request
  | message_type.post_list_request => Some handle_post_list_request
  | message_type.thread_fetch_request => Some handle_thread_fetch_request
  | message_type.comment_create_request => Some handle_comment_create_request
  | message_type.post_delete_request => Some (handle_post_delete_request config)
  | message_type.comment_delete_request => Some (handle_comment_delete_request config)
  | _ => None
  end.

Definition route_social_family (type : message_type.t) : option (byte_reader → state machine bool) :=
  match type with
  | message_type.prekey_publish_request => Some handle_prekey_publish_request
  | message_type.prekey_fetch_request => Some handle_prekey_fetch_request
  | message_type.profile_get_request => Some handle_profile_get_request
  | message_type.profile_set_request => Some handle_profile_set_request
  | message_type.friend_add_request => Some handle_friend_add_request
  | message_type.friend_list_request => Some handle_friend_list_request
  | message_type.top8_set_request => Some handle_top8_set_request
  | message_type.top8_get_request => Some handle_top8_get_request
  | _ => None
  end.

Definition route_dm_family (type : message_type.t) : option (byte_reader → state machine bool) :=
  match type with
  | message_type.dm_send_request => Some handle_dm_send_request
  | message_type.dm_fetch_request => Some handle_dm_fetch_request
  | message_type.dm_ack_request => Some handle_dm_ack_request
  | _ => None
  end.

Definition route_report_family (type : message_type.t) : option (byte_reader → state machine bool) :=
  match type with
  | message_type.report_post_request => Some handle_report_post_request
  | message_type.report_account_request => Some handle_report_account_request
  | _ => None
  end.

Definition route_message (type : message_type.t) (reader : byte_reader) : state machine bool :=
  match route_session_family type with
  | Some handler => handler reader
  | None =>
  match route_content_family type with
  | Some handler => handler reader
  | None =>
  match route_social_family type with
  | Some handler => handler reader
  | None =>
  match route_dm_family type with
  | Some handler => handler reader
  | None =>
  match route_report_family type with
  | Some handler => handler reader
  | None => send_status_error error_code.not_implemented
  end end end end end.

(** ** connection_processor.cpp *)

Definition MAX_NOISE_MESSAGE_SIZE : Z := MAX_FRAME_SIZE + AEAD_TAG_SIZE.

(** The limiters the server is configured with. *)
Definition server_policy : rate_policy :=
  RatePolicy (requests_per_minute_per_address (limits config))
    (requests_per_minute_per_identity (limits config)).

Definition on_tracker {A} (m : state rate_tracker A) : state machine A :=
  zoom tracker (λ t s, Machine (shared s) t (connection s)) m.

(** [generate_x25519_keypair]. *)
Definition draw_keypair : state machine (option (bytes * bytes)) :=
  on_world (λ w, (random_keypair (entropy_reads w),
                  World (db w) (calls w) (clock_reads w) (S (entropy_reads w)) (log_entries w))).

Definition advance_handshake (message : bytes) : state machine bool :=
  let* keypair := draw_keypair in
  let* reply := on_connection (on_channel (accept_handshake_message keypair message)) in
  match reply with
  | None => sret false
  | Some reply =>
      let* queued := on_connection (on_socket (queue_bytes (append_length_prefixed_message reply []))) in
      if negb queued then sret false
      else
        let* k := get_session in
        do* put_session (enter session_phase.awaiting_hello k) in
        sret true
  end.

Definition touch (now : Z) (k : session_state) : session_state :=
  SessionState (phase k) (announced_pubkey k) (challenge_nonce k) (user_id k) (Connection.handle k)
    (peer_address k) (connected_at k) now.

(** Address first, then identity; a refused address is not charged to the
    identity. *)
Definition allow_request (k : session_state) (now : Z) : state rate_tracker bool :=
  let* allowed := allow_address_request server_policy (peer_address k) now in
  if negb allowed then sret false else allow_identity_request server_policy (user_id k) now.

Definition dispatch_application_frame (frame : bytes) : state machine bool :=
  match decode_frame_header frame with
  | None => sret false
  | Some header =>
      if negb (size_of frame =? FRAME_LENGTH_FIELD_SIZE + body_size header) then sret false
      else
        let* k := get_session in
        let* now := on_world get_unix_timestamp in
        let* allowed := on_tracker (allow_request k now) in
        if negb allowed then send_status_error error_code.rate_limited
        else
          do* put_session (touch now k) in
          route_message (type header) (new_reader (drop (Z.to_nat FRAME_HEADER_SIZE) frame))
  end.

(** One message of the input: the handshake, then sealed frames. *)
Definition process_message (message : bytes) : state machine bool :=
  let* c := sgets connection in
  if negb (is_established (channel c)) then advance_handshake message
  else
    let* frame := on_connection (on_channel (open_message message)) in
    match frame with
    | None => sret false
    | Some frame => dispatch_application_frame frame
    end.

Definition put_input (buffer : bytes) : state machine unit :=
  on_connection (smodify (λ c, ClientConnection (socket c) (channel c) (session c) buffer)).

(** [while (true)]: every round removes a message of at least five bytes from
    the buffer, so a fuel of the buffer's length is never exhausted. *)
Fixpoint process_messages (fuel : nat) : state machine bool :=
  let* c := sgets connection in
  match extract_length_prefixed_message (input_buffer c) MAX_NOISE_MESSAGE_SIZE with
  | incomplete => sret true
  | malformed => sret false
  | extracted message buffer =>
      do* put_input buffer in
      match fuel with
      | O => sret true
      | S fuel' =>
          let* ok := process_message message in
          if negb ok then sret false else process_messages fuel'
      end
  end.

(** [answers]: what [recv] answers. *)
Definition process_connection_input (answers : list recv_result) : state machine bool :=
  let* c := sgets connection in
  let '(readable, buffer) := read_available answers (input_buffer c) in
  do* put_input buffer in
  if negb readable then sret false else process_messages (length buffer).
End server.
