(* ===== verification/Effects.v ===== *)
(** What running a request can do to the database: every statement works on
    the tables as a whole, so a property of the tables that each statement
    preserves holds of what is visible and of what a rollback would restore,
    whatever calls fail. *)

From S2P Require Import Prelude.
From S2P Require Import Wire.
From S2P Require Import Codec.
From S2P Require Import SessionMessages.
From S2P Require Import ContentMessages.
From S2P Require Import SocialMessages.
From S2P Require Import Config.
From S2P Require Import Database.
From S2P Require Import Repositories.
From S2P Require Import SocialRepositories.

(** ** Invariants as a preorder

    An invariant [I] is the relation "if [I] held before, it holds after", so
    the lemmas on [keeps] prove it. *)

Definition preserves {S} (I : S → Prop) (s s' : S) : Prop := I s → I s'.

#[export] Instance preserves_preorder {S} (I : S → Prop) : PreOrder (preserves I).
Proof. split; [intros s|intros s1 s2 s3]; unfold preserves; tauto. Qed.

(** Take a program apart at its sequences, conditionals and matches. *)
Ltac keeps_step :=
  match goal with
  | |- keeps _ (sbind _ _) => refine (keeps_bind _ _ _ _ _); [|intros]
  | |- keeps _ (fbind _ _) => refine (keeps_fbind _ _ _ _ _); [|intros]
  | |- keeps _ (fret _) => exact (keeps_ret _ _)
  | |- keeps _ (sret _) => exact (keeps_ret _ _)
  | |- keeps _ sget => exact (keeps_get _)
  | |- keeps _ (sgets _) => exact (keeps_gets _ _)
  | |- keeps _ (if ?b then _ else _) => destruct b eqn:?
  | |- keeps _ (match ?x with _ => _ end) => destruct x
  | |- keeps _ (let '(_, _) := ?x in _) => destruct x
  end.

Ltac keeps_auto :=
  repeat (intros; cbv zeta; first [solve [eauto 2 with keeps nocore] | keeps_step]).

(** ** An invariant of the tables *)

Section effects.
Context `{Environment}.
Context (J : tables → Prop).

(** [J] holds of the tables in view and of those a rollback restores. *)
Definition holds (w : world) : Prop :=
  J (db_tables (db w)) ∧ ∀ t, saved (db w) = Some t → J t.

Abbreviation safe := (keeps (preserves holds)).

(** A statement that preserves [J]. *)
Definition sound (statement : tables → option written) : Prop :=
  ∀ t o, J t → statement t = Some o → J (new_tables o).

Definition sound_insertion (insertion : tables → option (tables * Z)) : Prop :=
  ∀ t t' id, J t → insertion t = Some (t', id) → J t'.

Definition sound_update (statement : tables → option tables) : Prop :=
  ∀ t t', J t → statement t = Some t' → J t'.

Lemma holds_fault w : holds w → holds (tick (set_db (fault w) w)).
Proof.
  intros [Ht Hs]. unfold holds, fault. simpl. destruct (saved (db w)) as [t|] eqn:E; simpl.
  - destruct (sql_rolls_back _); simpl; [by split; [apply Hs|]|]. rewrite E. by split.
  - rewrite E. by split.
Qed.

Lemma prepare_safe : safe prepare.
Proof. intros w Hw. exact Hw. Qed.

Lemma clock_safe : safe get_unix_timestamp.
Proof. intros w Hw. exact Hw. Qed.

Lemma random_safe n : safe (fill_random_bytes n).
Proof. intros w Hw. unfold fill_random_bytes. by destruct (n =? 0). Qed.

Lemma log_safe policy l m : safe (write_entry policy l m).
Proof.
  unfold write_entry. destruct (_ && _); [|keeps_auto].
  apply keeps_bind; [apply _|apply clock_safe|]. by intros now w Hw.
Qed.

Lemma step_row_safe {A} (rows : list A) : safe (step_row rows).
Proof. intros w Hw. unfold step_row. destruct (sql_fails _); [by apply holds_fault|exact Hw]. Qed.

Lemma step_done_safe statement : sound statement → safe (step_done statement).
Proof.
  intros Hs w Hw. unfold step_done. destruct (sql_fails _); [by apply holds_fault|].
  destruct (statement _) as [o|] eqn:E; [|exact Hw]. destruct Hw as [Ht Hsaved].
  split; simpl; [by eapply Hs|done].
Qed.

Lemma execute_script_safe s :
  match s with update statement => sound statement | _ => True end → safe (execute_script s).
Proof.
  intros Hs w Hw. unfold execute_script. destruct (sql_fails _); [by apply holds_fault|].
  destruct (run_script s (db w)) as [d|] eqn:E; [|exact Hw]. destruct Hw as [Ht Hsaved].
  unfold holds. simpl. destruct s; simpl in E; destruct (saved (db w)) as [t|] eqn:Es;
    simplify_eq/=; try (split; [by auto|intros ? ?; simplify_eq/=; by auto]).
  all: destruct (statement _) as [o|] eqn:Eo; simplify_eq/=.
  all: split; [by eapply Hs|intros ? ?; simplify_eq/=; by auto].
Qed.
End effects.

Abbreviation safe J := (keeps (preserves (holds J))).

#[export] Hint Resolve prepare_safe clock_safe random_safe log_safe step_row_safe : keeps.

Section operations.
Context `{Environment}.
Context (J : tables → Prop).

Lemma query_safe {A} (q : tables → A) : safe J (query q).
Proof. apply keeps_gets, _. Qed.
#[local] Hint Resolve query_safe : keeps.

Lemma while_rows_safe {A S} (body : A → S → option (S * bool)) rows out :
  safe J (while_rows body rows out).
Proof.
  revert out. induction rows as [|row rows IH]; intros out; simpl; keeps_auto.
Qed.

Lemma find_one_safe {A B} (q : tables → list A) (read : A → option B) : safe J (find_one q read).
Proof. unfold find_one. keeps_auto. Qed.

Lemma count_query_safe q : safe J (count_query q).
Proof. apply find_one_safe. Qed.

Lemma insert_returning_safe insertion : sound_insertion J insertion → safe J (insert_returning insertion).
Proof.
  intros Hs. unfold insert_returning.
  apply keeps_bind; [apply _| |intros; unfold get_last_insert_id; keeps_auto].
  apply step_done_safe. intros t o Ht E. simpl in E.
  destruct (insertion t) as [[t' id]|] eqn:Ei; simplify_eq/=. by eapply Hs.
Qed.

Lemma run_statement_safe statement : sound J statement → safe J (run_statement statement).
Proof. intros Hs. unfold run_statement. keeps_auto. by apply step_done_safe. Qed.

Lemma sound_of_update (f : tables → option tables) n :
  sound_update J f → sound J (λ t, t' ← f t; Some (Written t' None n)).
Proof.
  intros Hs t o Ht E. simpl in E. destruct (f t) as [t'|] eqn:Ef; simplify_eq/=. by eapply Hs.
Qed.
End operations.

#[export] Hint Resolve query_safe while_rows_safe find_one_safe count_query_safe : keeps.

(** Without a transaction in progress what is in view is what is kept. *)
Definition autocommit (w : world) : Prop := saved (db w) = None.

(** ** Reads

    Without a transaction in progress a program that only reads leaves the
    database as it is, failures included. *)

Definition quiet (w w' : world) : Prop := saved (db w) = None → db w' = db w.

#[export] Instance quiet_preorder : PreOrder quiet.
Proof.
  split; [by intros w|]. intros w1 w2 w3 H1 H2 Hs. rewrite H2; [by apply H1|].
  by rewrite (H1 Hs).
Qed.

Section quiet.
Context `{Environment}.

Lemma fault_quiet w : saved (db w) = None → fault w = db w.
Proof. unfold fault. by intros ->. Qed.

Lemma prepare_quiet : keeps quiet prepare.
Proof. by intros w Hw. Qed.

Lemma clock_quiet : keeps quiet get_unix_timestamp.
Proof. by intros w Hw. Qed.

Lemma random_quiet n : keeps quiet (fill_random_bytes n).
Proof. intros w Hw. unfold fill_random_bytes. by destruct (n =? 0). Qed.

Lemma step_row_quiet {A} (rows : list A) : keeps quiet (step_row rows).
Proof.
  intros w Hw. unfold step_row. destruct (sql_fails _); [|done]. by apply fault_quiet.
Qed.

Lemma query_quiet {A} (q : tables → A) : keeps quiet (query q).
Proof. apply keeps_gets, _. Qed.
End quiet.

#[export] Hint Resolve prepare_quiet clock_quiet random_quiet step_row_quiet query_quiet : keeps.

Section quiet_reads.
Context `{Environment}.

Lemma while_rows_quiet {A S} (body : A → S → option (S * bool)) rows out :
  keeps quiet (while_rows body rows out).
Proof. revert out. induction rows as [|row rows IH]; intros out; simpl; keeps_auto. Qed.

Lemma find_one_quiet {A B} (q : tables → list A) (read : A → option B) : keeps quiet (find_one q read).
Proof. unfold find_one. keeps_auto. Qed.
End quiet_reads.

#[export] Hint Resolve while_rows_quiet find_one_quiet : keeps.

(** ** One write outside of a transaction *)

Section write.
Context `{Environment}.

(** The database after [step_done]: the statement's, or as it was. *)
Lemma step_done_autocommit statement w : saved (db w) = None →
  let '(ok, w') := step_done statement w in
  saved (db w') = None ∧
  if ok then ∃ o, statement (db_tables (db w)) = Some o ∧ db_tables (db w') = new_tables o ∧
                  last_insert_id (db w') = default (last_insert_id (db w)) (inserted o) ∧
                  changed_row_count (db w') = changed o
  else db w' = db w.
Proof.
  intros Hs. unfold step_done. destruct (sql_fails _); simpl; [by rewrite fault_quiet|].
  destruct (statement _) as [o|] eqn:E; simpl; [|done]. split; [done|]. by exists o.
Qed.

Lemma insert_returning_autocommit insertion w : saved (db w) = None →
  let '(id, w') := insert_returning insertion w in
  saved (db w') = None ∧
  match id with
  | Some id => insertion (db_tables (db w)) = Some (db_tables (db w'), id)
  | None => db w' = db w
  end.
Proof.
  intros Hs. unfold insert_returning, sbind.
  pose proof (step_done_autocommit
    (λ t, '(t', id) ← insertion t; Some (Written t' (Some id) 1)) w Hs) as Hw.
  destruct (step_done _ w) as [ok w']. destruct Hw as [Hs' Hw].
  destruct ok; simpl; [|done]. split; [done|]. destruct Hw as (o & E & E1 & E2 & _).
  destruct (insertion (db_tables (db w))) as [[t' id]|]; [|done].
  injection E as <-. simpl in *. by rewrite E1, E2.
Qed.

Lemma create_user_autocommit key handle w : saved (db w) = None →
  let '(id, w') := create_user key handle w in
  saved (db w') = None ∧
  match id with
  | Some id => insert_user key handle (db_tables (db w)) = Some (db_tables (db w'), id)
  | None => db w' = db w
  end.
Proof.
  intros Hs. unfold create_user, sbind, prepare. destruct (sql_fails _); simpl; [done|].
  by apply (insert_returning_autocommit (insert_user key handle) (tick w)).
Qed.

Lemma insert_user_row key handle t t' id : insert_user key handle t = Some (t', id) →
  t_users t' = <[id := users.Row key handle false]> (t_users t).
Proof. unfold insert_user. destruct (_ || _); [done|]. by destruct (next_id _); intros; simplify_eq/=. Qed.
End write.

(** ** The reading operations *)

(** An operation made of reads is safe and quiet. *)
Definition reading `{Environment} {A} (m : state world A) : Prop :=
  keeps quiet m ∧ ∀ J, keeps (preserves (holds J)) m.

Ltac reading_auto := split; [|intros ?J]; keeps_auto.

Section reading.
Context `{Environment}.

Lemma find_one_reading {A B} (q : tables → list A) (read : A → option B) : reading (find_one q read).
Proof. split; [apply find_one_quiet|intros J; apply find_one_safe]. Qed.

Lemma list_forums_reading offset limit : reading (list_forums offset limit).
Proof. unfold list_forums, count_query, read_rows. reading_auto. Qed.

Lemma list_by_forum_reading forum offset limit : reading (list_by_forum forum offset limit).
Proof. unfold list_by_forum, count_query, read_rows. reading_auto. Qed.

Lemma list_thread_reading post limit : reading (list_thread post limit).
Proof. unfold list_thread, read_rows_limited. reading_auto. Qed.

Lemma check_parent_reading parent post : reading (check_parent_belongs_to_post parent post).
Proof. unfold check_parent_belongs_to_post. reading_auto. Qed.

Lemma list_friends_reading user limit : reading (list_friends user limit).
Proof. unfold list_friends, read_rows. reading_auto. Qed.

Lemma list_slots_reading user : reading (list_slots user).
Proof. unfold list_slots. reading_auto. Qed.

Lemma list_for_recipient_reading user since limit : reading (list_for_recipient user since limit).
Proof. unfold list_for_recipient, read_rows_limited. reading_auto. Qed.
End reading.

#[export] Hint Extern 1 (keeps (preserves (holds _)) (list_forums _ _)) => apply list_forums_reading : keeps.
#[export] Hint Extern 1 (keeps (preserves (holds _)) (list_by_forum _ _ _)) => apply list_by_forum_reading : keeps.
#[export] Hint Extern 1 (keeps (preserves (holds _)) (list_thread _ _)) => apply list_thread_reading : keeps.
#[export] Hint Extern 1 (keeps (preserves (holds _)) (check_parent_belongs_to_post _ _)) => apply check_parent_reading : keeps.
#[export] Hint Extern 1 (keeps (preserves (holds _)) (list_friends _ _)) => apply list_friends_reading : keeps.
#[export] Hint Extern 1 (keeps (preserves (holds _)) (list_slots _)) => apply list_slots_reading : keeps.
#[export] Hint Extern 1 (keeps (preserves (holds _)) (list_for_recipient _ _ _)) => apply list_for_recipient_reading : keeps.
