(* ===== verification/Permissions.v ===== *)
(** The contract between the handlers and the database: what a session may do
    to the tables ([permitted]), and the refinement theorem that every request
    does a sequence of such changes and nothing else. *)

From stdpp Require Import relations.
From S2P Require Import Prelude.
From S2P Require Import Wire.
From S2P Require Import Framing.
From S2P Require Import TextField.
From S2P Require Import Codec.
From S2P Require Import SessionMessages.
From S2P Require Import ContentMessages.
From S2P Require Import SocialMessages.
From S2P Require Import RateLimit.
From S2P Require Import Sodium.
From S2P Require Import Noise.
From S2P Require Import Config.
From S2P Require Import Connection.
From S2P Require Import Database.
From S2P Require Import Repositories.
From S2P Require Import SocialRepositories.
From S2P Require Import Handlers.
From S2P Require Import Server.
From S2P Require Import Effects.

(** ** The contract *)

Section permitted.
Context (k : session_state).

(** One change of the tables on behalf of the session [k]. *)
Inductive permitted : tables → tables → Prop :=
  | may_register t t' handle id :
      phase k = session_phase.authenticated → user_id k = 0 → validate_handle handle = true →
      insert_user (announced_pubkey k) handle t = Some (t', id) → permitted t t'
  | may_start_profile t t' id r :
      phase k = session_phase.authenticated → user_id k = 0 →
      t_users t !! id = Some r → users.pubkey r = announced_pubkey k →
      upsert_profile id (profiles.Row [] [] [] []) t = Some t' → permitted t t'
  | may_publish_prekey t t' r :
      is_registered k = true → upsert_prekey (user_id k) r t = Some t' → permitted t t'
  | may_create_forum t t' r id :
      is_registered k = true → validate_forum_name (forums.name r) = true →
      text_ok MAX_FORUM_DESCRIPTION_LENGTH (forums.description r) →
      text_ok MAX_THEME_JSON_LENGTH (forums.theme_json r) → forums.founder_id r = user_id k →
      insert_forum r t = Some (t', id) → permitted t t'
  | may_create_post t t' r id :
      is_registered k = true → posts.title r ≠ [] → text_ok MAX_POST_TITLE_LENGTH (posts.title r) →
      posts.body r ≠ [] → text_ok MAX_POST_BODY_LENGTH (posts.body r) →
      posts.author_id r = user_id k → posts.deleted_at r = None →
      insert_post r t = Some (t', id) → permitted t t'
  | may_create_comment t t' r id :
      is_registered k = true → comments.body r ≠ [] →
      text_ok MAX_COMMENT_BODY_LENGTH (comments.body r) →
      comments.author_id r = user_id k → comments.deleted_at r = None →
      insert_comment r t = Some (t', id) → permitted t t'
  | may_erase_post t id p now :
      is_registered k = true → t_posts t !! id = Some p → posts.author_id p = user_id k →
      posts.deleted_at p = None →
      permitted t (set_posts (<[id := erase_post now p]> (t_posts t)) (t_seq t) t)
  | may_erase_comment t id c now :
      is_registered k = true → t_comments t !! id = Some c → comments.author_id c = user_id k →
      comments.deleted_at c = None →
      permitted t (set_comments (<[id := erase_comment now c]> (t_comments t)) (t_seq t) t)
  | may_set_profile t t' r :
      is_registered k = true → text_ok MAX_DISPLAY_NAME_LENGTH (profiles.display_name r) →
      text_ok MAX_BIO_LENGTH (profiles.bio r) → text_ok MAX_THEME_JSON_LENGTH (profiles.theme_json r) →
      text_ok MAX_BLOB_REFERENCE_LENGTH (profiles.banner_ref r) →
      upsert_profile (user_id k) r t = Some t' → permitted t t'
  | may_set_friend t t' friend status :
      is_registered k = true → upsert_friend (user_id k) friend status t = Some t' → permitted t t'
  | may_clear_slots t : is_registered k = true → permitted t (delete_slots (user_id k) t)
  | may_fill_slot t t' slot friend :
      is_registered k = true → insert_top8 (user_id k) slot friend t = Some t' → permitted t t'
  | may_send_envelope t t' recipient ciphertext id :
      is_registered k = true → ciphertext ≠ [] → blob_ok MAX_DM_CIPHERTEXT_SIZE ciphertext →
      insert_dm (dm_envelopes.Row recipient (announced_pubkey k) ciphertext) t = Some (t', id) →
      permitted t t'
  | may_drop_envelope t id r :
      is_registered k = true → t_dm t !! id = Some r → dm_envelopes.recipient_id r = user_id k →
      permitted t (set_dm (delete id (t_dm t)) (t_seq t) t)
  | may_report t t' r id :
      is_registered k = true → reports.reporter_id r = user_id k →
      text_ok MAX_REPORT_REASON_LENGTH (reports.reason r) →
      insert_report r t = Some (t', id) → permitted t t'.

(** An invariant the contract preserves. *)
Definition stable (J : tables → Prop) : Prop := ∀ t t', J t → permitted t t' → J t'.
End permitted.

(** ** Machines *)

Definition machine_holds (J : tables → Prop) (s : machine) : Prop := holds J (shared s).

Abbreviation safe_handler J := (keeps (preserves (machine_holds J))).

Section machine.
Context `{Sodium, Environment}.
Context (J : tables → Prop).

Lemma on_world_safe {A} (m : state world A) : safe J m → safe_handler J (on_world m).
Proof. intros Hm. apply keeps_zoom. intros s Hs. apply (Hm (shared s) Hs). Qed.

Lemma on_connection_safe {A} (m : state client_connection A) : safe_handler J (on_connection m).
Proof. apply keeps_zoom. by intros s Hs. Qed.

Lemma on_tracker_safe {A} (m : state rate_tracker A) : safe_handler J (on_tracker m).
Proof. apply keeps_zoom. by intros s Hs. Qed.

Lemma send_message_safe {A} `{WireFormat A} type (m : A) : safe_handler J (send_message type m).
Proof. apply on_connection_safe. Qed.

Lemma send_status_error_safe code : safe_handler J (send_status_error code).
Proof. apply send_message_safe. Qed.

Lemma send_status_ok_safe n : safe_handler J (send_status_ok n).
Proof. apply send_message_safe. Qed.

Lemma get_session_safe : safe_handler J get_session.
Proof. apply keeps_gets, _. Qed.

Lemma put_session_safe k : safe_handler J (put_session k).
Proof. apply on_connection_safe. Qed.

(** Reads, and what only concerns the connection, is safe for any [J]. *)
Lemma with_request_safe {A} `{WireLaws A} reader (handler : A → state machine bool) :
  reader_ok reader → (∀ a, well_formed a → safe_handler J (handler a)) →
  safe_handler J (with_request reader handler).
Proof.
  intros Hr Hh. unfold with_request.
  destruct (read_from reader) as [[a|] r'] eqn:E; simpl; [|apply keeps_ret, _].
  destruct (read_from_canonical _ _ _ Hr E) as (e & _ & _ & _ & Ha & _). by apply Hh.
Qed.

Lemma or_error_safe {A} (found : option A) code (handler : A → state machine bool) :
  (∀ a, found = Some a → safe_handler J (handler a)) → safe_handler J (or_error found code handler).
Proof. intros Hh. destruct found; simpl; [by apply Hh|apply send_status_error_safe]. Qed.

(** A handler behind the session guard. *)
Lemma registered_run (handler : session_state → state machine bool) s :
  registered handler s =
    if is_registered (session (connection s)) then handler (session (connection s)) s
    else (true, (send_status_error error_code.not_authenticated s).2).
Proof.
  unfold registered, require_registered_session, get_session, sbind, sgets. simpl.
  destruct (is_registered _); [done|]. by destruct (send_status_error _ s).
Qed.

Lemma registered_safe (handler : session_state → state machine bool) s :
  (is_registered (session (connection s)) = true →
     preserves (machine_holds J) s (handler (session (connection s)) s).2) →
  preserves (machine_holds J) s (registered handler s).2.
Proof.
  intros Hh. rewrite registered_run. destruct (is_registered _); [by apply Hh|].
  simpl. apply send_status_error_safe.
Qed.
End machine.

#[export] Hint Resolve on_connection_safe on_tracker_safe send_message_safe send_status_error_safe
  send_status_ok_safe get_session_safe put_session_safe : keeps.
#[export] Hint Extern 1 (safe_handler _ (on_world _)) =>
  apply on_world_safe; solve [eauto 2 with keeps nocore] : keeps.

(** ** Every handler keeps to the contract *)

(** A statement that is one permitted change. *)
Ltac permit c :=
  lazymatch goal with
  | |- keeps _ (step_done _) => apply step_done_safe
  | |- keeps _ (insert_returning _) => apply insert_returning_safe
  | |- keeps _ (run_statement _) => apply run_statement_safe
  end;
  intros ? ? ? ?; intros; simpl in *; simplify_option_eq;
  repeat match goal with p : (_ * _)%type |- _ => destruct p; simplify_eq/= end;
  match goal with
  | Hst : stable _ _, H : _ |- _ => eapply Hst; [eassumption|]; eapply c; eauto; simpl; eauto
  end.

Section contract.
Context `{Environment}.
Context (k : session_state) (J : tables → Prop) (Hstable : stable k J).
Context (Hreg : is_registered k = true).

Lemma replace_prekey_safe prekey signature : safe J (replace_prekey (user_id k) prekey signature).
Proof. unfold replace_prekey. keeps_auto. permit may_publish_prekey. Qed.

Lemma create_forum_safe name description theme :
  validate_forum_name name = true → text_ok MAX_FORUM_DESCRIPTION_LENGTH description →
  text_ok MAX_THEME_JSON_LENGTH theme → safe J (create_forum (user_id k) name description theme).
Proof. intros. unfold create_forum. keeps_auto. permit may_create_forum. Qed.

Lemma create_post_safe forum title body :
  title ≠ [] → text_ok MAX_POST_TITLE_LENGTH title → body ≠ [] → text_ok MAX_POST_BODY_LENGTH body →
  safe J (create_post forum (user_id k) title body).
Proof. intros. unfold create_post. keeps_auto. permit may_create_post. Qed.

Lemma create_comment_safe post parent body :
  body ≠ [] → text_ok MAX_COMMENT_BODY_LENGTH body →
  safe J (create_comment post parent (user_id k) body).
Proof. intros. unfold create_comment. keeps_auto. permit may_create_comment. Qed.

Lemma delete_own_post_safe id : safe J (delete_own_post id (user_id k)).
Proof.
  unfold delete_own_post, delete_post_where. keeps_auto; [|by apply keeps_gets, _].
  apply step_done_safe. intros t o Ht E. unfold update_row in E.
  destruct (t_posts t !! id) as [p|] eqn:Ep; [|by simplify_eq/=].
  destruct (_ && _) eqn:Ec; simplify_eq/=; [|done].
  apply andb_true_iff in Ec as [Ea%Z.eqb_eq Ed%bool_decide_eq_true].
  eapply Hstable; [done|]. by eapply may_erase_post.
Qed.

Lemma delete_own_comment_safe id : safe J (delete_own_comment id (user_id k)).
Proof.
  unfold delete_own_comment. keeps_auto; [|by apply keeps_gets, _].
  apply step_done_safe. intros t o Ht E. unfold update_row in E.
  destruct (t_comments t !! id) as [p|] eqn:Ep; [|by simplify_eq/=].
  destruct (_ && _) eqn:Ec; simplify_eq/=; [|done].
  apply andb_true_iff in Ec as [Ea%Z.eqb_eq Ed%bool_decide_eq_true].
  eapply Hstable; [done|]. by eapply may_erase_comment.
Qed.

Lemma replace_profile_safe request : well_formed request → safe J (replace_profile (user_id k) request).
Proof.
  intros (H1 & H2 & H3 & H4). unfold replace_profile. permit may_set_profile.
Qed.

Lemma replace_friendship_safe friend status : safe J (replace_friendship (user_id k) friend status).
Proof. unfold replace_friendship. permit may_set_friend. Qed.

Lemma finish_transaction_safe succeeded : safe J (finish_transaction succeeded).
Proof.
  unfold finish_transaction, execute. keeps_auto.
  apply execute_script_safe. by destruct succeeded.
Qed.

Lemma begin_safe : safe J (execute begin_immediate).
Proof. unfold execute. keeps_auto. by apply execute_script_safe. Qed.

Lemma rebind_safe ready : safe J (rebind ready).
Proof. unfold rebind. keeps_auto. Qed.

Lemma insert_slots_safe ready entries succeeded : safe J (insert_slots ready (user_id k) entries succeeded).
Proof.
  revert succeeded. induction entries as [|e entries IH]; intros succeeded; simpl; keeps_auto.
  - apply rebind_safe.
  - permit may_fill_slot.
Qed.

Lemma replace_slots_safe entries : safe J (replace_slots (user_id k) entries).
Proof.
  unfold replace_slots. keeps_auto; try apply begin_safe; try apply finish_transaction_safe;
    try apply insert_slots_safe.
  apply run_statement_safe. intros t o Ht E. simplify_eq/=.
  eapply Hstable; [done|]. by apply may_clear_slots.
Qed.

Lemma insert_envelope_safe recipient ciphertext :
  ciphertext ≠ [] → blob_ok MAX_DM_CIPHERTEXT_SIZE ciphertext →
  safe J (insert_envelope recipient (announced_pubkey k) ciphertext).
Proof. intros. unfold insert_envelope. keeps_auto. permit may_send_envelope. Qed.

Lemma delete_envelopes_safe ready ids succeeded :
  safe J (delete_envelopes ready (user_id k) ids succeeded).
Proof.
  revert succeeded. induction ids as [|id ids IH]; intros succeeded; simpl; keeps_auto.
  - apply rebind_safe.
  - apply step_done_safe. intros t o Ht E. unfold delete_envelope in E.
    destruct (t_dm t !! _) as [r|] eqn:Er; [|by simplify_eq/=].
    destruct (Z.eqb_spec (dm_envelopes.recipient_id r) (user_id k)); simplify_eq/=; [|done].
    eapply Hstable; [done|]. by eapply may_drop_envelope.
Qed.

Lemma delete_acknowledged_safe ids : safe J (delete_acknowledged (user_id k) ids).
Proof.
  unfold delete_acknowledged. keeps_auto; try apply begin_safe; try apply finish_transaction_safe;
    try apply delete_envelopes_safe.
Qed.

Lemma record_report_safe kind post target reason :
  text_ok MAX_REPORT_REASON_LENGTH reason →
  safe J (record_report kind post target (user_id k) reason).
Proof. intros. unfold record_report. keeps_auto. permit may_report. Qed.
End contract.

(** The rest of a handler, for a well-formed request. *)
Ltac on_request request Hrequest :=
  refine (with_request_safe _ _ _ _ _); [assumption|intros request Hrequest].

(** ** The session handlers *)

(** An invariant that does not care whose profile is emptied. *)
Definition profile_insensitive (J : tables → Prop) : Prop :=
  ∀ t t' id, J t → upsert_profile id (profiles.Row [] [] [] []) t = Some t' → J t'.

Section contract_machine.
Context `{Sodium, Environment}.
Context (config : server_config).

Lemma read_only_safe {A B} (J : tables → Prop) (q : tables → list A) (read : A → option B) :
  safe_handler J (on_world (find_one q read)).
Proof. apply on_world_safe, find_one_safe. Qed.

Lemma send_accepted_safe J user : safe_handler J (send_accepted_session user).
Proof.
  unfold send_accepted_session, find_active_motd. keeps_auto.
Qed.

Lemma hello_safe J reader : reader_ok reader → safe_handler J (handle_hello_request reader).
Proof.
  intros Hr. unfold handle_hello_request. keeps_auto.
  on_request request Hrequest. keeps_auto.
Qed.

Lemma ping_safe J reader : reader_ok reader → safe_handler J (handle_ping_request reader).
Proof.
  intros Hr. unfold handle_ping_request. on_request request Hrequest. keeps_auto.
Qed.

Lemma auth_safe J reader : reader_ok reader → safe_handler J (handle_auth_response reader).
Proof.
  intros Hr. unfold handle_auth_response. keeps_auto.
  on_request request Hrequest. keeps_auto.
  apply send_accepted_safe.
Qed.
End contract_machine.

Lemma autocommit_holds (J : tables → Prop) w : saved (db w) = None → J (db_tables (db w)) → holds J w.
Proof. intros Hs HJ. split; [done|]. by rewrite Hs. Qed.

Section register.
Context `{Sodium, Environment}.
Context (config : server_config).

Lemma register_world_safe k J handle w :
  stable k J → phase k = session_phase.authenticated → user_id k = 0 →
  validate_handle handle = true → saved (db w) = None → J (db_tables (db w)) →
  ∀ id w1 created w2 ok w3,
    create_user (announced_pubkey k) handle w = (Some id, w1) →
    find_user_by_id id w1 = (created, w2) →
    replace_profile id empty_profile w2 = (ok, w3) →
    holds J w2 ∧ holds J w3.
Proof.
  intros Hst Hp Hu Hh Hs HJ id w1 created w2 ok w3 E1 E2 E3.
  pose proof (create_user_autocommit (announced_pubkey k) handle w Hs) as H1.
  rewrite E1 in H1. destruct H1 as [Hs1 Hins].
  assert (J (db_tables (db w1))) as HJ1 by (eapply Hst; [exact HJ|]; by eapply may_register).
  assert (db w2 = db w1) as Ew2.
  { pose proof (find_one_quiet (λ t, by_id id (t_users t)) read_user_row w1 Hs1) as Hq.
    unfold find_user_by_id in E2. by rewrite E2 in Hq. }
  split; [rewrite <-Ew2 in HJ1; split; [done|rewrite Ew2, Hs1; done]|].
  unfold replace_profile, run_statement, sbind, prepare in E3.
  destruct (sql_fails _); simpl in E3; [injection E3 as <- <-; split; simpl;
    [by rewrite Ew2|by rewrite Ew2, Hs1]|].
  pose proof (step_done_autocommit (λ t,
    t' ← upsert_profile id (profiles.Row [] [] [] []) t; Some (Written t' None 1)) (tick w2)) as H3.
  simpl in H3. rewrite Ew2 in H3. specialize (H3 Hs1).
  match type of E3 with ?m ?x = _ => change (step_done (λ t,
    t' ← upsert_profile id (profiles.Row [] [] [] []) t; Some (Written t' None 1)) (tick w2)
      = (ok, w3)) in E3 end.
  rewrite E3 in H3. destruct H3 as [Hs3 H3]. split; [|by rewrite Hs3].
  destruct ok; [|by rewrite H3].
  destruct H3 as (o & Eo & -> & _). destruct (upsert_profile _ _ _) as [t'|] eqn:Eu; simplify_eq/=.
  eapply Hst; [exact HJ1|]. eapply (may_start_profile k _ t' id); try done.
  rewrite (insert_user_row _ _ _ _ _ Hins). apply lookup_insert_eq.
  done.
Qed.

Lemma register_insensitive_safe J reader s :
  reader_ok reader → stable (session (connection s)) J → profile_insensitive J →
  preserves (machine_holds J) s (handle_register_request config reader s).2.
Proof.
  intros Hr Hst Hpi. unfold handle_register_request.
  unfold sbind at 1, get_session, sgets. set (k := session (connection s)) in *. clearbody k.
  destruct (_ || _) eqn:Eg; [apply send_status_error_safe|].
  apply orb_false_iff in Eg as [Hp%negb_false_iff%bool_decide_eq_true Hu%negb_false_iff%Z.eqb_eq].
  destruct (registration_open config); simpl; [|apply send_status_error_safe].
  revert s. refine (with_request_safe _ _ _ _ _); [assumption|intros request _].
  destruct (validate_handle _) eqn:Hh; simpl; [|apply send_status_error_safe].
  apply keeps_bind; [apply _| |intros created_id].
  - apply on_world_safe. unfold create_user. keeps_auto. permit may_register.
  - apply or_error_safe. intros id _. apply keeps_bind; [apply _| |intros created].
    + apply on_world_safe, find_one_safe.
    + apply or_error_safe. intros user _. apply keeps_bind; [apply _| |intros _; apply send_accepted_safe].
      apply on_world_safe, run_statement_safe. intros t o Ht E. simpl in E.
      destruct (upsert_profile _ _ _) as [t'|] eqn:Eu; simplify_eq/=. by eapply Hpi.
Qed.

Lemma register_safe J reader s :
  reader_ok reader → stable (session (connection s)) J → autocommit (shared s) →
  preserves (machine_holds J) s (handle_register_request config reader s).2.
Proof.
  intros Hr Hst Hauto [HJ _]. unfold handle_register_request.
  unfold sbind at 1, get_session, sgets. set (k := session (connection s)) in *.
  destruct (_ || _) eqn:Eg.
  { by apply send_status_error_safe, autocommit_holds. }
  apply orb_false_iff in Eg as [Hp%negb_false_iff%bool_decide_eq_true Hu%negb_false_iff%Z.eqb_eq].
  destruct (registration_open config); simpl;
    [|by apply send_status_error_safe, autocommit_holds].
  unfold with_request. destruct (read_from reader) as [[request|] r'];
    [|by apply autocommit_holds].
  simpl. destruct (validate_handle _) eqn:Hh; simpl;
    [|by apply send_status_error_safe, autocommit_holds].
  unfold sbind at 1, on_world at 1, zoom.
  pose proof (create_user_autocommit (announced_pubkey k) (register_request.handle request)
    (shared s) Hauto) as H1.
  destruct (create_user _ _ _) as [[id|] w1] eqn:E1; simpl;
    [|destruct H1 as [Hs1 Ew]; apply send_status_error_safe, autocommit_holds; simpl; by rewrite ?Ew].
  unfold sbind at 1, on_world at 1, zoom. simpl.
  destruct (find_user_by_id id w1) as [created w2] eqn:E2.
  destruct (replace_profile id empty_profile w2) as [ok w3] eqn:E3.
  destruct (register_world_safe k J _ _ Hst Hp Hu Hh Hauto HJ _ _ _ _ _ _ E1 E2 E3) as [H2 H3].
  destruct created as [created|]; simpl; [|by apply send_status_error_safe].
  unfold sbind at 1, on_world at 1, zoom. simpl. rewrite E3. by apply send_accepted_safe.
Qed.
End register.

(** ** Every request keeps to the contract *)

#[export] Hint Resolve replace_prekey_safe create_forum_safe create_post_safe create_comment_safe
  delete_own_post_safe delete_own_comment_safe replace_profile_safe replace_friendship_safe
  replace_slots_safe insert_envelope_safe delete_acknowledged_safe record_report_safe
  send_accepted_safe : keeps.

Section requests.
Context `{Sodium, Environment}.
Context (config : server_config).

Lemma resolve_safe J index slots : safe J (resolve_top8_entries index slots).
Proof.
  revert index. induction slots as [|key slots IH]; intros index; simpl; [exact (keeps_ret _ _)|].
  destruct (is_empty_slot key); [apply IH|].
  intros w Hw. unfold fbind.
  pose proof (find_one_safe J (λ t, rows_where (λ r, bool_decide (users.pubkey r = key)) (t_users t))
    read_user_row w Hw) as H1. unfold find_by_pubkey.
  destruct (find_one _ _ w) as [[target|] w1]; simpl in *; [|done].
  pose proof (IH (index + 1) w1 H1) as H2.
  by destruct (resolve_top8_entries (index + 1) slots w1) as [[entries|] w2].
Qed.

Lemma checkpoint_safe J : safe_handler J (checkpoint_after_deletion config).
Proof.
  unfold checkpoint_after_deletion. keeps_auto. by apply on_world_safe, execute_script_safe.
Qed.

(** A handler of registered sessions, whose body is safe for them. *)
Ltac guarded :=
  intros reader s Hr Hst; apply registered_safe; intros Hreg;
  let k := fresh "k" in set (k := session (connection s)) in *; clearbody k;
  lazymatch goal with |- preserves ?P s ?r => revert s; change (keeps (preserves P) r) || idtac end.

Definition request_safe (handler : byte_reader → state machine bool) : Prop :=
  ∀ J reader s, reader_ok reader → stable (session (connection s)) J →
    autocommit (shared s) ∨ profile_insensitive J →
    preserves (machine_holds J) s (handler reader s).2.

Lemma guarded_safe (body : byte_reader → session_state → state machine bool) :
  (∀ J k reader, reader_ok reader → stable k J → is_registered k = true →
     safe_handler J (body reader k)) →
  request_safe (λ reader, registered (body reader)).
Proof.
  intros Hb J reader s Hr Hst _. apply registered_safe. intros Hreg. by apply Hb.
Qed.

Lemma any_session_safe (handler : byte_reader → state machine bool) :
  (∀ J reader, reader_ok reader → safe_handler J (handler reader)) → request_safe handler.
Proof. intros Hh J reader s Hr _ _. by apply Hh. Qed.
End requests.

#[export] Hint Resolve resolve_safe checkpoint_safe : keeps.

Section routes.
Context `{Sodium, Environment}.
Context (config : server_config).

Lemma or_error_step J {A} (found : option A) code (handler : A → state machine bool) :
  (∀ a, safe_handler J (handler a)) → safe_handler J (or_error found code handler).
Proof. intros Hh. apply or_error_safe. intros a _. apply Hh. Qed.

(** What a handler has checked before it writes. *)
Ltac unfold_requests :=
  repeat match goal with
  | H : negb _ = false |- _ => apply negb_false_iff in H
  | H : _ || _ = false |- _ => apply orb_false_iff in H as [? ?]
  | H : bool_decide _ = false |- _ => apply bool_decide_eq_false in H
  | H : @well_formed forum_create_request.t _ _ |- _ => destruct H as (? & ? & ?)
  | H : @well_formed post_create_request.t _ _ |- _ => destruct H as (? & ? & ?)
  | H : @well_formed comment_create_request.t _ _ |- _ => destruct H as (? & ? & ?)
  | H : @well_formed dm_send_request.t _ _ |- _ => destruct H as (? & ?)
  | H : @well_formed report_post_request.t _ _ |- _ => destruct H as (? & ?)
  | H : @well_formed report_account_request.t _ _ |- _ => destruct H as (? & ?)
  end.

(** The body of a guarded handler, taken apart. *)
Ltac handler_body :=
  apply guarded_safe; intros J k reader Hr Hst Hreg;
  repeat first
    [ progress keeps_auto
    | refine (with_request_safe _ _ _ _ _); [assumption|intros ? ?]
    | refine (or_error_step _ _ _ _ _) ; intros ];
  try (apply on_world_safe; unfold_requests; eauto with keeps).

Lemma prekey_publish_safe : request_safe handle_prekey_publish_request.
Proof. unfold handle_prekey_publish_request. handler_body. Qed.

Lemma prekey_fetch_safe : request_safe handle_prekey_fetch_request.
Proof. unfold handle_prekey_fetch_request, find_bundle_by_pubkey. handler_body. Qed.

Lemma forum_create_safe : request_safe handle_forum_create_request.
Proof. unfold handle_forum_create_request. handler_body. Qed.

Lemma forum_list_safe : request_safe handle_forum_list_request.
Proof. unfold handle_forum_list_request. handler_body. Qed.

Lemma post_create_safe : request_safe handle_post_create_request.
Proof. unfold handle_post_create_request. handler_body. Qed.

Lemma post_list_safe : request_safe handle_post_list_request.
Proof. unfold handle_post_list_request. handler_body. Qed.

Lemma thread_fetch_safe : request_safe handle_thread_fetch_request.
Proof. unfold handle_thread_fetch_request. handler_body. Qed.

Lemma comment_create_safe : request_safe handle_comment_create_request.
Proof. unfold handle_comment_create_request. handler_body. Qed.

Lemma post_delete_safe : request_safe (handle_post_delete_request config).
Proof. unfold handle_post_delete_request. handler_body. Qed.

Lemma comment_delete_safe : request_safe (handle_comment_delete_request config).
Proof. unfold handle_comment_delete_request. handler_body. Qed.

Lemma profile_get_safe : request_safe handle_profile_get_request.
Proof. unfold handle_profile_get_request. handler_body. Qed.

Lemma profile_set_safe : request_safe handle_profile_set_request.
Proof. unfold handle_profile_set_request. handler_body. Qed.

Lemma friend_add_safe : request_safe handle_friend_add_request.
Proof. unfold handle_friend_add_request. handler_body. Qed.

Lemma friend_list_safe : request_safe handle_friend_list_request.
Proof. unfold handle_friend_list_request. handler_body. Qed.

Lemma top8_set_safe : request_safe handle_top8_set_request.
Proof. unfold handle_top8_set_request. handler_body. Qed.

Lemma top8_get_safe : request_safe handle_top8_get_request.
Proof. unfold handle_top8_get_request. handler_body. Qed.

Lemma dm_send_safe : request_safe handle_dm_send_request.
Proof. unfold handle_dm_send_request. handler_body. Qed.

Lemma dm_fetch_safe : request_safe handle_dm_fetch_request.
Proof. unfold handle_dm_fetch_request. handler_body. Qed.

Lemma dm_ack_safe : request_safe handle_dm_ack_request.
Proof. unfold handle_dm_ack_request. handler_body. Qed.

Lemma report_post_safe : request_safe handle_report_post_request.
Proof. unfold handle_report_post_request. handler_body. Qed.

Lemma report_account_safe : request_safe handle_report_account_request.
Proof. unfold handle_report_account_request. handler_body. Qed.

End routes.

(** ** The refinement theorem *)

Section refinement.
Context `{Sodium, Environment}.
Context (config : server_config).

Lemma hello_request_safe : request_safe handle_hello_request.
Proof. apply any_session_safe. intros. by apply hello_safe. Qed.

Lemma auth_request_safe : request_safe handle_auth_response.
Proof. apply any_session_safe. intros. by apply auth_safe. Qed.

Lemma ping_request_safe : request_safe handle_ping_request.
Proof. apply any_session_safe. intros. by apply ping_safe. Qed.

Lemma register_request_safe : request_safe (handle_register_request config).
Proof.
  intros J reader s Hr Hst [Ha|Hi]; [by apply register_safe|by apply register_insensitive_safe].
Qed.

Lemma route_message_safe type : request_safe (route_message config type).
Proof.
  intros J reader s. unfold route_message. destruct type; cbn;
    first [ simple apply hello_request_safe
          | simple apply auth_request_safe
          | simple apply ping_request_safe
          | simple apply register_request_safe
          | simple apply prekey_publish_safe
          | simple apply prekey_fetch_safe
          | simple apply forum_create_safe
          | simple apply forum_list_safe
          | simple apply post_create_safe
          | simple apply post_list_safe
          | simple apply thread_fetch_safe
          | simple apply comment_create_safe
          | simple apply post_delete_safe
          | simple apply comment_delete_safe
          | simple apply profile_get_safe
          | simple apply profile_set_safe
          | simple apply friend_add_safe
          | simple apply friend_list_safe
          | simple apply top8_set_safe
          | simple apply top8_get_safe
          | simple apply dm_send_safe
          | simple apply dm_fetch_safe
          | simple apply dm_ack_safe
          | simple apply report_post_safe
          | simple apply report_account_safe
          | intros _ _ _; apply send_status_error_safe ].
Qed.

(** What a request may leave of the tables [t0]: what is in view, and what a
    rollback would restore, is [t0] after permitted changes. *)
Lemma route_message_refines type reader s :
  reader_ok reader → autocommit (shared s) →
  machine_holds (rtc (permitted (session (connection s))) (db_tables (db (shared s))))
    (route_message config type reader s).2.
Proof.
  intros Hr Hauto. apply route_message_safe; [done| |by left|].
  - intros t t' Ht Hp. by eapply rtc_r.
  - apply autocommit_holds; [done|]. apply rtc_refl.
Qed.
End refinement.
