(* ===== verification/Integrity.v ===== *)
(** The well-formedness of the database ([tables_ok]): every row is within the
    limits of the protocol, refers to rows that exist, and is unique where it
    must be; and the contract of a session preserves it. *)

From stdpp Require Import relations.
From S2P Require Import Prelude.
From S2P Require Import Wire.
From S2P Require Import Framing.
From S2P Require Import TextField.
From S2P Require Import Codec.
From S2P Require Import SessionMessages.
From S2P Require Import ContentMessages.
From S2P Require Import SocialMessages.
From S2P Require Import Sodium.
From S2P Require Import Noise.
From S2P Require Import Config.
From S2P Require Import Connection.
From S2P Require Import Database.
From S2P Require Import Repositories.
From S2P Require Import SocialRepositories.
From S2P Require Import Handlers.
From S2P Require Import Server.
From S2P Require Import Effects.
From S2P Require Import Permissions.

(** ** Well-formed tables *)

Definition known {A} (m : gmap Z A) (id : Z) : Prop := is_Some (m !! id).

Definition seq_ok (seq : Z) : Prop := 0 <= seq < 2 ^ 63.

Definition users_ok (m : gmap Z users.row) (seq : Z) : Prop :=
  seq_ok seq ∧
  map_Forall (λ id r, 1 <= id <= seq ∧ size_of (users.pubkey r) = 32 ∧
    validate_handle (users.handle r) = true) m ∧
  (∀ i j r r', m !! i = Some r → m !! j = Some r' →
     users.pubkey r = users.pubkey r' ∨ nocase (users.handle r) = nocase (users.handle r') → i = j).

Definition prekeys_ok (u : gmap Z users.row) (m : gmap Z prekeys.row) : Prop :=
  map_Forall (λ id r, known u id ∧ size_of (prekeys.prekey r) = 32 ∧
    size_of (prekeys.signature r) = 64) m.

Definition forums_ok (u : gmap Z users.row) (m : gmap Z forums.row) (seq : Z) : Prop :=
  seq_ok seq ∧
  map_Forall (λ id r, 1 <= id <= seq ∧ known u (forums.founder_id r) ∧
    validate_forum_name (forums.name r) = true ∧
    text_ok MAX_FORUM_DESCRIPTION_LENGTH (forums.description r) ∧
    text_ok MAX_THEME_JSON_LENGTH (forums.theme_json r)) m ∧
  (∀ i j r r', m !! i = Some r → m !! j = Some r' → forums.name r = forums.name r' → i = j).

Definition posts_ok (u : gmap Z users.row) (f : gmap Z forums.row) (m : gmap Z posts.row) (seq : Z) : Prop :=
  seq_ok seq ∧
  map_Forall (λ id r, 1 <= id <= seq ∧ known u (posts.author_id r) ∧ known f (posts.forum_id r) ∧
    text_ok MAX_POST_TITLE_LENGTH (posts.title r) ∧ text_ok MAX_POST_BODY_LENGTH (posts.body r)) m.

(** A reply is younger than what it replies to, so threads have no cycle. *)
Definition comments_ok (u : gmap Z users.row) (p : gmap Z posts.row) (m : gmap Z comments.row)
    (seq : Z) : Prop :=
  seq_ok seq ∧
  map_Forall (λ id r, 1 <= id <= seq ∧ known u (comments.author_id r) ∧
    known p (comments.post_id r) ∧ text_ok MAX_COMMENT_BODY_LENGTH (comments.body r) ∧
    match comments.parent_comment_id r with
    | Some parent => known m parent ∧ parent < id
    | None => True
    end) m.

Definition profiles_ok (u : gmap Z users.row) (m : gmap Z profiles.row) : Prop :=
  map_Forall (λ id r, known u id ∧ text_ok MAX_DISPLAY_NAME_LENGTH (profiles.display_name r) ∧
    text_ok MAX_BIO_LENGTH (profiles.bio r) ∧ text_ok MAX_THEME_JSON_LENGTH (profiles.theme_json r) ∧
    text_ok MAX_BLOB_REFERENCE_LENGTH (profiles.banner_ref r)) m.

Definition friends_ok (u : gmap Z users.row) (m : gmap (Z * Z) Z) : Prop :=
  map_Forall (λ k status, known u k.1 ∧ known u k.2 ∧ k.1 ≠ k.2 ∧ 0 <= status <= 2) m.

Definition top8_ok (u : gmap Z users.row) (m : gmap (Z * Z) Z) : Prop :=
  map_Forall (λ k friend, known u k.1 ∧ known u friend ∧ 0 <= k.2 <= 7) m.

Definition dm_ok (u : gmap Z users.row) (m : gmap Z dm_envelopes.row) (seq : Z) : Prop :=
  seq_ok seq ∧
  map_Forall (λ id r, 1 <= id <= seq ∧ known u (dm_envelopes.recipient_id r) ∧
    size_of (dm_envelopes.sender_pubkey r) = 32 ∧ dm_envelopes.ciphertext r ≠ [] ∧
    blob_ok MAX_DM_CIPHERTEXT_SIZE (dm_envelopes.ciphertext r)) m.

Definition reports_ok (u : gmap Z users.row) (p : gmap Z posts.row) (m : gmap Z reports.row)
    (seq : Z) : Prop :=
  seq_ok seq ∧
  map_Forall (λ id r, 1 <= id <= seq ∧ known u (reports.reporter_id r) ∧
    text_ok MAX_REPORT_REASON_LENGTH (reports.reason r) ∧
    match reports.post_id r with Some post => known p post | None => True end ∧
    match reports.target_pubkey r with Some key => size_of key = 32 | None => True end) m.

Record tables_ok (t : tables) : Prop := {
  ok_users : users_ok (t_users t) (users_seq (t_seq t));
  ok_prekeys : prekeys_ok (t_users t) (t_prekeys t);
  ok_forums : forums_ok (t_users t) (t_forums t) (forums_seq (t_seq t));
  ok_posts : posts_ok (t_users t) (t_forums t) (t_posts t) (posts_seq (t_seq t));
  ok_comments : comments_ok (t_users t) (t_posts t) (t_comments t) (comments_seq (t_seq t));
  ok_profiles : profiles_ok (t_users t) (t_profiles t);
  ok_friends : friends_ok (t_users t) (t_friends t);
  ok_top8 : top8_ok (t_users t) (t_top8 t);
  ok_dm : dm_ok (t_users t) (t_dm t) (dm_seq (t_seq t));
  ok_reports : reports_ok (t_users t) (t_posts t) (t_reports t) (reports_seq (t_seq t));
}.

Lemma empty_tables_ok : tables_ok empty_tables.
Proof.
  assert (seq_ok 0) by (unfold seq_ok; lia).
  split; simpl; unfold users_ok, forums_ok, posts_ok, comments_ok, dm_ok, reports_ok;
    split_and?; try done; try apply map_Forall_empty;
    intros ? ? ? ? Hi; by rewrite lookup_empty in Hi.
Qed.

(** ** Growing a referenced table *)

Lemma known_insert {A} (m : gmap Z A) id r j : known m j → known (<[id := r]> m) j.
Proof. intros Hj. unfold known. rewrite lookup_insert. by case_decide. Qed.

Lemma known_new {A} (m : gmap Z A) id r : known (<[id := r]> m) id.
Proof. unfold known. by rewrite lookup_insert_eq. Qed.

#[export] Hint Resolve known_insert known_new : core.

(** A map all of whose rows satisfy a weaker predicate. *)
Lemma map_Forall_weaken {K A} `{Countable K} (P Q : K → A → Prop) (m : gmap K A) :
  (∀ k a, P k a → Q k a) → map_Forall P m → map_Forall Q m.
Proof. intros HPQ HP k a Hk. by apply HPQ, HP. Qed.

(** An AUTOINCREMENT value is a new key. *)
Lemma next_id_ok seq id : seq_ok seq → next_id seq = Some id → seq_ok id ∧ id = seq + 1.
Proof.
  unfold seq_ok, next_id. intros Hs. destruct (Z.ltb_spec seq (2 ^ 63 - 1)); [|done].
  intros [= <-]. lia.
Qed.

Lemma fresh_key {A} (P : Z → A → Prop) (m : gmap Z A) seq :
  (∀ k a, P k a → 1 <= k <= seq) → map_Forall P m → m !! (seq + 1) = None.
Proof.
  intros Hb HP. destruct (m !! (seq + 1)) as [a|] eqn:E; [|done]. apply HP, Hb in E. lia.
Qed.

Lemma exists_row_false {A} (P : A → bool) (m : gmap Z A) id r :
  exists_row P m = false → m !! id = Some r → P r = false.
Proof.
  unfold exists_row. intros He Hid. destruct (P r) eqn:E; [|done].
  enough (existsb (λ kv : Z * A, P kv.2) (map_to_list m) = true) by congruence.
  apply existsb_exists. exists (id, r). split; [|done].
  by apply list_elem_of_In, elem_of_map_to_list.
Qed.

Lemma has_user_known id t : has_user id t = true → known (t_users t) id.
Proof. unfold has_user. by intros H%bool_decide_eq_true. Qed.

(** ** Each permitted change preserves well-formedness *)

Section growth.
Context (u : gmap Z users.row) (uid : Z) (ur : users.row).

Lemma prekeys_grow m : prekeys_ok u m → prekeys_ok (<[uid := ur]> u) m.
Proof. apply map_Forall_weaken. intros ? ? (? & ? & ?). auto. Qed.

Lemma forums_grow m seq : forums_ok u m seq → forums_ok (<[uid := ur]> u) m seq.
Proof.
  intros (Hs & Hm & Hu). split_and!; [done| |done].
  eapply map_Forall_weaken; [|exact Hm]. intros ? ? (? & ? & ? & ? & ?). auto.
Qed.

Lemma posts_grow f m seq : posts_ok u f m seq → posts_ok (<[uid := ur]> u) f m seq.
Proof.
  intros (Hs & Hm). split; [done|]. eapply map_Forall_weaken; [|exact Hm].
  intros ? ? (? & ? & ? & ? & ?). auto 6.
Qed.

Lemma comments_grow p m seq : comments_ok u p m seq → comments_ok (<[uid := ur]> u) p m seq.
Proof.
  intros (Hs & Hm). split; [done|]. eapply map_Forall_weaken; [|exact Hm].
  intros ? ? (? & ? & ? & ? & ?). auto 6.
Qed.

Lemma profiles_grow m : profiles_ok u m → profiles_ok (<[uid := ur]> u) m.
Proof. apply map_Forall_weaken. intros ? ? (? & ? & ? & ? & ?). auto 6. Qed.

Lemma friends_grow m : friends_ok u m → friends_ok (<[uid := ur]> u) m.
Proof. apply map_Forall_weaken. intros ? ? (? & ? & ? & ?). auto. Qed.

Lemma top8_grow m : top8_ok u m → top8_ok (<[uid := ur]> u) m.
Proof. apply map_Forall_weaken. intros ? ? (? & ? & ?). auto. Qed.

Lemma dm_grow m seq : dm_ok u m seq → dm_ok (<[uid := ur]> u) m seq.
Proof.
  intros (Hs & Hm). split; [done|]. eapply map_Forall_weaken; [|exact Hm].
  intros ? ? (? & ? & ? & ? & ?). auto 6.
Qed.

Lemma reports_grow p m seq : reports_ok u p m seq → reports_ok (<[uid := ur]> u) p m seq.
Proof.
  intros (Hs & Hm). split; [done|]. eapply map_Forall_weaken; [|exact Hm].
  intros ? ? (? & ? & ? & ? & ?). auto 6.
Qed.
End growth.

Lemma posts_grow_forums u f fid fr m seq : posts_ok u f m seq → posts_ok u (<[fid := fr]> f) m seq.
Proof.
  intros (Hs & Hm). split; [done|]. eapply map_Forall_weaken; [|exact Hm].
  intros ? ? (? & ? & ? & ? & ?). auto 6.
Qed.

Lemma comments_grow_posts u p pid pr m seq : comments_ok u p m seq → comments_ok u (<[pid := pr]> p) m seq.
Proof.
  intros (Hs & Hm). split; [done|]. eapply map_Forall_weaken; [|exact Hm].
  intros ? ? (? & ? & ? & ? & ?). auto 6.
Qed.

Lemma reports_grow_posts u p pid pr m seq : reports_ok u p m seq → reports_ok u (<[pid := pr]> p) m seq.
Proof.
  intros (Hs & Hm). split; [done|]. eapply map_Forall_weaken; [|exact Hm].
  intros ? r (? & ? & ? & Hp & ?). split_and!; try done; try lia. destruct (reports.post_id r); auto.
Qed.

Lemma users_insert m seq id key h :
  users_ok m seq → next_id seq = Some id → size_of key = 32 → validate_handle h = true →
  exists_row (λ r, bool_decide (users.pubkey r = key)
                   || bool_decide (nocase (users.handle r) = nocase h)) m = false →
  users_ok (<[id := users.Row key h false]> m) id.
Proof.
  intros (Hs & Hm & Hu) Hid Hk Hh Hex. destruct (next_id_ok _ _ Hs Hid) as [Hs' ->].
  assert (∀ i r, m !! i = Some r → users.pubkey r ≠ key ∧ nocase (users.handle r) ≠ nocase h) as Hnew.
  { intros i r Hi. pose proof (exists_row_false _ _ _ _ Hex Hi) as E.
    apply orb_false_iff in E as [?%bool_decide_eq_false ?%bool_decide_eq_false]. done. }
  unfold seq_ok in *. split_and!; [done| |].
  - apply map_Forall_insert_2; [simpl; split_and!; try done; lia|].
    eapply map_Forall_weaken; [|exact Hm]. simpl. intros ? ? (? & ? & ?). split_and!; try done; lia.
  - intros i j r r' [[<- <-]|[? Hi]]%lookup_insert_Some [[<- <-]|[? Hj]]%lookup_insert_Some; simpl;
      [done| | |by apply Hu].
    + intros [E|E]; by destruct (Hnew _ _ Hj).
    + intros [E|E]; by destruct (Hnew _ _ Hi).
Qed.

Lemma forums_insert u m seq id r :
  forums_ok u m seq → next_id seq = Some id → known u (forums.founder_id r) →
  validate_forum_name (forums.name r) = true →
  text_ok MAX_FORUM_DESCRIPTION_LENGTH (forums.description r) →
  text_ok MAX_THEME_JSON_LENGTH (forums.theme_json r) →
  exists_row (λ r', bool_decide (forums.name r' = forums.name r)) m = false →
  forums_ok u (<[id := r]> m) id.
Proof.
  intros (Hs & Hm & Hu) Hid ? ? ? ? Hex. destruct (next_id_ok _ _ Hs Hid) as [Hs' ->].
  assert (∀ i r', m !! i = Some r' → forums.name r' ≠ forums.name r) as Hnew.
  { intros i r' Hi. by apply (exists_row_false _ _ _ _ Hex), bool_decide_eq_false in Hi. }
  unfold seq_ok in *. split_and!; [done| |].
  - apply map_Forall_insert_2; [split_and!; try done; lia|].
    eapply map_Forall_weaken; [|exact Hm]. simpl. intros ? ? (? & ? & ? & ? & ?).
    split_and!; try done; lia.
  - intros i j r1 r2 [[<- <-]|[? Hi]]%lookup_insert_Some [[<- <-]|[? Hj]]%lookup_insert_Some;
      [done| | |by apply Hu].
    + intros E. by destruct (Hnew _ _ Hj).
    + intros E. by destruct (Hnew _ _ Hi).
Qed.

Lemma posts_insert u f m seq id r :
  posts_ok u f m seq → next_id seq = Some id → known u (posts.author_id r) →
  known f (posts.forum_id r) → text_ok MAX_POST_TITLE_LENGTH (posts.title r) →
  text_ok MAX_POST_BODY_LENGTH (posts.body r) → posts_ok u f (<[id := r]> m) id.
Proof.
  intros (Hs & Hm) Hid ? ? ? ?. destruct (next_id_ok _ _ Hs Hid) as [Hs' ->].
  unfold seq_ok in *. split; [done|]. apply map_Forall_insert_2; [split_and!; try done; lia|].
  eapply map_Forall_weaken; [|exact Hm]. simpl. intros ? ? (? & ? & ? & ? & ?).
  split_and!; try done; lia.
Qed.

Lemma comments_insert u p m seq id r :
  comments_ok u p m seq → next_id seq = Some id → known u (comments.author_id r) →
  known p (comments.post_id r) → text_ok MAX_COMMENT_BODY_LENGTH (comments.body r) →
  match comments.parent_comment_id r with Some parent => known m parent | None => True end →
  comments_ok u p (<[id := r]> m) id.
Proof.
  intros (Hs & Hm) Hid ? ? ? Hp. destruct (next_id_ok _ _ Hs Hid) as [Hs' ->].
  unfold seq_ok in *. split; [done|]. apply map_Forall_insert_2.
  - split_and!; try done; try lia. destruct (comments.parent_comment_id r) as [parent|]; [|done].
    split; [by apply known_insert|]. destruct Hp as [r' Hr']. apply Hm in Hr'. lia.
  - eapply map_Forall_weaken; [|exact Hm]. simpl. intros i r' (? & ? & ? & ? & Hpar).
    split_and!; try done; try lia. destruct (comments.parent_comment_id r'); [|done].
    destruct Hpar. split; [by apply known_insert|lia].
Qed.

Lemma dm_insert u m seq id r :
  dm_ok u m seq → next_id seq = Some id → known u (dm_envelopes.recipient_id r) →
  size_of (dm_envelopes.sender_pubkey r) = 32 → dm_envelopes.ciphertext r ≠ [] →
  blob_ok MAX_DM_CIPHERTEXT_SIZE (dm_envelopes.ciphertext r) → dm_ok u (<[id := r]> m) id.
Proof.
  intros (Hs & Hm) Hid ? ? ? ?. destruct (next_id_ok _ _ Hs Hid) as [Hs' ->].
  unfold seq_ok in *. split; [done|]. apply map_Forall_insert_2; [split_and!; try done; lia|].
  eapply map_Forall_weaken; [|exact Hm]. simpl. intros ? ? (? & ? & ? & ? & ?).
  split_and!; try done; lia.
Qed.

Lemma reports_insert u p m seq id r :
  reports_ok u p m seq → next_id seq = Some id → known u (reports.reporter_id r) →
  text_ok MAX_REPORT_REASON_LENGTH (reports.reason r) →
  match reports.post_id r with Some post => known p post | None => True end →
  match reports.target_pubkey r with Some key => size_of key = 32 | None => True end →
  reports_ok u p (<[id := r]> m) id.
Proof.
  intros (Hs & Hm) Hid ? ? ? ?. destruct (next_id_ok _ _ Hs Hid) as [Hs' ->].
  unfold seq_ok in *. split; [done|]. apply map_Forall_insert_2; [split_and!; try done; lia|].
  eapply map_Forall_weaken; [|exact Hm]. simpl. intros ? ? (? & ? & ? & ? & ?).
  split_and!; try done; lia.
Qed.

Lemma text_ok_nil m : 0 <= m → text_ok m [].
Proof. intros Hm. split; [split; [done|by vm_compute; split]|done]. Qed.

(** The checks of an insertion that passed them. *)
Ltac insertion_checks :=
  repeat match goal with
  | H : (if ?b then None else _) = Some _ |- _ => destruct b eqn:?; [discriminate H|]
  | H : match next_id ?s with _ => _ end = Some _ |- _ =>
      destruct (next_id s) eqn:?; [|discriminate H]
  | H : Some _ = Some _ |- _ => injection H as; subst
  | H : _ || _ = false |- _ => apply orb_false_iff in H as [? ?]
  | H : negb _ = false |- _ => apply negb_false_iff in H
  | H : has_user _ _ = true |- _ => apply has_user_known in H
  | H : (_ =? _) = true |- _ => apply Z.eqb_eq in H
  | H : (_ =? _) = false |- _ => apply Z.eqb_neq in H
  | H : (_ <=? _) && _ = true |- _ => apply andb_true_iff in H as [?%Z.leb_le ?%Z.leb_le]
  | H : bool_decide (is_Some _) = true |- _ => apply bool_decide_eq_true in H
  | H : match ?o with Some _ => negb _ | None => false end = false |- _ =>
      destruct o eqn:?; [apply negb_false_iff in H|clear H]
  end.

Section stability.
Context (k : session_state).

Lemma insert_user_ok t t' h id : tables_ok t → validate_handle h = true →
  insert_user (announced_pubkey k) h t = Some (t', id) → tables_ok t'.
Proof.
  intros [Hu Hpk Hf Hp Hc Hpr Hfr Ht8 Hdm Hr] Hh E. unfold insert_user in E. insertion_checks.
  split; simpl; auto using prekeys_grow, forums_grow, posts_grow, comments_grow, profiles_grow,
    friends_grow, top8_grow, dm_grow, reports_grow.
  by eapply users_insert.
Qed.

Lemma upsert_profile_ok t t' id r : tables_ok t →
  text_ok MAX_DISPLAY_NAME_LENGTH (profiles.display_name r) →
  text_ok MAX_BIO_LENGTH (profiles.bio r) → text_ok MAX_THEME_JSON_LENGTH (profiles.theme_json r) →
  text_ok MAX_BLOB_REFERENCE_LENGTH (profiles.banner_ref r) →
  upsert_profile id r t = Some t' → tables_ok t'.
Proof.
  intros [] ? ? ? ? E. unfold upsert_profile in E. insertion_checks. split; try done. simpl.
  by apply map_Forall_insert_2.
Qed.

Lemma upsert_prekey_ok t t' id r : tables_ok t → upsert_prekey id r t = Some t' → tables_ok t'.
Proof.
  intros [] E. unfold upsert_prekey in E. insertion_checks. split; try done. simpl.
  by apply map_Forall_insert_2.
Qed.

Lemma insert_post_ok t t' r id : tables_ok t →
  text_ok MAX_POST_TITLE_LENGTH (posts.title r) → text_ok MAX_POST_BODY_LENGTH (posts.body r) →
  insert_post r t = Some (t', id) → tables_ok t'.
Proof.
  intros [] ? ? E. unfold insert_post in E. insertion_checks.
  split; simpl; auto using comments_grow_posts, reports_grow_posts. by eapply posts_insert.
Qed.

Lemma insert_comment_ok t t' r id : tables_ok t →
  text_ok MAX_COMMENT_BODY_LENGTH (comments.body r) →
  insert_comment r t = Some (t', id) → tables_ok t'.
Proof.
  intros [] ? E. unfold insert_comment in E. insertion_checks; split; simpl; auto;
    eapply comments_insert; try done;
    match goal with H : comments.parent_comment_id r = _ |- _ => rewrite H end; done.
Qed.

Lemma insert_forum_ok t t' r id : tables_ok t → validate_forum_name (forums.name r) = true →
  text_ok MAX_FORUM_DESCRIPTION_LENGTH (forums.description r) →
  text_ok MAX_THEME_JSON_LENGTH (forums.theme_json r) →
  insert_forum r t = Some (t', id) → tables_ok t'.
Proof.
  intros [] ? ? ? E. unfold insert_forum in E. insertion_checks.
  split; simpl; auto using posts_grow_forums. by eapply forums_insert.
Qed.

Lemma insert_dm_ok t t' r id : tables_ok t → dm_envelopes.ciphertext r ≠ [] →
  blob_ok MAX_DM_CIPHERTEXT_SIZE (dm_envelopes.ciphertext r) →
  insert_dm r t = Some (t', id) → tables_ok t'.
Proof.
  intros [] ? ? E. unfold insert_dm in E. insertion_checks.
  split; simpl; auto. by eapply dm_insert.
Qed.

Lemma insert_top8_ok t t' user slot friend : tables_ok t →
  insert_top8 user slot friend t = Some t' → tables_ok t'.
Proof.
  intros [] E. unfold insert_top8 in E. insertion_checks. split; try done. simpl.
  by apply map_Forall_insert_2.
Qed.

Lemma insert_motd_ok t t' r id : tables_ok t → insert_motd r t = Some (t', id) → tables_ok t'.
Proof. intros [] E. unfold insert_motd in E. insertion_checks. by split. Qed.

Lemma insert_report_ok t t' r id : tables_ok t →
  text_ok MAX_REPORT_REASON_LENGTH (reports.reason r) →
  insert_report r t = Some (t', id) → tables_ok t'.
Proof.
  intros [] ? E. unfold insert_report in E. insertion_checks; split; simpl; auto;
    eapply reports_insert; try done;
    repeat match goal with H : reports.post_id r = _ |- _ => rewrite H; clear H
           | H : reports.target_pubkey r = _ |- _ => rewrite H; clear H end; try done;
    by apply bool_decide_eq_true || by apply Z.eqb_eq.
Qed.

(** The contract preserves well-formed tables. *)
Lemma tables_ok_stable : stable k tables_ok.
Proof.
  intros t t' Hok Hp. destruct Hp.
  - by eapply insert_user_ok.
  - apply (upsert_profile_ok t t' id (profiles.Row [] [] [] [])); simpl; try done; by apply text_ok_nil.
  - by eapply upsert_prekey_ok.
  - by eapply insert_forum_ok.
  - by eapply insert_post_ok.
  - by eapply insert_comment_ok.
  - destruct Hok as [? ? ? [Hs Hp] ? ? ? ? ? ?]. split; simpl; auto using comments_grow_posts, reports_grow_posts.
    split; [done|]. pose proof (Hp _ _ H0) as (? & ? & ? & ? & ?).
    apply map_Forall_insert_2; [|done]. simpl. split_and!; try done; try lia; by apply text_ok_nil.
  - destruct Hok as [? ? ? ? [Hs Hc] ? ? ? ? ?]. split; simpl; auto.
    split; [done|]. pose proof (Hc _ _ H0) as (? & ? & ? & ? & ?).
    apply map_Forall_insert_2.
    + simpl. split_and!; try done; try lia; try by apply text_ok_nil.
      destruct (comments.parent_comment_id c); [|done]. intuition auto using known_insert.
    + eapply map_Forall_weaken; [|exact Hc]. simpl. intros i r' (? & ? & ? & ? & Hpar).
      split_and!; try done; try lia. destruct (comments.parent_comment_id r'); [|done].
      intuition auto using known_insert.
  - by eapply upsert_profile_ok.
  - unfold upsert_friend in H0. destruct Hok. insertion_checks. split; try done. simpl.
    by apply map_Forall_insert_2.
  - destruct Hok as [? ? ? ? ? ? ? Ht8 ? ?]. split; try done. simpl.
    intros kk v [Hv _]%map_lookup_filter_Some. by apply Ht8.
  - by eapply insert_top8_ok.
  - refine (insert_dm_ok _ _ _ _ Hok _ _ H2); done.
  - destruct Hok as [? ? ? ? ? ? ? ? [Hs Hd] ?]. split; try done. simpl. split; [done|].
    by apply map_Forall_delete.
  - by eapply insert_report_ok.
Qed.
End stability.
