(* ===== verification/Admin.v ===== *)
(** The administration of a running server (server/admin): the command line
    and its commands, the answers they print, and the one-command connections
    of the admin socket. *)

From stdpp Require Import relations.
From S2P Require Import Prelude.
From S2P Require Import TextTools.
From S2P Require Import Wire.
From S2P Require Import TextField.
From S2P Require Import Codec.
From S2P Require Import SessionMessages.
From S2P Require Import ContentMessages.
From S2P Require Import SocialMessages.
From S2P Require Import Hex.
From S2P Require Import Sodium.
From S2P Require Import Noise.
From S2P Require Import Config.
From S2P Require Import Connection.
From S2P Require Import Database.
From S2P Require Import Repositories.
From S2P Require Import SocialRepositories.
From S2P Require Import Effects.
From S2P Require Import Integrity.

(** ** admin_command.cpp *)

Definition MAX_COMMAND_TOKENS : Z := 16.

Record admin_command := AdminCommand { verb : bytes; arguments : list bytes }.

Definition is_blank (character : byte) : bool :=
  (byte_val character =? chr " ") || (byte_val character =? 9) || (byte_val character =? 13).

Definition is_quote (character : byte) : bool := byte_val character =? 34.

(** [take_token] after an opening quote: the rest of the word and of the line,
    unless the quote is never closed. *)
Fixpoint take_quoted (line : bytes) : option (bytes * bytes) :=
  match line with
  | [] => None
  | character :: line' =>
      if is_quote character then Some ([], line')
      else '(token, rest) ← take_quoted line'; Some (character :: token, rest)
  end.

(** [take_token] of a bare word. *)
Fixpoint take_bare (line : bytes) : bytes * bytes :=
  match line with
  | [] => ([], [])
  | character :: line' =>
      if is_blank character then ([], line)
      else let '(token, rest) := take_bare line' in (character :: token, rest)
  end.

Definition take_token (line : bytes) : option (bytes * bytes) :=
  match line with
  | character :: line' => if is_quote character then take_quoted line' else Some (take_bare line)
  | [] => None
  end.

(** The loop over the line; every round takes a character at least, so a fuel
    of the line's length is never exhausted. *)
Fixpoint split_tokens (fuel : nat) (line : bytes) (tokens : list bytes) : option (list bytes) :=
  match line with
  | [] => Some tokens
  | character :: line' =>
      match fuel with
      | O => None
      | S fuel' =>
          if is_blank character then split_tokens fuel' line' tokens
          else if MAX_COMMAND_TOKENS <=? size_of tokens then None
          else
            '(token, rest) ← take_token line;
            split_tokens fuel' rest (tokens ++ [token])
      end
  end.

Definition parse_admin_command (line : bytes) : option admin_command :=
  match split_tokens (length line) line [] with
  | Some (verb :: arguments) => Some (AdminCommand verb arguments)
  | _ => None
  end.

(** ** admin_text_format.cpp *)

(** A text between double quotes. *)
Definition quoted (text : bytes) : bytes := byte_of 34 :: text ++ [byte_of 34].

Definition format_duration (seconds : Z) : bytes :=
  let days := seconds / 86400 in
  let hours := (seconds mod 86400) / 3600 in
  let minutes := (seconds mod 3600) / 60 in
  let remainder := seconds mod 60 in
  (if 0 <? days then decimal days ++ lit "j " else []) ++
  (if (0 <? days) || (0 <? hours) then decimal hours ++ lit "h " else []) ++
  (if (0 <? days) || (0 <? hours) || (0 <? minutes) then decimal minutes ++ lit "m " else []) ++
  decimal remainder ++ lit "s".

Definition pad_right (text : bytes) (width : nat) : bytes :=
  text ++ replicate (width - length text) (byte_of (chr " ")) ++ [byte_of (chr " ")].

Section admin.
Context `{Environment}.
Context (config : server_config).

Definition log_action (message : bytes) : state world unit :=
  write_entry (logging config) log_level.info message.

(** ** admin_ban_command.cpp *)

Definition decode_pubkey (text : bytes) : option bytes :=
  decoded ← decode_hex text;
  if size_of decoded =? PUBLIC_KEY_SIZE then Some decoded else None.

Definition run_ban_command (command : admin_command) (banned : bool) : state world bytes :=
  match arguments command with
  | [] => sret (lit "usage : " ++ (if banned then lit "ban" else lit "unban")
                ++ lit " <cle_publique_hex>" ++ newline)
  | argument :: _ =>
      match decode_pubkey argument with
      | None => sret (lit "cle publique invalide : 64 caracteres hexadecimaux attendus" ++ newline)
      | Some pubkey =>
          let* target := find_by_pubkey pubkey in
          match target with
          | None => sret (lit "aucun compte pour cette cle" ++ newline)
          | Some target =>
              let* written := set_banned (Repositories.id target) banned in
              if negb written then sret (lit "echec : ecriture en base impossible" ++ newline)
              else
                do* log_action ((if banned then lit "compte banni" else lit "compte reintegre")
                                ++ lit " par l'administration") in
                sret (lit "@" ++ Repositories.handle target
                      ++ (if banned then lit " banni" else lit " reintegre") ++ newline)
          end
      end
  end.

(** ** admin_motd_command.cpp *)

Definition show_motd : state world bytes :=
  let* active := find_active_motd in
  match active with
  | None => sret (lit "aucune annonce active" ++ newline)
  | Some active => sret (lit "revision " ++ decimal (motd_push.revision active) ++ newline
                         ++ motd_push.body active ++ newline)
  end.

Definition set_motd (body : bytes) : state world bytes :=
  if MAX_MOTD_LENGTH <? size_of body then
    sret (lit "refus : annonce trop longue (max " ++ decimal MAX_MOTD_LENGTH ++ lit " octets)" ++ newline)
  else if negb (validate_text_field body) then
    sret (lit "refus : l'annonce doit etre de l'UTF-8 valide, sans caracteres de controle" ++ newline)
  else
    let* published := publish_motd body in
    if negb published then sret (lit "echec : ecriture en base impossible" ++ newline)
    else
      do* log_action (lit "MOTD modifie par l'administration") in
      sret (lit "annonce publiee, active des la prochaine connexion" ++ newline).

Definition clear_motd : state world bytes :=
  let* cleared := clear_active_motd in
  if negb cleared then sret (lit "echec : ecriture en base impossible" ++ newline)
  else
    do* log_action (lit "MOTD desactive par l'administration") in
    sret (lit "annonce desactivee" ++ newline).

Definition run_motd_command (command : admin_command) : state world bytes :=
  match arguments command with
  | [] => show_motd
  | action :: rest =>
      if bool_decide (action = lit "show") then show_motd
      else if bool_decide (action = lit "clear") then clear_motd
      else if bool_decide (action = lit "set") then
        match rest with
        | [] => sret (lit "usage : motd set " ++ quoted (lit "texte de l'annonce") ++ newline)
        | body :: _ => set_motd body
        end
      else sret (lit "usage : motd [show | set " ++ quoted (lit "texte") ++ lit " | clear]" ++ newline)
  end.

(** ** admin_reports_command.cpp *)

Definition REPORTS_LIST_LIMIT : Z := 200.

Definition report_line (row : report_row) : bytes :=
  let target := if bool_decide (report_kind row = lit "post") then decimal (report_post_id row)
                else take 16 (encode_hex (report_target row)) in
  pad_right (decimal (report_id row)) 6 ++ pad_right (report_kind row) 10 ++ pad_right target 20 ++
  pad_right (take 28 (report_reason row)) 30 ++ lit "#" ++ decimal (report_reporter row) ++ newline.

Definition show_reports : state world bytes :=
  let* rows := list_reports REPORTS_LIST_LIMIT in
  match rows with
  | None => sret (lit "echec : lecture des signalements impossible" ++ newline)
  | Some [] => sret (lit "(aucun signalement)" ++ newline)
  | Some rows =>
      sret (pad_right (lit "ID") 6 ++ pad_right (lit "TYPE") 10 ++ pad_right (lit "CIBLE") 20 ++
            pad_right (lit "MOTIF") 30 ++ lit "PAR" ++ newline ++ concat (map report_line rows))
  end.

Definition parse_report_id (text : bytes) : option Z := from_chars 64 text.

Definition clear_reported (argument : bytes) : state world bytes :=
  match parse_report_id argument with
  | None => sret (lit "usage : reports clear <id>" ++ newline)
  | Some id =>
      let* cleared := clear_report id in
      if negb cleared then sret (lit "echec : signalement introuvable ou deja classe" ++ newline)
      else
        do* log_action (lit "signalement classe par l'administration") in
        sret (lit "signalement " ++ argument ++ lit " classe" ++ newline)
  end.

Definition delete_reported_post (argument : bytes) : state world bytes :=
  match parse_report_id argument with
  | None => sret (lit "usage : reports delete-post <post_id>" ++ newline)
  | Some post_id =>
      let* deleted := admin_delete_post post_id in
      if negb deleted then sret (lit "echec : post introuvable ou deja supprime" ++ newline)
      else
        do* log_action (lit "post supprime par l'administration suite a un signalement") in
        sret (lit "post " ++ argument ++ lit " supprime" ++ newline)
  end.

Definition run_reports_command (command : admin_command) : state world bytes :=
  match arguments command with
  | [] => show_reports
  | action :: rest =>
      if bool_decide (action = lit "list") then show_reports
      else
        match rest with
        | argument :: _ =>
            if bool_decide (action = lit "clear") then clear_reported argument
            else if bool_decide (action = lit "delete-post") then delete_reported_post argument
            else sret (lit "usage : reports [list | clear <id> | delete-post <post_id>]" ++ newline)
        | [] => sret (lit "usage : reports [list | clear <id> | delete-post <post_id>]" ++ newline)
        end
  end.

(** ** admin_session_command.cpp *)

Definition describe_phase (p : session_phase.t) : bytes :=
  match p with
  | session_phase.awaiting_handshake => lit "handshake"
  | session_phase.awaiting_hello => lit "hello"
  | session_phase.awaiting_auth => lit "auth"
  | session_phase.authenticated => lit "authentifiee"
  end.

(** The differences are of [std::uint64_t]. *)
Definition session_line (now : Z) (entry : Z * client_connection) : bytes :=
  let k := session entry.2 in
  pad_right (decimal entry.1) 6 ++ pad_right (describe_phase (phase k)) 14 ++
  pad_right (format_duration (wrap 64 (now - connected_at k))) 14 ++
  format_duration (wrap 64 (now - last_activity_at k)) ++ newline.

Definition list_sessions (registry : connection_registry) : state world bytes :=
  let* now := get_unix_timestamp in
  sret (pad_right (lit "DESCR") 6 ++ pad_right (lit "ETAT") 14 ++ pad_right (lit "DEPUIS") 14 ++
        lit "INACTIF" ++ newline ++
        concat (map (session_line now) (map_to_list (connections registry))) ++
        (if bool_decide (connections registry = ∅) then lit "(aucune connexion)" ++ newline else [])).

(** The answer, and the descriptors to close. *)
Definition close_session (registry : connection_registry) (argument : bytes)
    : state world (bytes * list Z) :=
  match from_chars 32 argument with
  | None => sret (lit "usage : sessions close <descripteur>" ++ newline, [])
  | Some descriptor =>
      match find_connection registry descriptor with
      | None => sret (lit "descripteur inconnu : " ++ argument ++ newline, [])
      | Some _ =>
          do* log_action (lit "session fermee par l'administration") in
          sret (lit "session " ++ argument ++ lit " marquee pour fermeture" ++ newline, [descriptor])
      end
  end.

Definition no_closure (m : state world bytes) : state world (bytes * list Z) :=
  let* text := m in sret (text, []).

Definition run_sessions_command (registry : connection_registry) (command : admin_command)
    : state world (bytes * list Z) :=
  match arguments command with
  | [] => no_closure (list_sessions registry)
  | action :: rest =>
      if bool_decide (action = lit "list") then no_closure (list_sessions registry)
      else if bool_decide (action = lit "close") then
        match rest with
        | [] => sret (lit "usage : sessions close <descripteur>" ++ newline, [])
        | argument :: _ => close_session registry argument
        end
      else sret (lit "usage : sessions [list | close <descripteur>]" ++ newline, [])
  end.

(** ** admin_stats_command.cpp *)

Definition count_authenticated (registry : connection_registry) : Z :=
  wrap 32 (size_of (List.filter (λ entry : Z * client_connection,
    bool_decide (phase (session entry.2) = session_phase.authenticated))
    (map_to_list (connections registry)))).

Definition format_line (label value : bytes) : bytes :=
  lit "  " ++ pad_right label 22 ++ lit ": " ++ value ++ newline.

Definition run_stats_command (registry : connection_registry) (started_at : Z) : state world bytes :=
  let* now := get_unix_timestamp in
  let text :=
    lit "hypercom -- statistiques" ++ newline ++
    format_line (lit "en service depuis") (format_duration (wrap 64 (now - started_at))) ++
    format_line (lit "connexions")
      (decimal (connection_count registry) ++ lit " / " ++ decimal (max_connections (limits config))) ++
    format_line (lit "dont authentifiees") (decimal (count_authenticated registry)) ++
    format_line (lit "inscriptions")
      (if registration_open config then lit "ouvertes" else lit "fermees") ++
    format_line (lit "journalisation des IP")
      (if log_peer_addresses (logging config) then lit "ACTIVE" else lit "desactivee (defaut)") in
  let* counts := collect_counts in
  match counts with
  | None => sret (text ++ lit "  (compteurs de base illisibles)" ++ newline)
  | Some counts =>
      sret (text ++
        format_line (lit "comptes") (decimal (count_users counts)) ++
        format_line (lit "forums") (decimal (count_forums counts)) ++
        format_line (lit "posts") (decimal (count_posts counts)) ++
        format_line (lit "commentaires") (decimal (count_comments counts)) ++
        format_line (lit "enveloppes en attente") (decimal (pending_envelopes counts)))
  end.

(** ** admin_backup_command.cpp

    The copy itself is SQLite's: [backup] answers the failure it reports. *)

Definition run_backup_command (backup : bytes → option bytes) (command : admin_command)
    : state world bytes :=
  match arguments command with
  | [] => sret (lit "usage : backup <chemin/de/sortie.db>" ++ newline)
  | destination :: _ =>
      match backup destination with
      | Some failure => sret (lit "echec : " ++ failure ++ newline)
      | None =>
          do* log_action (lit "sauvegarde a chaud effectuee") in
          sret (lit "sauvegarde ecrite : " ++ destination ++ newline ++
                lit "Penser a sauvegarder aussi " ++ server_key_path (paths config) ++
                lit " : sans elle, les clients refuseront de se reconnecter." ++ newline)
      end
  end.

(** ** admin_dispatcher.cpp *)

Definition build_help : bytes :=
  concat (map (λ line, line ++ newline)
    [ lit "commandes disponibles";
      lit "  stats                      etat du serveur et volumetrie";
      lit "  sessions [list]            connexions en cours";
      lit "  sessions close <descr>     ferme une connexion";
      lit "  motd [show]                annonce en cours";
      lit "  motd set " ++ quoted (lit "texte") ++ lit "           publie une annonce";
      lit "  motd clear                 desactive l'annonce";
      lit "  backup <chemin>            sauvegarde a chaud de la base";
      lit "  reports [list]             signalements en attente";
      lit "  reports clear <id>         classe un signalement";
      lit "  reports delete-post <id>   supprime le post signale";
      lit "  ban <cle_hex>              revoque l'authentification d'un compte";
      lit "  unban <cle_hex>            restaure l'authentification";
      lit "  help                       cette liste";
      [];
      lit "Non implemente : le rechargement a chaud de la configuration.";
      lit "Changer un listener demanderait de le reouvrir sous les connexions";
      lit "en cours ; tant que ce n'est pas traite proprement, il faut";
      lit "redemarrer le serveur." ]).

Definition execute_admin_command (backup : bytes → option bytes) (registry : connection_registry)
    (started_at : Z) (command : admin_command) : state world (bytes * list Z) :=
  let name := verb command in
  if bool_decide (name = lit "stats") then no_closure (run_stats_command registry started_at)
  else if bool_decide (name = lit "sessions") then run_sessions_command registry command
  else if bool_decide (name = lit "motd") then no_closure (run_motd_command command)
  else if bool_decide (name = lit "backup") then no_closure (run_backup_command backup command)
  else if bool_decide (name = lit "reports") then no_closure (run_reports_command command)
  else if bool_decide (name = lit "ban") then no_closure (run_ban_command command true)
  else if bool_decide (name = lit "unban") then no_closure (run_ban_command command false)
  else if bool_decide (name = lit "help") then sret (build_help, [])
  else sret (lit "commande inconnue : " ++ name ++ newline ++ lit "Taper help." ++ newline, []).

(** ** admin_service.cpp *)

Definition MAX_REQUEST_BYTES : Z := 4096.

(** The descriptor is the key the connection is registered under. *)
Record admin_connection := AdminConnection {
  input : bytes;
  output : bytes;
  response_ready : bool;
}.

Definition new_admin_connection : admin_connection := AdminConnection [] [] false.

(** A negative answer ends the reading without an error. *)
Fixpoint read_into_buffer (answers : list recv_result) (buffer : bytes) : bool * bytes :=
  match answers with
  | [] => (true, buffer)
  | Received data :: answers' =>
      if MAX_REQUEST_BYTES <? size_of buffer + size_of data then (false, buffer)
      else read_into_buffer answers' (buffer ++ data)
  | EndOfStream :: _ => (false, buffer)
  | RecvInterrupted :: _ | RecvError :: _ => (true, buffer)
  end.

(** What is left to send; any refusal means "try again later". *)
Fixpoint flush_buffer (answers : list send_result) (buffer : bytes) : bytes :=
  match buffer with
  | [] => []
  | _ :: _ =>
      match answers with
      | Sent (S size) :: answers' => flush_buffer answers' (drop (S size) buffer)
      | _ => buffer
      end
  end.

(** The text before the first newline. *)
Fixpoint first_line (text : bytes) : option bytes :=
  match text with
  | [] => None
  | b :: text' => if byte_val b =? 10 then Some [] else cons b <$> first_line text'
  end.

Definition build_response (backup : bytes → option bytes) (registry : connection_registry)
    (started_at : Z) (connection : admin_connection) : state world (admin_connection * list Z) :=
  match first_line (input connection) with
  | None => sret (connection, [])
  | Some line =>
      match parse_admin_command line with
      | None => sret (AdminConnection [] (lit "commande vide ou guillemet non ferme" ++ newline) true, [])
      | Some command =>
          let* '(text, close_requests) := execute_admin_command backup registry started_at command in
          sret (AdminConnection [] text true, close_requests)
      end
  end.

(** The system gives descriptors that are not in use; [watched] is whether the
    event loop takes it. *)
Definition accept_admin_connection (accepted : Z) (watched : bool) (service : gmap Z admin_connection)
    : gmap Z admin_connection :=
  if watched then <[accepted := new_admin_connection]> service else delete accepted service.

Definition owns_admin_descriptor (service : gmap Z admin_connection) (descriptor : Z) : bool :=
  bool_decide (is_Some (service !! descriptor)).

Definition close_admin_connection (descriptor : Z) (service : gmap Z admin_connection) : gmap Z admin_connection :=
  delete descriptor service.

(** The end of [service_admin_connection]: the answer goes out, and the
    connection with it. *)
Definition answer_admin_connection (descriptor : Z) (sends : list send_result) (watched : bool)
    (connection : admin_connection) (service : gmap Z admin_connection) : gmap Z admin_connection :=
  let rest := flush_buffer sends (output connection) in
  if bool_decide (rest = []) || negb watched then close_admin_connection descriptor service
  else <[descriptor := AdminConnection (input connection) rest (response_ready connection)]> service.

Definition service_admin_connection (backup : bytes → option bytes) (registry : connection_registry)
    (started_at : Z) (descriptor : Z) (answers : list recv_result) (sends : list send_result)
    (watched : bool) (service : gmap Z admin_connection) : state world (gmap Z admin_connection * list Z) :=
  match service !! descriptor with
  | None => sret (service, [])
  | Some connection =>
      if response_ready connection then
        sret (answer_admin_connection descriptor sends watched connection service, [])
      else
        let '(readable, buffer) := read_into_buffer answers (input connection) in
        if negb readable then sret (close_admin_connection descriptor service, [])
        else
          let* '(connection, close_requests) :=
            build_response backup registry started_at
              (AdminConnection buffer (output connection) (response_ready connection)) in
          if negb (response_ready connection) then
            sret (<[descriptor := connection]> service, close_requests)
          else
            sret (answer_admin_connection descriptor sends watched connection service, close_requests)
  end.
End admin.

(** ** What the administration can do to the database *)

Inductive admin_change : tables → tables → Prop :=
  | may_ban t id r banned :
      t_users t !! id = Some r →
      admin_change t (set_users (<[id := users.Row (users.pubkey r) (users.handle r) banned]> (t_users t))
                        (t_seq t) t)
  | may_erase_reported t id p now :
      t_posts t !! id = Some p → posts.deleted_at p = None →
      admin_change t (set_posts (<[id := erase_post now p]> (t_posts t)) (t_seq t) t)
  | may_dismiss t id : admin_change t (set_reports (delete id (t_reports t)) (t_seq t) t)
  | may_silence t o : deactivate_all t = Some o → admin_change t (new_tables o)
  | may_announce t t' id body now :
      text_ok MAX_MOTD_LENGTH body → insert_motd (motd.Row body true now) t = Some (t', id) →
      admin_change t t'.

Definition admin_stable (J : tables → Prop) : Prop := ∀ t t', J t → admin_change t t' → J t'.

Section admin_safe.
Context `{Environment}.
Context (config : server_config) (J : tables → Prop) (Hstable : admin_stable J).

Lemma set_banned_safe id b : safe J (set_banned id b).
Proof.
  apply run_statement_safe. intros t o Ht E. unfold update_row in E.
  destruct (t_users t !! id) as [r|] eqn:Er; simplify_eq/=; [|done].
  eapply Hstable; [done|]. by apply may_ban.
Qed.

Lemma admin_delete_post_safe id : safe J (admin_delete_post id).
Proof.
  unfold admin_delete_post, delete_post_where. keeps_auto; [|by apply keeps_gets, _].
  apply step_done_safe. intros t o Ht E. unfold update_row in E.
  destruct (t_posts t !! id) as [p|] eqn:Ep; [|by simplify_eq/=].
  destruct (bool_decide _) eqn:Ed; simplify_eq/=; [|done].
  apply bool_decide_eq_true in Ed. eapply Hstable; [done|]. by eapply may_erase_reported.
Qed.

Lemma clear_report_safe id : safe J (clear_report id).
Proof.
  apply run_statement_safe. intros t o Ht E. simplify_eq/=. eapply Hstable; [done|]. apply may_dismiss.
Qed.

Lemma deactivate_safe : safe J (execute (update deactivate_all)).
Proof.
  unfold execute. keeps_auto. apply execute_script_safe. intros t o Ht E.
  eapply Hstable; [done|]. by apply may_silence.
Qed.

Lemma execute_other_safe s : match s with update _ => False | _ => True end → safe J (execute s).
Proof. intros Hs. unfold execute. keeps_auto. apply execute_script_safe. by destruct s. Qed.

Lemma publish_motd_safe body : text_ok MAX_MOTD_LENGTH body → safe J (publish_motd body).
Proof.
  intros Hb. unfold publish_motd, finish_transaction. keeps_auto; try by apply execute_other_safe.
  - apply deactivate_safe.
  - apply step_done_safe. intros t o Ht E. simpl in E.
    destruct (insert_motd _ t) as [[t' id]|] eqn:Ei; simplify_eq/=.
    eapply Hstable; [done|]. by eapply may_announce.
  - apply execute_other_safe. by destruct a1.
Qed.

#[local] Hint Resolve set_banned_safe admin_delete_post_safe clear_report_safe deactivate_safe
  publish_motd_safe : keeps.

Lemma log_action_safe message : safe J (log_action config message).
Proof. apply log_safe. Qed.
#[local] Hint Resolve log_action_safe : keeps.

Lemma set_motd_safe body : safe J (set_motd config body).
Proof.
  unfold set_motd. destruct (Z.ltb_spec MAX_MOTD_LENGTH (size_of body)); simpl; [keeps_auto|].
  destruct (validate_text_field body) eqn:Hv; simpl; [|keeps_auto].
  assert (text_ok MAX_MOTD_LENGTH body).
  { split; [split; [done|]|done]. pose proof (size_of_nonneg body).
    unfold fits, MAX_MOTD_LENGTH in *. lia. }
  keeps_auto.
Qed.

Lemma no_closure_safe m : safe J m → safe J (no_closure m).
Proof. intros Hm. unfold no_closure. keeps_auto. Qed.
#[local] Hint Resolve set_motd_safe no_closure_safe : keeps.

Lemma run_stats_safe registry started_at : safe J (run_stats_command config registry started_at).
Proof. unfold run_stats_command, collect_counts, count_rows. keeps_auto. Qed.

Lemma run_motd_safe command : safe J (run_motd_command config command).
Proof.
  unfold run_motd_command, show_motd, clear_motd, clear_active_motd, find_active_motd. keeps_auto.
Qed.

Lemma run_reports_safe command : safe J (run_reports_command config command).
Proof.
  unfold run_reports_command, show_reports, list_reports, read_rows, clear_reported,
    delete_reported_post. keeps_auto.
Qed.

Lemma run_ban_safe command banned : safe J (run_ban_command config command banned).
Proof. unfold run_ban_command, find_by_pubkey. keeps_auto. Qed.

Lemma run_sessions_safe registry command : safe J (run_sessions_command config registry command).
Proof. unfold run_sessions_command, no_closure, list_sessions, close_session. keeps_auto. Qed.

Lemma run_backup_safe backup command : safe J (run_backup_command config backup command).
Proof. unfold run_backup_command. keeps_auto. Qed.
#[local] Hint Resolve run_stats_safe run_motd_safe run_reports_safe run_ban_safe run_sessions_safe
  run_backup_safe : keeps.

Lemma execute_admin_command_safe backup registry started_at command :
  safe J (execute_admin_command config backup registry started_at command).
Proof. unfold execute_admin_command. keeps_auto. Qed.

Lemma service_admin_connection_safe backup registry started_at fd answers sends watched service :
  safe J (service_admin_connection config backup registry started_at fd answers sends watched service).
Proof.
  pose proof execute_admin_command_safe. unfold service_admin_connection, build_response. keeps_auto.
Qed.
End admin_safe.

(** An administrator cannot break the database either. *)
Lemma tables_ok_admin_stable : admin_stable tables_ok.
Proof.
  intros t t' Hok Hchange.
  destruct Hchange as [t id r b Er|t id p now Ep Ed|t id|t o E|t t' id body now Hb E].
  - destruct Hok as [(Hs & Hu & Huniq) ? ? ? ? ? ? ? ? ?]. pose proof (Hu _ _ Er) as (? & ? & ?).
    split; simpl; auto using prekeys_grow, forums_grow, posts_grow, comments_grow, profiles_grow,
      friends_grow, top8_grow, dm_grow, reports_grow.
    split_and!; [done|by apply map_Forall_insert_2|].
    intros i j r1 r2 [[<- <-]|[? Hi]]%lookup_insert_Some [[<- <-]|[? Hj]]%lookup_insert_Some; simpl;
      [done| | |]; intros E; by eapply Huniq.
  - destruct Hok as [? ? ? [Hs Hp] ? ? ? ? ? ?]. pose proof (Hp _ _ Ep) as (? & ? & ? & ? & ?).
    split; simpl; auto using comments_grow_posts, reports_grow_posts.
    split; [done|]. apply map_Forall_insert_2; [|done]. simpl.
    split_and!; try done; try lia; by apply text_ok_nil.
  - destruct Hok as [? ? ? ? ? ? ? ? ? [Hs Hr]]. split; try done. simpl. split; [done|].
    by apply map_Forall_delete.
  - destruct Hok. unfold deactivate_all in E. simplify_eq/=. by split.
  - by eapply insert_motd_ok, E.
Qed.

(** ** Command lines *)

(** The words of a command as an operator can always write them. *)
Definition command_line (words : list bytes) : bytes :=
  concat (map (λ word, quoted word ++ [byte_of (chr " ")]) words).

Definition quotable (word : bytes) : Prop := Forall (λ b, is_quote b = false) word.

Lemma take_quoted_closed word rest :
  quotable word → take_quoted (word ++ byte_of 34 :: rest) = Some (word, rest).
Proof. induction 1 as [|b word Hb _ IH]; simpl; [done|]. by rewrite Hb, IH. Qed.

Lemma split_command_line fuel words tokens :
  Forall quotable words → (length (command_line words) <= fuel)%nat →
  split_tokens fuel (command_line words) tokens =
    (if decide (words = [] ∨ size_of tokens + size_of words <= MAX_COMMAND_TOKENS)
     then Some (tokens ++ words) else None).
Proof.
  intros Hw. revert fuel tokens. induction Hw as [|word words Hword _ IH]; intros fuel tokens Hfuel.
  { rewrite decide_True by auto. rewrite app_nil_r. by destruct fuel. }
  unfold command_line in *. cbn [map concat] in *. unfold quoted in *.
  set (rest := concat _) in *. rewrite <-!app_comm_cons in *. cbn [length] in Hfuel.
  rewrite !length_app in Hfuel. cbn [length] in Hfuel.
  destruct fuel as [|fuel]; [lia|]. cbn [split_tokens]. rewrite <-!app_assoc. cbn [app take_token].
  change (is_blank (byte_of 34)) with false. change (is_quote (byte_of 34)) with true. cbv iota.
  assert (0 <= size_of words) as Hn by apply size_of_nonneg.
  rewrite size_of_cons.
  destruct (Z.leb_spec MAX_COMMAND_TOKENS (size_of tokens)) as [Hfull|Hroom].
  { rewrite decide_False; [done|]. intros [?|?]; [done|lia]. }
  rewrite take_quoted_closed by done. cbn [mbind option_bind].
  destruct fuel as [|fuel]; [lia|]. cbn [split_tokens].
  change (is_blank (byte_of (chr " "))) with true. cbv iota.
  rewrite IH by lia. rewrite <-app_assoc, size_of_app, size_of_cons, size_of_nil. simpl.
  destruct words as [|w words]; [rewrite !decide_True; [done|right; rewrite size_of_nil; lia|auto]|].
  apply decide_ext. split; (intros [?|?]; [done|right; lia]).
Qed.

(** A command of at most sixteen words, quoted, is read back word for word
    (blanks and empty words included); a longer one is refused. *)
Theorem command_line_roundtrip (name : bytes) (args : list bytes)
    (Hquotable : Forall quotable (name :: args)) :
  parse_admin_command (command_line (name :: args)) =
    if size_of (name :: args) <=? MAX_COMMAND_TOKENS then Some (AdminCommand name args) else None.
Proof.
  unfold parse_admin_command. rewrite split_command_line by done.
  destruct (Z.leb_spec (size_of (name :: args)) MAX_COMMAND_TOKENS).
  - by rewrite decide_True by (right; rewrite size_of_nil; lia).
  - rewrite decide_False; [done|]. intros [?|?]; [done|rewrite size_of_nil in *; lia].
Qed.

Lemma command_line_roundtrip_witness :
  parse_admin_command (command_line [lit "motd"; lit "set"; lit "see you at 8"]) =
    Some (AdminCommand (lit "motd") [lit "set"; lit "see you at 8"]).
Proof.
  apply (command_line_roundtrip (lit "motd") [lit "set"; lit "see you at 8"]).
  unfold quotable. by repeat (apply List.Forall_cons || apply List.Forall_nil).
Defined.
