(* ===== verification/Scenario.v ===== *)
(** A concrete environment and a small populated server, on which the theorems
    with hypotheses are instantiated: an engine with a fault plan of its own,
    rows ordered by insertion sort, and a database of two accounts. *)

From Stdlib Require Import Sorting.Sorted.
From S2P Require Import Prelude.
From S2P Require Import Wire.
From S2P Require Import Framing.
From S2P Require Import TextField.
From S2P Require Import Codec.
From S2P Require Import SessionMessages.
From S2P Require Import ContentMessages.
From S2P Require Import SocialMessages.
From S2P Require Import RateLimit.
From S2P Require Import Sodium.
From S2P Require Import Noise.
From S2P Require Import Config.
From S2P Require Import Connection.
From S2P Require Import Database.
From S2P Require Import Repositories.
From S2P Require Import SocialRepositories.
From S2P Require Import Handlers.
From S2P Require Import Server.
From S2P Require Import Effects.
From S2P Require Import Permissions.
From S2P Require Import Integrity.

(** ** The environment *)

Fixpoint insert_sorted {A} (le : A → A → bool) (x : A) (l : list A) : list A :=
  match l with
  | [] => [x]
  | y :: l' => if le x y then x :: l else y :: insert_sorted le x l'
  end.

Definition insertion_sort {A} (le : A → A → bool) (l : list A) : list A :=
  fold_right (insert_sorted le) [] l.

Definition scripted (fails rolls_back : nat → bool) : Environment := {|
  sql_fails := fails;
  sql_error _ := lit "disk I/O error";
  sql_rolls_back := rolls_back;
  order_rows A := @insertion_sort A;
  system_clock n := 1700000000 + Z.of_nat n;
  random_bytes n size := replicate (Z.to_nat size) (byte_of (Z.of_nat n));
  random_keypair n := Some (replicate 32 (byte_of (Z.of_nat n)), replicate 32 (byte_of (Z.of_nat n)));
|}.

Section sorting.
Context {A : Type} (le : A → A → bool).

Lemma insert_sorted_permutes x l : insert_sorted le x l ≡ₚ x :: l.
Proof.
  induction l as [|y l IH]; simpl; [done|]. destruct (le x y); [done|].
  rewrite IH. apply Permutation_swap.
Qed.

Lemma insertion_sort_permutes l : insertion_sort le l ≡ₚ l.
Proof. induction l as [|x l IH]; simpl; [done|]. by rewrite insert_sorted_permutes, IH. Qed.

Context (le_trans : ∀ a b c, le a b = true → le b c = true → le a c = true).
Context (le_total : ∀ a b, le a b = true ∨ le b a = true).

Lemma insert_sorted_sorts x l :
  StronglySorted (λ a b, le a b = true) l → StronglySorted (λ a b, le a b = true) (insert_sorted le x l).
Proof.
  induction 1 as [|y l Hl IH Hy]; simpl; [repeat constructor|].
  destruct (le x y) eqn:E.
  - constructor; [by constructor|]. constructor; [done|].
    eapply Forall_impl; [exact Hy|]. simpl. intros z Hz. by eapply le_trans.
  - constructor; [done|]. rewrite insert_sorted_permutes. constructor; [|done].
    by destruct (le_total x y) as [?|?]; [congruence|].
Qed.

Lemma insertion_sort_sorts l : StronglySorted (λ a b, le a b = true) (insertion_sort le l).
Proof. induction l; simpl; [constructor|by apply insert_sorted_sorts]. Qed.
End sorting.

Lemma scripted_laws fails rolls_back : @EnvironmentLaws (scripted fails rolls_back).
Proof.
  split; simpl.
  - intros A. apply insertion_sort_permutes.
  - intros A le l Ht Hl. by apply insertion_sort_sorts.
  - intros n size Hs. unfold size_of. rewrite length_replicate. lia.
Qed.

(** No call fails; every call fails from the [n]-th on; only the [n]-th. *)
Definition calm : Environment := scripted (λ _, false) (λ _, false).
Definition failing_at (n : nat) (rolls_back : bool) : Environment :=
  scripted (λ m, Nat.eqb m n) (λ _, rolls_back).

(** ** The server *)

Definition alice_key : bytes := replicate 32 (byte_of (chr "A")).
Definition bob_key : bytes := replicate 32 (byte_of (chr "B")).

Definition run_all (steps : list (tables → option tables)) (t : tables) : tables :=
  fold_left (λ t step, default t (step t)) steps t.

Definition populated : tables :=
  run_all
    [ (λ t, fst <$> insert_user alice_key (lit "alice") t);
      (λ t, fst <$> insert_user bob_key (lit "bob") t);
      (λ t, fst <$> insert_forum (forums.Row (lit "general") 1 (lit "everything") [] 1699999999) t);
      (λ t, fst <$> insert_post (posts.Row 1 2 (lit "hello") (lit "first post") 1700000000 None) t);
      (λ t, fst <$> insert_comment (comments.Row 1 None 1 (lit "welcome") 1700000001 None) t);
      (λ t, fst <$> insert_comment (comments.Row 1 (Some 1) 2 (lit "thanks") 1700000002 None) t);
      (λ t, fst <$> insert_dm (dm_envelopes.Row 1 bob_key (lit "sealed one")) t);
      (λ t, fst <$> insert_dm (dm_envelopes.Row 2 alice_key (lit "sealed two")) t);
      (λ t, fst <$> insert_dm (dm_envelopes.Row 1 bob_key (lit "sealed three")) t);
      (λ t, insert_top8 1 0 2 t);
      (λ t, fst <$> insert_motd (motd.Row (lit "news") true 1700000003) t) ]
    empty_tables.

Definition fresh_world (t : tables) : world := World (DatabaseState t None 0 0) 0 0 0 [].

Definition session_of (p : session_phase.t) (key : bytes) (id : Z) : session_state :=
  SessionState p key (replicate 32 Byte.x00) id [] (lit "10.0.0.1") 1700000000 1700000000.

(** A connection whose handshake is done, both directions keyed. *)
Definition channel_of : noise_channel :=
  NoiseChannel (@new_responder toy_sodium [] []) (Some (new_transport zero_key zero_key)).

Definition machine_of (t : tables) (k : session_state) : machine :=
  Machine (fresh_world t) (RateTracker ∅ ∅) (ClientConnection (new_socket 5) channel_of k []).

Definition alice_session : session_state := session_of session_phase.authenticated alice_key 1.
Definition alice_machine : machine := machine_of populated alice_session.
Definition stranger_machine : machine :=
  machine_of populated (session_of session_phase.awaiting_hello [] 0).

(** The payload of a request. *)
Definition payload_of {A} `{WireFormat A} (request : A) : bytes :=
  target_ (write_to request (new_writer [])).

Lemma run_all_ok steps t :
  Forall (λ step : tables → option tables, ∀ t t', tables_ok t → step t = Some t' → tables_ok t') steps →
  tables_ok t → tables_ok (run_all steps t).
Proof.
  intros Hs. revert t. induction Hs as [|step steps Hstep _ IH]; intros t Ht; [done|].
  apply IH. destruct (step t) as [t'|] eqn:E; simpl; [by eapply Hstep|done].
Qed.

Lemma populated_ok : tables_ok populated.
Proof.
  apply run_all_ok; [|apply empty_tables_ok].
  repeat (apply List.Forall_cons); [..|apply List.Forall_nil]; intros t t' Ht E.
  all: try exact (insert_top8_ok _ _ _ _ _ Ht E).
  all: apply fmap_Some in E as ([t1 id] & E & ->).
  - refine (insert_user_ok (session_of session_phase.authenticated alice_key 0) _ _ (lit "alice") _ Ht _ E).
    by vm_compute.
  - refine (insert_user_ok (session_of session_phase.authenticated bob_key 0) _ _ (lit "bob") _ Ht _ E).
    by vm_compute.
  - eapply insert_forum_ok; [exact Ht|..|exact E]; vm_compute; repeat split; try done; by intros [].
  - eapply insert_post_ok; [exact Ht|..|exact E]; vm_compute; repeat split; try done; by intros [].
  - eapply insert_comment_ok; [exact Ht|..|exact E]; vm_compute; repeat split; try done; by intros [].
  - eapply insert_comment_ok; [exact Ht|..|exact E]; vm_compute; repeat split; try done; by intros [].
  - eapply insert_dm_ok; [exact Ht|..|exact E]; vm_compute; repeat split; try done; by intros [].
  - eapply insert_dm_ok; [exact Ht|..|exact E]; vm_compute; repeat split; try done; by intros [].
  - eapply insert_dm_ok; [exact Ht|..|exact E]; vm_compute; repeat split; try done; by intros [].
  - eapply insert_motd_ok; [exact Ht|exact E].
Qed.

Lemma machine_of_holds k : machine_holds tables_ok (machine_of populated k).
Proof. apply autocommit_holds; [done|exact populated_ok]. Qed.

(** What the client of [channel_of] sends for a request. *)
Definition sealed_request {A} `{WireFormat A} (type : message_type.t) (request : A) : bytes :=
  match encode_frame type (payload_of request) with
  | Some frame =>
      match (@seal_message toy_sodium frame channel_of).1 with
      | Some sealed => append_length_prefixed_message sealed []
      | None => []
      end
  | None => []
  end.

Definition hello_world : post_create_request.t :=
  post_create_request.mk 1 (lit "a title") (lit "a body").
