(* ===== verification/Transactions.v ===== *)
(** The operations that run in a transaction (top8, dm and motd repositories):
    whatever calls into the engine fail, the rollback included, each either
    happens in full or leaves the disk as it was. *)

From S2P Require Import Prelude.
From S2P Require Import Wire.
From S2P Require Import SessionMessages.
From S2P Require Import ContentMessages.
From S2P Require Import SocialMessages.
From S2P Require Import Config.
From S2P Require Import Database.
From S2P Require Import Repositories.
From S2P Require Import SocialRepositories.
From S2P Require Import Effects.
From S2P Require Import Scenario.

(** Inside a transaction begun on [t0]: it is open, or the engine has rolled it
    back and the operation has failed. *)
Definition under_way (t0 : tables) (succeeded : bool) (w : world) : Prop :=
  saved (db w) = Some t0 ∨ (succeeded = false ∧ saved (db w) = None ∧ db_tables (db w) = t0).

(** An operation of a transaction that makes of the tables what [effect]
    says when it succeeds. *)
Definition transacts (t0 : tables) (effect : tables → tables → Prop) (m : state world bool) : Prop :=
  ∀ w, saved (db w) = Some t0 →
    let '(ok, w') := m w in
    under_way t0 ok w' ∧ (ok = true → saved (db w') = Some t0 ∧ effect (db_tables (db w)) (db_tables (db w'))).

Section transactions.
Context `{Environment}.

Lemma under_way_fault t0 w : saved (db w) = Some t0 → under_way t0 false (tick (set_db (fault w) w)).
Proof.
  intros Hs. unfold under_way, fault. simpl. rewrite Hs. destruct (sql_rolls_back _); simpl; [by right|by left].
Qed.

Lemma step_done_transacts t0 statement effect :
  (∀ t o, statement t = Some o → effect t (new_tables o)) → transacts t0 effect (step_done statement).
Proof.
  intros He w Hs. unfold step_done. destruct (sql_fails _).
  - split; [by apply under_way_fault|done].
  - destruct (statement (db_tables (db w))) as [o|] eqn:E; simpl; split; try by left.
    + intros _. split; [done|]. by apply He.
    + done.
Qed.

Lemma prepared_transacts t0 effect m :
  transacts t0 effect m →
  transacts t0 effect (let* ready := prepare in if negb ready then sret false else m).
Proof.
  intros Hm w Hs. unfold sbind, prepare. destruct (sql_fails (calls w)); simpl; [|by apply (Hm (tick w))].
  split; [by left|done].
Qed.

(** What a failing part of a transaction leaves is left by the rest of it. *)
Lemma finish_transaction_atomic t0 succeeded w : under_way t0 succeeded w →
  let '(ok, w') := finish_transaction succeeded w in
  if ok then succeeded = true ∧ autocommit w' ∧ db_tables (db w') = db_tables (db w)
  else durable (db w') = t0.
Proof.
  unfold finish_transaction, execute, execute_script, sbind. intros [Hs|(-> & Hs & Ht)].
  - destruct (sql_fails (calls w)); simpl.
    + unfold fault. rewrite Hs. unfold durable. destruct (sql_rolls_back _); simpl; by rewrite ?Hs.
    + destruct succeeded; simpl; rewrite Hs; simpl; [done|]. by unfold durable; simpl.
  - destruct (sql_fails (calls w)); simpl.
    + unfold fault. rewrite Hs. unfold durable. by rewrite Hs.
    + rewrite Hs. simpl. unfold durable. by rewrite Hs.
Qed.
End transactions.

(** A transaction around [body]. *)
Definition transaction `{Environment} (body : state world bool) : state world bool :=
  let* begun := execute begin_immediate in
  if negb begun then sret false
  else let* succeeded := body in finish_transaction succeeded.

(** All or nothing. *)
Definition atomic `{Environment} (effect : tables → tables → Prop) (m : state world bool) (w : world) : Prop :=
  let '(ok, w') := m w in
  if ok then autocommit w' ∧ effect (db_tables (db w)) (db_tables (db w'))
  else durable (db w') = db_tables (db w).

Lemma transaction_atomic `{Environment} effect body w :
  autocommit w → transacts (db_tables (db w)) effect body → atomic effect (transaction body) w.
Proof.
  intros Ha Hb. unfold atomic, transaction, execute, execute_script, sbind.
  destruct (sql_fails (calls w)); simpl.
  { unfold fault, durable. rewrite Ha. simpl. by rewrite Ha. }
  rewrite Ha. simpl. unfold sret. simpl.
  match goal with |- context [body ?w1] => specialize (Hb w1 eq_refl); destruct (body w1) as [ok w2] end.
  simpl in Hb. destruct Hb as [Hu Hok].
  pose proof (finish_transaction_atomic _ ok w2 Hu) as Hf.
  destruct (finish_transaction ok w2) as [[|] w3]; [|done].
  destruct Hf as (-> & Ha3 & ->). split; [done|]. by apply Hok.
Qed.

Lemma sbind_assoc {S A B C} (m : state S A) (f : A → state S B) (g : B → state S C) s :
  sbind (sbind m f) g s = sbind m (λ a, sbind (f a) g) s.
Proof. unfold sbind. by destruct (m s). Qed.

Lemma transacts_ext `{Environment} t0 effect m m' :
  (∀ w, m w = m' w) → transacts t0 effect m → transacts t0 effect m'.
Proof. intros E Hm w Hs. rewrite <-E. by apply Hm. Qed.

(** Two parts of a transaction, the second only after the success of the
    first. *)
Lemma transacts_then `{Environment} t0 effect1 effect2 m k :
  transacts t0 effect1 m → (∀ w, (k false w).1 = false ∧ db (k false w).2 = db w) →
  transacts t0 effect2 (k true) →
  transacts t0 (λ t t', ∃ t1, effect1 t t1 ∧ effect2 t1 t') (sbind m k).
Proof.
  intros Hm Hf Hk w Hs. unfold sbind. specialize (Hm w Hs). destruct (m w) as [ok w1].
  destruct Hm as [Hu Hok].
  destruct ok; [|destruct (Hf w1) as [E1 E2]; destruct (k false w1); simpl in *; subst;
    split; [unfold under_way in *; by rewrite E2|done]].
  destruct (Hok eq_refl) as [Hs1 He1]. specialize (Hk w1 Hs1). destruct (k true w1) as [ok w2].
  destruct Hk as [Hu2 Hok2]. split; [done|]. intros E. destruct (Hok2 E) as [Hs2 He2]. eauto.
Qed.

Lemma transacts_prepare `{Environment} t0 effect (k : bool → state world bool) :
  (∀ ready, transacts t0 effect (k ready)) → transacts t0 effect (let* ready := prepare in k ready).
Proof. intros Hk w Hs. unfold sbind, prepare. by apply (Hk _ (tick w)). Qed.

Lemma transacts_weaken `{Environment} t0 (effect effect' : tables → tables → Prop) m :
  (∀ t t', effect t t' → effect' t t') → transacts t0 effect m → transacts t0 effect' m.
Proof.
  intros He Hm w Hs. specialize (Hm w Hs). destruct (m w) as [ok w']. destruct Hm as [Hu Hok].
  split; [done|]. intros E. destruct (Hok E). auto.
Qed.

Lemma transacts_ret `{Environment} t0 (effect : tables → tables → Prop) b :
  (b = true → ∀ t, effect t t) → transacts t0 effect (sret b).
Proof. intros He w Hs. simpl. split; [by left|]. intros E. split; [done|]. by apply He. Qed.

(** A statement bound and stepped, on a statement that may not be prepared. *)
Lemma rebound_transacts `{Environment} t0 ready statement effect :
  (∀ t o, statement t = Some o → effect t (new_tables o)) →
  transacts t0 effect (let* bound := rebind ready in if bound then step_done statement else sret false).
Proof.
  intros He. unfold rebind. destruct ready.
  - apply transacts_prepare. intros [|]; [by apply step_done_transacts|by apply transacts_ret].
  - apply (transacts_ret t0 effect false). done.
Qed.

(** ** Acknowledging mail *)

Definition acknowledged (me : Z) (ids : list Z) (kv : Z * dm_envelopes.row) : Prop :=
  dm_envelopes.recipient_id kv.2 = me ∧ kv.1 ∈ map to_i64 ids.

#[export] Instance acknowledged_dec me ids kv : Decision (acknowledged me ids kv).
Proof. unfold acknowledged. apply _. Defined.

(** The mail of [me] that [ids] name is gone; nothing else changes. *)
Definition acknowledges (me : Z) (ids : list Z) (t t' : tables) : Prop :=
  t' = set_dm (filter (λ kv, ¬ acknowledged me ids kv) (t_dm t)) (t_seq t) t.

Lemma set_dm_id t : set_dm (t_dm t) (t_seq t) t = t.
Proof. by destruct t. Qed.

Lemma acknowledges_nil me t : acknowledges me [] t t.
Proof.
  unfold acknowledges. rewrite map_filter_id; [by rewrite set_dm_id|].
  by intros i r Hi [_ ?%not_elem_of_nil].
Qed.

Lemma acknowledges_cons me id ids t t1 t2 :
  acknowledges me [id] t t1 → acknowledges me ids t1 t2 → acknowledges me (id :: ids) t t2.
Proof.
  intros -> ->. unfold acknowledges, set_dm. simpl. f_equal. rewrite map_filter_filter.
  apply map_filter_ext. intros i r _. unfold acknowledged. simpl. set_solver.
Qed.

Lemma delete_envelope_acknowledges me id t o :
  delete_envelope (to_i64 id) me t = Some o → acknowledges me [id] t (new_tables o).
Proof.
  unfold delete_envelope, acknowledges. intros E.
  assert (∀ m : gmap Z dm_envelopes.row, (∀ r, m !! to_i64 id = Some r → dm_envelopes.recipient_id r ≠ me) →
    filter (λ kv, ¬ acknowledged me [id] kv) m = m) as Hsame.
  { intros m Hm. apply map_filter_id. intros i r Hi [Hr Hin]. simpl in *.
    apply list_elem_of_singleton in Hin. subst i. by apply (Hm r). }
  destruct (t_dm t !! to_i64 id) as [r|] eqn:Er.
  - destruct (Z.eqb_spec (dm_envelopes.recipient_id r) me); simplify_eq/=.
    + f_equal. apply map_eq. intros i. rewrite map_lookup_filter.
      destruct (decide (i = to_i64 id)) as [->|Hi].
      * rewrite lookup_delete_eq, Er. simpl. rewrite option_guard_False; [done|].
        intros Hn. apply Hn. split; [done|]. by apply list_elem_of_singleton.
      * rewrite lookup_delete_ne by done. destruct (t_dm t !! i) eqn:Ei; simpl; [|done].
        rewrite option_guard_True; [done|]. by intros [_ ?%list_elem_of_singleton].
    + rewrite Hsame, set_dm_id; [done|]. intros r'. rewrite Er. by intros [= <-].
  - simplify_eq/=. rewrite Hsame, set_dm_id; [done|]. by rewrite Er.
Qed.

Lemma delete_envelopes_transacts `{Environment} t0 me ready ids :
  transacts t0 (acknowledges me ids) (delete_envelopes ready me ids true).
Proof.
  induction ids as [|id ids IH]; simpl; [apply transacts_ret; intros _ t; apply acknowledges_nil|].
  eapply transacts_ext; [intros w; apply sbind_assoc|].
  eapply transacts_weaken; [|apply transacts_then; [|by intros w; destruct ids|exact IH]].
  - intros t t' (t1 & H1 & H2). by eapply acknowledges_cons.
  - apply rebound_transacts. intros t o. apply delete_envelope_acknowledges.
Qed.

Section mail.
Context `{Environment}.

Lemma delete_acknowledged_transacts me ids w : autocommit w →
  atomic (acknowledges me ids) (delete_acknowledged me ids) w.
Proof.
  intros Hauto.
  assert (atomic (acknowledges me ids) (transaction
    (let* ready := prepare in delete_envelopes ready me ids true)) w) as Hm.
  { apply transaction_atomic; [done|]. apply transacts_prepare. intros ready.
    apply delete_envelopes_transacts. }
  unfold atomic, transaction, delete_acknowledged, sbind in *.
  destruct (execute begin_immediate w) as [[|] w1]; simpl in *; [|done].
  by destruct (prepare w1) as [ready w2].
Qed.

(** Acknowledging mail deletes exactly the named envelopes that are the
    session's own and answers true, or answers false and leaves the disk as it
    was, whatever calls fail on the way. *)
Theorem delete_acknowledged_atomic (me : Z) (ids : list Z) (w : world) (Hauto : autocommit w) :
  atomic (acknowledges me ids) (delete_acknowledged me ids) w.
Proof. by apply delete_acknowledged_transacts. Qed.
End mail.

(** ** Replacing the top 8 *)

(** The slots of [me] are those of [entries]; nothing else changes. *)
Definition with_entries (me : Z) (entries : list top8_entry) (m : gmap (Z * Z) Z) : gmap (Z * Z) Z :=
  fold_left (λ m e, <[(me, slot e) := friend_id e]> m) entries m.

Definition replaces_slots (me : Z) (entries : list top8_entry) (t t' : tables) : Prop :=
  t' = set_top8 (with_entries me entries (filter (λ kv, kv.1.1 ≠ me) (t_top8 t))) t.

Lemma insert_slots_transacts `{Environment} t0 me ready entries :
  transacts t0 (λ t t', t' = set_top8 (with_entries me entries (t_top8 t)) t)
    (insert_slots ready me entries true).
Proof.
  induction entries as [|e entries IH]; simpl; [apply transacts_ret; by intros _ []|].
  eapply transacts_ext; [intros w; apply sbind_assoc|].
  eapply transacts_weaken; [|apply (transacts_then t0
    (λ t t', t' = set_top8 (<[(me, slot e) := friend_id e]> (t_top8 t)) t));
    [|by intros w; destruct entries|exact IH]].
  - intros t t' (t1 & -> & ->). done.
  - apply rebound_transacts. intros t o E. simpl in E. unfold insert_top8 in E.
    destruct (_ || _); simplify_eq/=. done.
Qed.

Section slots.
Context `{Environment}.

(** Setting a top 8 replaces all the slots of the session's account by the
    given ones and answers true, or answers false and leaves the disk as it
    was, whatever calls fail on the way. *)
Theorem replace_slots_atomic (me : Z) (entries : list top8_entry) (w : world) (Hauto : autocommit w) :
  atomic (replaces_slots me entries) (replace_slots me entries) w.
Proof.
  assert (atomic (replaces_slots me entries) (transaction
    (let* succeeded := run_statement (λ t, Some (Written (delete_slots me t) None 0)) in
     let* ready := prepare in insert_slots ready me entries succeeded)) w) as Hm.
  { apply transaction_atomic; [done|].
    eapply transacts_weaken; [|apply (transacts_then _ (λ t t', t' = delete_slots me t)
      (λ t t', t' = set_top8 (with_entries me entries (t_top8 t)) t))].
    - by intros t t' (t1 & -> & ->).
    - apply prepared_transacts, step_done_transacts. by intros t o [= <-].
    - intros w1. unfold sbind, prepare. by destruct entries.
    - apply transacts_prepare. intros ready. apply insert_slots_transacts. }
  unfold atomic, transaction, replace_slots, sbind in *.
  destruct (execute begin_immediate w) as [[|] w1]; simpl in *; [|done].
  destruct (run_statement _ w1) as [succeeded w2]. by destruct (prepare w2) as [ready w3].
Qed.
End slots.

(** ** Publishing the message of the day *)

Definition silenced (r : motd.row) : motd.row := motd.Row (motd.body r) false (motd.created_at r).

(** The new message is the only active one; nothing else changes. *)
Definition publishes (body : bytes) (t t' : tables) : Prop :=
  t' = set_motd (t_motd t') (t_seq t') t ∧
  ∃ id now, t_motd t' = <[id := motd.Row body true now]> (silenced <$> t_motd t).

Section motd.
Context `{Environment}.

Lemma execute_update_transacts t0 statement effect :
  (∀ t o, statement t = Some o → effect t (new_tables o)) →
  transacts t0 effect (execute (update statement)).
Proof.
  intros He w Hs. unfold execute, execute_script, sbind. destruct (sql_fails _); simpl.
  - split; [by apply under_way_fault|done].
  - destruct (statement (db_tables (db w))) as [o|] eqn:E; simpl; split; try by left.
    + intros _. split; [done|]. by apply He.
    + done.
Qed.

Lemma clock_transacts t0 effect (k : Z → state world bool) :
  (∀ now, transacts t0 effect (k now)) → transacts t0 effect (let* now := get_unix_timestamp in k now).
Proof.
  intros Hk w Hs. unfold sbind, get_unix_timestamp.
  by apply (Hk _ (World (db w) (calls w) (S (clock_reads w)) (entropy_reads w) (log_entries w))).
Qed.

(** Publishing a message of the day makes it the only active one and
    answers true, or answers false and leaves the disk as it was, whatever
    calls fail on the way. *)
Theorem publish_motd_atomic (body : bytes) (w : world) (Hauto : autocommit w) :
  atomic (publishes body) (publish_motd body) w.
Proof.
  assert (atomic (publishes body) (transaction
    (let* succeeded := execute (update deactivate_all) in
     if negb succeeded then sret false
     else let* ready := prepare in
       if negb ready then sret false
       else let* now := get_unix_timestamp in
         step_done (λ t, '(t', id) ← insert_motd (motd.Row body true (to_i64 now)) t;
                         Some (Written t' (Some id) 1)))) w) as Hm.
  { apply transaction_atomic; [done|].
    eapply transacts_weaken; [|apply (transacts_then _
      (λ t t', t' = set_motd (silenced <$> t_motd t) (t_seq t) t)
      (λ t t', t' = set_motd (t_motd t') (t_seq t') t ∧
        ∃ id now, t_motd t' = <[id := motd.Row body true now]> (t_motd t)))].
    - intros t t' (t1 & -> & E & id & now & E2). simpl in *. split; [exact E|]. eauto.
    - apply execute_update_transacts. unfold deactivate_all. by intros t o [= <-].
    - intros w1. done.
    - simpl. apply prepared_transacts, clock_transacts. intros now. apply step_done_transacts.
      intros t o E. simpl in E. unfold insert_motd in E.
      destruct (_ && _); [done|]. destruct (next_id _) as [id|]; simplify_eq/=. eauto. }
  unfold atomic, transaction, publish_motd, sbind in *.
  destruct (execute begin_immediate w) as [[|] w1]; simpl in *; [|done].
  by destruct (execute (update deactivate_all) w1) as [[|] w2].
Qed.
End motd.

(** ** Witnesses *)

Lemma delete_acknowledged_atomic_witness :
  let env := failing_at 4 true in
  @atomic env (acknowledges 1 [1; 2; 3]) (@delete_acknowledged env 1 [1; 2; 3]) (fresh_world populated).
Proof. apply (@delete_acknowledged_atomic (failing_at 4 true)). reflexivity. Defined.

Lemma replace_slots_atomic_witness :
  @atomic calm (replaces_slots 1 [Top8Entry 3 2]) (@replace_slots calm 1 [Top8Entry 3 2]) (fresh_world populated).
Proof. apply (@replace_slots_atomic calm). reflexivity. Defined.

Lemma publish_motd_atomic_witness :
  @atomic calm (publishes (lit "breaking news")) (@publish_motd calm (lit "breaking news")) (fresh_world populated).
Proof. apply (@publish_motd_atomic calm). reflexivity. Defined.
