(* ===== verification/Reads.v ===== *)
(** Reading with an engine that does not fail: every query loop computes the
    pure function of its rows, and the pages the repositories serve are exactly
    the ones asked for. *)

From Stdlib Require Import Sorting.Sorted.
From S2P Require Import Prelude.
From S2P Require Import Wire.
From S2P Require Import SessionMessages.
From S2P Require Import ContentMessages.
From S2P Require Import SocialMessages.
From S2P Require Import Config.
From S2P Require Import Database.
From S2P Require Import Repositories.
From S2P Require Import SocialRepositories.
From S2P Require Import Effects.
From S2P Require Import Integrity.
From S2P Require Import Scenario.

(** ** Loops without failures *)

Fixpoint while_pure {A S} (body : A → S → option (S * bool)) (rows : list A) (out : S) : option S :=
  match rows with
  | [] => Some out
  | row :: rows' =>
      match body row out with
      | None => None
      | Some (out', false) => Some out'
      | Some (out', true) => while_pure body rows' out'
      end
  end.

Section calm.
Context `{Environment} (Hcalm : ∀ n, sql_fails n = false).

(** An action whose result is [a] and that leaves the database alone. *)
Definition yields {A} (m : state world A) (w : world) (a : A) : Prop :=
  (m w).1 = a ∧ db (m w).2 = db w.

Lemma while_rows_yields {A S} (body : A → S → option (S * bool)) rows out w :
  yields (while_rows body rows out) w (while_pure body rows out).
Proof.
  revert out w. induction rows as [|row rows IH]; intros out w; cbn [while_rows while_pure];
    unfold yields, sbind, step_row; rewrite Hcalm; simpl; [done|].
  destruct (body row out) as [[out' [|]]|]; simpl; [|done|done].
  exact (IH out' (tick w)).
Qed.

Lemma prepared_yields {A} (m : state world A) (other : A) w a :
  (∀ w', db w' = db w → yields m w' a) →
  yields (let* ready := prepare in if negb ready then sret other else m) w a.
Proof.
  intros Hm. unfold yields, sbind, prepare. rewrite Hcalm. simpl. by apply (Hm (tick w)).
Qed.

Lemma find_one_yields {A B} (q : tables → list A) (read : A → option B) w :
  yields (find_one q read) w (head (q (db_tables (db w))) ≫= read).
Proof. unfold yields, find_one, sbind, prepare, query, sgets, step_row. rewrite Hcalm. simpl. by rewrite Hcalm. Qed.

Lemma query_yields {A B} (q : tables → A) (m : A → state world B) w b :
  yields (m (q (db_tables (db w)))) w b → yields (let* rows := query q in m rows) w b.
Proof. done. Qed.

Lemma yields_map {A B} (f : A → B) (m : state world A) w a b :
  yields m w a → f a = b → yields (let* x := m in sret (f x)) w b.
Proof. intros [E Ew] <-. unfold yields, sbind in *. destruct (m w). simpl in *. by subst. Qed.

Lemma yields_bind {A B} (m : state world A) (k : A → state world B) w a b :
  yields m w a → (∀ w', db w' = db w → yields (k a) w' b) → yields (let* x := m in k x) w b.
Proof.
  intros [E Ew] Hk. unfold yields, sbind in *. destruct (m w) as [a' w']. simpl in *. subst a'.
  destruct (Hk w' Ew) as [-> ->]. done.
Qed.
End calm.

(** ** The two kinds of page *)

(** Rows that all can be read. *)
Lemma read_rows_pure {A B} (read : A → option B) rows out records :
  Forall2 (λ row record, read row = Some record) rows records →
  while_pure (λ row out, match read row with None => None | Some record => Some (out ++ [record], true) end)
    rows out = Some (out ++ records).
Proof.
  intros Hr. revert out. induction Hr as [|row record rows records E _ IH]; intros out; simpl;
    [by rewrite app_nil_r|]. by rewrite E, IH, <-app_assoc.
Qed.

Lemma read_rows_limited_pure {A B} (read : A → option B) limit rows records out :
  Forall2 (λ row record, read row = Some record) rows records → size_of out <= limit →
  while_pure (λ row out,
    if limit <=? size_of out.1 then Some ((out.1, true), false)
    else match read row with None => None | Some record => Some ((out.1 ++ [record], false), true) end)
    rows (out, false) =
  Some (out ++ take (Z.to_nat (limit - size_of out)) records,
        bool_decide (limit < size_of out + size_of records)).
Proof.
  intros Hr. revert out. induction Hr as [|row record rows records E _ IH]; intros out Hout; simpl.
  - rewrite take_nil, app_nil_r, bool_decide_false by size_lia. done.
  - destruct (Z.leb_spec limit (size_of out)) as [Hfull|Hroom].
    + replace (Z.to_nat (limit - size_of out)) with O by lia. rewrite app_nil_r.
      rewrite bool_decide_true by (pose proof (size_of_nonneg records); size_lia). done.
    + rewrite E, IH by size_lia. rewrite <-app_assoc. f_equal. f_equal.
      * f_equal. replace (Z.to_nat (limit - size_of out)) with (S (Z.to_nat (limit - size_of (out ++ [record]))))
          by size_lia. done.
      * apply bool_decide_ext. size_lia.
Qed.
