(* ===== verification/Mailbox.v ===== *)
(** Direct messages as their recipient sees them (dm_repository): a mailbox is
    an ascending list of envelopes, pages of it are exact, and what is sent
    arrives at its end. *)

From Stdlib Require Import Sorting.Sorted.
From S2P Require Import Prelude.
From S2P Require Import Wire.
From S2P Require Import SessionMessages.
From S2P Require Import ContentMessages.
From S2P Require Import SocialMessages.
From S2P Require Import Config.
From S2P Require Import Database.
From S2P Require Import Repositories.
From S2P Require Import SocialRepositories.
From S2P Require Import Effects.
From S2P Require Import Integrity.
From S2P Require Import Scenario.
From S2P Require Import Reads.

(** The envelopes for [me] after the cursor [since], oldest first. *)
Definition mailbox (me since : Z) (t : tables) (l : list (Z * dm_envelopes.row)) : Prop :=
  StronglySorted (λ a b, a.1 < b.1) l ∧
  ∀ x, x ∈ l ↔ t_dm t !! x.1 = Some x.2 ∧ dm_envelopes.recipient_id x.2 = me ∧ since < x.1.

Definition envelope_record (x : Z * dm_envelopes.row) : dm_envelope_record.t :=
  dm_envelope_record.mk (to_u64 x.1) (dm_envelopes.sender_pubkey x.2) (dm_envelopes.ciphertext x.2).

Lemma sorted_strictly {A} (f : A → Z) (l : list A) :
  StronglySorted (λ a b, (f a <=? f b) = true) l → NoDup (f <$> l) → StronglySorted (λ a b, f a < f b) l.
Proof.
  induction 1 as [|x l Hl IH Hx]; cbn; [constructor|]. intros [Hnin Hd]%NoDup_cons.
  constructor; [by apply IH|]. rewrite Forall_forall in *. intros y Hy.
  specialize (Hx y Hy). apply Z.leb_le in Hx.
  assert (f x ≠ f y); [|lia]. intros E. apply Hnin. rewrite E. by apply list_elem_of_fmap_2.
Qed.

Lemma filter_NoDup_fst {A} (P : Z * A → bool) (l : list (Z * A)) : NoDup l.*1 → NoDup (List.filter P l).*1.
Proof.
  induction l as [|x l IH]; simpl; [done|]. intros [Hx Hl]%NoDup_cons.
  destruct (P x); simpl; [|by apply IH]. apply NoDup_cons. split; [|by apply IH].
  intros (y & E & Hy)%list_elem_of_fmap. apply Hx. rewrite E. apply list_elem_of_fmap_2.
  by apply list_elem_of_In, filter_In in Hy as [Hy%list_elem_of_In _].
Qed.

Section mailbox.
Context `{Environment, !EnvironmentLaws}.

(** The rows of the query, before its LIMIT. *)
Definition mailbox_rows (me since : Z) (t : tables) : list (Z * dm_envelopes.row) :=
  order_rows (λ a b : Z * dm_envelopes.row, a.1 <=? b.1)
    (List.filter (λ r : Z * dm_envelopes.row,
                    (dm_envelopes.recipient_id r.2 =? me) && (since <? r.1))
       (map_to_list (t_dm t))).

Lemma mailbox_rows_ok me since t : mailbox me since t (mailbox_rows me since t).
Proof.
  unfold mailbox_rows. set (rows := List.filter _ _). split.
  - apply (sorted_strictly fst).
    + apply order_rows_sorted; intros *; rewrite !Z.leb_le; lia.
    + rewrite order_rows_permutes. apply filter_NoDup_fst, NoDup_fst_map_to_list.
  - intros [id r]. rewrite order_rows_permutes. unfold rows.
    rewrite list_elem_of_In, filter_In, <-list_elem_of_In, elem_of_map_to_list. simpl.
    rewrite andb_true_iff, Z.eqb_eq, Z.ltb_lt. done.
Qed.

Lemma mailbox_readable me since t l : tables_ok t → mailbox me since t l →
  Forall2 (λ row record, read_envelope row = Some record) l (map envelope_record l).
Proof.
  intros Hok [_ Hl]. destruct (ok_dm _ Hok) as [_ Hdm].
  assert (Forall (λ x, read_envelope x = Some (envelope_record x)) l) as Hread.
  { apply Forall_forall. intros [id r] Hin. apply Hl in Hin as (Hid & _).
    apply Hdm in Hid as (_ & _ & Hkey & _). unfold read_envelope, read_key. simpl in *.
    by rewrite Hkey. }
  clear Hl. induction Hread; simpl; constructor; auto.
Qed.

(** The first [limit] envelopes, and whether there are more. *)
Definition mailbox_page (limit : Z) (l : list (Z * dm_envelopes.row)) : dm_list_response.t :=
  dm_list_response.mk (map envelope_record (take (Z.to_nat limit) l)) (if bool_decide (limit < size_of l) then 1 else 0).

Lemma list_for_recipient_yields me since limit w :
  (∀ n, sql_fails n = false) → tables_ok (db_tables (db w)) → 0 <= limit →
  yields (list_for_recipient me since limit) w
    (Some (mailbox_page limit (mailbox_rows me (to_i64 since) (db_tables (db w))))).
Proof.
  intros Hcalm Hok Hlimit. set (t := db_tables (db w)) in *. set (l := mailbox_rows me (to_i64 since) t).
  assert (mailbox me (to_i64 since) t l) as Hl by apply mailbox_rows_ok.
  apply (prepared_yields Hcalm). intros w' Hw'. apply query_yields. rewrite Hw'. fold t.
  eapply yields_map; [apply (while_rows_yields Hcalm)|].
  change (mailbox_query me (to_i64 since) (limit + 1) t) with (take (Z.to_nat (limit + 1)) l).
  pose proof (Forall2_take _ _ _ (Z.to_nat (limit + 1)) (mailbox_readable _ _ _ _ Hok Hl)) as Hread.
  rewrite (read_rows_limited_pure _ limit _ _ [] Hread) by (rewrite size_of_nil; lia). simpl. unfold mailbox_page.
  f_equal. f_equal.
  - rewrite size_of_nil, Z.sub_0_r, take_take, firstn_map. f_equal. f_equal. lia.
  - rewrite size_of_nil. unfold size_of. rewrite length_take, length_map.
    by rewrite (bool_decide_ext _ (limit < Z.of_nat (length l))) by lia.
Qed.

(** C33: without failing calls, a page of the mailbox is the first [limit]
    envelopes for the recipient after the cursor, oldest first, complete and
    unaltered; and it announces more exactly when there are more. *)
Theorem mailbox_pages_are_exact (me since limit : Z) (w : world)
    (Hcalm : ∀ n, sql_fails n = false) (Hok : tables_ok (db_tables (db w))) (Hlimit : 0 <= limit) :
  ∃ l, mailbox me (to_i64 since) (db_tables (db w)) l ∧
    (list_for_recipient me since limit w).1 =
      Some (dm_list_response.mk (map envelope_record (take (Z.to_nat limit) l))
              (if bool_decide (limit < size_of l) then 1 else 0)).
Proof.
  exists (mailbox_rows me (to_i64 since) (db_tables (db w))). split; [apply mailbox_rows_ok|].
  by apply list_for_recipient_yields.
Qed.
End mailbox.

Lemma StronglySorted_snoc {A} (R : A → A → Prop) l x :
  StronglySorted R l → Forall (λ y, R y x) l → StronglySorted R (l ++ [x]).
Proof.
  induction 1 as [|y l Hl IH Hy]; simpl; [repeat constructor|].
  intros [Hyx Hlx]%Forall_cons. constructor; [by apply IH|].
  apply Forall_app. split; [done|]. by constructor.
Qed.

Section sending.
Context `{Environment}.

(** An envelope that is stored arrives at the end of its recipient's
    mailbox, after everything already there, and in no other mailbox; if it is
    not stored, the database is as it was. *)
Theorem sent_mail_arrives_last (recipient me since : Z) (sender ciphertext : bytes) (w : world)
    (l : list (Z * dm_envelopes.row))
    (Hauto : autocommit w) (Hok : tables_ok (db_tables (db w)))
    (Hsince : since <= dm_seq (t_seq (db_tables (db w))))
    (Hmailbox : mailbox me since (db_tables (db w)) l) :
  let '(stored, w') := insert_envelope recipient sender ciphertext w in
  match stored with
  | Some id =>
      mailbox me since (db_tables (db w'))
        (if decide (recipient = me) then l ++ [(id, dm_envelopes.Row recipient sender ciphertext)] else l)
  | None => db w' = db w
  end.
Proof.
  unfold insert_envelope, sbind at 1, prepare. destruct (sql_fails (calls w)); simpl; [done|].
  pose proof (insert_returning_autocommit
    (insert_dm (dm_envelopes.Row recipient sender ciphertext)) (tick w) Hauto) as Hins.
  destruct (insert_returning _ (tick w)) as [[id|] w']; destruct Hins as [_ Hins]; [|done].
  simpl in Hins. unfold insert_dm in Hins. destruct (_ || _); [done|].
  destruct (next_id _) as [id'|] eqn:Hid; simplify_eq/=. rewrite <-H0. simpl.
  destruct (ok_dm _ Hok) as [Hs Hdm]. destruct (next_id_ok _ _ Hs Hid) as [_ ->].
  set (seq := dm_seq _) in *. set (r := dm_envelopes.Row recipient sender ciphertext).
  assert (∀ x, x ∈ l → x.1 < seq + 1) as Hbelow.
  { intros [i x] Hin. apply Hmailbox in Hin as (Hi & _). simpl in *.
    apply Hdm in Hi as [Hi _]. fold seq in Hi. lia. }
  assert (∀ x, (<[seq + 1 := r]> (t_dm (db_tables (db w))) !! x.1 = Some x.2 ∧
      dm_envelopes.recipient_id x.2 = me ∧ since < x.1) ↔
    (x = (seq + 1, r) ∧ recipient = me) ∨ x ∈ l) as Hnew.
  { intros [i x]. destruct Hmailbox as [_ Hl]. rewrite (Hl (i, x)). simpl.
    rewrite lookup_insert_Some. split.
    - intros ([[<- <-]|[Hi Hx]] & Hr & Hlt); [left; by simplify_eq/=|by right].
    - intros [[E Hr]|(Hx & Hr & Hlt)].
      + simplify_eq/=. split_and!; [by left|done|lia].
      + split_and!; try done. right. split; [|done]. intros <-.
        apply Hdm in Hx as [Hx _]. fold seq in Hx. lia. }
  split.
  - case_decide; [|apply Hmailbox]. apply StronglySorted_snoc; [apply Hmailbox|].
    rewrite Forall_forall. exact Hbelow.
  - intros x. simpl. rewrite Hnew. case_decide as E.
    + rewrite elem_of_app, list_elem_of_singleton. intuition.
    + intuition.
Qed.
End sending.

(** ** Witnesses *)

Lemma calm_calm n : @sql_fails calm n = false.
Proof. done. Qed.

Lemma mailbox_pages_are_exact_witness :
  ∃ l, mailbox 1 (to_i64 0) populated l ∧
    (@list_for_recipient calm 1 0 1 (fresh_world populated)).1 =
      Some (dm_list_response.mk (map envelope_record (take 1 l))
              (if bool_decide (1 < size_of l) then 1 else 0)).
Proof.
  apply (@mailbox_pages_are_exact calm (scripted_laws _ _) 1 0 1 (fresh_world populated));
    [done|exact populated_ok|lia].
Defined.

Definition bob_mail : list (Z * dm_envelopes.row) := @mailbox_rows calm 2 0 populated.

Lemma sent_mail_arrives_last_witness :
  (@insert_envelope calm 2 alice_key (lit "sealed four") (fresh_world populated)).1 = Some 4 ∧
  let '(stored, w') := @insert_envelope calm 2 alice_key (lit "sealed four") (fresh_world populated) in
  match stored with
  | Some id =>
      mailbox 2 0 (db_tables (db w'))
        (if decide (2 = 2) then bob_mail ++ [(id, dm_envelopes.Row 2 alice_key (lit "sealed four"))]
         else bob_mail)
  | None => db w' = db (fresh_world populated)
  end.
Proof.
  split; [by vm_compute|].
  exact (@sent_mail_arrives_last calm 2 2 0 alice_key (lit "sealed four") (fresh_world populated)
    bob_mail eq_refl populated_ok ltac:(by vm_compute) (@mailbox_rows_ok calm (scripted_laws _ _) 2 0 populated)).
Defined.
