(* ===== verification/Guarantees.v ===== *)
(** What the contract of a session guarantees: the database stays well formed
    whatever clients send and whatever calls fail, a connection that has not
    authenticated changes nothing, and an account changes only what is its
    own. *)

From stdpp Require Import relations.
From S2P Require Import Prelude.
From S2P Require Import Wire.
From S2P Require Import Framing.
From S2P Require Import TextField.
From S2P Require Import Codec.
From S2P Require Import SessionMessages.
From S2P Require Import ContentMessages.
From S2P Require Import SocialMessages.
From S2P Require Import RateLimit.
From S2P Require Import Sodium.
From S2P Require Import Noise.
From S2P Require Import Config.
From S2P Require Import Connection.
From S2P Require Import Database.
From S2P Require Import Repositories.
From S2P Require Import SocialRepositories.
From S2P Require Import Handlers.
From S2P Require Import Server.
From S2P Require Import Effects.
From S2P Require Import Permissions.
From S2P Require Import Integrity.
From S2P Require Import Scenario.

(** ** Processing input *)

Section processing.
Context `{Sodium, Environment}.
Context (config : server_config).
Context (J : tables → Prop) (Hstable : ∀ k, stable k J) (Hinsensitive : profile_insensitive J).

Lemma route_message_keeps type reader :
  reader_ok reader → safe_handler J (route_message config type reader).
Proof. intros Hr s. apply route_message_safe; [done|apply Hstable|by right]. Qed.

Lemma draw_keypair_safe : safe_handler J draw_keypair.
Proof. apply on_world_safe. by intros w Hw. Qed.

#[local] Hint Resolve draw_keypair_safe : keeps.

Lemma dispatch_safe frame : safe_handler J (dispatch_application_frame config frame).
Proof.
  unfold dispatch_application_frame. keeps_auto.
  apply route_message_keeps, new_reader_ok.
Qed.

Lemma advance_handshake_safe message : safe_handler J (advance_handshake message).
Proof. unfold advance_handshake. keeps_auto. Qed.

Lemma process_message_safe message : safe_handler J (process_message config message).
Proof.
  pose proof advance_handshake_safe. pose proof dispatch_safe.
  unfold process_message. keeps_auto; auto.
Qed.

Lemma process_messages_safe fuel : safe_handler J (process_messages config fuel).
Proof.
  induction fuel as [|fuel IH]; simpl; unfold put_input; keeps_auto. apply process_message_safe.
Qed.

Lemma process_connection_input_safe answers : safe_handler J (process_connection_input config answers).
Proof.
  unfold process_connection_input, put_input. keeps_auto. apply process_messages_safe.
Qed.
End processing.

Lemma tables_ok_insensitive : profile_insensitive tables_ok.
Proof. intros t t' id Hok E. eapply upsert_profile_ok, E; try done; by apply text_ok_nil. Qed.

(** ** Requests do what their contract permits *)

Section contract.
Context `{Sodium, Environment}.
Context (config : server_config).

(** C9: processing a request outside of a transaction changes the tables only in
    the ways the session's contract permits, for any message type, any payload
    and any behaviour of the engine: they change by a sequence of permitted
    changes, and if a failure left a transaction open, that is also true of what
    a rollback restores. (A COMMIT that fails leaves its transaction open for
    the next request; from there a rollback can take back changes of others, so
    the promise is made only for a request that finds no transaction open.) *)
Theorem requests_keep_to_contract (type : message_type.t) (payload : bytes) (s : machine)
    (Hauto : autocommit (shared s)) :
  let s' := (route_message config type (new_reader payload) s).2 in
  let contract := rtc (permitted (session (connection s))) (db_tables (db (shared s))) in
  contract (db_tables (db (shared s'))) ∧
  ∀ t, saved (db (shared s')) = Some t → contract t.
Proof. apply route_message_refines; [apply new_reader_ok|done]. Qed.
End contract.

(** ** Strangers *)

Lemma permitted_authenticated k t t' : permitted k t t' → phase k = session_phase.authenticated.
Proof.
  assert (is_registered k = true → phase k = session_phase.authenticated) as Hreg.
  { unfold is_registered. by intros [?%bool_decide_eq_true _]%andb_true_iff. }
  by destruct 1; auto.
Qed.

Lemma strangers_contract k t t' :
  phase k ≠ session_phase.authenticated → rtc (permitted k) t t' → t' = t.
Proof.
  intros Hp Ht. destruct Ht as [|t t1 t2 Hs _]; [done|].
  by apply permitted_authenticated in Hs.
Qed.

Section strangers.
Context `{Sodium, Environment}.
Context (config : server_config).

(** A request on a connection that has not proven a key changes neither
    what is visible nor what is on disk. *)
Theorem strangers_change_nothing (type : message_type.t) (payload : bytes) (s : machine)
    (Hauto : autocommit (shared s)) (Hstranger : phase (session (connection s)) ≠ session_phase.authenticated) :
  let s' := (route_message config type (new_reader payload) s).2 in
  db_tables (db (shared s')) = db_tables (db (shared s)) ∧
  durable (db (shared s')) = durable (db (shared s)).
Proof.
  destruct (route_message_refines config type (new_reader payload) s (new_reader_ok _) Hauto) as [Ht Hs].
  cbv zeta. unfold durable at 2. rewrite Hauto. simpl.
  assert (db_tables (db (shared (route_message config type (new_reader payload) s).2))
          = db_tables (db (shared s))) as Et by (by eapply strangers_contract).
  split; [done|]. unfold durable. destruct (saved _) as [t|] eqn:E; simpl; [|done].
  by eapply strangers_contract, Hs.
Qed.
End strangers.

(** ** An account and the data of others *)

(** The rows that are not [mine] are the same before and after. *)
Definition untouched {K A} `{Countable K} (mine : K → A → Prop) (m m' : gmap K A) : Prop :=
  ∀ id r, ¬ mine id r → m !! id = Some r ↔ m' !! id = Some r.

(** The rows that are not [mine] are still there. *)
Definition kept {K A} `{Countable K} (mine : K → A → Prop) (m m' : gmap K A) : Prop :=
  ∀ id r, ¬ mine id r → m !! id = Some r → m' !! id = Some r.

Section untouched.
Context {K A : Type} `{Countable K} (mine : K → A → Prop).

#[export] Instance untouched_preorder : PreOrder (untouched (K:=K) mine).
Proof.
  split; [by intros m id r|]. intros m1 m2 m3 H1 H2 id r Hr. rewrite (H1 _ _ Hr). by apply H2.
Qed.

#[export] Instance kept_preorder : PreOrder (kept (K:=K) mine).
Proof. split; [by intros m id r|]. intros m1 m2 m3 H1 H2 id r Hr Hm. by apply H2, H1. Qed.

(** Writing a row of mine over a row of mine, or under a new key. *)
Lemma untouched_insert m id r :
  (∀ r', m !! id = Some r' → mine id r') → mine id r → untouched mine m (<[id := r]> m).
Proof.
  intros Hold Hnew i r' Hr'. rewrite lookup_insert. case_decide as E; [subst|done].
  split; [intros E; by apply Hold in E|]. by intros [= <-].
Qed.

Lemma untouched_delete m id :
  (∀ r', m !! id = Some r' → mine id r') → untouched mine m (delete id m).
Proof.
  intros Hold i r' Hr'. rewrite lookup_delete_Some. split; [|by intros [? ?]].
  intros E. split; [|done]. intros <-. by apply Hold in E.
Qed.

Lemma untouched_filter m (P : K * A → Prop) `{!∀ x, Decision (P x)} :
  (∀ id r, ¬ P (id, r) → mine id r) → untouched mine m (filter P m).
Proof.
  intros HP i r' Hr'. rewrite map_lookup_filter_Some. split; [|by intros [? ?]].
  intros E. split; [done|]. destruct (decide (P (i, r'))); [done|]. by destruct Hr'; auto.
Qed.

Lemma untouched_kept m m' : untouched mine m m' → kept mine m m'.
Proof. intros Hu id r Hr. by apply Hu. Qed.

Lemma kept_insert m id r :
  (∀ r', m !! id = Some r' → mine id r') → kept mine m (<[id := r]> m).
Proof.
  intros Hold i r' Hr' Hm. rewrite lookup_insert. case_decide as E; [subst|done].
  by apply Hold in Hm.
Qed.
End untouched.

(** What the account [me] with the key [key] leaves of the tables. *)
Record leaves_others (me : Z) (key : bytes) (t t' : tables) : Prop := LeavesOthers {
  others_users : t_users t' = t_users t;
  others_prekeys : untouched (λ owner _, owner = me) (t_prekeys t) (t_prekeys t');
  others_forums : untouched (λ _ r, forums.founder_id r = me) (t_forums t) (t_forums t');
  all_forums : kept (λ _ _, False) (t_forums t) (t_forums t');
  others_posts : untouched (λ _ r, posts.author_id r = me) (t_posts t) (t_posts t');
  others_comments : untouched (λ _ r, comments.author_id r = me) (t_comments t) (t_comments t');
  others_profiles : untouched (λ owner _, owner = me) (t_profiles t) (t_profiles t');
  others_friends : untouched (λ pair _, pair.1 = me) (t_friends t) (t_friends t');
  others_top8 : untouched (λ pair _, pair.1 = me) (t_top8 t) (t_top8 t');
  others_mail : kept (λ _ r, dm_envelopes.recipient_id r = me) (t_dm t) (t_dm t');
  no_forged_mail : untouched (λ _ r, dm_envelopes.recipient_id r = me ∨
    dm_envelopes.sender_pubkey r = key) (t_dm t) (t_dm t');
  others_reports : untouched (λ _ r, reports.reporter_id r = me) (t_reports t) (t_reports t');
  all_reports : kept (λ _ _, False) (t_reports t) (t_reports t');
  others_motd : t_motd t' = t_motd t;
}.

#[export] Instance leaves_others_preorder me key : PreOrder (leaves_others me key).
Proof.
  split; [intros t; by split|]. intros t1 t2 t3 [] [].
  split; try congruence; by etransitivity.
Qed.

(** An insertion with a new AUTOINCREMENT value overwrites no row. *)
Lemma next_id_unused {A} (P : Z → A → Prop) (m : gmap Z A) seq id r :
  m !! id = Some r → next_id seq = Some id → map_Forall P m → seq_ok seq →
  (∀ k a, P k a → 1 <= k <= seq) → False.
Proof.
  intros Hr Hid HP Hs Hb. destruct (next_id_ok _ _ Hs Hid) as [_ ->].
  by rewrite (fresh_key _ _ _ Hb HP) in Hr.
Qed.

Lemma permitted_leaves_others k t t' :
  is_registered k = true → tables_ok t → permitted k t t' →
  leaves_others (user_id k) (announced_pubkey k) t t'.
Proof.
  intros Hreg Hok Hp.
  assert (user_id k ≠ 0) as Hid.
  { unfold is_registered in Hreg. apply andb_true_iff in Hreg as [_ ?%negb_true_iff].
    by apply Z.eqb_neq. }
  destruct Hok as [_ _ (Hfs & Hf & _) [Hps Hpo] [Hcs Hco] _ _ _ [Hds Hd] [Hrs Hr]].
  destruct Hp; try done;
    unfold upsert_prekey, insert_forum, insert_post, insert_comment, upsert_profile, upsert_friend,
      insert_top8, insert_dm, insert_report in *; insertion_checks; split; try done; simpl.
  all: first
    [ apply untouched_insert | apply kept_insert | apply untouched_delete | apply untouched_filter
    | apply untouched_kept, untouched_delete ]; auto; intros; simplify_eq; auto.
  all: try by apply dec_stable.
  all: exfalso; eapply next_id_unused; [eassumption..|by intros ? ? [? _]].
Qed.

Section accounts.
Context `{Sodium, Environment}.
Context (config : server_config).

(** C10: a request of a registered session, processed outside of a transaction on
    well-formed tables, leaves the accounts, and the forums, posts, comments,
    profiles, friend lists, top 8s and reports of others as they are; no forum
    and no report goes away; mail goes away only for its recipient and new mail
    bears the session's key. Whatever fails during that request, this holds of
    what is visible and of what is on disk. (A request that finds the
    transaction of a failed COMMIT still open is excluded: a rollback there
    undoes changes of others.) *)
Theorem accounts_leave_others_alone (type : message_type.t) (payload : bytes) (s : machine)
    (Hauto : autocommit (shared s)) (Hok : tables_ok (db_tables (db (shared s))))
    (Hregistered : is_registered (session (connection s)) = true) :
  let s' := (route_message config type (new_reader payload) s).2 in
  let k := session (connection s) in
  leaves_others (user_id k) (announced_pubkey k) (db_tables (db (shared s))) (db_tables (db (shared s'))) ∧
  leaves_others (user_id k) (announced_pubkey k) (durable (db (shared s))) (durable (db (shared s'))).
Proof.
  cbv zeta. set (k := session (connection s)) in *. set (t0 := db_tables (db (shared s))) in *.
  set (J := λ t, tables_ok t ∧ leaves_others (user_id k) (announced_pubkey k) t0 t).
  assert (durable (db (shared s)) = t0) as -> by (unfold durable; by rewrite Hauto).
  assert (machine_holds J (route_message config type (new_reader payload) s).2) as [[_ Ht] Hs].
  { apply route_message_safe; [apply new_reader_ok| |by left|].
    - intros t t' [Htok Hl] Hp. split; [by eapply tables_ok_stable|].
      etransitivity; [exact Hl|]. by apply permitted_leaves_others.
    - apply autocommit_holds; [done|]. split; [done|]. reflexivity. }
  split; [done|]. unfold durable. destruct (saved _) as [t|] eqn:E; simpl; [|done].
  by apply Hs.
Qed.
End accounts.

(** ** Witnesses *)

Lemma requests_keep_to_contract_witness :
  let s' := (@route_message toy_sodium (failing_at 3 false) default_config
               message_type.post_create_request (new_reader (payload_of hello_world)) alice_machine).2 in
  rtc (permitted alice_session) populated (db_tables (db (shared s'))) ∧
  ∀ t, saved (db (shared s')) = Some t → rtc (permitted alice_session) populated t.
Proof.
  apply (@requests_keep_to_contract toy_sodium (failing_at 3 false) default_config
           message_type.post_create_request (payload_of hello_world) alice_machine). reflexivity.
Defined.

Lemma strangers_change_nothing_witness :
  let s' := (@route_message toy_sodium calm default_config
               message_type.post_create_request (new_reader (payload_of hello_world)) stranger_machine).2 in
  db_tables (db (shared s')) = populated ∧ durable (db (shared s')) = populated.
Proof.
  apply (@strangers_change_nothing toy_sodium calm default_config
           message_type.post_create_request (payload_of hello_world) stranger_machine);
    [reflexivity|discriminate].
Defined.

Lemma accounts_leave_others_alone_witness :
  let s' := (@route_message toy_sodium calm default_config message_type.post_delete_request
               (new_reader (payload_of (post_delete_request.mk 1))) alice_machine).2 in
  leaves_others 1 alice_key populated (db_tables (db (shared s'))) ∧
  leaves_others 1 alice_key populated (durable (db (shared s'))).
Proof.
  apply (@accounts_leave_others_alone toy_sodium calm default_config message_type.post_delete_request
           (payload_of (post_delete_request.mk 1)) alice_machine);
    [reflexivity|exact populated_ok|reflexivity].
Defined.
