(* ===== verification/Sessions.v ===== *)
(** The life of a session as a state machine: what the handlers do to the
    state of a connection is a path of the abstract steps below, so a session
    is authenticated only for a key whose holder signed its challenge, and its
    account is final. *)

From stdpp Require Import relations.
From S2P Require Import Prelude.
From S2P Require Import Wire.
From S2P Require Import Framing.
From S2P Require Import TextField.
From S2P Require Import Codec.
From S2P Require Import SessionMessages.
From S2P Require Import ContentMessages.
From S2P Require Import SocialMessages.
From S2P Require Import RateLimit.
From S2P Require Import Sodium.
From S2P Require Import Noise.
From S2P Require Import Config.
From S2P Require Import Connection.
From S2P Require Import Database.
From S2P Require Import Repositories.
From S2P Require Import SocialRepositories.
From S2P Require Import Handlers.
From S2P Require Import Server.
From S2P Require Import Effects.
From S2P Require Import Permissions.
From S2P Require Import Integrity.
From S2P Require Import Scenario.

(** ** The abstract machine *)

Section session_step.
Context `{Sodium}.

(** The signature proves the session's announced key for its challenge. *)
Definition proves_key (k : session_state) (signature : bytes) : Prop :=
  verify_signature (announced_pubkey k)
    (build_auth_signing_input (challenge_nonce k) (announced_pubkey k)) signature = true.

Inductive session_step (k : session_state) : session_state → Prop :=
  | handshake_done :
      phase k = session_phase.awaiting_handshake →
      session_step k (enter session_phase.awaiting_hello k)
  | request_dated now : session_step k (touch now k)
  | challenged pubkey nonce :
      phase k = session_phase.awaiting_hello →
      size_of pubkey = PUBLIC_KEY_SIZE → size_of nonce = AUTH_NONCE_SIZE →
      session_step k (enter session_phase.awaiting_auth (announce pubkey nonce k))
  | logged_in user signature :
      phase k = session_phase.awaiting_auth → proves_key k signature →
      Repositories.banned user = false → session_step k (accept_session user k)
  | key_proven signature :
      phase k = session_phase.awaiting_auth → proves_key k signature →
      session_step k (prove_key k)
  | registered_as user :
      phase k = session_phase.authenticated → user_id k = 0 →
      session_step k (accept_session user k).

(** What holds of a session from its first request on. *)
Record session_ok (k : session_state) : Prop := {
  account_needs_proof : user_id k ≠ 0 → phase k = session_phase.authenticated;
  authenticated_by_proof : phase k = session_phase.authenticated → ∃ signature, proves_key k signature;
}.

Lemma new_session_ok : session_ok new_session.
Proof. by split. Qed.

Lemma session_step_ok k k' : session_step k k' → session_ok k → session_ok k'.
Proof.
  intros Hstep [Ha Hp]. destruct Hstep; split; simpl; try done; intros Hx;
    first [by apply Ha | by apply Hp | by eexists | by specialize (Ha Hx); congruence].
Qed.

(** A session with an account keeps it, and its key. *)
Definition same_identity (k k' : session_state) : Prop :=
  phase k' = phase k ∧ announced_pubkey k' = announced_pubkey k ∧
  challenge_nonce k' = challenge_nonce k ∧ user_id k' = user_id k ∧
  Connection.handle k' = Connection.handle k.

Lemma session_step_identity k k' :
  session_step k k' → is_registered k = true → same_identity k k'.
Proof.
  unfold is_registered. intros Hstep [Hp%bool_decide_eq_true Hu%negb_true_iff%Z.eqb_neq]%andb_true_iff.
  by destruct Hstep; try congruence.
Qed.

Lemma same_identity_registered k k' :
  same_identity k k' → is_registered k = true → is_registered k' = true.
Proof. unfold is_registered. by intros (-> & _ & _ & -> & _). Qed.
End session_step.

(** ** What leaves the session alone *)

(** Whether the channel is established, and the descriptor. *)
Definition wire (c : client_connection) : bool * Z := (is_established (channel c), get_descriptor c).

Definition unmoved (s s' : machine) : Prop :=
  session (connection s') = session (connection s) ∧ wire (connection s') = wire (connection s).

#[export] Instance unmoved_preorder : PreOrder unmoved.
Proof. split; [by intros s|]. intros s1 s2 s3 [] []. split; congruence. Qed.

Section unmoved.
Context `{Sodium, Environment}.

Lemma on_world_unmoved {A} (m : state world A) : keeps unmoved (on_world m).
Proof. apply keeps_zoom. by intros s. Qed.

Lemma on_tracker_unmoved {A} (m : state rate_tracker A) : keeps unmoved (on_tracker m).
Proof. apply keeps_zoom. by intros s. Qed.

Lemma put_input_unmoved buffer : keeps unmoved (put_input buffer).
Proof. by intros s. Qed.

Lemma on_transport_established {A} (m : fallible noise_transport A) c :
  is_established (on_transport m c).2 = is_established c.
Proof. unfold on_transport, is_established. destruct c as [h [t|]]; simpl; [by destruct (m t)|done]. Qed.

Lemma queue_bytes_descriptor data k : descriptor_ (queue_bytes data k).2 = descriptor_ k.
Proof. unfold queue_bytes. by destruct (_ <? _). Qed.

Lemma send_raw_message_unmoved type payload c :
  session (send_raw_message type payload c).2 = session c ∧
  wire (send_raw_message type payload c).2 = wire c.
Proof.
  unfold send_raw_message, wire. destruct (encode_frame type payload) as [frame|]; [|done].
  unfold sbind, on_channel, zoom, seal_message.
  pose proof (on_transport_established (encrypt_message frame) (channel c)) as He.
  destruct (on_transport (encrypt_message frame) (channel c)) as [[sealed|] ch]; simpl in *;
    [|by rewrite He].
  unfold on_socket, zoom. simpl.
  pose proof (queue_bytes_descriptor (append_length_prefixed_message sealed []) (socket c)) as Hd.
  destruct (queue_bytes _ _). simpl in *. unfold get_descriptor. simpl. by rewrite He, Hd.
Qed.

Lemma send_message_unmoved {A} `{WireFormat A} type (m : A) : keeps unmoved (send_message type m).
Proof.
  intros s. unfold send_message, on_connection, zoom.
  pose proof (send_raw_message_unmoved type (target_ (write_to m (new_writer []))) (connection s)) as Hm.
  by destruct (send_raw_message _ _ _).
Qed.

Lemma send_status_error_unmoved code : keeps unmoved (send_status_error code).
Proof. apply send_message_unmoved. Qed.

Lemma send_status_ok_unmoved n : keeps unmoved (send_status_ok n).
Proof. apply send_message_unmoved. Qed.

Lemma get_session_unmoved : keeps unmoved get_session.
Proof. apply keeps_gets, _. Qed.

Lemma require_registered_unmoved : keeps unmoved require_registered_session.
Proof.
  pose proof send_status_error_unmoved. unfold require_registered_session. keeps_auto.
  apply get_session_unmoved.
Qed.

Lemma with_request_unmoved {A} `{WireFormat A} reader (handler : A → state machine bool) :
  (∀ a, keeps unmoved (handler a)) → keeps unmoved (with_request reader handler).
Proof. intros Hh. unfold with_request. by destruct (read_from reader) as [[a|] r]; simpl; [|keeps_auto]. Qed.

Lemma or_error_unmoved {A} (found : option A) code (handler : A → state machine bool) :
  (∀ a, keeps unmoved (handler a)) → keeps unmoved (or_error found code handler).
Proof. intros Hh. destruct found; simpl; [by apply Hh|apply send_status_error_unmoved]. Qed.

Lemma registered_unmoved (handler : session_state → state machine bool) :
  (∀ k, keeps unmoved (handler k)) → keeps unmoved (registered handler).
Proof.
  pose proof require_registered_unmoved. pose proof get_session_unmoved.
  intros Hh. unfold registered. keeps_auto.
Qed.
End unmoved.

#[export] Hint Resolve on_world_unmoved on_tracker_unmoved put_input_unmoved send_message_unmoved
  send_status_error_unmoved send_status_ok_unmoved get_session_unmoved : keeps.

(** Every handler behind the session guard leaves the session alone. *)
Ltac unmoved_auto :=
  repeat first
    [ progress keeps_auto
    | apply registered_unmoved; intros
    | refine (with_request_unmoved _ _ _); intros
    | apply or_error_unmoved; intros ].

Section guarded.
Context `{Sodium, Environment}.
Context (config : server_config).

Lemma checkpoint_unmoved : keeps unmoved (checkpoint_after_deletion config).
Proof. unfold checkpoint_after_deletion. keeps_auto. Qed.
#[local] Hint Resolve checkpoint_unmoved : keeps.

Lemma ping_unmoved reader : keeps unmoved (handle_ping_request reader).
Proof. unfold handle_ping_request. unmoved_auto. Qed.

(** The families other than the session's. *)
Lemma content_unmoved type handler reader :
  route_content_family config type = Some handler → keeps unmoved (handler reader).
Proof.
  destruct type; simpl; intros; simplify_eq;
    unfold handle_forum_create_request, handle_forum_list_request, handle_post_create_request,
      handle_post_list_request, handle_thread_fetch_request, handle_comment_create_request,
      handle_post_delete_request, handle_comment_delete_request; unmoved_auto.
Qed.

Lemma social_unmoved type handler reader :
  route_social_family type = Some handler → keeps unmoved (handler reader).
Proof.
  destruct type; simpl; intros; simplify_eq;
    unfold handle_prekey_publish_request, handle_prekey_fetch_request, handle_profile_get_request,
      handle_profile_set_request, handle_friend_add_request, handle_friend_list_request,
      handle_top8_set_request, handle_top8_get_request; unmoved_auto.
Qed.

Lemma dm_unmoved type handler reader :
  route_dm_family type = Some handler → keeps unmoved (handler reader).
Proof.
  destruct type; simpl; intros; simplify_eq;
    unfold handle_dm_send_request, handle_dm_fetch_request, handle_dm_ack_request; unmoved_auto.
Qed.

Lemma report_unmoved type handler reader :
  route_report_family type = Some handler → keeps unmoved (handler reader).
Proof.
  destruct type; simpl; intros; simplify_eq;
    unfold handle_report_post_request, handle_report_account_request; unmoved_auto.
Qed.
End guarded.

(** ** The session handlers, step by step *)

(** The session of the connection is [k], and what is under it is [b]. *)
Definition at_ (k : session_state) (b : bool * Z) (s : machine) : Prop :=
  session (connection s) = k ∧ wire (connection s) = b.

Section handlers.
Context `{Sodium, Environment, !EnvironmentLaws}.
Context (config : server_config).

Definition moves (k : session_state) (b : bool * Z) (s : machine) : Prop :=
  ∃ k', rtc session_step k k' ∧ at_ k' b s.

Lemma moves_none k b s : at_ k b s → moves k b s.
Proof. intros Hs. exists k. split; [apply rtc_refl|done]. Qed.

Lemma moves_one k k' b s : session_step k k' → at_ k' b s → moves k b s.
Proof. intros Hk Hs. exists k'. split; [by apply rtc_once|done]. Qed.

Lemma moves_trans k k' b s : rtc session_step k k' → moves k' b s → moves k b s.
Proof. intros Hk (k'' & Hk' & Hs). exists k''. split; [by etransitivity|done]. Qed.

(** Actions that leave the session, and those that set it. *)
Lemma steady {A} (m : state machine A) k b : keeps unmoved m → triple (at_ k b) m (λ _, at_ k b).
Proof. intros Hm s [<- <-]. apply Hm. Qed.

Lemma put_session_at k k' b : triple (at_ k b) (put_session k') (λ _, at_ k' b).
Proof. by intros s [_ Hb]. Qed.

Lemma get_session_at k b : triple (at_ k b) get_session (λ k' s, k' = k ∧ at_ k b s).
Proof. intros s [<- <-]. done. Qed.

Lemma get_session_bind {A} k b (f : session_state → state machine A) Q :
  triple (at_ k b) (f k) Q → triple (at_ k b) (sbind get_session f) Q.
Proof. intros Hf s Hs. pose proof Hs as [<- _]. by apply Hf. Qed.

Lemma steady_bind {A B} k b (m : state machine A) (f : A → state machine B) Q :
  keeps unmoved m → (∀ a, triple (at_ k b) (f a) Q) → triple (at_ k b) (sbind m f) Q.
Proof. intros Hm Hf. by eapply triple_bind; [apply steady|]. Qed.

Lemma put_session_bind {A} k k' b (f : unit → state machine A) Q :
  triple (at_ k' b) (f tt) Q → triple (at_ k b) (sbind (put_session k') f) Q.
Proof. intros Hf. eapply triple_bind; [apply put_session_at|]. by intros []. Qed.

Lemma steady_moves {A} (m : state machine A) k b :
  keeps unmoved m → triple (at_ k b) m (λ _, moves k b).
Proof. intros Hm s Hs. by apply moves_none, steady. Qed.

Lemma steady_moves_to {A} (m : state machine A) k k' b :
  session_step k k' → keeps unmoved m → triple (at_ k' b) m (λ _, moves k b).
Proof. intros Hk Hm s Hs. by apply (moves_one _ k'), steady. Qed.

Lemma with_request_at {A} `{WireLaws A} reader (handler : A → state machine bool) k b :
  reader_ok reader →
  (∀ a, well_formed a → triple (at_ k b) (handler a) (λ _, moves k b)) →
  triple (at_ k b) (with_request reader handler) (λ _, moves k b).
Proof.
  intros Hr Hh. unfold with_request.
  destruct (read_from reader) as [[a|] r'] eqn:E; simpl; [|apply triple_ret, moves_none].
  destruct (read_from_canonical _ _ _ Hr E) as (e & _ & _ & _ & Ha & _). by apply Hh.
Qed.

Lemma fill_random_size n : 0 <= n → triple (λ _ : world, True) (fill_random_bytes n) (λ bs _, size_of bs = n).
Proof.
  intros Hn w _. unfold fill_random_bytes. destruct (Z.eqb_spec n 0) as [->|]; simpl; [done|].
  by apply random_bytes_size.
Qed.

Lemma draw_bind {A} k b n (f : bytes → state machine A) Q :
  0 <= n → (∀ bs, size_of bs = n → triple (at_ k b) (f bs) Q) →
  triple (at_ k b) (sbind (on_world (fill_random_bytes n)) f) Q.
Proof.
  intros Hn Hf s Hs. unfold sbind. pose proof (fill_random_size n Hn (shared s) I) as Hsize.
  pose proof (steady (on_world (fill_random_bytes n)) k b (on_world_unmoved _) s Hs) as Hs'.
  unfold on_world, zoom in *. destruct (fill_random_bytes n (shared s)) as [bs w]. simpl in *.
  by apply Hf.
Qed.

Lemma hello_moves reader k b : reader_ok reader →
  triple (at_ k b) (handle_hello_request reader) (λ _, moves k b).
Proof.
  intros Hr. unfold handle_hello_request. apply get_session_bind.
  destruct (bool_decide _) eqn:Hp; simpl; [|by apply steady_moves, send_status_error_unmoved].
  apply bool_decide_eq_true in Hp. apply with_request_at; [done|intros request Hw].
  destruct (_ =? _); simpl; [|by apply steady_moves, send_status_error_unmoved].
  apply draw_bind; [done|intros nonce Hn]. apply put_session_bind.
  apply steady_bind; [apply on_world_unmoved|intros existing].
  apply steady_bind; [apply on_world_unmoved|intros now].
  apply put_session_bind. apply steady_moves_to; [|apply send_message_unmoved].
  apply challenged; [done|apply Hw|done].
Qed.

Lemma send_accepted_moves user k k0 b : session_step k0 (accept_session user k) →
  triple (at_ k b) (send_accepted_session user) (λ _, moves k0 b).
Proof.
  intros Hk. unfold send_accepted_session. apply get_session_bind, put_session_bind.
  apply (steady_moves_to _ _ (accept_session user k)); [done|]. keeps_auto.
Qed.

Lemma auth_moves reader k b : reader_ok reader →
  triple (at_ k b) (handle_auth_response reader) (λ _, moves k b).
Proof.
  intros Hr. unfold handle_auth_response. apply get_session_bind.
  destruct (bool_decide _) eqn:Hp; simpl; [|by apply steady_moves, send_status_error_unmoved].
  apply bool_decide_eq_true in Hp. apply with_request_at; [done|intros response Hw].
  destruct (verify_signature _ _ _) eqn:Hv; simpl; [|by apply triple_ret, moves_none].
  apply steady_bind; [apply on_world_unmoved|intros [user|]].
  - destruct (Repositories.banned user) eqn:Hb; [by apply steady_moves, send_status_error_unmoved|].
    apply send_accepted_moves. by eapply logged_in.
  - apply put_session_bind, steady_moves_to; [by eapply key_proven|apply send_status_ok_unmoved].
Qed.

Lemma register_moves reader k b : reader_ok reader →
  triple (at_ k b) (handle_register_request config reader) (λ _, moves k b).
Proof.
  intros Hr. unfold handle_register_request. apply get_session_bind.
  destruct (_ || _) eqn:Eg; [by apply steady_moves, send_status_error_unmoved|].
  apply orb_false_iff in Eg as [Hp%negb_false_iff%bool_decide_eq_true Hu%negb_false_iff%Z.eqb_eq].
  destruct (registration_open config); simpl; [|by apply steady_moves, send_status_error_unmoved].
  apply with_request_at; [done|intros request Hw].
  destruct (validate_handle _); simpl; [|by apply steady_moves, send_status_error_unmoved].
  apply steady_bind; [apply on_world_unmoved|intros [id|]]; simpl;
    [|by apply steady_moves, send_status_error_unmoved].
  apply steady_bind; [apply on_world_unmoved|intros [user|]]; simpl;
    [|by apply steady_moves, send_status_error_unmoved].
  apply steady_bind; [apply on_world_unmoved|intros _].
  by apply send_accepted_moves, registered_as.
Qed.
End handlers.

(** ** Whole connections *)

Section connections.
Context `{Sodium, Environment, !EnvironmentLaws}.
Context (config : server_config).

Lemma route_message_moves type reader k b : reader_ok reader →
  triple (at_ k b) (route_message config type reader) (λ _, moves k b).
Proof.
  intros Hr. unfold route_message. destruct (route_session_family config type) as [handler|] eqn:Es.
  { destruct type; simpl in Es; simplify_eq;
      first [by apply hello_moves | by apply auth_moves | by apply register_moves
            | apply steady_moves, ping_unmoved]. }
  apply steady_moves.
  destruct (route_content_family config type) eqn:Ec; [by eapply content_unmoved|].
  destruct (route_social_family type) eqn:Eo; [by eapply social_unmoved|].
  destruct (route_dm_family type) eqn:Ed; [by eapply dm_unmoved|].
  destruct (route_report_family type) eqn:Er; [by eapply report_unmoved|].
  apply send_status_error_unmoved.
Qed.

Lemma dispatch_moves frame k b :
  triple (at_ k b) (dispatch_application_frame config frame) (λ _, moves k b).
Proof.
  unfold dispatch_application_frame. destruct (decode_frame_header frame) as [header|];
    [|apply triple_ret, moves_none].
  destruct (_ =? _); simpl; [|apply triple_ret, moves_none].
  apply get_session_bind, steady_bind; [apply on_world_unmoved|intros now].
  apply steady_bind; [apply on_tracker_unmoved|intros [|]]; simpl;
    [|apply steady_moves, send_status_error_unmoved].
  apply put_session_bind. intros s Hs.
  apply (moves_trans _ (touch now k)); [apply rtc_once, request_dated|].
  by apply route_message_moves; [apply new_reader_ok|].
Qed.

(** Until the handshake is done the session awaits it. *)
Definition coupled (c : client_connection) : Prop :=
  is_established (channel c) = false → phase (session c) = session_phase.awaiting_handshake.

(** What processing input does to a connection: steps of its session. *)
Definition evolves (s s' : machine) : Prop :=
  coupled (connection s) →
  coupled (connection s') ∧ rtc session_step (session (connection s)) (session (connection s')) ∧
  get_descriptor (connection s') = get_descriptor (connection s).

#[export] Instance evolves_preorder : PreOrder evolves.
Proof.
  split; [intros s Hs; split_and!; [done|apply rtc_refl|done]|].
  intros s1 s2 s3 H12 H23 Hs. destruct (H12 Hs) as (Hs2 & Hr & D12).
  destruct (H23 Hs2) as (Hs3 & Hr' & D23). split_and!; [done|by etransitivity|congruence].
Qed.

Lemma unmoved_evolves {A} (m : state machine A) : keeps unmoved m → keeps evolves m.
Proof.
  intros Hm s Hs. destruct (Hm s) as [E1 [= E2 E3]].
  unfold coupled. rewrite E1, E2. split_and!; [done|apply rtc_refl|done].
Qed.

(** A step of an established connection. *)
Lemma moves_evolves {A} (m : state machine A) s k b :
  at_ k b s → b.1 = true → triple (at_ k b) m (λ _, moves k b) →
  coupled (connection (m s).2) ∧ rtc session_step k (session (connection (m s).2)) ∧
  get_descriptor (connection (m s).2) = b.2.
Proof.
  intros Hs He Hm. destruct (Hm s Hs) as (k' & Hk & E1 & E2). unfold coupled, wire in *.
  subst b. simpl in *. rewrite E1, He. by split_and!.
Qed.

Lemma open_message_unmoved message : keeps unmoved (on_connection (on_channel (open_message message))).
Proof.
  intros s. unfold on_connection, on_channel, zoom.
  pose proof (on_transport_established (decrypt_message message) (channel (connection s))) as He.
  unfold open_message. destruct (on_transport _ _). simpl in *. unfold unmoved, wire. simpl. by rewrite He.
Qed.

Lemma draw_keypair_unmoved : keeps unmoved draw_keypair.
Proof. apply on_world_unmoved. Qed.

Lemma accept_handshake_established keypair message c :
  match accept_handshake_message keypair message c with
  | (Some _, c') => is_established c = false ∧ is_established c' = true
  | (None, c') => is_established c' = is_established c
  end.
Proof.
  unfold accept_handshake_message, ensure. destruct c as [h [t|]]; [done|].
  unfold fbind, on_handshake, zoom. simpl.
  destruct (read_first_message message h) as [[p|] h1]; [|done]. simpl.
  destruct (write_second_message keypair [] h1) as [[reply|] h2]; [|done]. simpl.
  by destruct (r_export_transport_keys h2) as [[k1 k2]|].
Qed.

Lemma advance_handshake_evolves message : keeps evolves (advance_handshake message).
Proof.
  unfold advance_handshake. apply keeps_bind; [apply _|apply unmoved_evolves, draw_keypair_unmoved|].
  intros keypair s. unfold sbind at 1, on_connection at 1, on_channel, zoom.
  pose proof (accept_handshake_established keypair message (channel (connection s))) as Ha.
  destruct (accept_handshake_message _ _ _) as [[reply|] ch]; simpl in *.
  - destruct Ha as [Hb He].
    match goal with |- context [sbind ?m ?f ?s1] => set (s' := s1) end.
    intros Hs. specialize (Hs Hb).
    apply (moves_evolves _ s' (session (connection s)) (true, get_descriptor (connection s)));
      [unfold at_, wire; simpl; by rewrite He|done|].
    apply steady_bind.
    { intros s1. unfold on_connection, on_socket, zoom.
      pose proof (queue_bytes_descriptor (append_length_prefixed_message reply []) (socket (connection s1))) as Hq.
      destruct (queue_bytes _ _). simpl in *. unfold unmoved, wire, get_descriptor. simpl. by rewrite Hq. }
    intros [|]; simpl; [|apply triple_ret, moves_none]. apply get_session_bind, put_session_bind.
    intros s1 Hs1. apply (moves_one _ (enter session_phase.awaiting_hello (session (connection s))));
      [by apply handshake_done|done].
  - intros Hs. unfold coupled. simpl. rewrite Ha. split_and!; [done|apply rtc_refl|done].
Qed.

Lemma process_message_evolves message : keeps evolves (process_message config message).
Proof.
  intros s. unfold process_message, sbind at 1, sgets.
  destruct (is_established (channel (connection s))) eqn:He; simpl; [|apply advance_handshake_evolves].
  intros _. apply (moves_evolves _ s _ (wire (connection s))); [done|done|].
  apply steady_bind; [apply open_message_unmoved|].
  intros [frame|]; [apply dispatch_moves|apply triple_ret, moves_none].
Qed.

Lemma process_messages_evolves fuel : keeps evolves (process_messages config fuel).
Proof.
  pose proof process_message_evolves.
  pose proof (λ buffer, unmoved_evolves _ (put_input_unmoved buffer)).
  induction fuel as [|fuel IH]; simpl; keeps_auto.
Qed.

Lemma process_connection_input_evolves answers : keeps evolves (process_connection_input config answers).
Proof.
  pose proof process_messages_evolves.
  pose proof (λ buffer, unmoved_evolves _ (put_input_unmoved buffer)).
  unfold process_connection_input. keeps_auto.
Qed.
End connections.

(** ** The account behind a session *)

(** The session and what is in the database are left alone. *)
Definition idle (s s' : machine) : Prop :=
  session (connection s') = session (connection s) ∧ quiet (shared s) (shared s').

#[export] Instance idle_preorder : PreOrder idle.
Proof.
  split; [intros s; split; [done|reflexivity]|].
  intros s1 s2 s3 [E1 Q1] [E2 Q2]. split; [congruence|by etransitivity].
Qed.

Section idle.
Context `{Sodium, Environment}.

Lemma on_world_idle {A} (m : state world A) : keeps quiet m → keeps idle (on_world m).
Proof. intros Hm. apply keeps_zoom. intros s. by split; [|apply Hm]. Qed.

Lemma send_message_idle {A} `{WireFormat A} type (m : A) : keeps idle (send_message type m).
Proof.
  intros s. split; [apply send_message_unmoved|]. unfold send_message, on_connection, zoom.
  by destruct (send_raw_message _ _ _).
Qed.

Lemma send_status_error_idle code : keeps idle (send_status_error code).
Proof. apply send_message_idle. Qed.

Lemma send_status_ok_idle n : keeps idle (send_status_ok n).
Proof. apply send_message_idle. Qed.

(** What a lookup found was there. *)
Lemma find_one_found {A B} (q : tables → list A) (read : A → option B) w b w' :
  find_one q read w = (Some b, w') → ∃ a, a ∈ q (db_tables (db w)) ∧ read a = Some b.
Proof.
  unfold find_one, prepare, query, step_row, sbind, sgets.
  destruct (sql_fails (calls w)); simpl; [done|]. destruct (sql_fails (S (calls w))); simpl; [done|].
  destruct (q (db_tables (db w))) as [|a l]; simpl; intros E; unfold sret in E; simplify_eq.
  exists a. split; [apply list_elem_of_here|done].
Qed.

Lemma read_user_row_Some row user : read_user_row row = Some user →
  row = (Repositories.id user, users.Row (Repositories.pubkey user) (Repositories.handle user)
           (Repositories.banned user)).
Proof.
  destruct row as [i [key h b]]. unfold read_user_row, read_key. simpl.
  destruct (_ =? _); [|done]. intros E. by simplify_eq/=.
Qed.

Lemma rows_where_elem {A} (P : A → bool) (m : gmap Z A) i r :
  (i, r) ∈ rows_where P m ↔ m !! i = Some r ∧ P r = true.
Proof.
  unfold rows_where. rewrite list_elem_of_In, filter_In, <-list_elem_of_In, elem_of_map_to_list. done.
Qed.

Lemma by_id_elem {A} (m : gmap Z A) i j r : (j, r) ∈ by_id i m ↔ j = i ∧ m !! i = Some r.
Proof.
  unfold by_id. destruct (m !! i) as [r'|]; rewrite ?list_elem_of_singleton; split.
  - by intros [= -> ->].
  - by intros [-> [= ->]].
  - by intros ?%not_elem_of_nil.
  - by intros [_ ?].
Qed.

Lemma find_by_pubkey_found key w user w' : find_by_pubkey key w = (Some user, w') →
  t_users (db_tables (db w)) !! Repositories.id user =
    Some (users.Row key (Repositories.handle user) (Repositories.banned user)).
Proof.
  intros ([i r] & Hin & E%read_user_row_Some)%find_one_found. simplify_eq.
  by apply rows_where_elem in Hin as [? <-%bool_decide_eq_true].
Qed.

Lemma find_user_by_id_found i w user w' : find_user_by_id i w = (Some user, w') →
  Repositories.id user = i ∧
  t_users (db_tables (db w)) !! i =
    Some (users.Row (Repositories.pubkey user) (Repositories.handle user) (Repositories.banned user)).
Proof.
  intros ([j r] & Hin & E%read_user_row_Some)%find_one_found. simplify_eq.
  by apply by_id_elem in Hin as [-> ?].
Qed.
End idle.

#[export] Hint Resolve send_message_idle send_status_error_idle send_status_ok_idle : keeps.
#[export] Hint Extern 1 (keeps idle (on_world _)) =>
  apply on_world_idle; solve [eauto 2 with keeps nocore] : keeps.

Section accounts.
Context `{Sodium, Environment}.
Context (config : server_config).

(** The session's account is the one of its key, and is not banned. *)
Definition opens_own_account (k : session_state) (t : tables) : Prop :=
  t_users t !! user_id k = Some (users.Row (announced_pubkey k) (Connection.handle k) false).

(** The session is [k] and the database holds [t], outside of a transaction. *)
Definition over (k : session_state) (t : tables) (s : machine) : Prop :=
  session (connection s) = k ∧ autocommit (shared s) ∧ db_tables (db (shared s)) = t.

Definition opens (user : Z) (s : machine) : Prop :=
  user_id (session (connection s)) = user ∨ user_id (session (connection s)) = 0 ∨
  opens_own_account (session (connection s)) (db_tables (db (shared s))).

Lemma idle_over {A} (m : state machine A) k t : keeps idle m → triple (over k t) m (λ _, over k t).
Proof.
  intros Hm s (<- & Ha & <-). destruct (Hm s) as [Hk Hq]. specialize (Hq Ha).
  unfold over, autocommit. rewrite Hq, Hk. by split_and!.
Qed.

Lemma idle_opens {A} (m : state machine A) s user : keeps idle m → autocommit (shared s) →
  opens user s → opens user (m s).2.
Proof.
  intros Hm Ha. destruct (Hm s) as [Hk Hq]. unfold opens. by rewrite Hk, (Hq Ha).
Qed.

Lemma send_accepted_opens user s :
  autocommit (shared s) →
  t_users (db_tables (db (shared s))) !! Repositories.id user =
    Some (users.Row (announced_pubkey (session (connection s))) (Repositories.handle user) false) →
  ∀ old, opens old (send_accepted_session user s).2.
Proof.
  intros Ha Hu old. unfold send_accepted_session, get_session, sbind at 1, sgets.
  unfold sbind at 1. unfold put_session at 1, on_connection at 1, zoom. simpl.
  apply idle_opens; [|done|by right; right]. unfold find_active_motd. keeps_auto.
Qed.
End accounts.

Section login.
Context `{Sodium, Environment}.
Context (config : server_config).

(** Leaving session and database alone opens nothing. *)
Lemma idle_stays {A} (m : state machine A) s :
  keeps idle m → autocommit (shared s) → opens (user_id (session (connection s))) (m s).2.
Proof. intros Hm Ha. apply idle_opens; [done..|by left]. Qed.

Lemma unmoved_opens {A} (m : state machine A) s :
  keeps unmoved m → opens (user_id (session (connection s))) (m s).2.
Proof. intros Hm. left. by destruct (Hm s) as [-> _]. Qed.

Lemma steady_account {A} (m : state machine A) k b user :
  user_id k = user → keeps unmoved m → triple (at_ k b) m (λ _, opens user).
Proof. intros Hk Hm s [E1 E2]. left. destruct (Hm s) as [-> _]. by rewrite E1. Qed.

Lemma hello_opens reader s : opens (user_id (session (connection s))) (handle_hello_request reader s).2.
Proof.
  set (k := session (connection s)).
  enough (triple (at_ k (wire (connection s))) (handle_hello_request reader)
    (λ _, opens (user_id k))) as Hm by (by apply Hm).
  unfold handle_hello_request. apply get_session_bind.
  destruct (negb _); [by apply steady_account, send_status_error_unmoved|].
  unfold with_request. destruct (read_from reader) as [[request|] r]; simpl;
    [|by apply steady_account; [|keeps_auto]].
  destruct (negb _); [by apply steady_account, send_status_error_unmoved|].
  apply steady_bind; [apply on_world_unmoved|intros nonce]. apply put_session_bind.
  apply steady_bind; [apply on_world_unmoved|intros existing].
  apply steady_bind; [apply on_world_unmoved|intros now].
  by apply put_session_bind, steady_account, send_message_unmoved.
Qed.

Lemma auth_opens reader s : autocommit (shared s) →
  opens (user_id (session (connection s))) (handle_auth_response reader s).2.
Proof.
  intros Ha. unfold handle_auth_response, get_session, sbind at 1, sgets.
  destruct (negb _) eqn:Hp; [exact (idle_stays _ s (send_status_error_idle _) Ha)|].
  unfold with_request. destruct (read_from reader) as [[response|] r]; simpl; [|by left].
  destruct (negb (verify_signature _ _ _)); [by left|].
  unfold sbind at 1, on_world, zoom.
  assert (keeps quiet (find_by_pubkey (announced_pubkey (session (connection s))))) as Hq
    by apply find_one_quiet.
  specialize (Hq (shared s) Ha).
  destruct (find_by_pubkey _ _) as [[user|] w1] eqn:E; simpl in *.
  - pose proof (find_by_pubkey_found _ _ _ _ E) as Hu.
    destruct (Repositories.banned user) eqn:Hb.
    + apply (idle_stays _ (Machine w1 (tracker s) (connection s))); [apply send_status_error_idle|].
      unfold autocommit. simpl. by rewrite Hq.
    + apply send_accepted_opens; simpl; [unfold autocommit; by rewrite Hq|by rewrite Hq, Hu].
  - right. left.
    match goal with |- user_id (session (connection (sbind _ _ ?s1).2)) = _ =>
      destruct (send_status_ok_unmoved 0 (put_session (prove_key (session (connection s))) s1).2) as [Es _]
    end. unfold sbind. simpl in *. by rewrite Es.
Qed.

(** Filling in a profile leaves the accounts alone. *)
Lemma replace_profile_users user_id request w : autocommit w →
  autocommit (replace_profile user_id request w).2 ∧
  t_users (db_tables (db (replace_profile user_id request w).2)) = t_users (db_tables (db w)).
Proof.
  intros Ha. unfold replace_profile, run_statement, sbind, prepare.
  destruct (sql_fails (calls w)); simpl; [done|].
  match goal with |- context [step_done ?st ?w1] =>
    pose proof (step_done_autocommit st w1 Ha) as Hs; destruct (step_done st w1) as [[|] w2] end;
    simpl in *; destruct Hs as [Hs Hw]; [|by rewrite Hw].
  destruct Hw as (o & E & -> & _). split; [done|].
  unfold upsert_profile in E. by destruct (negb _); simplify_eq/=.
Qed.

Lemma register_opens reader s : autocommit (shared s) →
  opens (user_id (session (connection s))) (handle_register_request config reader s).2.
Proof.
  intros Ha. unfold handle_register_request, get_session, sbind at 1, sgets.
  set (k := session (connection s)).
  destruct (_ || _); [exact (idle_stays _ s (send_status_error_idle _) Ha)|].
  destruct (negb _); [exact (idle_stays _ s (send_status_error_idle _) Ha)|].
  unfold with_request. destruct (read_from reader) as [[request|] r]; simpl; [|by left].
  destruct (negb _); [exact (idle_stays _ s (send_status_error_idle _) Ha)|].
  unfold sbind at 1, on_world at 1, zoom.
  pose proof (create_user_autocommit (announced_pubkey k) (register_request.handle request) (shared s) Ha) as H1.
  destruct (create_user _ _ _) as [[id|] w1] eqn:E1; simpl; destruct H1 as [Hs1 H1];
    [|exact (idle_stays _ (Machine w1 (tracker s) (connection s)) (send_status_error_idle _) Hs1)].
  unfold sbind at 1, on_world at 1, zoom. simpl.
  assert (keeps quiet (find_user_by_id id)) as Hq by apply find_one_quiet. specialize (Hq w1 Hs1).
  destruct (find_user_by_id id w1) as [created w2] eqn:E2. simpl in Hq.
  assert (autocommit w2) as Hs2 by (unfold autocommit; by rewrite Hq).
  destruct created as [user|]; simpl;
    [|exact (idle_stays _ (Machine w2 (tracker s) (connection s)) (send_status_error_idle _) Hs2)].
  apply find_user_by_id_found in E2 as [<- Hu].
  rewrite (insert_user_row _ _ _ _ _ H1), lookup_insert_eq in Hu. injection Hu as Hkey Hhandle Hban.
  destruct (replace_profile_users (Repositories.id user) empty_profile w2 Hs2) as [Hs3 Hu3].
  unfold sbind at 1, on_world, zoom. simpl.
  destruct (replace_profile (Repositories.id user) empty_profile w2) as [ok w3]. simpl in *.
  apply send_accepted_opens; simpl; [done|].
  rewrite Hu3, Hq, (insert_user_row _ _ _ _ _ H1), lookup_insert_eq, Hhandle. done.
Qed.

(** C12: when a request gives a session an account, outside of a transaction,
    it is the one stored under the session's announced key, with its handle,
    and it is not banned, whatever calls fail. *)
Theorem login_opens_own_account (type : message_type.t) (payload : bytes) (s : machine)
    (Hauto : autocommit (shared s)) :
  let s' := (route_message config type (new_reader payload) s).2 in
  let k' := session (connection s') in
  user_id k' = user_id (session (connection s)) ∨ user_id k' = 0 ∨
  opens_own_account k' (db_tables (db (shared s'))).
Proof.
  cbv zeta. fold (opens (user_id (session (connection s)))
    (route_message config type (new_reader payload) s).2).
  unfold route_message.
  destruct (route_session_family config type) as [handler|] eqn:Es.
  { destruct type; simpl in Es; simplify_eq;
      first [by apply hello_opens | by apply auth_opens | by apply register_opens
            | apply unmoved_opens, ping_unmoved]. }
  destruct (route_content_family config type) eqn:Ec; [by eapply unmoved_opens, content_unmoved|].
  destruct (route_social_family type) eqn:Eo; [by eapply unmoved_opens, social_unmoved|].
  destruct (route_dm_family type) eqn:Ed; [by eapply unmoved_opens, dm_unmoved|].
  destruct (route_report_family type) eqn:Er; [by eapply unmoved_opens, report_unmoved|].
  apply unmoved_opens, send_status_error_unmoved.
Qed.
End login.

Section identity.
Context `{Sodium, Environment, !EnvironmentLaws}.
Context (config : server_config).

Lemma session_run_ok k k' : rtc session_step k k' → session_ok k → session_ok k'.
Proof. induction 1; eauto using session_step_ok. Qed.

Lemma session_run_identity k k' :
  rtc session_step k k' → is_registered k = true → same_identity k k'.
Proof.
  induction 1 as [k|k1 k2 k3 Hstep _ IH]; intros Hk; [done|].
  pose proof (session_step_identity _ _ Hstep Hk) as H12.
  pose proof (IH (same_identity_registered _ _ H12 Hk)) as H23.
  unfold same_identity in *. intuition congruence.
Qed.

(** C13: once a session has an account, no input changes its phase, its key,
    its challenge, its account or its handle. *)
Theorem identity_is_final (answers : list recv_result) (s : machine)
    (Hcoupled : coupled (connection s)) (Hregistered : is_registered (session (connection s)) = true) :
  same_identity (session (connection s))
    (session (connection (process_connection_input config answers s).2)).
Proof.
  destruct (process_connection_input_evolves config answers s Hcoupled) as (_ & Hrun & _).
  by apply session_run_identity.
Qed.
End identity.

(** ** Witnesses *)

Definition signed_in : auth_response.t :=
  auth_response.mk (pad 64 (alice_key ++ build_auth_signing_input (replicate 32 Byte.x00) alice_key)).

Lemma login_opens_own_account_witness :
  let s := machine_of populated (session_of session_phase.awaiting_auth alice_key 0) in
  let s' := (@route_message toy_sodium calm default_config message_type.auth_response
               (new_reader (payload_of signed_in)) s).2 in
  user_id (session (connection s')) = 1 ∧
  (user_id (session (connection s')) = 0 ∨ user_id (session (connection s')) = 0 ∨
   opens_own_account (session (connection s')) (db_tables (db (shared s')))).
Proof.
  split; [vm_compute; reflexivity|].
  apply (@login_opens_own_account toy_sodium calm default_config message_type.auth_response
           (payload_of signed_in)
           (machine_of populated (session_of session_phase.awaiting_auth alice_key 0))).
  reflexivity.
Defined.

Lemma identity_is_final_witness :
  same_identity alice_session
    (session (connection (@process_connection_input toy_sodium calm default_config
       [Received (sealed_request message_type.hello_request (hello_request.mk PROTOCOL_VERSION bob_key))]
       alice_machine).2)).
Proof.
  apply (@identity_is_final toy_sodium calm (scripted_laws _ _) default_config
    [Received (sealed_request message_type.hello_request (hello_request.mk PROTOCOL_VERSION bob_key))]
    alice_machine); [discriminate|reflexivity].
Defined.
