(* ===== verification/Runtime.v ===== *)
(** The server as a whole (server/net/server_runtime): accepting connections,
    serving a ready descriptor, the admin socket, the periodic sweep; and what
    holds of every state the server reaches. *)

From stdpp Require Import relations.
From S2P Require Import Prelude.
From S2P Require Import Wire.
From S2P Require Import Framing.
From S2P Require Import TextField.
From S2P Require Import Codec.
From S2P Require Import SessionMessages.
From S2P Require Import ContentMessages.
From S2P Require Import SocialMessages.
From S2P Require Import Hex.
From S2P Require Import RateLimit.
From S2P Require Import Sodium.
From S2P Require Import Noise.
From S2P Require Import Config.
From S2P Require Import Connection.
From S2P Require Import Database.
From S2P Require Import Repositories.
From S2P Require Import SocialRepositories.
From S2P Require Import Handlers.
From S2P Require Import Server.
From S2P Require Import Effects.
From S2P Require Import Permissions.
From S2P Require Import Integrity.
From S2P Require Import Admin.
From S2P Require Import Scenario.
From S2P Require Import Guarantees.
From S2P Require Import Sessions.

Record server := ServerState {
  registry : connection_registry;
  common : world;
  rates : rate_tracker;
  admin : gmap Z admin_connection;
  started_at : Z;
}.

Definition set_registry (r : connection_registry) (sv : server) : server :=
  ServerState r (common sv) (rates sv) (admin sv) (started_at sv).

Definition set_common (w : world) (sv : server) : server :=
  ServerState (registry sv) w (rates sv) (admin sv) (started_at sv).

Definition MAX_ACCEPTS_PER_CALL : nat := 32.

(** logger.cpp *)
Definition REDACTED_ADDRESS : bytes := lit "[redacted]".

Definition redact_peer_address (policy : logging_config) (address : bytes) : bytes :=
  if log_peer_addresses policy then address else REDACTED_ADDRESS.

Section runtime.
Context `{Sodium, Environment}.
Context (config : server_config) (static_public static_secret : bytes).

Definition close_connection (descriptor : Z) (sv : server) : server :=
  set_registry (remove_connection descriptor (registry sv)) sv.

(** A connection as the system hands it over. *)
Record accepted := Accepted { accepted_descriptor : Z; peer : bytes; accepted_watched : bool }.

(** The connection as it is registered. *)
Definition fresh_connection (a : accepted) (now : Z) : client_connection :=
  ClientConnection (new_socket (accepted_descriptor a)) (new_channel static_public static_secret)
    (SessionState session_phase.awaiting_handshake (replicate 32 Byte.x00) (replicate 32 Byte.x00)
       0 [] (peer a) now now)
    [].

(** One round of the loop of [accept_pending_connections]. *)
Definition accept_one (is_clearnet : bool) (a : accepted) (sv : server) : server :=
  let '(now, w) := get_unix_timestamp (common sv) in
  let '(_, w) :=
    if is_clearnet then
      write_entry (logging config) log_level.info
        (lit "connexion acceptee depuis " ++ redact_peer_address (logging config) (peer a)) w
    else (tt, w) in
  let '(inserted, r) := insert_connection (Some (fresh_connection a now)) (registry sv) in
  let sv := set_common w (set_registry r sv) in
  if negb inserted || accepted_watched a then sv
  else close_connection (accepted_descriptor a) sv.

(** [pending]: what [accept] answers until nothing is pending. *)
Fixpoint accept_pending (budget : nat) (is_clearnet : bool) (pending : list accepted) (sv : server)
    : server :=
  match budget, pending with
  | S budget', a :: pending' => accept_pending budget' is_clearnet pending' (accept_one is_clearnet a sv)
  | _, _ => sv
  end.

Definition accept_pending_connections (is_clearnet : bool) (pending : list accepted) (sv : server)
    : server := accept_pending MAX_ACCEPTS_PER_CALL is_clearnet pending sv.

(** What [epoll] reports of a descriptor and what its system calls answer. *)
Record readiness := Readiness {
  hung_up : bool;
  readable : bool;
  receives : list recv_result;
  sends : list send_result;
  rewatched : bool;
}.

(** The connection in the registry is the one the handlers work on. *)
Definition update_connection (descriptor : Z) (c : client_connection) (sv : server) : server :=
  set_registry (set_connections (<[descriptor := c]> (connections (registry sv)))
                  (address_counts (registry sv)) (registry sv)) sv.

Definition service_connection (descriptor : Z) (ready : readiness) (sv : server) : server :=
  match find_connection (registry sv) descriptor with
  | None => sv
  | Some c =>
      if hung_up ready then close_connection descriptor sv
      else
        let '(processed, m) :=
          if readable ready then
            process_connection_input config (receives ready) (Machine (common sv) (rates sv) c)
          else (true, Machine (common sv) (rates sv) c) in
        let sv := update_connection descriptor (connection m)
                    (ServerState (registry sv) (shared m) (tracker m) (admin sv) (started_at sv)) in
        if negb processed then close_connection descriptor sv
        else
          let '(flushed, _, k) := flush_pending_writes (sends ready) (socket (connection m)) in
          let c := connection m in
          let sv := update_connection descriptor
                      (ClientConnection k (channel c) (session c) (input_buffer c)) sv in
          if bool_decide (flushed = None) || negb (rewatched ready)
          then close_connection descriptor sv else sv
  end.

(** A descriptor of the admin socket; the closures it asks for come last. *)
Definition service_admin (backup : bytes → option bytes) (descriptor : Z) (ready : readiness)
    (sv : server) : server :=
  let '((service, close_requests), w) :=
    service_admin_connection config backup (registry sv) (started_at sv) descriptor (receives ready)
      (sends ready) (rewatched ready) (admin sv) (common sv) in
  fold_left (λ sv target, close_connection target sv) close_requests
    (ServerState (registry sv) w (rates sv) service (started_at sv)).

Definition accept_admin (descriptor : Z) (watched : bool) (sv : server) : server :=
  ServerState (registry sv) (common sv) (rates sv)
    (accept_admin_connection descriptor watched (admin sv)) (started_at sv).

Definition sweep_expired_connections (sv : server) : server :=
  let '(now, w) := get_unix_timestamp (common sv) in
  let sv := fold_left (λ sv descriptor, close_connection descriptor sv)
              (collect_expired_descriptors (registry sv) now (limits config)) (set_common w sv) in
  ServerState (registry sv) (common sv) (forget_expired_windows now (rates sv)) (admin sv)
    (started_at sv).

(** ** The steps of the event loop *)

(** The system hands out descriptors that are not in use. *)
Fixpoint fresh_descriptors (budget : nat) (is_clearnet : bool) (pending : list accepted) (sv : server)
    : Prop :=
  match budget, pending with
  | S budget', a :: pending' =>
      find_connection (registry sv) (accepted_descriptor a) = None ∧
      fresh_descriptors budget' is_clearnet pending' (accept_one is_clearnet a sv)
  | _, _ => True
  end.

Inductive server_step : server → server → Prop :=
  | step_accept is_clearnet pending sv :
      fresh_descriptors MAX_ACCEPTS_PER_CALL is_clearnet pending sv →
      server_step sv (accept_pending_connections is_clearnet pending sv)
  | step_service descriptor ready sv : server_step sv (service_connection descriptor ready sv)
  | step_accept_admin descriptor watched sv : server_step sv (accept_admin descriptor watched sv)
  | step_admin backup descriptor ready sv : server_step sv (service_admin backup descriptor ready sv)
  | step_sweep sv : server_step sv (sweep_expired_connections sv)
  | step_clock sv : server_step sv (set_common (get_unix_timestamp (common sv)).2 sv)
  | step_log level message sv :
      server_step sv (set_common (write_entry (logging config) level message (common sv)).2 sv).

(** The server as it starts, on the database [w] holds. *)
Definition new_server (w : world) (started_at : Z) : server :=
  ServerState (empty_registry (limits config)) w empty_tracker ∅ started_at.

(** ** The invariant *)

Definition connection_ok (c : client_connection) : Prop := session_ok (session c) ∧ coupled c.

Record server_ok (sv : server) : Prop := {
  server_database : holds tables_ok (common sv);
  server_registry : registry_ok (registry sv);
  server_caps : registry_max_connections (registry sv) = max_connections (limits config) ∧
    registry_max_per_address (registry sv) = max_connections_per_address (limits config);
  server_connections : map_Forall (λ _ c, connection_ok c) (connections (registry sv));
}.
End runtime.

(** ** The invariant holds *)

Lemma registry_update_ok fd c c' r : registry_ok r → connections r !! fd = Some c →
  get_descriptor c' = fd → address_of c' = address_of c →
  registry_ok (set_connections (<[fd := c']> (connections r)) (address_counts r) r).
Proof.
  intros [Hexact Hpos Htotal Haddr Hkey Hu] Hc Hfd Ha.
  assert (∀ a, count_from a (<[fd := c']> (connections r)) = count_from a (connections r)) as Hcount.
  { intros a. rewrite <-insert_delete_eq, count_from_insert by apply lookup_delete_eq.
    rewrite (count_from_delete a fd c) by done. rewrite Ha. lia. }
  split; simpl; try done.
  - intros a. by rewrite Hcount.
  - unfold connection_count in *. simpl. by rewrite map_size_insert, Hc.
  - intros a. by rewrite Hcount.
  - intros fd' e [[<- <-]|[_ He]]%lookup_insert_Some; [done|by apply Hkey].
Qed.

Lemma flush_descriptor answers k : descriptor_ (flush_pending_writes answers k).2 = descriptor_ k.
Proof.
  revert k. induction answers as [|[[|n]| |] answers IH]; intros [d [|b out]]; simpl; try done.
  specialize (IH (ConnectionSocket d (drop n out))). by destruct (flush_pending_writes _ _) as [[? ?] ?].
Qed.

Lemma remove_connection_lookup fd fd' c r :
  connections (remove_connection fd r) !! fd' = Some c → connections r !! fd' = Some c.
Proof.
  unfold remove_connection. destruct (connections r !! fd) as [e|] eqn:E; [|done]. simpl.
  by intros [_ ?]%lookup_delete_Some.
Qed.

Lemma remove_connection_caps fd r :
  registry_max_connections (remove_connection fd r) = registry_max_connections r ∧
  registry_max_per_address (remove_connection fd r) = registry_max_per_address r.
Proof. unfold remove_connection. by repeat case_match. Qed.

Lemma insert_connection_caps entry r :
  registry_max_connections (insert_connection entry r).2 = registry_max_connections r ∧
  registry_max_per_address (insert_connection entry r).2 = registry_max_per_address r.
Proof. unfold insert_connection. by repeat case_match. Qed.

Section invariant.
Context `{Sodium, Environment, !EnvironmentLaws}.
Context (config : server_config) (static_public static_secret : bytes).

Abbreviation ok := (server_ok config).

Lemma session_run_address k k' : rtc session_step k k' → peer_address k' = peer_address k.
Proof.
  induction 1 as [k|k1 k2 k3 Hstep _ IH]; [done|]. rewrite IH. by destruct Hstep.
Qed.

Lemma close_ok fd sv : ok sv → ok (close_connection fd sv).
Proof.
  intros [Hd Hr [Hc1 Hc2] Hcs]. destruct (remove_connection_caps fd (registry sv)) as [E1 E2].
  split; simpl; [done|by apply registry_remove_ok|by rewrite E1, E2|].
  intros fd' c Hc. eapply Hcs, remove_connection_lookup, Hc.
Qed.

Lemma close_all_ok fds sv : ok sv → ok (fold_left (λ sv fd, close_connection fd sv) fds sv).
Proof. revert sv. induction fds as [|fd fds IH]; intros sv Hsv; [done|]. by apply IH, close_ok. Qed.

(** The common state changes under a registry that does not. *)
Lemma set_common_ok w w' sv : ok sv → w = common sv → (holds tables_ok w → holds tables_ok w') →
  ok (set_common w' sv).
Proof. intros [] -> Hw. split; simpl; auto. Qed.

Lemma write_entry_holds policy l m w : holds tables_ok w → holds tables_ok (write_entry policy l m w).2.
Proof. apply log_safe. Qed.

Lemma fresh_connection_ok a now : connection_ok (fresh_connection static_public static_secret a now).
Proof. split; [split|]; simpl; done. Qed.

Lemma insert_connection_ok c sv : ok sv → connection_ok c →
  find_connection (registry sv) (get_descriptor c) = None →
  ok (set_registry (insert_connection (Some c) (registry sv)).2 sv).
Proof.
  intros [Hd Hr [Hc1 Hc2] Hcs] Hc Hfresh.
  destruct (insert_connection_caps (Some c) (registry sv)) as [E1 E2].
  split; [done|by apply registry_insert_ok|exact (conj (eq_trans E1 Hc1) (eq_trans E2 Hc2))|].
  simpl. unfold insert_connection. repeat case_match; simpl; try done; by apply map_Forall_insert_2.
Qed.

Lemma accept_one_ok is_clearnet a sv : ok sv →
  find_connection (registry sv) (accepted_descriptor a) = None →
  ok (accept_one config static_public static_secret is_clearnet a sv).
Proof.
  intros Hok Hfresh. unfold accept_one.
  destruct (get_unix_timestamp (common sv)) as [now w1] eqn:E1.
  assert (holds tables_ok w1) as Hw1.
  { pose proof (clock_safe tables_ok (common sv) (server_database _ _ Hok)) as Hw. by rewrite E1 in Hw. }
  destruct (if is_clearnet then _ else _) as [u w2] eqn:E2.
  assert (holds tables_ok w2) as Hw2.
  { destruct is_clearnet; [|by simplify_eq].
    pose proof (log_safe tables_ok (logging config) log_level.info
      (lit "connexion acceptee depuis " ++ redact_peer_address (logging config) (peer a)) w1 Hw1) as Hw.
    by rewrite E2 in Hw. }
  pose proof (insert_connection_ok (fresh_connection static_public static_secret a now) sv Hok
    (fresh_connection_ok a now) Hfresh) as Hins.
  destruct (insert_connection _ _) as [inserted r]. simpl in Hins.
  assert (ok (set_common w2 (set_registry r sv))) as Hsv.
  { by eapply set_common_ok; [exact Hins|reflexivity|]. }
  destruct (_ || _); [done|by apply close_ok].
Qed.

Lemma accept_pending_ok budget is_clearnet pending sv : ok sv →
  fresh_descriptors config static_public static_secret budget is_clearnet pending sv →
  ok (accept_pending config static_public static_secret budget is_clearnet pending sv).
Proof.
  revert pending sv. induction budget as [|budget IH]; intros [|a pending] sv Hok; simpl; try done.
  intros [Hfresh Hrest]. apply IH; [by apply accept_one_ok|done].
Qed.

(** Working on a registered connection. *)
Lemma update_connection_ok fd c c' sv :
  ok sv → connections (registry sv) !! fd = Some c → connection_ok c' →
  get_descriptor c' = fd → address_of c' = address_of c →
  ok (update_connection fd c' sv).
Proof.
  intros [Hd Hr Hc Hcs] Hfd Hok Hdesc Ha. split; simpl; [done| |done|by apply map_Forall_insert_2].
  by eapply registry_update_ok.
Qed.

Lemma process_connection_ok answers s : connection_ok (connection s) → holds tables_ok (shared s) →
  let s' := (process_connection_input config answers s).2 in
  connection_ok (connection s') ∧ holds tables_ok (shared s') ∧
  get_descriptor (connection s') = get_descriptor (connection s) ∧
  address_of (connection s') = address_of (connection s).
Proof.
  intros [Hs Hc] Hw. cbv zeta.
  destruct (process_connection_input_evolves config answers s Hc) as (Hc' & Hrun & Hd).
  split_and!; [split; [by eapply session_run_ok|done]| |done|by apply session_run_address].
  exact (process_connection_input_safe config tables_ok tables_ok_stable tables_ok_insensitive answers s Hw).
Qed.

Lemma service_connection_ok fd ready sv : ok sv → ok (service_connection config fd ready sv).
Proof.
  intros Hok. unfold service_connection, find_connection.
  destruct (connections (registry sv) !! fd) as [c|] eqn:Hc; [|done].
  destruct (hung_up ready); [by apply close_ok|].
  pose proof (server_connections _ _ Hok _ _ Hc) as Hcok.
  pose proof (keyed_by_descriptor _ (server_registry _ _ Hok) _ _ Hc) as Hdesc.
  set (m0 := Machine (common sv) (rates sv) c).
  set (result := if readable ready then process_connection_input config (receives ready) m0 else (true, m0)).
  assert (connection_ok (connection result.2) ∧ holds tables_ok (shared result.2) ∧
    get_descriptor (connection result.2) = fd ∧ address_of (connection result.2) = address_of c)
    as (Hcok' & Hw & Hdesc' & Haddr).
  { subst result. destruct (readable ready); [|by split_and!; [| apply Hok| |]].
    rewrite <-Hdesc. apply (process_connection_ok (receives ready) m0); [done|apply Hok]. }
  clearbody result. destruct result as [processed m]. simpl in *.
  set (sv0 := ServerState (registry sv) (shared m) (tracker m) (admin sv) (started_at sv)).
  assert (ok sv0) as Hok0 by (destruct Hok; by split).
  pose proof (update_connection_ok fd c (connection m) sv0 Hok0 Hc Hcok' Hdesc' Haddr) as Hok1.
  set (sv1 := update_connection fd (connection m) sv0) in *.
  destruct processed; simpl; [|by apply close_ok].
  pose proof (flush_descriptor (sends ready) (socket (connection m))) as Hk.
  destruct (flush_pending_writes _ _) as [[flushed taken] k]. simpl in Hk.
  assert (ok (update_connection fd
    (ClientConnection k (channel (connection m)) (session (connection m)) (input_buffer (connection m))) sv1))
    as Hok2.
  { apply (update_connection_ok fd (connection m)); try done.
    - simpl. by rewrite lookup_insert_eq.
    - unfold get_descriptor in *. simpl. by rewrite Hk. }
  destruct (_ || _); [by apply close_ok|done].
Qed.

Lemma service_admin_ok backup fd ready sv : ok sv → ok (service_admin config backup fd ready sv).
Proof.
  intros Hok. unfold service_admin.
  pose proof (service_admin_connection_safe config tables_ok tables_ok_admin_stable backup (registry sv)
    (started_at sv) fd (receives ready) (sends ready) (rewatched ready) (admin sv) (common sv)
    (server_database _ _ Hok)) as Hw.
  destruct (service_admin_connection _ _ _ _ _ _ _ _ _ _) as [[service closures] w]. simpl in Hw.
  apply close_all_ok. destruct Hok. by split.
Qed.

Lemma sweep_ok sv : ok sv → ok (sweep_expired_connections config sv).
Proof.
  intros Hok. unfold sweep_expired_connections.
  pose proof (clock_safe tables_ok (common sv) (server_database _ _ Hok)) as Hw.
  destruct (get_unix_timestamp (common sv)) as [now w]. simpl in Hw.
  assert (ok (set_common w sv)) as Hok1 by (by eapply set_common_ok).
  apply (close_all_ok (collect_expired_descriptors (registry sv) now (limits config))) in Hok1.
  destruct Hok1. by split.
Qed.

Lemma server_step_ok sv sv' : ok sv → server_step config static_public static_secret sv sv' → ok sv'.
Proof.
  intros Hok Hstep. destruct Hstep.
  - by apply accept_pending_ok.
  - by apply service_connection_ok.
  - destruct Hok. by split.
  - by apply service_admin_ok.
  - by apply sweep_ok.
  - eapply set_common_ok; [done..|]. apply clock_safe.
  - eapply set_common_ok; [done..|]. apply write_entry_holds.
Qed.

Lemma new_server_ok w started : holds tables_ok w →
  u32 (max_connections (limits config)) → u32 (max_connections_per_address (limits config)) →
  ok (new_server config w started).
Proof. intros Hw Hc1 Hc2. split; simpl; [done|by apply empty_registry_ok|done|apply map_Forall_empty]. Qed.

Lemma server_reaches_ok sv sv' :
  ok sv → rtc (server_step config static_public static_secret) sv sv' → ok sv'.
Proof. intros Hok Hrun. induction Hrun; eauto using server_step_ok. Qed.
End invariant.

(** ** What clients and operators can rely on *)

Section promises.
Context `{Sodium, Environment, !EnvironmentLaws}.
Context (config : server_config) (static_public static_secret : bytes).

(** C4: in every state the server reaches from a well-formed database, by
    whatever mix of accepts, client input, admin commands, sweeps and failing
    calls: the database, and what a rollback would restore, is well formed;
    the connections are within the limit and registered under their
    descriptor; and every authenticated session announced a key with which the
    challenge that this session holds was signed. *)
Theorem reachable_servers_are_sound (w : world) (started : Z) (sv : server)
    (Hdatabase : holds tables_ok w)
    (Hcaps : u32 (max_connections (limits config)) ∧ u32 (max_connections_per_address (limits config)))
    (Hreach : rtc (server_step config static_public static_secret) (new_server config w started) sv) :
  holds tables_ok (common sv) ∧
  connection_count (registry sv) <= max_connections (limits config) ∧
  ∀ fd c, find_connection (registry sv) fd = Some c →
    get_descriptor c = fd ∧
    (user_id (session c) ≠ 0 → phase (session c) = session_phase.authenticated) ∧
    (phase (session c) = session_phase.authenticated →
     ∃ signature, proves_key (session c) signature).
Proof.
  pose proof (server_reaches_ok _ _ _ _ _ (new_server_ok config w started Hdatabase
    (proj1 Hcaps) (proj2 Hcaps)) Hreach) as [Hd Hr [Hc _] Hcs].
  split_and!; [done| |].
  - pose proof (total_capped _ Hr). rewrite Hc in *. destruct Hcaps as [[? ?] _]. lia.
  - intros fd c Hfd. destruct (Hcs _ _ Hfd) as [[Ha Hp] _].
    split_and!; [by eapply keyed_by_descriptor|done|done].
Qed.

(** What the log says of a connection does not depend on where it comes
    from, unless the connection is a clearnet one and the configuration asks
    for addresses. *)
Theorem peer_addresses_stay_private (is_clearnet watched : bool) (fd : Z) (address address' : bytes)
    (sv : server) (Hprivate : is_clearnet = false ∨ log_peer_addresses (logging config) = false) :
  log_entries (common (accept_one config static_public static_secret is_clearnet
                         (Accepted fd address watched) sv)) =
  log_entries (common (accept_one config static_public static_secret is_clearnet
                         (Accepted fd address' watched) sv)).
Proof.
  assert (∀ a b (c : server), common (if (b : bool) then c else close_connection a c) = common c) as Hcommon
    by (by intros a []).
  unfold accept_one. cbn [peer accepted_descriptor accepted_watched].
  destruct (get_unix_timestamp (common sv)) as [now w].
  destruct is_clearnet.
  - destruct Hprivate as [?|Hp]; [done|]. unfold redact_peer_address. rewrite Hp.
    match goal with |- context [write_entry ?p ?l ?m ?x] => destruct (write_entry p l m x) end.
    repeat match goal with |- context [insert_connection ?c ?r] => destruct (insert_connection c r) end.
    cbv beta iota zeta. by rewrite !Hcommon.
  - repeat match goal with |- context [insert_connection ?c ?r] => destruct (insert_connection c r) end.
    cbv beta iota zeta. by rewrite !Hcommon.
Qed.
End promises.

Definition first_client : accepted := Accepted 7 (lit "192.0.2.1") true.

Definition sends_garbage : readiness := Readiness false true [Received (lit "garbage")] [] true.

Lemma reachable_servers_are_sound_witness :
  holds tables_ok (common (@service_connection toy_sodium calm default_config 7 sends_garbage
    (@accept_pending_connections toy_sodium calm default_config [] [] true [first_client]
       (new_server default_config (fresh_world populated) 1700000000)))).
Proof.
  apply (@reachable_servers_are_sound toy_sodium calm (scripted_laws _ _) default_config [] []
    (fresh_world populated) 1700000000).
  - apply autocommit_holds; [done|exact populated_ok].
  - split; unfold fits; simpl; lia.
  - eapply rtc_l; [apply (step_accept _ _ _ true [first_client]); split; [reflexivity|exact I]|].
    apply rtc_once, step_service.
Defined.

Lemma peer_addresses_stay_private_witness :
  let log address := log_entries (common (@accept_one toy_sodium calm default_config [] [] true
    (Accepted 7 address true) (new_server default_config (fresh_world populated) 0))) in
  log (lit "192.0.2.1") = log (lit "198.51.100.7").
Proof.
  apply (@peer_addresses_stay_private toy_sodium calm default_config [] [] true true 7
    (lit "192.0.2.1") (lit "198.51.100.7")). right. reflexivity.
Defined.
