(* ===== verification/InputLoop.v ===== *)
(** The input loop of a connection ([process_connection_input] of
    connection_processor.cpp): the work on a message does not depend on the
    bytes that wait behind it, so the loop ends having handled every complete
    message, and the way TCP cuts the stream makes no difference. *)

From S2P Require Import Prelude.
From S2P Require Import Wire.
From S2P Require Import Framing.
From S2P Require Import Sodium.
From S2P Require Import Noise.
From S2P Require Import Config.
From S2P Require Import Connection.
From S2P Require Import Database.
From S2P Require Import Repositories.
From S2P Require Import SocialRepositories.
From S2P Require Import Handlers.
From S2P Require Import Server.
From S2P Require Import Effects.
From S2P Require Import Scenario.

Definition with_input (buffer : bytes) (s : machine) : machine :=
  Machine (shared s) (tracker s)
    (ClientConnection (socket (connection s)) (channel (connection s)) (session (connection s)) buffer).

Lemma with_input_twice b b' s : with_input b (with_input b' s) = with_input b s.
Proof. done. Qed.

Lemma with_own_input s : with_input (input_buffer (connection s)) s = s.
Proof. by destruct s as [? ? []]. Qed.

(** ** Work that does not look at the input *)

Definition blind {A} (m : state machine A) : Prop :=
  ∀ b s, m (with_input b s) = let '(a, s') := m s in (a, with_input b s').

Lemma blind_ret {A} (a : A) : blind (sret a).
Proof. by intros b s. Qed.

Lemma blind_bind {A B} (m : state machine A) (k : A → state machine B) :
  blind m → (∀ a, blind (k a)) → blind (sbind m k).
Proof. intros Hm Hk b s. unfold sbind. rewrite Hm. destruct (m s) as [a s']. apply Hk. Qed.

Ltac blind_step :=
  match goal with
  | |- blind (sbind _ _) => refine (blind_bind _ _ _ _); [|intros]
  | |- blind (sret _) => exact (blind_ret _)
  | |- blind (if ?b then _ else _) => destruct b eqn:?
  | |- blind (match ?x with _ => _ end) => destruct x
  end.

Ltac blind_auto := repeat (intros; cbv zeta; first [solve [eauto 2 with blind nocore] | blind_step]).

Create HintDb blind.

Section blind.
Context `{Sodium, Environment}.
Context (config : server_config).

Lemma on_world_blind {A} (m : state world A) : blind (on_world m).
Proof. intros b s. unfold on_world, zoom. cbn. by destruct (m _). Qed.

Lemma on_tracker_blind {A} (m : state RateLimit.rate_tracker A) : blind (on_tracker m).
Proof. intros b s. unfold on_tracker, zoom. cbn. by destruct (m _). Qed.

Lemma get_session_blind : blind get_session.
Proof. by intros b s. Qed.

Lemma put_session_blind k : blind (put_session k).
Proof. by intros b s. Qed.

Lemma on_channel_blind {A} (m : state noise_channel A) : blind (on_connection (on_channel m)).
Proof. intros b s. unfold on_connection, on_channel, zoom. cbn. by destruct (m _). Qed.

Lemma on_socket_blind {A} (m : state connection_socket A) : blind (on_connection (on_socket m)).
Proof. intros b s. unfold on_connection, on_socket, zoom. cbn. by destruct (m _). Qed.

Lemma send_message_blind {A} `{WireFormat A} type (m : A) : blind (send_message type m).
Proof.
  intros b s. unfold send_message, on_connection, zoom, send_raw_message.
  destruct (encode_frame _ _) as [frame|]; [|done]. unfold sbind, on_channel, zoom. cbn.
  destruct (seal_message _ _) as [[sealed|] ch]; [|done]. unfold on_socket, zoom. cbn. by destruct (queue_bytes _ _).
Qed.

Lemma send_status_error_blind code : blind (send_status_error code).
Proof. apply send_message_blind. Qed.

Lemma send_status_ok_blind n : blind (send_status_ok n).
Proof. apply send_message_blind. Qed.

#[local] Hint Resolve on_world_blind on_tracker_blind get_session_blind put_session_blind on_channel_blind
  on_socket_blind send_message_blind send_status_error_blind send_status_ok_blind : blind.

Lemma with_request_blind {A} `{WireFormat A} reader (handler : A → state machine bool) :
  (∀ a, blind (handler a)) → blind (with_request reader handler).
Proof. intros Hh. unfold with_request. blind_auto. Qed.

Lemma or_error_blind {A} (found : option A) code (handler : A → state machine bool) :
  (∀ a, blind (handler a)) → blind (or_error found code handler).
Proof. intros Hh. unfold or_error. blind_auto. Qed.

Lemma registered_blind (handler : session_state → state machine bool) :
  (∀ k, blind (handler k)) → blind (registered handler).
Proof. intros Hh. unfold registered, require_registered_session. blind_auto. Qed.

Lemma checkpoint_blind : blind (checkpoint_after_deletion config).
Proof. unfold checkpoint_after_deletion. blind_auto. Qed.
#[local] Hint Resolve checkpoint_blind : blind.

Lemma send_accepted_blind user : blind (send_accepted_session user).
Proof. unfold send_accepted_session. blind_auto. Qed.
#[local] Hint Resolve send_accepted_blind : blind.

Lemma route_message_blind type reader : blind (route_message config type reader).
Proof.
  destruct type; cbn; try apply send_status_error_blind;
    unfold handle_hello_request, handle_auth_response, handle_register_request, handle_ping_request,
      handle_forum_create_request, handle_forum_list_request, handle_post_create_request,
      handle_post_list_request, handle_thread_fetch_request, handle_comment_create_request,
      handle_post_delete_request, handle_comment_delete_request,
      handle_prekey_publish_request, handle_prekey_fetch_request, handle_profile_get_request,
      handle_profile_set_request, handle_friend_add_request, handle_friend_list_request,
      handle_top8_set_request, handle_top8_get_request,
      handle_dm_send_request, handle_dm_fetch_request, handle_dm_ack_request,
      handle_report_post_request, handle_report_account_request;
    repeat first
      [ progress blind_auto
      | apply registered_blind; intros
      | refine (with_request_blind _ _ _); intros
      | apply or_error_blind; intros ].
Qed.
#[local] Hint Resolve route_message_blind : blind.

Lemma process_message_blind message : blind (process_message config message).
Proof.
  assert (blind (advance_handshake message)) as Hadvance.
  { unfold advance_handshake, draw_keypair. blind_auto. }
  assert (blind (let* frame := on_connection (on_channel (open_message message)) in
                 match frame with None => sret false | Some frame => dispatch_application_frame config frame end)) as Hopen.
  { unfold dispatch_application_frame. blind_auto. }
  intros b s. unfold process_message, sbind at 1 3, sgets. cbn [connection with_input channel].
  destruct (is_established (channel (connection s))); [apply Hopen|apply Hadvance].
Qed.
End blind.

(** ** The loop *)

Section input_loop.
Context `{Sodium, Environment}.
Context (config : server_config).

(** The messages one after the other, up to the first that closes the
    connection. *)
Fixpoint run_messages (messages : list bytes) : state machine bool :=
  match messages with
  | [] => sret true
  | message :: messages' =>
      let* ok := process_message config message in
      if negb ok then sret false else run_messages messages'
  end.

Lemma run_messages_blind messages : blind (run_messages messages).
Proof.
  pose proof (process_message_blind config). induction messages as [|m messages IH]; simpl; blind_auto.
Qed.

Lemma run_messages_app l k s :
  run_messages (l ++ k) s = let '(ok, s') := run_messages l s in if ok then run_messages k s' else (false, s').
Proof.
  revert s. induction l as [|m l IH]; intros s; [done|]. simpl. unfold sbind.
  destruct (process_message config m s) as [[] s']; cbn [negb]; [apply IH|done].
Qed.

Lemma process_messages_turn n buffer s :
  process_messages config n (with_input buffer s) =
  match extract_length_prefixed_message buffer MAX_NOISE_MESSAGE_SIZE with
  | incomplete => (true, with_input buffer s)
  | malformed => (false, with_input buffer s)
  | extracted message rest =>
      match n with
      | O => (true, with_input rest s)
      | S n => let '(ok, s') := process_message config message s in
               if ok then process_messages config n (with_input rest s') else (false, with_input rest s')
      end
  end.
Proof.
  destruct n as [|n]; cbn [process_messages]; unfold sbind at 1, sgets; cbn [connection with_input input_buffer];
    destruct (extract_length_prefixed_message _ _) as [message rest| |]; try done.
  unfold sbind, put_input, on_connection, zoom, smodify.
  change (Machine _ _ _) with (with_input rest s). rewrite process_message_blind.
  by destruct (process_message config message s) as [[] s'].
Qed.

Lemma process_messages_drain n buffer s : (length buffer <= n)%nat →
  let '(messages, rest, bad) := drain MAX_NOISE_MESSAGE_SIZE buffer in
  let '(ok, s') := run_messages messages s in
  ∃ left, process_messages config n (with_input buffer s) = (ok && negb bad, with_input left s') ∧
    (ok = true → left = rest).
Proof.
  revert buffer s. induction n as [|n IH]; intros buffer s Hn; rewrite process_messages_turn, drain_unfold;
    destruct (extract_length_prefixed_message buffer MAX_NOISE_MESSAGE_SIZE) as [message rest| |] eqn:E;
    try (by eexists); apply extract_shrinks in E as [E _]; [lia|].
  destruct (process_message config message s) as [[] s1] eqn:Em.
  - specialize (IH rest s1 ltac:(lia)). destruct (drain MAX_NOISE_MESSAGE_SIZE rest) as [[messages last] bad].
    cbn [run_messages]. unfold sbind. by rewrite Em.
  - destruct (drain MAX_NOISE_MESSAGE_SIZE rest) as [[messages last] bad].
    cbn [run_messages]. unfold sbind. rewrite Em. by exists rest.
Qed.

Lemma process_messages_fuel n m buffer s : (length buffer <= n)%nat → (length buffer <= m)%nat →
  process_messages config n (with_input buffer s) = process_messages config m (with_input buffer s).
Proof.
  revert m buffer s. induction n as [|n IH]; intros [|m] buffer s Hn Hm; rewrite !process_messages_turn;
    destruct (extract_length_prefixed_message buffer MAX_NOISE_MESSAGE_SIZE) as [message rest| |] eqn:E; try done;
    apply extract_shrinks in E as [E _]; try lia.
  destruct (process_message config message s) as [[] s1]; [apply IH; lia|done].
Qed.

Lemma drain_rest m buffer messages rest : drain m buffer = (messages, rest, false) →
  extract_length_prefixed_message rest m = incomplete.
Proof.
  remember (length buffer) as n eqn:En. revert buffer messages En.
  induction (lt_wf n) as [n _ IH]. intros buffer messages ->. rewrite drain_unfold.
  destruct (extract_length_prefixed_message buffer m) as [message rest'| |] eqn:E; [| |done].
  - apply extract_shrinks in E as [E _]. destruct (drain m rest') as [[messages' last] bad] eqn:Ed.
    intros [= _ <- ->]. eapply (IH (length rest')); [lia|done|exact Ed].
  - by intros [= _ <-].
Qed.

(** C20: the loop over the input ends: with as much fuel as there are bytes, or
    any more, it handles the complete messages in their order, up to the first
    that closes the connection, and keeps the rest, in which no message is
    complete. *)
Theorem input_loop_ends (s : machine) (fuel : nat) (Hfuel : (length (input_buffer (connection s)) <= fuel)%nat) :
  process_messages config fuel s = process_messages config (length (input_buffer (connection s))) s ∧
  let '(messages, rest, bad) := drain MAX_NOISE_MESSAGE_SIZE (input_buffer (connection s)) in
  let '(ok, s') := run_messages messages s in
  ∃ left, process_messages config fuel s = (ok && negb bad, with_input left s') ∧
    (ok = true → left = rest) ∧
    (bad = false → extract_length_prefixed_message rest MAX_NOISE_MESSAGE_SIZE = incomplete).
Proof.
  rewrite <-(with_own_input s) at 1 3. split; [by apply process_messages_fuel|].
  pose proof (process_messages_drain fuel _ s Hfuel) as Hd. rewrite with_own_input in Hd.
  destruct (drain _ _) as [[messages rest] bad] eqn:E. destruct (run_messages messages s) as [ok s'].
  destruct Hd as (left & Hp & Hl). exists left. split_and!; [done|done|]. intros ->. by eapply drain_rest.
Qed.

(** Two runs that differ at most in what is left of the input of a connection
    about to be closed. *)
Definition same_work (r r' : bool * machine) : Prop :=
  r.1 = r'.1 ∧ with_input [] r.2 = with_input [] r'.2 ∧ (r.1 = true → r.2 = r'.2).

(** C19: the way the stream is cut makes no difference: bytes that arrive in one
    piece or in two, wherever the cut falls, inside a length, a message or
    between two, are answered alike, and leave the server, the database and
    the connection in the same state. *)
Theorem segmentation_is_invisible (s : machine) (first second : bytes) :
  same_work (process_connection_input config [Received (first ++ second)] s)
    (let '(ok, s') := process_connection_input config [Received first] s in
     if ok then process_connection_input config [Received second] s' else (false, s')).
Proof.
  assert (∀ chunk s, process_connection_input config [Received chunk] s =
            process_messages config (length (input_buffer (connection s) ++ chunk))
              (with_input (input_buffer (connection s) ++ chunk) s)) as Hinput by done.
  rewrite !Hinput. set (buffer := input_buffer (connection s)).
  pose proof (process_messages_drain _ (buffer ++ first) s (Nat.le_refl _)) as H1.
  pose proof (process_messages_drain _ (buffer ++ first ++ second) s (Nat.le_refl _)) as H2.
  rewrite !app_assoc, drain_chunk_invariant in H2. rewrite app_assoc.
  destruct (drain _ (buffer ++ first)) as [[messages rest] bad]. destruct (run_messages messages s) as [ok s'] eqn:Er.
  destruct H1 as (left & -> & Hl). destruct bad.
  - rewrite Er in H2. destruct H2 as (left' & -> & _). rewrite andb_false_r. by split_and!.
  - rewrite andb_true_r. destruct ok.
    + rewrite (Hl eq_refl) in *. rewrite Hinput.
      change (input_buffer (connection (with_input rest s'))) with rest. rewrite with_input_twice.
      pose proof (process_messages_drain _ (rest ++ second) s' (Nat.le_refl _)) as H3.
      destruct (drain _ (rest ++ second)) as [[messages' rest'] bad']. rewrite run_messages_app, Er in H2.
      destruct (run_messages messages' s') as [ok' s'']. destruct H2 as (left2 & -> & Hl2), H3 as (left3 & -> & Hl3).
      split_and!; [done|done|]. intros [Hok _]%andb_true_iff. cbn [snd]. by rewrite Hl2, Hl3.
    + destruct (drain _ (rest ++ second)) as [[messages' rest'] bad']. rewrite run_messages_app, Er in H2.
      destruct H2 as (left' & -> & _). by split_and!.
Qed.
End input_loop.

(** ** Witness *)

(** Two messages and the start of a third. *)
Definition busy_machine : machine :=
  with_input (append_length_prefixed_message [byte_of 1; byte_of 2]
                (append_length_prefixed_message [byte_of 3] []) ++ [byte_of 9]) alice_machine.

Lemma input_loop_ends_witness :
  drain MAX_NOISE_MESSAGE_SIZE (input_buffer (connection busy_machine))
    = ([[byte_of 3]; [byte_of 1; byte_of 2]], [byte_of 9], false) ∧
  @process_messages toy_sodium calm default_config 40 busy_machine
    = @process_messages toy_sodium calm default_config 12 busy_machine.
Proof.
  split; [vm_compute; reflexivity|].
  exact (proj1 (@input_loop_ends toy_sodium calm default_config busy_machine 40 ltac:(vm_compute; lia))).
Defined.
