(* ===== verification/ClientLogin.v ===== *)
(** A client and the server together: the login of the owner of an account,
    from the client's bytes through the server's input processing, handlers and
    database back to the client (client/net/client_session.cpp against
    server/handlers), and what the message of the day does to it. *)

From S2P Require Import Prelude.
From S2P Require Import Wire.
From S2P Require Import Framing.
From S2P Require Import TextField.
From S2P Require Import Codec.
From S2P Require Import SessionMessages.
From S2P Require Import RateLimit.
From S2P Require Import Sodium.
From S2P Require Import Noise.
From S2P Require Import Config.
From S2P Require Import DirectMessages.
From S2P Require Import Connection.
From S2P Require Import Database.
From S2P Require Import Repositories.
From S2P Require Import SocialRepositories.
From S2P Require Import Handlers.
From S2P Require Import Server.
From S2P Require Import Effects.
From S2P Require Import Integrity.
From S2P Require Import Scenario.
From S2P Require Import Reads.
From S2P Require Import Sessions.
From S2P Require Import ClientNet.
From S2P Require Import ClientChannel.
From S2P Require Import ClientSession.

(** ** Cipher states with messages to spare *)

Section exchange.
Context `{SodiumLaws}.

Definition cipher_ready (spare : nat) (c : noise_cipher_state) : Prop :=
  key_ok c ∧ has_key_ c = true ∧ 0 <= nonce_counter_ c ∧ nonce_counter_ c + Z.of_nat spare <= UINT64_MAX.

Lemma cipher_ready_seals spare c m : cipher_ready (S spare) c →
  ∃ sealed c', encrypt_with_ad [] m c = (Some sealed, c') ∧ cipher_ready spare c' ∧
    size_of sealed = size_of m + AEAD_TAG_SIZE.
Proof.
  intros (Hk & Hh & Hlow & Hmax). destruct (encrypt_with_ad_spec c [] m Hk Hh) as (sealed & E & Hs & _); [lia|].
  exists sealed, (increment c). split; [exact E|split; [|exact Hs]].
  unfold cipher_ready, increment. cbn. rewrite wrap_id by (unfold fits, UINT64_MAX in *; lia). split_and!; try done; lia.
Qed.

Lemma cipher_ready_less spare c : cipher_ready (S spare) c → cipher_ready spare c.
Proof. intros (? & ? & ? & ?). split_and!; try done. lia. Qed.

Lemma new_cipher_ready spare key : size_of key = 32 → Z.of_nat spare <= UINT64_MAX →
  cipher_ready spare (initialize_key key).
Proof. intros Hk Hs. by split_and!. Qed.

(** The client's transport and the server's channel in step, with messages to
    spare in both directions. *)
Definition linked (spare : nat) (t : noise_transport) (ch : noise_channel) : Prop :=
  ∃ t', Noise.transport_ ch = Some t' ∧
    receive_state_ t' = send_state_ t ∧ receive_state_ t = send_state_ t' ∧
    cipher_ready spare (send_state_ t) ∧ cipher_ready spare (receive_state_ t).

Lemma linked_established spare t ch : linked spare t ch → is_established ch = true.
Proof. intros (t' & E & _). unfold is_established. by rewrite E. Qed.

(** A client with its transport, ready to send, to which the network brings
    these bytes in whatever pieces. *)
Definition awaits (c : server_connection) (t : noise_transport) (stream : bytes) : Prop :=
  ClientNet.transport_ c = Some t ∧ open_ c = true ∧ connected (socket_ c) = true ∧
  Forall sends (send_answers (socket_ c)) ∧
  ∃ answers later, recv_answers (socket_ c) = answers ++ later ∧ Forall stays_open answers ∧
    (length answers < MAX_RECEIVE_ATTEMPTS)%nat ∧ input_buffer_ c ++ received_bytes answers = stream.

Lemma awaits_channel c t stream : awaits c t stream → has_channel c = true.
Proof. intros (Ht & Ho & _). unfold has_channel. by rewrite Ht, Ho. Qed.

Lemma frame_encoded type payload : size_of payload <= MAX_PAYLOAD_SIZE →
  ∃ frame, encode_frame type payload = Some frame ∧ size_of frame = FRAME_HEADER_SIZE + size_of payload.
Proof.
  intros Hsize. pose proof (encode_frame_decodes type payload) as Hd. pose proof (encode_frame_bytes type payload Hsize) as E.
  rewrite E in Hd. rewrite E. destruct Hd as (_ & _ & Hs & _). eexists. split; [done|].
  rewrite Hs. unfold FRAME_HEADER_SIZE, FRAME_TYPE_FIELD_SIZE. lia.
Qed.

(** A frame upward: sent, and opened by the channel. *)
Lemma send_frame_linked spare t ch type payload :
  linked (S spare) t ch → size_of payload <= MAX_PAYLOAD_SIZE →
  ∃ frame sealed ch' t1,
    encode_frame type payload = Some frame ∧ open_message sealed ch = (Some frame, ch') ∧
    0 < size_of sealed <= MAX_FRAME_SIZE + AEAD_TAG_SIZE ∧ linked spare t1 ch' ∧
    receive_state_ t1 = receive_state_ t ∧
    ∀ c stream, awaits c t stream →
      ∃ c', send_frame type payload c = (true, c') ∧ awaits c' t1 stream ∧
        sent_bytes (socket_ c') = sent_bytes (socket_ c) ++ append_length_prefixed_message sealed [].
Proof.
  intros (t' & Ht' & Hup & Hdown & Hs & Hr) Hsize.
  destruct (frame_encoded type payload Hsize) as (frame & Ef & Hframe).
  destruct (cipher_ready_seals spare (send_state_ t) frame Hs) as (sealed & c1 & Ee & Hc1 & Hlen).
  exists frame, sealed, (NoiseChannel (Noise.handshake_ ch) (Some (NoiseTransport (send_state_ t') c1))),
    (NoiseTransport c1 (receive_state_ t)).
  pose proof (encode_frame_size _ _ _ Ef). assert (0 <= AEAD_TAG_SIZE) by done.
  split_and!; [done| |lia|lia| |done|].
  - unfold open_message, on_transport, decrypt_message, zoom. rewrite Ht', Hup.
    by rewrite (cipher_lockstep _ _ _ _ _ (proj1 Hs) Ee).
  - eexists. split_and!; try done. cbn. by apply cipher_ready_less.
  - intros c stream Hc. pose proof (awaits_channel _ _ _ Hc) as Hch. destruct Hc as (Ht & Ho & Hcon & Hsend & Hrecv).
    destruct (send_all_succeeds (append_length_prefixed_message sealed []) (socket_ c) Hcon Hsend) as (sa & Esend & Hsa).
    unfold send_frame, sbind at 1, sgets. rewrite Hch. cbn [negb]. rewrite Ef.
    unfold sbind, ClientNet.on_cipher. rewrite Ht. unfold encrypt_message, zoom. rewrite Ee.
    unfold ClientNet.on_socket, zoom. cbn [socket_]. rewrite Esend.
    eexists. split; [reflexivity|]. split; [|done]. by split_and!.
Qed.

(** Receiving sends nothing. *)
Lemma receive_frame_keeps c r c' : receive_frame c = (r, c') →
  sent_bytes (socket_ c') = sent_bytes (socket_ c) ∧ send_answers (socket_ c') = send_answers (socket_ c) ∧
  dialled (socket_ c') = dialled (socket_ c).
Proof.
  unfold receive_frame, sbind at 1, sgets. destruct (has_channel c); cbn [negb]; [|by intros [= _ <-]].
  unfold sbind at 1, pull_next_message. destruct (pull_attempts MAX_RECEIVE_ATTEMPTS c) as [m c1] eqn:E.
  apply pull_attempts_only in E as [(_ & _ & _ & _ & E1 & E2 & E3) _].
  destruct m as [error|sealed]; [by intros [= _ <-]|]. unfold sbind, ClientNet.on_cipher.
  destruct (ClientNet.transport_ c1) as [t|]; [|intros [= _ <-]; done].
  destruct (decrypt_message sealed t) as [[frame|] t'].
  - destruct (decode_frame_header frame) as [h|]; [destruct (negb _)|]; intros [= _ <-]; done.
  - intros [= _ <-]. done.
Qed.

(** Nor does it touch the sending half of the transport. *)
Lemma receive_frame_transport c r c' t : receive_frame c = (r, c') → ClientNet.transport_ c = Some t →
  ∃ r', ClientNet.transport_ c' = Some (NoiseTransport (send_state_ t) r').
Proof.
  intros E Ht. revert E. unfold receive_frame, sbind at 1, sgets. destruct (has_channel c); cbn [negb].
  2:{ intros [= _ <-]. exists (receive_state_ t). by destruct t. }
  unfold sbind at 1, pull_next_message. destruct (pull_attempts MAX_RECEIVE_ATTEMPTS c) as [m c1] eqn:E.
  apply pull_attempts_only in E as [(_ & _ & E1 & _) _]. rewrite Ht in E1.
  assert (∀ x, ClientNet.transport_ x = Some t → ∃ r', ClientNet.transport_ x = Some (NoiseTransport (send_state_ t) r')) as Hsame.
  { intros x ->. exists (receive_state_ t). by destruct t. }
  destruct m as [error|sealed]; [intros [= _ <-]; by apply Hsame|]. unfold sbind, ClientNet.on_cipher. rewrite E1.
  unfold decrypt_message, zoom. destruct (decrypt_with_ad [] sealed (receive_state_ t)) as [[frame|] r'].
  - destruct (decode_frame_header frame) as [h|]; [destruct (negb _)|]; intros [= _ <-]; by exists r'.
  - intros [= _ <-]. by exists r'.
Qed.

(** What is sealed for the client's transport is what the client receives. *)
Lemma sealed_received type payload frame sealed next c t tail :
  encode_frame type payload = Some frame → encrypt_with_ad [] frame (receive_state_ t) = (Some sealed, next) →
  key_ok (send_state_ t) → key_ok (receive_state_ t) →
  awaits c t (append_length_prefixed_message sealed [] ++ tail) →
  ∃ c', receive_frame c = (inr (FrameHeader (1 + size_of payload) type, payload), c') ∧
    awaits c' (NoiseTransport (send_state_ t) next) tail ∧ sent_bytes (socket_ c') = sent_bytes (socket_ c).
Proof.
  intros Ef Ee Hks Hkr Hc. pose proof (awaits_channel _ _ _ Hc) as Hch.
  destruct Hc as (Ht & Ho & Hcon & Hsend & answers & later & Hrecv & Hopen & Hlength & Heq).
  set (mirror r := NoiseChannel (new_responder [] []) (Some (NoiseTransport r (send_state_ t)))).
  destruct (sealed_frame_arrives type payload frame sealed c (mirror (receive_state_ t)) (mirror next) answers later tail)
    as (c' & left & E & Hp & Hch' & Hcon' & Hrecv' & Hopen' & Hn & Htail); try done.
  { exists t, (NoiseTransport (receive_state_ t) (send_state_ t)). by split_and!. }
  { unfold seal_message, on_transport, encrypt_message, zoom. cbn. by rewrite Ee. }
  pose proof (receive_frame_keeps c _ c' E) as (Hsent & Hsa & Hst).
  exists c'. split; [exact E|]. split; [|exact Hsent].
  destruct (receive_frame_transport c _ c' t E Ht) as (r1 & E1). destruct Hp as (u & u' & Hu & Hu' & _ & Hdown' & _).
  cbn in Hu'. injection Hu' as <-. rewrite E1 in Hu. injection Hu as <-. cbn in Hdown'.
  split_and!; [by rewrite E1, Hdown'|by unfold has_channel in Hch'; destruct (open_ c')|done|by rewrite Hsa|].
  exists left, later. split_and!; try done. lia.
Qed.

(** A frame downward: sealed by the channel for the client's transport. *)
Lemma seal_frame_linked spare t ch type payload :
  linked (S spare) t ch → size_of payload <= MAX_PAYLOAD_SIZE →
  ∃ frame sealed ch' t1,
    encode_frame type payload = Some frame ∧ seal_message frame ch = (Some sealed, ch') ∧
    size_of sealed = FRAME_HEADER_SIZE + size_of payload + AEAD_TAG_SIZE ∧ linked spare t1 ch' ∧
    encrypt_with_ad [] frame (receive_state_ t) = (Some sealed, receive_state_ t1) ∧ send_state_ t1 = send_state_ t.
Proof.
  intros (t' & Ht' & Hup & Hdown & Hs & Hr) Hsize.
  destruct (frame_encoded type payload Hsize) as (frame & Ef & Hframe).
  destruct (cipher_ready_seals spare (receive_state_ t) frame Hr) as (sealed & c1 & Ee & Hc1 & Hlen).
  exists frame, sealed, (NoiseChannel (Noise.handshake_ ch) (Some (NoiseTransport c1 (receive_state_ t')))),
    (NoiseTransport (send_state_ t) c1).
  split_and!; [done| |lia| |done|done].
  - unfold seal_message, on_transport, encrypt_message, zoom. by rewrite Ht', <-Hdown, Ee.
  - eexists. split_and!; try done. cbn. by apply cipher_ready_less.
Qed.

(** And received by the client. *)
Lemma sealed_linked spare t t1 ch type payload frame sealed c tail :
  linked spare t ch → encode_frame type payload = Some frame →
  encrypt_with_ad [] frame (receive_state_ t) = (Some sealed, receive_state_ t1) → send_state_ t1 = send_state_ t →
  awaits c t (append_length_prefixed_message sealed [] ++ tail) →
  ∃ c', receive_frame c = (inr (FrameHeader (1 + size_of payload) type, payload), c') ∧
    awaits c' t1 tail ∧ sent_bytes (socket_ c') = sent_bytes (socket_ c).
Proof.
  intros (t' & _ & _ & _ & (Hs & _) & (Hr & _)) Ef Ee Esend Hc. destruct t1 as [s1 r1]. cbn in *. subst s1.
  by eapply sealed_received.
Qed.
End exchange.

(** ** The server's side of a request *)

Section server_side.
Context `{SodiumLaws} `{EnvironmentLaws}.
Context (config : server_config).
Context (Hcalm : ∀ n, sql_fails n = false).

(** The machine with a connection of these parts. *)
Definition with_connection (w : world) (t : rate_tracker) (sock : connection_socket) (ch : noise_channel)
    (k : session_state) : machine := Machine w t (ClientConnection sock ch k []).

(** The limits have room for [n] more requests of a session that is, or is to
    be, the one of an account. *)
Definition admitted (n : nat) (id : Z) (k : session_state) (t : rate_tracker) : Prop :=
  (user_id k = 0 ∨ user_id k = id) ∧
  room (per_address (server_policy config)) n (default empty_window (by_address t !! peer_address k)) ∧
  room (per_identity (server_policy config)) n (default empty_window (by_identity t !! id)).

#[export] Instance admitted_dec n id k t : Decision (admitted n id k t).
Proof. unfold admitted. apply _. Defined.

Lemma admitted_used n id now k t : admitted (S n) id k t →
  ∃ t', allow_request config k now t = (true, t') ∧ admitted n id k t'.
Proof.
  intros (Hid & Haddress & Hidentity). unfold allow_request, sbind, allow_address_request.
  destruct (room_used _ _ now _ Haddress) as (window & -> & Hwindow). cbn [negb].
  unfold allow_identity_request. destruct (Z.eqb_spec (user_id k) 0) as [Hzero|Hnonzero].
  - eexists. split; [done|]. split_and!; [done|cbn; by rewrite lookup_insert_eq|cbn].
    eapply room_weaken; [|exact Hidentity]. lia.
  - destruct Hid as [|Hid]; [done|]. cbn [by_identity]. rewrite Hid.
    destruct (room_used _ _ now _ Hidentity) as (window' & -> & Hwindow'). eexists. split; [done|].
    split_and!; [by right|cbn; by rewrite lookup_insert_eq|cbn; by rewrite lookup_insert_eq].
Qed.

(** A sealed frame that comes in is handed to the router. *)
Lemma serve_frame n id w t sock ch k sealed frame ch' type payload : admitted (S n) id k t →
  is_established ch = true → open_message sealed ch = (Some frame, ch') →
  encode_frame type payload = Some frame → 0 < size_of sealed <= MAX_NOISE_MESSAGE_SIZE →
  ∃ w' t' now, db w' = db w ∧ admitted n id k t' ∧
    ∀ s2, route_message config type (new_reader payload) (with_connection w' t' sock ch' (touch now k))
            = (true, s2) → input_buffer (connection s2) = [] →
      process_connection_input config [Received (append_length_prefixed_message sealed [])]
        (with_connection w t sock ch k) = (true, s2).
Proof.
  intros Hadmitted Hest Hopen Hframe Hsize.
  assert (u32 (size_of sealed)) as Hu
    by (unfold fits, MAX_NOISE_MESSAGE_SIZE, MAX_FRAME_SIZE, AEAD_TAG_SIZE in *; lia).
  pose proof (encode_frame_decodes type payload) as Hd. rewrite Hframe in Hd. destruct Hd as (_ & Hh & Hs & Hdrop).
  destruct (get_unix_timestamp w) as [now w1] eqn:Enow.
  destruct (admitted_used n id now k t Hadmitted) as (t1 & Ea & Hleft).
  exists w1, t1, now. split; [by injection Enow as _ <-|]. split; [exact Hleft|].
  intros s2 Hroute Hempty.
  unfold process_connection_input, sbind at 1, sgets. cbn [connection with_connection input_buffer read_available].
  rewrite app_nil_l. unfold sbind at 1, put_input at 1, on_connection, zoom, smodify. cbn [negb].
  set (wire := append_length_prefixed_message sealed []).
  pose proof (extract_appended sealed [] MAX_NOISE_MESSAGE_SIZE Hsize Hu) as Hext. rewrite app_nil_r in Hext. fold wire in Hext.
  destruct (length wire) as [|fuel] eqn:Elen.
  { exfalso. unfold wire in Elen. rewrite append_length_prefixed_bytes, !length_app, length_le_bytes in Elen. simpl in Elen. lia. }
  cbn [process_messages]. unfold sbind at 1, sgets. cbn [connection with_connection input_buffer].
  rewrite Hext. unfold sbind at 1, put_input at 1, on_connection, zoom, smodify. cbn [with_connection connection shared tracker].
  unfold sbind at 1, process_message, sbind at 1, sgets. cbn [connection channel]. rewrite Hest. cbn [negb].
  unfold sbind at 1, on_connection at 1, on_channel at 1, zoom at 1 2. cbn [connection channel]. rewrite Hopen.
  cbn [socket session input_buffer shared tracker connection].
  unfold dispatch_application_frame. rewrite Hh, Hs. cbn [body_size]. rewrite Z.eqb_refl. cbn [negb].
  unfold sbind at 1, get_session, sgets. cbn [connection session].
  unfold sbind at 1, on_world at 1, zoom at 1. cbn [shared]. rewrite Enow. cbn [tracker connection].
  unfold sbind at 1, on_tracker at 1, zoom at 1. cbn [tracker]. rewrite Ea. cbn [negb shared connection].
  unfold sbind at 1, put_session at 1, on_connection, zoom, smodify. cbn [connection shared tracker socket channel input_buffer].
  rewrite Hdrop. cbn [Framing.type]. unfold with_connection in Hroute. rewrite Hroute. cbn [negb].
  destruct fuel as [|fuel]; cbn [process_messages]; unfold sbind, sgets; rewrite Hempty; done.
Qed.

Context (Hclock : ∀ n, system_clock n < 2 ^ 64).

(** The queue of a socket with one more message. *)
Definition queued (sock : connection_socket) (sealed : bytes) : connection_socket :=
  ConnectionSocket (descriptor_ sock) (pending_output_ sock ++ append_length_prefixed_message sealed []).

Lemma send_message_queues {A} `{WireFormat A} type (message : A) w t sock ch k frame sealed ch' :
  encode_frame type (encoding message) = Some frame → seal_message frame ch = (Some sealed, ch') →
  u32 (size_of sealed) → size_of (pending_output_ sock) + (4 + size_of sealed) <= MAX_PENDING_OUTPUT →
  send_message type message (with_connection w t sock ch k) = (true, with_connection w t (queued sock sealed) ch' k).
Proof.
  intros Ef Es Hu Hroom. unfold send_message, send_raw_message, on_connection, zoom.
  change (target_ (write_to message (new_writer []))) with (encoding message). rewrite Ef.
  unfold sbind, on_channel, zoom. cbn [connection with_connection channel socket session input_buffer]. rewrite Es.
  unfold Handlers.on_socket, zoom, queue_bytes. cbn [socket].
  replace (MAX_PENDING_OUTPUT <? _) with false; [done|]. symmetry. apply Z.ltb_ge.
  rewrite append_length_prefixed_bytes, app_nil_l, size_of_app. unfold size_of at 2. rewrite length_le_bytes. lia.
Qed.

Lemma send_message_shared {A} `{WireFormat A} type (message : A) s : shared (send_message type message s).2 = shared s.
Proof. unfold send_message, on_connection, zoom. by destruct (send_raw_message _ _ _). Qed.

Lemma clock_u64 w : u64 (get_unix_timestamp w).1.
Proof. unfold get_unix_timestamp. cbn. pose proof (Hclock (clock_reads w)). unfold fits. case_match; lia. Qed.

(** Hello: a challenge for the key announced. *)
Lemma hello_answered w t sock ch k payload key :
  phase k = session_phase.awaiting_hello →
  (read_from (new_reader payload)).1 = Some (hello_request.mk PROTOCOL_VERSION key) →
  ∃ w' nonce known now, db w' = db w ∧ size_of nonce = AUTH_NONCE_SIZE ∧ 0 <= known <= 1 ∧ u64 now ∧
    route_message config message_type.hello_request (new_reader payload) (with_connection w t sock ch k) =
    send_message message_type.auth_challenge (auth_challenge.mk PROTOCOL_VERSION nonce known now)
      (with_connection w' t sock ch (enter session_phase.awaiting_auth (announce key nonce k))).
Proof.
  intros Hphase Hread. cbn [route_message route_session_family]. unfold handle_hello_request.
  unfold sbind at 1, get_session, sgets. cbn [connection with_connection session].
  rewrite bool_decide_true by done. cbn [negb]. unfold with_request. rewrite Hread.
  cbn [hello_request.protocol_version hello_request.client_pubkey]. rewrite Z.eqb_refl. cbn [negb].
  pose proof (random_bytes_size (entropy_reads w) AUTH_NONCE_SIZE ltac:(done)) as Hnonce.
  unfold sbind at 1, on_world at 1, zoom at 1, fill_random_bytes. cbn [shared with_connection tracker connection].
  change (AUTH_NONCE_SIZE =? 0) with false. cbv iota. set (nonce := random_bytes _ _) in *. set (w1 := World _ _ _ _ _).
  unfold sbind at 1, put_session at 1, on_connection, zoom, smodify. cbn [connection shared tracker socket channel input_buffer].
  unfold sbind at 1, on_world at 1, zoom at 1. cbn [shared tracker connection].
  pose proof (find_one_yields Hcalm (λ t, rows_where (λ r, bool_decide (users.pubkey r = key)) (t_users t)) read_user_row w1)
    as [_ Hdb]. fold (find_by_pubkey key) in Hdb.
  destruct (find_by_pubkey key w1) as [existing w2]. cbn [snd] in Hdb.
  unfold sbind at 1, on_world at 1, zoom at 1. cbn [shared tracker connection].
  pose proof (clock_u64 w2) as Hnow. destruct (get_unix_timestamp w2) as [now w3] eqn:Enow. cbn [fst] in Hnow.
  exists w3, nonce, (match existing with Some _ => 1 | None => 0 end), now.
  split_and!; [|exact Hnonce|by destruct existing|by destruct existing|exact Hnow|reflexivity].
  injection Enow as _ <-. cbn. exact Hdb.
Qed.

Lemma rows_where_unique {A} (P : A → bool) (m : gmap Z A) i r :
  m !! i = Some r → P r = true → (∀ j r', m !! j = Some r' → P r' = true → j = i) →
  head (rows_where P m) = Some (i, r).
Proof.
  intros Hi Hp Hone. assert ((i, r) ∈ rows_where P m) as Hin by (by apply rows_where_elem).
  destruct (rows_where P m) as [|[j r'] rows] eqn:E; [by apply elem_of_nil in Hin|].
  assert ((j, r') ∈ rows_where P m) as Hj by (rewrite E; apply list_elem_of_here).
  apply rows_where_elem in Hj as [Hj Hp']. pose proof (Hone j r' Hj Hp') as ->. simpl. congruence.
Qed.

(** The account of a key. *)
Lemma account_found w id key handle banned :
  tables_ok (db_tables (db w)) → t_users (db_tables (db w)) !! id = Some (users.Row key handle banned) →
  yields (find_by_pubkey key) w (Some (UserRow id key handle banned)).
Proof.
  intros Hok Hrow. unfold find_by_pubkey. destruct (ok_users _ Hok) as (_ & Hrows & Huniq).
  pose proof (find_one_yields Hcalm (λ t, rows_where (λ r, bool_decide (users.pubkey r = key)) (t_users t)) read_user_row w) as Hy.
  cbv beta in Hy. rewrite (rows_where_unique _ _ id (users.Row key handle banned)) in Hy; [|done|by apply bool_decide_eq_true|].
  - destruct (Hrows id _ Hrow) as (_ & Hsize & _). cbn in Hy, Hsize. unfold read_key in Hy. by rewrite Hsize in Hy.
  - intros j r Hj Hp. apply bool_decide_eq_true in Hp. by eapply Huniq; [exact Hj|exact Hrow|left].
Qed.

(** The announcement that is active, if any. *)
Definition active_motd (t : tables) : option motd_push.t :=
  (λ r : Z * motd.row, motd_push.mk (to_u64 r.1) (motd.body r.2)) <$> head (take 1 (rows_where motd.active (t_motd t))).

Lemma motd_found w : yields find_active_motd w (active_motd (db_tables (db w))).
Proof.
  unfold find_active_motd, active_motd.
  pose proof (find_one_yields Hcalm (λ t, take 1 (rows_where motd.active (t_motd t)))
    (λ r : Z * motd.row, Some (motd_push.mk (to_u64 r.1) (motd.body r.2))) w) as Hy.
  by destruct (head _).
Qed.

(** A valid signature: the account of the key is accepted, then the
    announcement is pushed. *)
Lemma auth_answered w t sock ch k payload signature id handle :
  phase k = session_phase.awaiting_auth →
  (read_from (new_reader payload)).1 = Some (auth_response.mk signature) →
  verify_signature (announced_pubkey k) (build_auth_signing_input (challenge_nonce k) (announced_pubkey k)) signature = true →
  tables_ok (db_tables (db w)) →
  t_users (db_tables (db w)) !! id = Some (users.Row (announced_pubkey k) handle false) →
  let user := UserRow id (announced_pubkey k) handle false in
  ∃ w' w'' now, db w' = db w ∧ db w'' = db w ∧ u64 now ∧
    route_message config message_type.auth_response (new_reader payload) (with_connection w t sock ch k) =
    (let* sent := send_message message_type.auth_accepted (auth_accepted.mk (to_u64 id) handle now) in
     if negb sent then sret false
     else λ s, match active_motd (db_tables (db w)) with
               | None => (true, Machine w'' (tracker s) (connection s))
               | Some announcement => send_message message_type.motd_push announcement (Machine w'' (tracker s) (connection s))
               end)
      (with_connection w' t sock ch (accept_session user k)).
Proof.
  intros Hphase Hread Hverify Hok Hrow user. cbn [route_message route_session_family]. unfold handle_auth_response.
  unfold sbind at 1, get_session, sgets. cbn [connection with_connection session].
  rewrite bool_decide_true by done. cbn [negb]. unfold with_request. rewrite Hread.
  cbn [auth_response.signature]. rewrite Hverify. cbn [negb].
  unfold sbind at 1, on_world at 1, zoom at 1. cbn [shared tracker connection with_connection].
  destruct (account_found w id (announced_pubkey k) handle false Hok Hrow) as [Hf Hdb].
  destruct (find_by_pubkey (announced_pubkey k) w) as [existing w1]. cbn [fst snd] in Hf, Hdb. subst existing.
  cbn [Repositories.banned]. fold user. unfold send_accepted_session.
  unfold sbind at 1, get_session, sgets. cbn [connection session].
  unfold sbind at 1, put_session at 1, on_connection at 1, zoom at 1, smodify. cbn [connection shared tracker socket channel input_buffer].
  unfold sbind at 1, on_world at 1, zoom at 1. cbn [shared tracker connection].
  pose proof (clock_u64 w1) as Hnow. destruct (get_unix_timestamp w1) as [now w2] eqn:Enow. cbn [fst] in Hnow.
  assert (db w2 = db w) as Hw2 by (injection Enow as _ <-; exact Hdb).
  destruct (motd_found w2) as [Hm Hmdb]. destruct (find_active_motd w2) as [announcement w3] eqn:Em. cbn [fst snd] in Hm, Hmdb.
  rewrite Hw2 in Hm. exists w2, w3, now. split_and!; [done|congruence|exact Hnow|].
  unfold sbind. cbn [Repositories.id Repositories.handle user].
  change (Machine w2 t (ClientConnection sock ch (accept_session user k) []))
    with (with_connection w2 t sock ch (accept_session user k)).
  match goal with |- context [send_message ?ty ?m ?s] =>
    pose proof (send_message_shared ty m s) as Hs; destruct (send_message ty m s) as [[] s1] end; cbn [negb]; [|done].
  cbn [snd with_connection shared] in Hs. unfold on_world, zoom. rewrite Hs, Em, <-Hm. by destruct announcement.
Qed.
End server_side.

(** ** Sizes and round trips of the messages exchanged *)

Ltac encoded_size :=
  rewrite ?output_seq by wire_appends; unfold write_text_field;
  rewrite ?output_integer, ?output_fixed, ?output_length_prefixed, ?size_of_app;
  unfold size_of in *; rewrite ?length_le_bytes; cbn in *; lia.

Lemma hello_size m : size_of (hello_request.client_pubkey m) = 32 → size_of (encoding m) = 34.
Proof. intros. change (encoding m) with (output (hello_request.write_to m)). unfold hello_request.write_to. encoded_size. Qed.

Lemma challenge_size m : size_of (auth_challenge.nonce m) = AUTH_NONCE_SIZE → size_of (encoding m) = 43.
Proof.
  intros Hn. change AUTH_NONCE_SIZE with 32 in Hn. change (encoding m) with (output (auth_challenge.write_to m)).
  unfold auth_challenge.write_to. encoded_size.
Qed.

Lemma response_size m : size_of (auth_response.signature m) = 64 → size_of (encoding m) = 64.
Proof. intros. change (encoding m) with (output (auth_response.write_to m)). unfold auth_response.write_to. encoded_size. Qed.

Lemma accepted_size m : size_of (encoding m) = 20 + size_of (auth_accepted.handle m).
Proof. change (encoding m) with (output (auth_accepted.write_to m)). unfold auth_accepted.write_to. encoded_size. Qed.

Lemma motd_size m : size_of (encoding m) = 12 + size_of (motd_push.body m).
Proof. change (encoding m) with (output (motd_push.write_to m)). unfold motd_push.write_to. encoded_size. Qed.

Lemma message_reads {A} `{WireLaws A} (m : A) : well_formed m → (read_from (new_reader (encoding m))).1 = Some m.
Proof.
  intros Hm. pose proof (proj1 laws_faithful m [] Hm) as E. rewrite app_nil_r in E. by rewrite E.
Qed.

(** Handles of accounts are text fields. *)
Lemma handle_text handle : validate_handle handle = true → text_ok MAX_HANDLE_LENGTH handle.
Proof. intros Hv. by apply validate_handle_sound in Hv as (_ & _ & _ & Ht). Qed.

(** What a client makes of the frame it receives. *)
Section typed.
Context `{Sodium}.

Lemma receive_typed_expected {A} `{WireLaws A} type size (m : A) c c' :
  receive_frame c = (inr (FrameHeader size type, encoding m), c') → type ≠ message_type.status_error → well_formed m →
  receive_typed_message type read_from c = (inr m, c').
Proof.
  intros E Hne Hm. unfold receive_typed_message, sbind. rewrite E. cbn [Framing.type].
  rewrite decide_False, bool_decide_true by done. cbn [negb]. by rewrite message_reads.
Qed.

Lemma receive_typed_unexpected {A} type size payload expected (read : reader A) c c' :
  receive_frame c = (inr (FrameHeader size type, payload), c') → type ≠ message_type.status_error → type ≠ expected →
  receive_typed_message expected read c = (inl (lit "reponse inattendue du serveur"), c').
Proof.
  intros E Hne Hexp. unfold receive_typed_message, sbind. rewrite E. cbn [Framing.type].
  by rewrite decide_False, bool_decide_false.
Qed.
End typed.

(** ** The login *)

(** What a socket whose every byte the system takes has sent, and the machine
    then. *)
Definition transmitted (s : machine) : bytes * machine :=
  let sock := socket (connection s) in
  let '(_, taken, sock') := flush_pending_writes [Sent (length (pending_output_ sock))] sock in
  (taken, Machine (shared s) (tracker s)
            (ClientConnection sock' (channel (connection s)) (session (connection s)) (input_buffer (connection s)))).

Lemma transmitted_all w t fd output ch k : output ≠ [] →
  transmitted (with_connection w t (ConnectionSocket fd output) ch k) =
    (output, with_connection w t (ConnectionSocket fd []) ch k).
Proof.
  intros Hne. unfold transmitted. cbn [connection with_connection socket pending_output_].
  destruct output as [|b output]; [done|]. cbn [length flush_pending_writes pending_output_ descriptor_ drop take].
  rewrite drop_ge, take_ge by lia. cbn. by rewrite app_nil_r.
Qed.

Section login.
Context `{SodiumLaws} `{EnvironmentLaws}.
Context (config : server_config).
Context (Hcalm : ∀ n, sql_fails n = false).
Context (Hclock : ∀ n, system_clock n < 2 ^ 64).
Context (identity : identity_keypair) (seed : bytes).
Context (Hidentity : derive_from_seed seed = Some identity).
Context (Hsigns : ∀ message, ∃ signature, sign_message message identity = Some signature ∧
                                          size_of signature = SIGNATURE_SIZE).

Lemma identity_verifies message signature :
  sign_message message identity = Some signature → verify_signature (public_key_ identity) message signature = true.
Proof.
  intros Hs. revert Hidentity. unfold derive_from_seed.
  destruct (crypto_sign_seed_keypair seed) as [[public secret]|] eqn:E; [|done].
  intros [= <-]. unfold verify_signature, sign_message in *. cbn in *. by eapply sign_verifies.
Qed.

Lemma identity_key_size : size_of (public_key_ identity) = 32.
Proof.
  revert Hidentity. unfold derive_from_seed.
  destruct (crypto_sign_seed_keypair seed) as [[public secret]|] eqn:E; [|done].
  intros [= <-]. cbn. by apply seed_keypair_shape in E as [_ ?].
Qed.

(** One request and its answer: the frame the client sends reaches the router,
    and the message the router's handler sends reaches the client. *)
Lemma request_routed spare t ch type payload :
  linked (S spare) t ch → size_of payload <= MAX_PAYLOAD_SIZE →
  ∃ sealed ch' t1, linked spare t1 ch' ∧
    (∀ c stream, awaits c t stream →
       ∃ c', send_frame type payload c = (true, c') ∧ awaits c' t1 stream ∧
         sent_bytes (socket_ c') = sent_bytes (socket_ c) ++ append_length_prefixed_message sealed []) ∧
    ∀ n id w tr sock k, admitted config (S n) id k tr → ∃ w' tr' now, db w' = db w ∧ admitted config n id k tr' ∧
      ∀ s2, route_message config type (new_reader payload) (with_connection w' tr' sock ch' (touch now k)) = (true, s2) →
        input_buffer (connection s2) = [] →
        process_connection_input config [Received (append_length_prefixed_message sealed [])]
          (with_connection w tr sock ch k) = (true, s2).
Proof.
  intros Hl Hsize. pose proof (linked_established _ _ _ Hl) as Hest.
  destruct (send_frame_linked _ _ _ type payload Hl Hsize) as (frame & sealed & ch' & t1 & Ef & Eo & Hs & Hl' & _ & Hc).
  exists sealed, ch', t1. split_and!; [done|done|]. intros n id w tr sock k Hadmitted.
  by apply (serve_frame config n id w tr sock ch k sealed frame ch' type payload).
Qed.

(** The hello and the challenge. *)
Lemma hello_exchange n id spare t ch w tr fd k : admitted config (S n) id k tr →
  linked (S (S spare)) t ch → phase k = session_phase.awaiting_hello →
  ∃ hello challenge nonce known now t1 ch1 w1 tr1 k1 s1,
    linked spare t1 ch1 ∧ admitted config n id k1 tr1 ∧ db w1 = db w ∧ size_of nonce = AUTH_NONCE_SIZE ∧ 0 <= known <= 1 ∧ u64 now ∧
    phase k1 = session_phase.awaiting_auth ∧ announced_pubkey k1 = public_key_ identity ∧ challenge_nonce k1 = nonce ∧
    process_connection_input config [Received hello] (with_connection w tr (ConnectionSocket fd []) ch k) = (true, s1) ∧
    transmitted s1 = (challenge, with_connection w1 tr1 (ConnectionSocket fd []) ch1 k1) ∧
    ∀ c tail, awaits c t (challenge ++ tail) →
      ∃ c1 c2,
        send_frame message_type.hello_request (encoding (hello_request.mk PROTOCOL_VERSION (public_key_ identity))) c = (true, c1) ∧
        receive_frame c1 = (inr (FrameHeader 44 message_type.auth_challenge,
                                 encoding (auth_challenge.mk PROTOCOL_VERSION nonce known now)), c2) ∧
        awaits c2 t1 tail ∧ sent_bytes (socket_ c2) = sent_bytes (socket_ c) ++ hello.
Proof.
  intros Hadmitted Hl Hphase. set (hello := hello_request.mk PROTOCOL_VERSION (public_key_ identity)).
  assert (size_of (encoding hello) = 34) as Hhello by (apply hello_size, identity_key_size).
  destruct (request_routed _ _ _ message_type.hello_request (encoding hello) Hl) as (sealed & ch' & t' & Hl' & Hc & Hserve).
  { rewrite Hhello. done. }
  destruct (Hserve n id w tr (ConnectionSocket fd []) k Hadmitted) as (w' & tr' & touched & Hw' & Hleft & Hroute).
  destruct (hello_answered config Hcalm Hclock w' tr' (ConnectionSocket fd []) ch' (touch touched k) (encoding hello)
              (public_key_ identity)) as (w1 & nonce & known & now & Hw1 & Hnonce & Hknown & Hnow & Hr).
  { exact Hphase. }
  { apply message_reads. split; [done|apply identity_key_size]. }
  set (message := auth_challenge.mk PROTOCOL_VERSION nonce known now) in *.
  assert (size_of (encoding message) = 43) as Hchallenge by (by apply challenge_size).
  destruct (seal_frame_linked _ _ _ message_type.auth_challenge (encoding message) Hl')
    as (frame & answer & ch1 & t1 & Ef & Es & Hsize & Hl1 & Esealed & Esend).
  { rewrite Hchallenge. done. }
  rewrite Hchallenge in Hsize. change (FRAME_HEADER_SIZE + 43 + AEAD_TAG_SIZE) with 64 in Hsize.
  set (k1 := enter session_phase.awaiting_auth (announce (public_key_ identity) nonce (touch touched k))) in *.
  pose proof (send_message_queues message_type.auth_challenge message w1 tr' (ConnectionSocket fd []) ch' k1 frame answer ch1
    Ef Es) as Hsend. rewrite Hsend in Hr.
  2:{ rewrite Hsize. done. }
  2:{ rewrite Hsize. cbn. done. }
  exists (append_length_prefixed_message sealed []), (append_length_prefixed_message answer []), nonce, known, now,
    t1, ch1, w1, tr', k1, (with_connection w1 tr' (queued (ConnectionSocket fd []) answer) ch1 k1).
  split_and!; [done|exact Hleft|congruence|done|lia|lia|exact Hnow|done|done|done| | |].
  - by apply Hroute.
  - unfold queued. cbn [descriptor_ pending_output_]. rewrite app_nil_l. apply transmitted_all.
    rewrite append_length_prefixed_bytes. done.
  - intros c tail Ha. destruct (Hc c _ Ha) as (c1 & E1 & Ha1 & Hsent1).
    destruct (sealed_linked _ _ _ _ _ _ _ _ _ _ Hl' Ef Esealed Esend Ha1) as (c2 & E2 & Ha2 & Hsent2).
    rewrite Hchallenge in E2.
    exists c1, c2. split_and!; [done|done|done|congruence].
Qed.
(** What the announcement adds to an acceptance. *)
Definition announced (spare : nat) (t : noise_transport) (ch : noise_channel) (announcement : option motd_push.t)
    (t' : noise_transport) (pushed : bytes) (ch' : noise_channel) : Prop :=
  match announcement with
  | None => pushed = [] ∧ ch' = ch ∧ t' = t
  | Some message =>
      ∃ frame sealed, encode_frame message_type.motd_push (encoding message) = Some frame ∧
        encrypt_with_ad [] frame (receive_state_ t) = (Some sealed, receive_state_ t') ∧ send_state_ t' = send_state_ t ∧
        pushed = append_length_prefixed_message sealed [] ∧ linked spare t' ch'
  end.

(** The announcements the administration publishes. *)
Definition motd_ok (t : tables) : Prop :=
  ∀ message, active_motd t = Some message → size_of (motd_push.body message) <= MAX_MOTD_LENGTH.

Lemma announcement_pushed spare t ch w tr fd answer k announcement :
  linked (S spare) t ch → size_of answer <= 1000 →
  (∀ message, announcement = Some message → size_of (motd_push.body message) <= MAX_MOTD_LENGTH) →
  let s := with_connection w tr (queued (ConnectionSocket fd []) answer) ch k in
  ∃ t' pushed ch' s',
    match announcement with
    | None => (true, s)
    | Some message => send_message message_type.motd_push message s
    end = (true, s') ∧
    announced spare t ch announcement t' pushed ch' ∧
    transmitted s' = (append_length_prefixed_message answer [] ++ pushed,
                      with_connection w tr (ConnectionSocket fd []) ch' k) ∧
    input_buffer (connection s') = [].
Proof.
  intros Hl Hanswer Hok s. destruct announcement as [message|].
  - specialize (Hok message eq_refl). change MAX_MOTD_LENGTH with 4096 in Hok.
    destruct (seal_frame_linked _ _ _ message_type.motd_push (encoding message) Hl)
      as (frame & sealed & ch' & t' & Ef & Es & Hsize & Hl' & Esealed & Esend).
    { rewrite motd_size. change MAX_PAYLOAD_SIZE with 1048571. lia. }
    rewrite motd_size in Hsize. change FRAME_HEADER_SIZE with 5 in Hsize. change AEAD_TAG_SIZE with 16 in Hsize.
    pose proof (size_of_nonneg (motd_push.body message)).
    exists t', (append_length_prefixed_message sealed []), ch',
      (with_connection w tr (queued (queued (ConnectionSocket fd []) answer) sealed) ch' k).
    split_and!; [|by exists frame, sealed| |done].
    + apply (send_message_queues _ _ w tr _ ch k frame sealed ch' Ef Es); [unfold fits; lia|].
      cbn [queued pending_output_ descriptor_]. rewrite app_nil_l, append_length_prefixed_bytes, app_nil_l, size_of_app.
      unfold size_of at 1. rewrite length_le_bytes. change MAX_PENDING_OUTPUT with 4194304. lia.
    + apply transmitted_all. rewrite append_length_prefixed_bytes. done.
  - exists t, [], ch, s. split_and!; [done|done| |done]. rewrite app_nil_r. apply transmitted_all.
    rewrite append_length_prefixed_bytes. done.
Qed.

(** The signature of the challenge and the acceptance. *)
Lemma response_exchange n spare t ch w tr fd k id handle : admitted config (S n) id k tr →
  linked (S (S (S spare))) t ch → phase k = session_phase.awaiting_auth → announced_pubkey k = public_key_ identity →
  tables_ok (db_tables (db w)) → motd_ok (db_tables (db w)) →
  t_users (db_tables (db w)) !! id = Some (users.Row (public_key_ identity) handle false) →
  ∃ signature response accepted pushed now t1 ch1 t2 w2 tr2 ch2 s2,
    sign_message (build_auth_signing_input (challenge_nonce k) (public_key_ identity)) identity = Some signature ∧
    linked (S spare) t1 ch1 ∧ announced spare t1 ch1 (active_motd (db_tables (db w))) t2 pushed ch2 ∧
    db w2 = db w ∧ u64 now ∧
    process_connection_input config [Received response] (with_connection w tr (ConnectionSocket fd []) ch k) = (true, s2) ∧
    (∃ touched, transmitted s2 =
      (accepted ++ pushed, with_connection w2 tr2 (ConnectionSocket fd []) ch2
         (accept_session (UserRow id (public_key_ identity) handle false) (touch touched k))) ∧
      admitted config n id (accept_session (UserRow id (public_key_ identity) handle false) (touch touched k)) tr2) ∧
    ∀ c tail, awaits c t (accepted ++ tail) →
      ∃ c1 c2,
        send_frame message_type.auth_response (encoding (auth_response.mk signature)) c = (true, c1) ∧
        receive_frame c1 = (inr (FrameHeader (21 + size_of handle) message_type.auth_accepted,
                                 encoding (auth_accepted.mk id handle now)), c2) ∧
        awaits c2 t1 tail ∧ sent_bytes (socket_ c2) = sent_bytes (socket_ c) ++ response.
Proof.
  intros Hadmitted Hl Hphase Hkey Hok Hmotd Hrow.
  destruct (Hsigns (build_auth_signing_input (challenge_nonce k) (public_key_ identity))) as (signature & Esig & Hsig).
  change SIGNATURE_SIZE with 64 in Hsig.
  destruct (ok_users _ Hok) as ((_ & Hseq) & Hrows & _). destruct (Hrows id _ Hrow) as (Hid & _ & Hhandle). cbn in Hhandle.
  apply handle_text in Hhandle as [[Hlen _] _]. change MAX_HANDLE_LENGTH with 32 in Hlen. pose proof (size_of_nonneg handle).
  assert (to_u64 id = id) as Eid by (unfold to_u64; apply wrap_id; unfold fits; lia).
  set (request := auth_response.mk signature).
  assert (size_of (encoding request) = 64) as Hrequest by (by apply response_size).
  destruct (request_routed _ _ _ message_type.auth_response (encoding request) Hl) as (sealed & ch' & t' & Hl' & Hc & Hserve).
  { rewrite Hrequest. done. }
  destruct (Hserve n id w tr (ConnectionSocket fd []) k Hadmitted) as (w' & tr' & touched & Hw' & Hleft & Hroute).
  set (k' := touch touched k) in *.
  destruct (auth_answered config Hcalm Hclock w' tr' (ConnectionSocket fd []) ch' k' (encoding request) signature id handle)
    as (w1 & w2 & now & Hw1 & Hw2 & Hnow & Hr); try (rewrite ?Hw'; exact Hok || exact Hphase).
  { apply message_reads. exact Hsig. }
  { cbn. rewrite Hkey. by apply identity_verifies. }
  { cbn. by rewrite Hw', Hkey. }
  rewrite Hw', Eid in Hr. set (message := auth_accepted.mk id handle now) in *.
  assert (size_of (encoding message) = 20 + size_of handle) as Haccepted by apply accepted_size.
  destruct (seal_frame_linked _ _ _ message_type.auth_accepted (encoding message) Hl')
    as (frame & answer & ch1 & t1 & Ef & Es & Hsize & Hl1 & Esealed & Esend).
  { rewrite Haccepted. change MAX_PAYLOAD_SIZE with 1048571. lia. }
  rewrite Haccepted in Hsize. change FRAME_HEADER_SIZE with 5 in Hsize. change AEAD_TAG_SIZE with 16 in Hsize.
  set (k2 := accept_session _ k') in *.
  destruct (announcement_pushed spare t1 ch1 w2 tr' fd answer k2 (active_motd (db_tables (db w))) Hl1) as
    (t2 & pushed & ch2 & s2 & Hpush & Hann & Hsent & Hinput).
  { lia. }
  { exact Hmotd. }
  exists signature, (append_length_prefixed_message sealed []), (append_length_prefixed_message answer []), pushed, now,
    t1, ch1, t2, w2, tr', ch2, s2.
  split_and!; [done|done|done|congruence|done| | |].
  - apply Hroute; [|done]. cbn [announced_pubkey] in Hr.
    rewrite Hr. unfold sbind at 1.
    rewrite (send_message_queues _ _ w1 tr' _ ch' k2 frame answer ch1 Ef Es); [|unfold fits; lia|].
    2:{ cbn [pending_output_]. rewrite size_of_nil, Hsize. change MAX_PENDING_OUTPUT with 4194304. lia. }
    cbn [negb with_connection tracker connection]. exact Hpush.
  - exists touched. rewrite Hsent. subst k2. change (announced_pubkey k') with (announced_pubkey k). rewrite Hkey.
    split; [done|]. destruct Hleft as (_ & Haddress & Hleft2). split_and!; [by right|done|done].
  - intros c tail Ha. destruct (Hc c _ Ha) as (c1 & E1 & Ha1 & Hsent1).
    destruct (sealed_linked _ _ _ _ _ _ _ _ _ _ Hl' Ef Esealed Esend Ha1) as (c2 & E2 & Ha2 & Hsent2).
    rewrite Haccepted in E2.
    exists c1, c2. split_and!; [done| |done|congruence].
    rewrite E2, Z.add_assoc. done.
Qed.
(** The two exchanges, and the client's code around them. *)
Lemma login_exchange n spare t ch w tr fd k id handle : admitted config (2 + n) id k tr →
  linked (5 + spare) t ch → phase k = session_phase.awaiting_hello →
  tables_ok (db_tables (db w)) → motd_ok (db_tables (db w)) →
  t_users (db_tables (db w)) !! id = Some (users.Row (public_key_ identity) handle false) →
  ∃ hello challenge response accepted pushed s1 s1' s2 s2' nonce t1 ch1 t2,
    process_connection_input config [Received hello] (with_connection w tr (ConnectionSocket fd []) ch k) = (true, s1) ∧
    transmitted s1 = (challenge, s1') ∧
    process_connection_input config [Received response] s1' = (true, s2) ∧
    transmitted s2 = (accepted ++ pushed, s2') ∧
    db (shared s2') = db w ∧ phase (session (connection s2')) = session_phase.authenticated ∧
    user_id (session (connection s2')) = id ∧
    (∃ w2 tr2 k2, s2' = with_connection w2 tr2 (ConnectionSocket fd []) (channel (connection s2')) k2 ∧
       announced_pubkey k2 = public_key_ identity ∧ admitted config n id k2 tr2) ∧
    linked (S spare) t1 ch1 ∧
    announced spare t1 ch1 (active_motd (db_tables (db w))) t2 pushed (channel (connection s2')) ∧
    ∀ c tail, awaits c t (challenge ++ accepted ++ tail) →
      ∃ c', authenticate identity (Client c new_session) = (None, Client c' (ClientSession nonce handle id false)) ∧
        awaits c' t1 tail ∧ sent_bytes (socket_ c') = sent_bytes (socket_ c) ++ hello ++ response.
Proof.
  intros Hadmitted Hl Hphase Hok Hmotd Hrow.
  destruct (hello_exchange (S n) id _ t ch w tr fd k Hadmitted Hl Hphase)
    as (hello & challenge & nonce & known & now & t1 & ch1 & w1 & tr1 & k1 & s1 & Hl1 & Hleft & Hw1 & Hnonce & Hknown & Hnow &
        Hphase1 & Hkey1 & Hn1 & Ehello & Echallenge & Hclient).
  rewrite <-Hw1 in Hok, Hmotd, Hrow.
  destruct (response_exchange n spare t1 ch1 w1 tr1 fd k1 id handle Hleft Hl1 Hphase1 Hkey1 Hok Hmotd Hrow)
    as (signature & response & accepted & pushed & now2 & t2 & ch2 & t3 & w2 & tr2 & ch3 & s2 & Esign & Hl2 & Hann & Hw2 &
        Hnow2 & Eresponse & (touched & Eaccepted & Hleft2) & Hclient2).
  rewrite Hw1 in Hann. rewrite Hn1 in Esign.
  eexists hello, challenge, response, accepted, pushed, s1, _, s2, _, nonce, t2, ch2, t3.
  split_and!; [exact Ehello|exact Echallenge|exact Eresponse|exact Eaccepted|cbn; congruence|done|done| |exact Hl2|exact Hann|].
  { eexists _, _, _. by split_and!. }
  intros c tail Ha. destruct (Hclient c (accepted ++ tail) Ha) as (c1 & c2 & E1 & E2 & Ha2 & Hsent2).
  destruct (Hclient2 c2 tail Ha2) as (c3 & c4 & E3 & E4 & Ha4 & Hsent4).
  exists c4. split; [|split; [exact Ha4|by rewrite Hsent4, Hsent2, <-app_assoc]].
  destruct (ok_users _ Hok) as ((_ & Hseq) & Hrows & _). destruct (Hrows id _ Hrow) as (Hid & _ & Hhandle).
  apply handle_text in Hhandle.
  unfold authenticate, sbind at 1, on_link at 1, zoom at 1. cbn [connection_ session_].
  unfold send_typed_message. change (output (hello_request.write_to ?m)) with (encoding m). rewrite E1. cbn [negb].
  unfold sbind at 1, on_link at 1, zoom at 1. cbn [connection_ session_].
  change auth_challenge.read_from with (read_from (A := auth_challenge.t)).
  rewrite (receive_typed_expected _ _ _ _ _ E2); [|done|].
  2:{ split_and!; [done|done|unfold fits; cbn; lia|done]. }
  cbn [auth_challenge.nonce]. unfold sbind at 1, sgets. unfold sbind at 1, set_session, smodify.
  cbn [connection_ session_ handle_ user_id_ needs_registration_ new_session].
  unfold sign_and_send_response, sbind at 1 2, sgets. cbn [session_ challenge_nonce_]. rewrite Esign.
  unfold sbind at 1, on_link at 1, zoom at 1. cbn [connection_ session_].
  unfold send_typed_message. change (output (auth_response.write_to ?m)) with (encoding m). rewrite E3. cbn [negb].
  unfold sret at 1. unfold sbind at 1, on_link at 1, zoom at 1. cbn [connection_ session_]. rewrite E4.
  cbn [Framing.type]. rewrite decide_True by done.
  change auth_accepted.read_from with (read_from (A := auth_accepted.t)). rewrite message_reads; [done|].
  split_and!; [unfold fits; cbn; lia|exact Hhandle|exact Hnow2].
Qed.

(** C16: the message of the day breaks the first request of every session that
    logs in (no statement fails and the limits have room for the two requests of
    the login). The server pushes it right behind the acceptance; the client,
    which logged in, finds it where it looks for the answer of its next request,
    whatever that request is, and refuses it as an unexpected answer of the
    server. *)
Theorem motd_breaks_the_first_request (spare : nat) (t : noise_transport) (ch : noise_channel) (w : world)
    (tr : rate_tracker) (fd : Z) (k : session_state) (id : Z) (handle : bytes) (announcement : motd_push.t)
    (Hlinked : linked (5 + spare) t ch) (Hphase : phase k = session_phase.awaiting_hello)
    (Hadmitted : admitted config 2 id k tr)
    (Hok : tables_ok (db_tables (db w))) (Hmotd : motd_ok (db_tables (db w)))
    (Hrow : t_users (db_tables (db w)) !! id = Some (users.Row (public_key_ identity) handle false))
    (Hactive : active_motd (db_tables (db w)) = Some announcement) :
  ∃ hello challenge response accepted pushed s1 s1' s2 s2',
    process_connection_input config [Received hello] (with_connection w tr (ConnectionSocket fd []) ch k) = (true, s1) ∧
    transmitted s1 = (challenge, s1') ∧
    process_connection_input config [Received response] s1' = (true, s2) ∧
    transmitted s2 = (accepted ++ pushed, s2') ∧
    ∀ c tail, awaits c t (challenge ++ accepted ++ pushed ++ tail) →
      ∃ c' session, authenticate identity (Client c new_session) = (None, Client c' session) ∧
        ∀ request (write_to : byte_writer → byte_writer) answer expected (read : reader answer),
          size_of (output write_to) <= MAX_PAYLOAD_SIZE → expected ≠ message_type.motd_push →
          ∃ c2, (let* sent := send_typed_message request write_to in
                 if negb sent then sret (inl []) else receive_typed_message expected read) c'
                = (inl (lit "reponse inattendue du serveur"), c2).
Proof.
  destruct (login_exchange 0 spare t ch w tr fd k id handle Hadmitted Hlinked Hphase Hok Hmotd Hrow)
    as (hello & challenge & response & accepted & pushed & s1 & s1' & s2 & s2' & nonce & t1 & ch1 & t2 &
        E1 & E2 & E3 & E4 & _ & _ & _ & _ & Hl & Hann & Hclient).
  rewrite Hactive in Hann. destruct Hann as (frame & sealed & Ef & Ee & _ & -> & _).
  exists hello, challenge, response, accepted, (append_length_prefixed_message sealed []), s1, s1', s2, s2'.
  split_and!; [done..|]. intros c tail Ha. destruct (Hclient c _ Ha) as (c' & E & Ha' & _).
  eexists c', _. split; [exact E|]. intros request write_to answer expected read Hsize Hexpected.
  destruct (send_frame_linked _ _ _ request (output write_to) Hl Hsize)
    as (frame' & sealed' & ch' & t3 & _ & _ & _ & Hl3 & Hr3 & Hsend).
  destruct (Hsend c' _ Ha') as (c1 & Esend & Ha1 & _).
  destruct Hl3 as (_ & _ & _ & _ & (Hks & _) & (Hkr & _)). rewrite <-Hr3 in Ee.
  destruct (sealed_received _ _ _ _ _ c1 t3 tail Ef Ee Hks Hkr Ha1) as (c2 & E5 & _).
  exists c2. unfold sbind, send_typed_message. rewrite Esend. cbn [negb].
  by apply (receive_typed_unexpected _ _ _ _ _ _ _ E5).
Qed.
End login.

(** ** Witnesses *)

Section witnesses.
#[local] Existing Instance toy_sodium.
#[local] Existing Instance toy_sodium_laws.

(** An environment in which nothing fails and the clock stands still. *)
Definition still : Environment := {|
  sql_fails := @sql_fails calm;
  sql_error := @sql_error calm;
  sql_rolls_back := @sql_rolls_back calm;
  order_rows := @order_rows calm;
  system_clock _ := 1700000000;
  random_bytes := @random_bytes calm;
  random_keypair := @random_keypair calm;
|}.

Lemma still_laws : @EnvironmentLaws still.
Proof.
  destruct (scripted_laws (λ _, false) (λ _, false)) as [Hp Hs Hr]. split; [exact Hp|exact Hs|exact Hr].
Qed.

(** Alice, whose account is the first of [populated]. *)
Definition alice_identity : identity_keypair := IdentityKeypair alice_key (alice_key ++ alice_key).
Definition alice_waiting : session_state := session_of session_phase.awaiting_hello [] 0.

Lemma alice_signs message : ∃ signature, sign_message message alice_identity = Some signature ∧
  size_of signature = SIGNATURE_SIZE.
Proof. eexists. split; [reflexivity|]. unfold size_of. by rewrite length_pad. Qed.

Lemma open_linked : linked 5 (new_transport tor_key tor_key) open_channel.
Proof. exists (new_transport tor_key tor_key). split_and!; try done; by apply new_cipher_ready. Qed.

Lemma populated_motd : active_motd populated = Some (motd_push.mk 1 (lit "news")).
Proof. vm_compute. reflexivity. Qed.

Lemma populated_motd_ok : motd_ok populated.
Proof. intros message. rewrite populated_motd. intros [= <-]. vm_compute. discriminate. Qed.

(** The limits a server has unless it is told otherwise have room for them. *)
Lemma first_requests : admitted default_config 2 1 alice_waiting (RateTracker ∅ ∅).
Proof. split; [by left|]. split; apply room_empty; right; vm_compute; discriminate. Qed.


Lemma motd_breaks_the_first_request_witness : ∃ challenge accepted pushed,
  ∀ c, awaits c (new_transport tor_key tor_key) (challenge ++ accepted ++ pushed ++ []) →
    ∃ c' session, authenticate alice_identity (Client c new_session) = (None, Client c' session) ∧
      ∃ c2, (let* sent := send_typed_message message_type.forum_list_request (λ w, w) in
             if negb sent then sret (inl [])
             else receive_typed_message message_type.ping_response ping_response.read_from) c'
            = (inl (lit "reponse inattendue du serveur"), c2).
Proof.
  destruct (@motd_breaks_the_first_request toy_sodium toy_sodium_laws still still_laws default_config (λ _, eq_refl)
              (λ _, eq_refl) alice_identity alice_key eq_refl alice_signs
              0 _ _ (fresh_world populated) (RateTracker ∅ ∅) 5 alice_waiting 1 (lit "alice") _ open_linked eq_refl
              first_requests populated_ok populated_motd_ok eq_refl populated_motd)
    as (hello & challenge & response & accepted & pushed & s1 & s1' & s2 & s2' & _ & _ & _ & _ & Hc).
  exists challenge, accepted, pushed. intros c Ha. destruct (Hc c [] Ha) as (c' & session & E & Hreq).
  exists c', session. split; [exact E|].
  apply (Hreq message_type.forum_list_request (λ w, w)); [vm_compute; discriminate|discriminate].
Defined.
End witnesses.
