(* ===== verification/ClientMail.v ===== *)
(** Mail between clients, through the server: what [dm-fetch] reads is
    acknowledged and deleted, what it cannot read stays in the way. *)

From S2P Require Import Prelude.
From S2P Require Import Wire.
From S2P Require Import Framing.
From S2P Require Import Codec.
From S2P Require Import SessionMessages.
From S2P Require Import SocialMessages.
From S2P Require Import TextTools.
From S2P Require Import Hex.
From S2P Require Import RateLimit.
From S2P Require Import Sodium.
From S2P Require Import Noise.
From S2P Require Import Config.
From S2P Require Import DirectMessages.
From S2P Require Import Connection.
From S2P Require Import Database.
From S2P Require Import Repositories.
From S2P Require Import SocialRepositories.
From S2P Require Import Handlers.
From S2P Require Import Server.
From S2P Require Import Effects.
From S2P Require Import Integrity.
From S2P Require Import Scenario.
From S2P Require Import Transactions.
From S2P Require Import Reads.
From S2P Require Import Mailbox.
From S2P Require Import ClientNet.
From S2P Require Import ClientChannel.
From S2P Require Import ClientSession.
From S2P Require Import ClientCommands.
From S2P Require Import ClientLogin.

(** ** A request and its answer, across the network *)

Section answered.
Context `{SodiumLaws} `{EnvironmentLaws}.
Context (config : server_config).

(** A handler that sends one message, whatever the clock and the tracker say. *)
Definition answers_with {A} `{WireFormat A} (type : message_type.t) (payload : bytes) (k : session_state)
    (answer_type : message_type.t) (answer : A) (w : world) (after : world → Prop) : Prop :=
  ∀ w1 tr sock ch now, db w1 = db w → ∃ w2, after w2 ∧
    route_message config type (new_reader payload) (with_connection w1 tr sock ch (touch now k)) =
    send_message answer_type answer (with_connection w2 tr sock ch (touch now k)).

Lemma answered_exchange {A} `{WireFormat A} n id spare t ch w tr fd k type payload answer_type (answer : A) after :
  admitted config (S n) id k tr → linked (S (S spare)) t ch → size_of payload <= MAX_PAYLOAD_SIZE → size_of (encoding answer) <= MAX_PAYLOAD_SIZE →
  answers_with type payload k answer_type answer w after →
  ∃ request reply t1 ch1 w1 tr1 now s1,
    linked spare t1 ch1 ∧ admitted config n id (touch now k) tr1 ∧ after w1 ∧
    process_connection_input config [Received request] (with_connection w tr (ConnectionSocket fd []) ch k) = (true, s1) ∧
    transmitted s1 = (reply, with_connection w1 tr1 (ConnectionSocket fd []) ch1 (touch now k)) ∧
    ∀ c tail, awaits c t (reply ++ tail) →
      ∃ c1 c2, send_frame type payload c = (true, c1) ∧
        receive_frame c1 = (inr (FrameHeader (1 + size_of (encoding answer)) answer_type, encoding answer), c2) ∧
        awaits c2 t1 tail ∧ sent_bytes (socket_ c2) = sent_bytes (socket_ c) ++ request.
Proof.
  intros Hadmitted Hl Hsize Hanswer Hroutes. pose proof (size_of_nonneg (encoding answer)) as Hpos.
  destruct (request_routed config _ _ _ type payload Hl Hsize) as (sealed & ch' & t' & Hl' & Hc & Hserve).
  destruct (Hserve n id w tr (ConnectionSocket fd []) k Hadmitted) as (w1 & tr1 & now & Hw1 & Hleft & Hroute).
  destruct (Hroutes w1 tr1 (ConnectionSocket fd []) ch' now Hw1) as (w2 & Hafter & Hr).
  destruct (seal_frame_linked _ _ _ answer_type (encoding answer) Hl' Hanswer)
    as (frame & reply & ch1 & t1 & Ef & Es & Hreply & Hl1 & Esealed & Esend).
  change MAX_PAYLOAD_SIZE with 1048571 in Hanswer. change FRAME_HEADER_SIZE with 5 in Hreply. change AEAD_TAG_SIZE with 16 in Hreply.
  rewrite (send_message_queues answer_type answer w2 tr1 _ ch' (touch now k) frame reply ch1 Ef Es) in Hr.
  2:{ unfold fits. lia. }
  2:{ cbn [pending_output_]. rewrite size_of_nil, Hreply. change MAX_PENDING_OUTPUT with 4194304. lia. }
  exists (append_length_prefixed_message sealed []), (append_length_prefixed_message reply []), t1, ch1, w2, tr1, now,
    (with_connection w2 tr1 (queued (ConnectionSocket fd []) reply) ch1 (touch now k)).
  split_and!; [done|exact Hleft|done|by apply Hroute| |].
  - apply transmitted_all. rewrite append_length_prefixed_bytes. done.
  - intros c tail Ha. destruct (Hc c _ Ha) as (c1 & E1 & Ha1 & Hsent1).
    destruct (sealed_linked _ _ _ _ _ _ _ _ _ _ Hl' Ef Esealed Esend Ha1) as (c2 & E2 & Ha2 & Hsent2).
    exists c1, c2. split_and!; [done|done|done|congruence].
Qed.
End answered.

(** ** The server's side of the mailbox *)

Section mailbox_requests.
Context `{SodiumLaws} `{EnvironmentLaws}.
Context (config : server_config).
Context (Hcalm : ∀ n, sql_fails n = false).

Lemma rebind_calm w : rebind true w = (true, tick w).
Proof. unfold rebind, prepare. by rewrite Hcalm. Qed.

Lemma step_done_calm statement w o : statement (db_tables (db w)) = Some o →
  step_done statement w = (true, tick (set_db (DatabaseState (new_tables o) (saved (db w))
                                                 (default (last_insert_id (db w)) (inserted o)) (changed o)) w)).
Proof. intros E. unfold step_done. by rewrite Hcalm, E. Qed.

Lemma delete_envelope_total id me t : ∃ o, delete_envelope id me t = Some o.
Proof. unfold delete_envelope. destruct (t_dm t !! id) as [r|]; [destruct (_ =? _)|]; by eexists. Qed.

Lemma delete_envelopes_calm me ids w :
  (delete_envelopes true me ids true w).1 = true ∧ saved (db (delete_envelopes true me ids true w).2) = saved (db w).
Proof.
  revert w. induction ids as [|id ids IH]; intros w; [done|]. cbn [delete_envelopes negb].
  unfold sbind at 1 3. rewrite rebind_calm. destruct (delete_envelope_total (to_i64 id) me (db_tables (db (tick w)))) as [o E].
  unfold sbind. rewrite (step_done_calm _ _ o E).
  split; [apply IH|by rewrite (proj2 (IH _))].
Qed.

Lemma execute_calm s w d : run_script s (db w) = Some d → execute s w = (true, tick (set_db d w)).
Proof. intros E. unfold execute, execute_script, sbind, sret. by rewrite Hcalm, E. Qed.

(** With an engine that does not fail the acknowledgement succeeds. *)
Lemma delete_acknowledged_calm me ids w : autocommit w → (delete_acknowledged me ids w).1 = true.
Proof.
  intros Ha. unfold autocommit in Ha. unfold delete_acknowledged, sbind at 1.
  erewrite execute_calm; [|cbn; by rewrite Ha]. cbn [negb]. unfold sbind at 1, prepare. rewrite Hcalm. cbn [negb].
  unfold sbind. set (w1 := tick (tick _)). pose proof (delete_envelopes_calm me ids w1) as [Hok Hs].
  destruct (delete_envelopes true me ids true w1) as [ok w2]. cbn [fst snd] in *. subst ok.
  unfold finish_transaction, sbind. erewrite execute_calm; [done|]. cbn. rewrite Hs. cbn. done.
Qed.

Context (k : session_state).
Context (Hregistered : is_registered k = true).

Lemma registered_passes handler s : session (connection s) = touch (last_activity_at (session (connection s))) k →
  registered handler s = handler (session (connection s)) s.
Proof.
  intros E. unfold registered, require_registered_session, sbind at 1 2, get_session, sgets.
  assert (is_registered (session (connection s)) = true) as -> by (by rewrite E).
  cbn [negb sret]. unfold sret, sbind. done.
Qed.

Lemma fetch_answers w : tables_ok (db_tables (db w)) →
  answers_with config message_type.dm_fetch_request (encoding (dm_fetch_request.mk 0 MAX_DM_BATCH_ITEMS)) k
    message_type.dm_list_response (mailbox_page MAX_DM_BATCH_ITEMS (mailbox_rows (user_id k) 0 (db_tables (db w)))) w
    (λ w2, db w2 = db w).
Proof.
  intros Hok w1 tr sock ch now Hw1. rewrite <-Hw1 in Hok.
  destruct (list_for_recipient_yields (user_id k) 0 MAX_DM_BATCH_ITEMS w1 Hcalm Hok ltac:(done)) as [Hpage Hdb].
  exists (list_for_recipient (user_id k) 0 MAX_DM_BATCH_ITEMS w1).2. split; [congruence|].
  cbn [route_message route_session_family route_content_family route_social_family route_dm_family].
  unfold handle_dm_fetch_request. rewrite registered_passes by done. unfold with_request.
  rewrite message_reads; [|split; done]. cbn [dm_fetch_request.limit dm_fetch_request.since_id].
  change (Z.min _ _) with MAX_DM_BATCH_ITEMS. cbn [connection with_connection session].
  change (user_id (touch now k)) with (user_id k). change (to_i64 0) with 0 in Hpage.
  unfold sbind, on_world, zoom. cbn [shared with_connection tracker connection].
  destruct (list_for_recipient _ _ _ w1) as [page w2]. cbn [fst snd] in *. by rewrite Hpage, Hw1.
Qed.

Lemma ack_answers w ids : autocommit w → ids_ok MAX_DM_BATCH_ITEMS ids →
  answers_with config message_type.dm_ack_request (encoding (dm_ack_request.mk ids)) k
    message_type.status_ok (status_ok_response.mk (to_u64 (size_of ids))) w
    (λ w2, autocommit w2 ∧ acknowledges (user_id k) ids (db_tables (db w)) (db_tables (db w2))).
Proof.
  intros Ha Hids w1 tr sock ch now Hw1.
  assert (autocommit w1) as Ha1 by (unfold autocommit in *; congruence).
  pose proof (delete_acknowledged_calm (user_id k) ids w1 Ha1) as Hok.
  pose proof (delete_acknowledged_transacts (user_id k) ids w1 Ha1) as Hd. unfold atomic in Hd.
  exists (delete_acknowledged (user_id k) ids w1).2.
  destruct (delete_acknowledged (user_id k) ids w1) as [ok w2] eqn:E. cbn [fst snd] in *. subst ok.
  split; [by rewrite <-Hw1|].
  cbn [route_message route_session_family route_content_family route_social_family route_dm_family].
  unfold handle_dm_ack_request. rewrite registered_passes by done. unfold with_request.
  rewrite message_reads by done. cbn [dm_ack_request.envelope_ids connection with_connection session].
  change (user_id (touch now k)) with (user_id k).
  unfold sbind, on_world, zoom. cbn [shared with_connection tracker connection]. by rewrite E.
Qed.
End mailbox_requests.

(** ** Fetching *)

(** The server takes the requests in turn; what it transmits after each. *)
Fixpoint serve `{Sodium, Environment} (config : server_config) (requests : list bytes) (s : machine)
    : option (list bytes * machine) :=
  match requests with
  | [] => Some ([], s)
  | request :: requests' =>
      let '(ok, s1) := process_connection_input config [Received request] s in
      if negb ok then None
      else
        let '(reply, s2) := transmitted s1 in
        match serve config requests' s2 with
        | Some (replies, s3) => Some (reply :: replies, s3)
        | None => None
        end
  end.

Lemma serve_one `{Sodium, Environment} config request requests s s1 reply s2 :
  process_connection_input config [Received request] s = (true, s1) → transmitted s1 = (reply, s2) →
  serve config (request :: requests) s =
    match serve config requests s2 with Some (replies, s3) => Some (reply :: replies, s3) | None => None end.
Proof. intros E1 E2. cbn [serve]. by rewrite E1, E2. Qed.

(** The message is readable for the identity. *)
Definition opens `{Sodium} (identity : identity_keypair) (ciphertext : bytes) : bool :=
  match open_direct_message identity ciphertext with inr _ => true | inl _ => false end.

Lemma shown_ids `{Sodium} identity envelopes :
  (show_mailbox identity envelopes).2 =
    map dm_envelope_record.id (List.filter (λ e, opens identity (dm_envelope_record.ciphertext e)) envelopes).
Proof.
  unfold show_mailbox. cbn [snd]. induction envelopes as [|e envelopes IH]; [done|]. cbn [map omap list_omap List.filter].
  unfold show_envelope at 1, opens at 1.
  destruct (open_direct_message identity (dm_envelope_record.ciphertext e)) as [error|[text sent_at]]; cbn; [done|by f_equal].
Qed.

(** The ids of rows survive the trip as 64 bits. *)
Lemma row_id_roundtrip i : 0 <= i < 2 ^ 63 → to_i64 (to_u64 i) = i.
Proof. intros Hi. unfold to_u64. rewrite wrap_id by (unfold fits; lia). by apply to_i64_id. Qed.

Section fetching.
Context `{SodiumLaws} `{EnvironmentLaws}.
Context (config : server_config).
Context (Hcalm : ∀ n, sql_fails n = false).
Context (identity : identity_keypair).

Lemma page_well_formed me t : tables_ok t →
  well_formed (mailbox_page MAX_DM_BATCH_ITEMS (mailbox_rows me 0 t)).
Proof.
  intros Hok. pose proof (mailbox_rows_ok me 0 t) as [_ Hl]. destruct (ok_dm _ Hok) as [[Hlow Hhigh] Hdm].
  change MAX_DM_BATCH_ITEMS with 100. split.
  - unfold list_ok, mailbox_page. cbn [dm_list_response.envelopes]. unfold size_of. rewrite length_map, length_take.
    split; [|split; [change MAX_DM_BATCH_ITEMS with 100; lia|unfold fits; lia]]. apply Forall_map, Forall_take, Forall_forall. intros [i r] Hin.
    apply Hl in Hin as (Hi & _ & _). apply Hdm in Hi as (Hrange & _ & Hkey & _ & Hblob). cbn in *.
    split_and!; [exact (wrap_fits 64 _ ltac:(done))|done|done].
  - cbn. by case_bool_decide.
Qed.

(** A command's view of the connection. *)
Lemma talk_run {A} (m : state server_connection A) c session out a c' :
  m c = (a, c') → talk m (CliContext (Client c session) out) = (a, CliContext (Client c' session) out).
Proof. intros E. unfold talk, on_link, zoom. cbn. by rewrite E. Qed.

Lemma ask_answered {R A} `{WireFormat R} `{WireLaws A} type (request : R) expected (answer : A) size
    (answered : A → command) c c1 c2 session out :
  send_frame type (encoding request) c = (true, c1) →
  receive_frame c1 = (inr (FrameHeader size expected, encoding answer), c2) →
  expected ≠ message_type.status_error → well_formed answer →
  ask type request expected answered (CliContext (Client c session) out) =
    answered answer (CliContext (Client c2 session) out).
Proof.
  intros E1 E2 Hne Hwf. unfold ask, sbind at 1. unfold send_typed_message.
  change (output (write_to request)) with (encoding request). rewrite (talk_run _ _ _ _ _ _ E1). cbn [negb].
  unfold sbind. by rewrite (talk_run _ _ _ _ _ _ (receive_typed_expected _ _ _ _ _ E2 Hne Hwf)).
Qed.

Lemma ack_request_size ids : ids_ok MAX_DM_BATCH_ITEMS ids → size_of (encoding (dm_ack_request.mk ids)) <= MAX_PAYLOAD_SIZE.
Proof.
  intros (_ & Hmax & _). change MAX_DM_BATCH_ITEMS with 100 in Hmax.
  change (encoding (dm_ack_request.mk ids)) with (output (write_record_list (write_integer 8) ids)).
  rewrite record_list_output by auto with wire. rewrite size_of_app.
  assert (size_of (items_bytes (write_integer 8) ids) = 8 * size_of ids) as ->.
  { clear. unfold items_bytes, size_of. induction ids as [|i ids IH]; [done|]. cbn [map concat].
    rewrite length_app, output_integer, length_le_bytes. cbn [length]. lia. }
  unfold size_of at 1. rewrite length_le_bytes. change MAX_PAYLOAD_SIZE with 1048571. lia.
Qed.

Lemma shown_ids_ok envelopes : list_ok MAX_DM_BATCH_ITEMS envelopes →
  ids_ok MAX_DM_BATCH_ITEMS (show_mailbox identity envelopes).2.
Proof.
  intros (Hwf & Hmax & _). rewrite shown_ids. unfold ids_ok, size_of in *. rewrite length_map.
  change MAX_DM_BATCH_ITEMS with 100 in *.
  pose proof (filter_length_le (λ e, opens identity (dm_envelope_record.ciphertext e)) envelopes).
  split; [|split; [lia|unfold fits; lia]]. apply Forall_map, Forall_forall. intros e [He _]%list_elem_of_In%filter_In.
  rewrite Forall_forall in Hwf. apply list_elem_of_In in He. by destruct (Hwf e He) as [? _].
Qed.

Lemma fetch_request_size : size_of (encoding (dm_fetch_request.mk 0 MAX_DM_BATCH_ITEMS)) <= MAX_PAYLOAD_SIZE.
Proof. vm_compute. discriminate. Qed.

Lemma status_ok_size reference : size_of (encoding (status_ok_response.mk reference)) <= MAX_PAYLOAD_SIZE.
Proof.
  change (encoding (status_ok_response.mk reference)) with (output (write_integer 8 reference)).
  rewrite output_integer. unfold size_of. by rewrite length_le_bytes.
Qed.

(** The page the server sends: the first of the mail. *)
Definition first_page (me : Z) (t : tables) : dm_list_response.t :=
  mailbox_page MAX_DM_BATCH_ITEMS (mailbox_rows me 0 t).

(** What a client makes of it: the text shown and the ids acknowledged. *)
Definition page_shown (me : Z) (t : tables) : bytes * list Z :=
  show_mailbox identity (dm_list_response.envelopes (first_page me t)).

(** One page is asked and received, and the session goes on. *)
Lemma fetch_leg n id spare t ch w tr fd k : admitted config (S n) id k tr →
  linked (2 + spare) t ch → is_registered k = true → tables_ok (db_tables (db w)) →
  size_of (encoding (first_page (user_id k) (db_tables (db w)))) <= MAX_PAYLOAD_SIZE →
  ∃ request reply t1 ch1 w1 tr1 now,
    linked spare t1 ch1 ∧ admitted config n id (touch now k) tr1 ∧ db w1 = db w ∧
    serve config [request] (with_connection w tr (ConnectionSocket fd []) ch k)
      = Some ([reply], with_connection w1 tr1 (ConnectionSocket fd []) ch1 (touch now k)) ∧
    ∀ c session out tail, awaits c t (reply ++ tail) →
      ∃ c', run_dm_fetch identity (CliContext (Client c session) out) =
              show_and_acknowledge identity (first_page (user_id k) (db_tables (db w)))
                (CliContext (Client c' session) out) ∧
        awaits c' t1 tail ∧ sent_bytes (socket_ c') = sent_bytes (socket_ c) ++ request.
Proof.
  intros Hadmitted Hl Hk Hok Hfits.
  destruct (answered_exchange config n id spare t ch w tr fd k message_type.dm_fetch_request
              (encoding (dm_fetch_request.mk 0 MAX_DM_BATCH_ITEMS)) message_type.dm_list_response _ _ Hadmitted Hl
              fetch_request_size Hfits (fetch_answers config Hcalm k Hk w Hok))
    as (request & reply & t1 & ch1 & w1 & tr1 & now & s1 & Hl1 & Hleft & Hw1 & Eserve & Esent & Hclient).
  exists request, reply, t1, ch1, w1, tr1, now. split_and!; [done|done|done|by rewrite (serve_one _ _ _ _ _ _ _ Eserve Esent)|].
  intros c session out tail Ha. destruct (Hclient c tail Ha) as (c1 & c2 & E1 & E2 & Ha2 & Hs). exists c2.
  split_and!; [|done|done]. unfold run_dm_fetch.
  erewrite ask_answered; [reflexivity|exact E1|exact E2|done|by apply page_well_formed].
Qed.

(** What is acknowledged is deleted. *)
Lemma acknowledge_leg n id spare t ch w tr fd k ids : admitted config (S n) id k tr →
  linked (2 + spare) t ch → is_registered k = true → autocommit w → ids_ok MAX_DM_BATCH_ITEMS ids →
  ∃ request reply t1 ch1 w1 tr1 now,
    linked spare t1 ch1 ∧ admitted config n id (touch now k) tr1 ∧ autocommit w1 ∧ acknowledges (user_id k) ids (db_tables (db w)) (db_tables (db w1)) ∧
    serve config [request] (with_connection w tr (ConnectionSocket fd []) ch k)
      = Some ([reply], with_connection w1 tr1 (ConnectionSocket fd []) ch1 (touch now k)) ∧
    ∀ c session out tail response text, awaits c t (reply ++ tail) → ids ≠ [] →
      show_mailbox identity (dm_list_response.envelopes response) = (text, ids) →
      ∃ c', show_and_acknowledge identity response (CliContext (Client c session) out) =
              (None, CliContext (Client c' session) (out ++ text)) ∧
        awaits c' t1 tail ∧ sent_bytes (socket_ c') = sent_bytes (socket_ c) ++ request.
Proof.
  intros Hadmitted Hl Hk Ha Hids.
  destruct (answered_exchange config n id spare t ch w tr fd k message_type.dm_ack_request
              (encoding (dm_ack_request.mk ids)) message_type.status_ok (status_ok_response.mk (to_u64 (size_of ids)))
              _ Hadmitted Hl (ack_request_size _ Hids) (status_ok_size _) (ack_answers config Hcalm k Hk w ids Ha Hids))
    as (request & reply & t1 & ch1 & w1 & tr1 & now & s1 & Hl1 & Hleft & [Ha1 Hw1] & Eserve & Esent & Hclient).
  exists request, reply, t1, ch1, w1, tr1, now.
  split_and!; [done|done|done|done|by rewrite (serve_one _ _ _ _ _ _ _ Eserve Esent)|].
  intros c session out tail response text Hc Hne Eshown.
  destruct (Hclient c tail Hc) as (c1 & c2 & E1 & E2 & Ha2 & Hs). exists c2. split_and!; [|done|done].
  unfold show_and_acknowledge. rewrite Eshown. unfold sbind at 1, say, smodify.
  rewrite decide_False by done. unfold sbind at 1, send_typed_message.
  change (output (write_to (dm_ack_request.mk ids))) with (encoding (dm_ack_request.mk ids)).
  cbn [client_ printed]. rewrite (talk_run _ _ _ _ _ _ E1). cbn [negb]. unfold sbind.
  change status_ok_response.read_from with (read_from (A := status_ok_response.t)).
  by rewrite (talk_run _ _ _ _ _ _ (receive_typed_expected _ _ _ _ _ E2 ltac:(done) (wrap_fits 64 _ ltac:(done)))).
Qed.

Lemma serve_app requests requests' s :
  serve config (requests ++ requests') s =
    match serve config requests s with
    | None => None
    | Some (replies, s1) =>
        match serve config requests' s1 with
        | None => None
        | Some (replies', s2) => Some (replies ++ replies', s2)
        end
    end.
Proof.
  revert s. induction requests as [|r requests IH]; intros s; cbn [app serve].
  - by destruct (serve config requests' s) as [[]|].
  - destruct (process_connection_input _ _ s) as [[] s1]; cbn [negb]; [|done]. destruct (transmitted s1) as [reply s2].
    rewrite IH. destruct (serve config requests s2) as [[replies s3]|]; [|done].
    by destruct (serve config requests' s3) as [[]|].
Qed.

Lemma show_nothing_more response text c session out :
  show_mailbox identity (dm_list_response.envelopes response) = (text, []) →
  show_and_acknowledge identity response (CliContext (Client c session) out) =
    (None, CliContext (Client c session) (out ++ text)).
Proof. intros E. unfold show_and_acknowledge. by rewrite E. Qed.
End fetching.

(** ** What happens to mail *)

Section mail.
Context `{SodiumLaws} `{EnvironmentLaws}.
Context (config : server_config).
Context (Hcalm : ∀ n, sql_fails n = false).
Context (identity : identity_keypair).

#[export] Instance dm_row_eq_dec : EqDecision dm_envelopes.row.
Proof. solve_decision. Defined.

(** The rows of the page that the identity can open. *)
Definition read_by (me : Z) (t : tables) (row : Z * dm_envelopes.row) : Prop :=
  row ∈ take (Z.to_nat MAX_DM_BATCH_ITEMS) (mailbox_rows me 0 t) ∧
  opens identity (dm_envelopes.ciphertext row.2) = true.

#[export] Instance read_by_dec me t row : Decision (read_by me t row).
Proof. unfold read_by. apply _. Defined.

Lemma acknowledged_read me t row : tables_ok t → t_dm t !! row.1 = Some row.2 →
  acknowledged me (page_shown identity me t).2 row ↔ read_by me t row.
Proof.
  intros Hok Hrow. pose proof (mailbox_rows_ok me 0 t) as [_ Hl]. destruct (ok_dm _ Hok) as [[Hlow Hhigh] Hdm].
  set (page := take (Z.to_nat MAX_DM_BATCH_ITEMS) (mailbox_rows me 0 t)).
  assert (∀ r, r ∈ page → r ∈ mailbox_rows me 0 t) as Hpage.
  { intros r Hr. rewrite <-(take_drop (Z.to_nat MAX_DM_BATCH_ITEMS) (mailbox_rows me 0 t)). apply elem_of_app. by left. }
  assert (∀ r, r ∈ page → to_i64 (to_u64 r.1) = r.1) as Hid.
  { intros [i r] (Hi & _)%Hpage%Hl. apply Hdm in Hi as [Hi _]. apply row_id_roundtrip. cbn in *. lia. }
  unfold acknowledged, read_by, page_shown, first_page, mailbox_page. rewrite shown_ids.
  cbn [dm_list_response.envelopes]. fold page.
  rewrite map_map, list_elem_of_In, in_map_iff. split.
  - intros (Hme & e & Eid & [(r & <- & Hr)%in_map_iff Hopens]%filter_In). apply list_elem_of_In in Hr.
    cbn [dm_envelope_record.id dm_envelope_record.ciphertext envelope_record] in *. rewrite (Hid r Hr) in Eid.
    pose proof (proj1 (Hl r) (Hpage r Hr)) as (Hr' & _). rewrite Eid, Hrow in Hr'. injection Hr' as Erow.
    assert (row = r) as -> by (destruct row, r; cbn in *; by subst). split; [exact Hr|exact Hopens].
  - intros [Hr Hopens]. pose proof (proj1 (Hl row) (Hpage row Hr)) as (_ & Hme & _). split; [done|].
    exists (envelope_record row). cbn [dm_envelope_record.id envelope_record]. split; [by apply Hid|].
    apply filter_In. split; [|done]. apply in_map_iff. exists row. split; [done|]. by apply list_elem_of_In.
Qed.
Lemma acknowledges_read me t t' : tables_ok t → acknowledges me (page_shown identity me t).2 t t' →
  t' = set_dm (filter (λ row, ¬ read_by me t row) (t_dm t)) (t_seq t) t.
Proof.
  intros Hok ->. f_equal. apply map_filter_ext. intros i r Hi. by rewrite (acknowledged_read me t (i, r) Hok Hi).
Qed.

Lemma read_by_none me t row : (page_shown identity me t).2 = [] → tables_ok t → t_dm t !! row.1 = Some row.2 →
  ¬ read_by me t row.
Proof.
  intros Hnone Hok Hrow Hr. apply (acknowledged_read me t row Hok Hrow) in Hr as [_ Hr]. rewrite Hnone in Hr.
  by apply elem_of_nil in Hr.
Qed.

Lemma mailbox_fetched (spare : nat) (t : noise_transport) (ch : noise_channel) (w : world)
    (tr : rate_tracker) (fd : Z) (k : session_state)
    (Hlinked : linked (4 + spare) t ch) (Hregistered : is_registered k = true)
    (Hadmitted : admitted config 2 (user_id k) k tr) (Hok : tables_ok (db_tables (db w))) (Hauto : autocommit w)
    (Hfits : size_of (encoding (first_page (user_id k) (db_tables (db w)))) <= MAX_PAYLOAD_SIZE) :
  let before := db_tables (db w) in
  ∃ requests replies s',
    serve config requests (with_connection w tr (ConnectionSocket fd []) ch k) = Some (replies, s') ∧
    autocommit (shared s') ∧
    db_tables (db (shared s')) = set_dm (filter (λ row, ¬ read_by (user_id k) before row) (t_dm before)) (t_seq before) before ∧
    ∀ c session out tail, awaits c t (concat replies ++ tail) →
      ∃ c', run_dm_fetch identity (CliContext (Client c session) out) =
              (None, CliContext (Client c' session) (out ++ (page_shown identity (user_id k) before).1)) ∧
        sent_bytes (socket_ c') = sent_bytes (socket_ c) ++ concat requests.
Proof.
  intros before.
  destruct (fetch_leg config Hcalm identity 1 (user_id k) (2 + spare) t ch w tr fd k Hadmitted Hlinked Hregistered Hok Hfits)
    as (fetch & page & t1 & ch1 & w1 & tr1 & now & Hl1 & Hleft & Hw1 & Eserve & Hclient). fold before in Hclient, Hok, Hfits.
  assert (autocommit w1) as Ha1 by (unfold autocommit in *; congruence).
  destruct (page_shown identity (user_id k) before) as [text ids] eqn:E.
  destruct (decide (ids = [])) as [->|Hids].
  - exists [fetch], [page], (with_connection w1 tr1 (ConnectionSocket fd []) ch1 (touch now k)).
    split_and!; [done|done| |].
    + cbn. rewrite Hw1. symmetry. rewrite map_filter_id; [apply set_dm_id|]. intros i r Hi.
      by apply (read_by_none _ _ (i, r)); [rewrite E|..].
    + intros c session out tail Ha. cbn [concat] in *. rewrite app_nil_r in *.
      destruct (Hclient c session out tail Ha) as (c' & -> & _ & Hs). exists c'. split; [|done].
      by apply show_nothing_more.
  - assert (ids_ok MAX_DM_BATCH_ITEMS ids) as Hidsok.
    { pose proof (shown_ids_ok identity (dm_list_response.envelopes (first_page (user_id k) before))
        (proj1 (page_well_formed (user_id k) before Hok))) as Hs. unfold page_shown in E. by rewrite E in Hs. }
    destruct (acknowledge_leg config Hcalm identity 0 (user_id k) spare t1 ch1 w1 tr1 fd (touch now k) ids Hleft Hl1 Hregistered Ha1 Hidsok)
      as (ack & status & t2 & ch2 & w2 & tr2 & now2 & _ & _ & Ha2 & Hw2 & Eserve2 & Hclient2).
    exists ([fetch] ++ [ack]), ([page] ++ [status]), (with_connection w2 tr2 (ConnectionSocket fd []) ch2 (touch now2 (touch now k))).
    split_and!; [by rewrite serve_app, Eserve, Eserve2|done| |].
    + rewrite Hw1 in Hw2. apply acknowledges_read; [done|]. by rewrite E.
    + intros c session out tail Ha. cbn [concat app] in *. rewrite app_nil_r, <-app_assoc in Ha. rewrite app_nil_r.
      destruct (Hclient c session out _ Ha) as (c1 & -> & Ha1' & Hs1).
      destruct (Hclient2 c1 session out tail _ text Ha1' Hids E) as (c2 & -> & _ & Hs2).
      exists c2. split; [done|]. by rewrite Hs2, Hs1, <-app_assoc.
Qed.

(** C17: fetching mail, across the network. Whoever holds an account and asks
    for its mail is shown the first page of it, each message that opens with
    its text, and has the server delete exactly those messages: one that does
    not open stays, as does everything beyond the page and everything of
    others. The conditions: the database is well formed, no statement fails and
    no transaction is open, the limits have room for the two requests, and the
    answer that carries the page (a hundred messages at most) fits a frame. *)
Theorem fetched_mail_is_deleted (spare : nat) (t : noise_transport) (ch : noise_channel) (w : world)
    (tr : rate_tracker) (fd : Z) (k : session_state)
    (Hlinked : linked (4 + spare) t ch) (Hregistered : is_registered k = true)
    (Hadmitted : admitted config 2 (user_id k) k tr) (Hok : tables_ok (db_tables (db w))) (Hauto : autocommit w)
    (Hfits : size_of (encoding (first_page (user_id k) (db_tables (db w)))) <= MAX_PAYLOAD_SIZE) :
  let before := db_tables (db w) in
  ∃ requests replies s',
    serve config requests (with_connection w tr (ConnectionSocket fd []) ch k) = Some (replies, s') ∧
    autocommit (shared s') ∧
    db_tables (db (shared s')) = set_dm (filter (λ row, ¬ read_by (user_id k) before row) (t_dm before)) (t_seq before) before ∧
    ∀ c session out tail, awaits c t (concat replies ++ tail) →
      ∃ c', run_dm_fetch identity (CliContext (Client c session) out) =
              (None, CliContext (Client c' session) (out ++ (page_shown identity (user_id k) before).1)) ∧
        sent_bytes (socket_ c') = sent_bytes (socket_ c) ++ concat requests.
Proof. exact (mailbox_fetched spare t ch w tr fd k Hlinked Hregistered Hadmitted Hok Hauto Hfits). Qed.

(** [dm-fetch] again and again. *)
Fixpoint fetch_times (n : nat) : command :=
  match n with
  | O => sret None
  | S n =>
      let* failure := run_dm_fetch identity in
      match failure with Some error => sret (Some error) | None => fetch_times n end
  end.

(** A page of which nothing opens has nothing to acknowledge. *)
Lemma unreadable_page me t :
  Forall (λ row : Z * dm_envelopes.row, opens identity (dm_envelopes.ciphertext row.2) = false)
    (take (Z.to_nat MAX_DM_BATCH_ITEMS) (mailbox_rows me 0 t)) → (page_shown identity me t).2 = [].
Proof.
  intros Hunreadable. unfold page_shown, first_page, mailbox_page. rewrite shown_ids. cbn [dm_list_response.envelopes].
  induction Hunreadable as [|row rows Hrow Hrows IH]; [done|]. cbn [map List.filter].
  cbn [dm_envelope_record.ciphertext envelope_record]. by rewrite Hrow.
Qed.
End mail.

(** ** Witnesses *)

Section witnesses.
#[local] Existing Instance toy_sodium.
#[local] Existing Instance toy_sodium_laws.

Lemma open_linked_for spare : Z.of_nat spare <= UINT64_MAX → linked spare (new_transport tor_key tor_key) open_channel.
Proof. intros Hs. exists (new_transport tor_key tor_key). split_and!; try done; by apply new_cipher_ready. Qed.

(** Alice and bob, and two messages for bob: one sealed for him by alice, and
    one that is not sealed for anyone. *)
Definition alice_owner : identity_keypair := keypair_of alice_seed.
Definition bob_owner : identity_keypair := keypair_of bob_seed.
Definition bob_prekey : prekeys.row :=
  prekeys.Row (prekey_bundle_response.prekey (bundle_of bob_owner)) (prekey_bundle_response.signature (bundle_of bob_owner)) 0.
Definition two_accounts : tables :=
  run_all
    [ (λ t, fst <$> insert_user (public_key_ alice_owner) (lit "alice") t);
      (λ t, fst <$> insert_user (public_key_ bob_owner) (lit "bob") t);
      upsert_prekey 2 bob_prekey ]
    empty_tables.
Definition garbage_row : dm_envelopes.row := dm_envelopes.Row 2 (public_key_ alice_owner) (lit "garbage").
Definition two_messages : tables :=
  run_all
    [ (λ t, fst <$> insert_dm (dm_envelopes.Row 2 (public_key_ alice_owner) sealed_hello) t);
      (λ t, fst <$> insert_dm garbage_row t) ]
    two_accounts.

Lemma two_accounts_ok : tables_ok two_accounts.
Proof.
  apply run_all_ok; [|apply empty_tables_ok].
  repeat (apply List.Forall_cons); [..|apply List.Forall_nil]; intros t t' Ht E.
  3: by eapply upsert_prekey_ok.
  all: apply fmap_Some in E as ([t1 id] & E & ->).
  - refine (insert_user_ok (session_of session_phase.authenticated (public_key_ alice_owner) 0) _ _ (lit "alice") _ Ht _ E).
    by vm_compute.
  - refine (insert_user_ok (session_of session_phase.authenticated (public_key_ bob_owner) 0) _ _ (lit "bob") _ Ht _ E).
    by vm_compute.
Qed.

Lemma two_messages_ok : tables_ok two_messages.
Proof.
  apply run_all_ok; [|exact two_accounts_ok].
  repeat (apply List.Forall_cons); [..|apply List.Forall_nil]; intros t t' Ht E.
  all: apply fmap_Some in E as ([t1 id] & E & ->).
  - eapply insert_dm_ok; [exact Ht|..|exact E]; vm_compute; repeat split; try done; by intros [].
  - eapply insert_dm_ok; [exact Ht|..|exact E]; vm_compute; repeat split; try done; by intros [].
Qed.

Definition bob_session : session_state := session_of session_phase.authenticated (public_key_ bob_owner) 2.

(** With the limits a server has unless it is told otherwise, and nothing
    counted yet, there is room for all a session needs. *)
Lemma room_at_first n k id : (n <= 240)%nat → user_id k = id → admitted default_config n id k (RateTracker ∅ ∅).
Proof.
  intros Hn Hk. split; [by right|].
  split; apply room_empty; right; [change (per_address _) with 240|change (per_identity _) with 600]; lia.
Qed.

(** Bob reads the one message, which is deleted; the other one stays. *)
Lemma fetched_mail_is_deleted_witness : ∃ requests replies s',
  @serve toy_sodium still default_config requests
    (with_connection (fresh_world two_messages) (RateTracker ∅ ∅) (ConnectionSocket 5 []) open_channel bob_session)
    = Some (replies, s') ∧
  map_to_list (t_dm (db_tables (db (shared s')))) = [(2, garbage_row)].
Proof.
  destruct (@fetched_mail_is_deleted toy_sodium toy_sodium_laws still still_laws default_config
              (λ _, eq_refl) bob_owner 0 _ _ (fresh_world two_messages) (RateTracker ∅ ∅) 5 bob_session
              (open_linked_for 4 ltac:(done)) eq_refl (room_at_first 2 bob_session 2 ltac:(lia) eq_refl) two_messages_ok eq_refl
              ltac:(vm_compute; discriminate))
    as (requests & replies & s' & E & _ & Ht & _).
  exists requests, replies, s'. split; [exact E|]. rewrite Ht. vm_compute. reflexivity.
Defined.

End witnesses.
