(* ===== verification/MailDelivery.v ===== *)
(** A private message from one client to another: [dm-send] of the sender, the
    server that stores it, [dm-fetch] of the recipient; and what happens when
    the server answers with keys that are not the recipient's, or when the
    first page of a mailbox cannot be opened. *)

From Stdlib Require Import Sorting.Sorted.
From stdpp Require Import sorting.
From S2P Require Import Prelude.
From S2P Require Import Wire.
From S2P Require Import TextField.
From S2P Require Import Framing.
From S2P Require Import Codec.
From S2P Require Import SessionMessages.
From S2P Require Import SocialMessages.
From S2P Require Import TextTools.
From S2P Require Import Hex.
From S2P Require Import RateLimit.
From S2P Require Import Sodium.
From S2P Require Import Noise.
From S2P Require Import Config.
From S2P Require Import DirectMessages.
From S2P Require Import Connection.
From S2P Require Import Database.
From S2P Require Import Repositories.
From S2P Require Import SocialRepositories.
From S2P Require Import Handlers.
From S2P Require Import Server.
From S2P Require Import Effects.
From S2P Require Import Integrity.
From S2P Require Import Scenario.
From S2P Require Import Transactions.
From S2P Require Import Reads.
From S2P Require Import Mailbox.
From S2P Require Import Sessions.
From S2P Require Import ClientNet.
From S2P Require Import ClientChannel.
From S2P Require Import ClientSession.
From S2P Require Import ClientCommands.
From S2P Require Import ClientLogin.
From S2P Require Import ClientMail.

(** ** The server's side of [dm-send] *)

Section send_requests.
Context `{SodiumLaws} `{EnvironmentLaws}.
Context (config : server_config).
Context (Hcalm : ∀ n, sql_fails n = false).
Context (k : session_state).
Context (Hregistered : is_registered k = true).

(** The bundle of an account, as its row says. *)
Definition stored_bundle (key : bytes) (r : prekeys.row) : prekey_bundle_response.t :=
  prekey_bundle_response.mk key (prekeys.prekey r) (prekeys.signature r) (to_u64 (prekeys.created_at r)).

Lemma head_omap {A B} (f : A → option B) l x y : head l = Some x → f x = Some y → head (omap f l) = Some y.
Proof. destruct l as [|z l]; [done|]. cbn. intros [= ->] E. by rewrite E. Qed.

Lemma bundle_found w id key handle banned row :
  tables_ok (db_tables (db w)) → t_users (db_tables (db w)) !! id = Some (users.Row key handle banned) →
  t_prekeys (db_tables (db w)) !! id = Some row →
  yields (find_bundle_by_pubkey key) w (Some (stored_bundle key row)).
Proof.
  intros Hok Hrow Hprekey. unfold find_bundle_by_pubkey. destruct (ok_users _ Hok) as (_ & Hrows & Huniq).
  destruct (ok_prekeys _ Hok id row Hprekey) as (_ & Hp & Hs).
  match goal with |- yields (find_one ?q ?read) _ _ => pose proof (find_one_yields Hcalm q read w) as Hy end.
  cbv beta in Hy. erewrite head_omap in Hy; [|apply (rows_where_unique _ _ id (users.Row key handle banned))|exact Hprekey].
  - cbn in Hy. by rewrite Hp, Hs in Hy.
  - done.
  - by apply bool_decide_eq_true.
  - intros j r Hj Hpj. apply bool_decide_eq_true in Hpj. by eapply Huniq; [exact Hj|exact Hrow|left].
Qed.

Lemma prekey_answers w id key handle banned row :
  tables_ok (db_tables (db w)) → t_users (db_tables (db w)) !! id = Some (users.Row key handle banned) →
  t_prekeys (db_tables (db w)) !! id = Some row → size_of key = PUBLIC_KEY_SIZE →
  answers_with config message_type.prekey_fetch_request (encoding (prekey_fetch_request.mk key)) k
    message_type.prekey_bundle_response (stored_bundle key row) w (λ w2, db w2 = db w).
Proof.
  intros Hok Hrow Hprekey Hkey w1 tr sock ch now Hw1. rewrite <-Hw1 in Hok, Hrow, Hprekey.
  destruct (bundle_found w1 id key handle banned row Hok Hrow Hprekey) as [Hf Hdb].
  exists (find_bundle_by_pubkey key w1).2. split; [congruence|].
  cbn [route_message route_session_family route_content_family route_social_family].
  unfold handle_prekey_fetch_request. rewrite (registered_passes k Hregistered) by done. unfold with_request.
  rewrite message_reads by done. cbn [prekey_fetch_request.target_pubkey].
  unfold sbind, on_world, zoom. cbn [shared with_connection tracker connection].
  destruct (find_bundle_by_pubkey key w1) as [bundle w2]. cbn [fst snd] in *. by subst.
Qed.

(** The mail of an account with one more envelope. *)
Definition with_mail (id : Z) (r : dm_envelopes.row) (t : tables) : tables :=
  let s := t_seq t in
  set_dm (<[id := r]> (t_dm t))
    (Sequences (users_seq s) (forums_seq s) (posts_seq s) (comments_seq s) id (motd_seq s) (reports_seq s)) t.

Lemma insert_envelope_calm recipient sender ciphertext w :
  autocommit w → known (t_users (db_tables (db w))) recipient → size_of sender = 32 →
  dm_seq (t_seq (db_tables (db w))) < 2 ^ 63 - 1 →
  let id := dm_seq (t_seq (db_tables (db w))) + 1 in
  let '(stored, w') := insert_envelope recipient sender ciphertext w in
  stored = Some id ∧ autocommit w' ∧
  db_tables (db w') = with_mail id (dm_envelopes.Row recipient sender ciphertext) (db_tables (db w)).
Proof.
  intros Ha Hknown Hsender Hseq. unfold insert_envelope, sbind at 1, prepare. rewrite Hcalm. cbn [negb].
  unfold insert_returning, sbind at 1, step_done. rewrite Hcalm. cbn [db tick db_tables].
  assert (insert_dm (dm_envelopes.Row recipient sender ciphertext) (db_tables (db w)) =
    Some (with_mail (dm_seq (t_seq (db_tables (db w))) + 1) (dm_envelopes.Row recipient sender ciphertext) (db_tables (db w)),
          dm_seq (t_seq (db_tables (db w))) + 1)) as E.
  { unfold insert_dm, has_user, next_id. cbn [dm_envelopes.recipient_id dm_envelopes.sender_pubkey].
    rewrite bool_decide_true by done. rewrite Hsender. cbn [negb orb Z.eqb Pos.eqb].
    by rewrite (proj2 (Z.ltb_lt _ _) Hseq). }
  rewrite E. cbn. done.
Qed.

Lemma dm_send_answers w id key handle banned ciphertext :
  tables_ok (db_tables (db w)) → autocommit w →
  t_users (db_tables (db w)) !! id = Some (users.Row key handle banned) →
  size_of key = PUBLIC_KEY_SIZE → size_of (announced_pubkey k) = 32 →
  ciphertext ≠ [] → blob_ok MAX_DM_CIPHERTEXT_SIZE ciphertext →
  dm_seq (t_seq (db_tables (db w))) < 2 ^ 63 - 1 →
  let envelope_id := dm_seq (t_seq (db_tables (db w))) + 1 in
  answers_with config message_type.dm_send_request (encoding (dm_send_request.mk key ciphertext)) k
    message_type.status_ok (status_ok_response.mk (to_u64 envelope_id)) w
    (λ w2, autocommit w2 ∧
       db_tables (db w2) = with_mail envelope_id (dm_envelopes.Row id (announced_pubkey k) ciphertext) (db_tables (db w))).
Proof.
  intros Hok Ha Hrow Hkey Hme Hne Hblob Hseq envelope_id w1 tr sock ch now Hw1.
  subst envelope_id. unfold autocommit in Ha. rewrite <-Hw1 in Hok, Ha, Hrow, Hseq |- *.
  destruct (account_found Hcalm w1 id key handle banned Hok Hrow) as [Hf Hdb].
  destruct (find_by_pubkey key w1) as [found w2] eqn:Efind. cbn [fst snd] in Hf, Hdb.
  pose proof (insert_envelope_calm id (announced_pubkey k) ciphertext w2) as Hi. unfold autocommit in Hi. rewrite Hdb in Hi.
  specialize (Hi Ha ltac:(by eexists) Hme Hseq). cbv zeta in Hi.
  destruct (insert_envelope id (announced_pubkey k) ciphertext w2) as [stored w3] eqn:Einsert.
  destruct Hi as (-> & Ha3 & Ht3). exists w3. split; [by split|].
  cbn [route_message route_session_family route_content_family route_social_family route_dm_family].
  unfold handle_dm_send_request. rewrite (registered_passes k Hregistered) by done. unfold with_request.
  rewrite message_reads by (split; done). cbn [dm_send_request.ciphertext dm_send_request.recipient_pubkey].
  rewrite bool_decide_false by done. unfold sbind at 1, on_world at 1, zoom at 1. cbn [shared with_connection tracker connection].
  rewrite Efind, Hf. cbn [or_error Repositories.id]. unfold sbind, on_world, zoom. cbn [shared tracker connection session].
  change (announced_pubkey (touch now k)) with (announced_pubkey k). by rewrite Einsert.
Qed.
End send_requests.

(** ** Sending *)

Section sending.
Context `{SodiumLaws} `{EnvironmentLaws}.
Context (config : server_config).
Context (Hcalm : ∀ n, sql_fails n = false).

Lemma parse_encoded_key key : size_of key = PUBLIC_KEY_SIZE → parse_public_key (encode_hex key) = Some key.
Proof. intros Hk. unfold parse_public_key. by rewrite decode_hex_encode, Hk. Qed.

Lemma prekey_request_size key : size_of key = PUBLIC_KEY_SIZE →
  size_of (encoding (prekey_fetch_request.mk key)) <= MAX_PAYLOAD_SIZE.
Proof.
  intros Hk. change (encoding (prekey_fetch_request.mk key)) with (output (write_fixed_bytes key)).
  rewrite output_fixed. by rewrite Hk.
Qed.

Lemma bundle_size (b : prekey_bundle_response.t) : well_formed b → size_of (encoding b) <= MAX_PAYLOAD_SIZE.
Proof.
  intros (Hown & Hp & Hs & _). change PUBLIC_KEY_SIZE with 32 in *. change SIGNATURE_SIZE with 64 in Hs.
  change (encoding b) with (output (prekey_bundle_response.write_to b)). unfold prekey_bundle_response.write_to.
  change MAX_PAYLOAD_SIZE with 1048571. encoded_size.
Qed.

Lemma send_request_size key ciphertext : size_of key = PUBLIC_KEY_SIZE → blob_ok MAX_DM_CIPHERTEXT_SIZE ciphertext →
  size_of (encoding (dm_send_request.mk key ciphertext)) <= MAX_PAYLOAD_SIZE.
Proof.
  intros Hk [Hb _]. change PUBLIC_KEY_SIZE with 32 in *. change MAX_DM_CIPHERTEXT_SIZE with 65536 in Hb.
  change (encoding (dm_send_request.mk key ciphertext)) with (output (dm_send_request.write_to (dm_send_request.mk key ciphertext))).
  unfold dm_send_request.write_to. change MAX_PAYLOAD_SIZE with 1048571. encoded_size.
Qed.

(** A sealed envelope is never empty. *)
Lemma sealed_nonempty ephemeral now sender bundle text envelope :
  seal_direct_message ephemeral now sender bundle text = inr envelope → envelope ≠ [].
Proof.
  unfold seal_direct_message. destruct (negb _); [done|]. destruct ephemeral as [[p s]|]; [|done].
  destruct (derive_sender_session_key _ _ _ _) as [root|]; [|done].
  destruct (derive_first_message_key root) as [key|]; [|done].
  destruct (seal_dm_envelope _ _ _) as [e|] eqn:E; [|done]. intros [= ->] ->. revert E.
  unfold seal_dm_envelope. rewrite serialize_header_bytes.
  destruct (crypto_xaead_encrypt _ _ _ _); [|done]. by intros [= E].
Qed.

(** The text a client prints for a message deposited. *)
Definition deposited (envelope : bytes) : bytes :=
  lit "message chiffre depose (" ++ decimal (size_of envelope) ++ lit " octets opaques pour le serveur)" ++ newline.

Lemma dm_send_exchange n account spare t ch w tr fd k (sender : identity_keypair) ephemeral time text id key handle banned row envelope :
  admitted config (2 + n) account k tr → linked (4 + spare) t ch → is_registered k = true → size_of (announced_pubkey k) = 32 →
  tables_ok (db_tables (db w)) → autocommit w → dm_seq (t_seq (db_tables (db w))) < 2 ^ 63 - 1 →
  t_users (db_tables (db w)) !! id = Some (users.Row key handle banned) →
  t_prekeys (db_tables (db w)) !! id = Some row →
  seal_direct_message ephemeral time sender (stored_bundle key row) text = inr envelope →
  blob_ok MAX_DM_CIPHERTEXT_SIZE envelope →
  ∃ requests replies s',
    serve config requests (with_connection w tr (ConnectionSocket fd []) ch k) = Some (replies, s') ∧
    autocommit (shared s') ∧
    db_tables (db (shared s')) = with_mail (dm_seq (t_seq (db_tables (db w))) + 1)
      (dm_envelopes.Row id (announced_pubkey k) envelope) (db_tables (db w)) ∧
    ∀ c session out tail, awaits c t (concat replies ++ tail) →
      ∃ c', run_dm_send sender ephemeral time [encode_hex key; text] (CliContext (Client c session) out) =
              (None, CliContext (Client c' session) (out ++ deposited envelope)) ∧
        sent_bytes (socket_ c') = sent_bytes (socket_ c) ++ concat requests.
Proof.
  intros Hadmitted Hl Hk Hme Hok Ha Hseq Hrow Hprekey Hseal Hblob.
  assert (size_of key = PUBLIC_KEY_SIZE) as Hkey.
  { destruct (ok_users _ Hok) as (_ & Hrows & _). by destruct (Hrows id _ Hrow) as (_ & ? & _). }
  assert (well_formed (stored_bundle key row)) as Hbundle.
  { destruct (ok_prekeys _ Hok id row Hprekey) as (_ & ? & ?). split_and!; [done..|exact (wrap_fits 64 _ ltac:(done))]. }
  destruct (answered_exchange config (S n) account (2 + spare) t ch w tr fd k message_type.prekey_fetch_request
              (encoding (prekey_fetch_request.mk key)) message_type.prekey_bundle_response (stored_bundle key row) _ Hadmitted Hl
              (prekey_request_size key Hkey) (bundle_size _ Hbundle)
              (prekey_answers config Hcalm k Hk w id key handle banned row Hok Hrow Hprekey Hkey))
    as (ask_keys & keys & t1 & ch1 & w1 & tr1 & now & s1 & Hl1 & Hleft & Hw1 & Eserve & Esent & Hclient).
  assert (autocommit w1) as Ha1 by (unfold autocommit in *; congruence).
  assert (dm_seq (t_seq (db_tables (db w1))) < 2 ^ 63 - 1) as Hseq1 by (by rewrite Hw1).
  rewrite <-Hw1 in Hok, Hrow |- *.
  destruct (answered_exchange config n account spare t1 ch1 w1 tr1 fd (touch now k) message_type.dm_send_request
              (encoding (dm_send_request.mk key envelope)) message_type.status_ok _ _ Hleft Hl1
              (send_request_size _ _ Hkey Hblob) (status_ok_size _)
              (dm_send_answers config Hcalm (touch now k) Hk w1 id key handle banned envelope Hok Ha1 Hrow Hkey Hme
                 (sealed_nonempty _ _ _ _ _ _ Hseal) Hblob Hseq1))
    as (deposit & status & t2 & ch2 & w2 & tr2 & now2 & s2 & Hl2 & _ & [Ha2 Hw2] & Eserve2 & Esent2 & Hclient2).
  exists [ask_keys; deposit], [keys; status], (with_connection w2 tr2 (ConnectionSocket fd []) ch2 (touch now2 (touch now k))).
  split_and!; [|done|done|].
  { rewrite (serve_one _ _ _ _ _ _ _ Eserve Esent). by rewrite (serve_one _ _ _ _ _ _ _ Eserve2 Esent2). }
  intros c session out tail Hc. cbn [concat] in *. rewrite app_nil_r, <-app_assoc in Hc. rewrite app_nil_r.
  destruct (Hclient c _ Hc) as (c1 & c2 & E1 & E2 & Hc2 & Hs2). destruct (Hclient2 c2 tail Hc2) as (c3 & c4 & E3 & E4 & _ & Hs4).
  exists c4. split; [|by rewrite Hs4, Hs2, <-app_assoc].
  unfold run_dm_send. rewrite parse_encoded_key by done.
  erewrite ask_answered; [|exact E1|exact E2|done|exact Hbundle]. rewrite Hseal. unfold order.
  erewrite ask_answered; [reflexivity|exact E3|exact E4|done|exact (wrap_fits 64 _ ltac:(done))].
Qed.
End sending.

(** ** Delivery *)

(** A mailbox determines the list of its rows. *)
Lemma mailbox_unique me since t l l' : mailbox me since t l → mailbox me since t l' → l = l'.
Proof.
  intros [Hs Hl] [Hs' Hl'].
  assert (∀ l : list (Z * dm_envelopes.row), StronglySorted (λ a b, a.1 < b.1) l → NoDup l) as Hnd.
  { clear. intros l. induction 1 as [|x l Hl IH Hx]; [constructor|]. constructor; [|done].
    intros Hin. rewrite Forall_forall in Hx. specialize (Hx x Hin). lia. }
  apply (StronglySorted_unique_strong (λ a b : Z * dm_envelopes.row, a.1 < b.1)); [lia|done|done|].
  apply NoDup_Permutation; [by apply Hnd..|]. intros x. by rewrite Hl, Hl'.
Qed.

Section delivery.
Context `{SodiumLaws} `{EnvironmentLaws}.
Context (config : server_config).
Context (Hcalm : ∀ n, sql_fails n = false).

(** An envelope stored is the last of its recipient's mail. *)
Lemma mail_grows me sender ciphertext w :
  tables_ok (db_tables (db w)) → autocommit w → known (t_users (db_tables (db w))) me → size_of sender = 32 →
  dm_seq (t_seq (db_tables (db w))) < 2 ^ 63 - 1 →
  let id := dm_seq (t_seq (db_tables (db w))) + 1 in
  let r := dm_envelopes.Row me sender ciphertext in
  mailbox_rows me 0 (with_mail id r (db_tables (db w))) = mailbox_rows me 0 (db_tables (db w)) ++ [(id, r)].
Proof.
  intros Hok Ha Hme Hsender Hseq id r. destruct (ok_dm _ Hok) as [[Hlow _] _].
  pose proof (sent_mail_arrives_last me me 0 sender ciphertext w _ Ha Hok Hlow (mailbox_rows_ok me 0 (db_tables (db w)))) as Hm.
  pose proof (insert_envelope_calm Hcalm me sender ciphertext w Ha Hme Hsender Hseq) as Hi. cbv zeta in Hi.
  destruct (insert_envelope me sender ciphertext w) as [stored w']. destruct Hi as (-> & _ & Ht).
  rewrite decide_True, Ht in Hm by done. eapply mailbox_unique; [apply mailbox_rows_ok|exact Hm].
Qed.

Lemma regroup {A} (count label nl shown de who quote text : list A) :
  count ++ label ++ nl ++ (shown ++ ((de ++ who ++ quote) ++ text ++ nl)) =
    (count ++ label ++ nl ++ shown) ++ de ++ who ++ quote ++ text ++ nl.
Proof. by rewrite <-!app_assoc. Qed.

(** The last line of a page that opens. *)
Lemma last_line_shown identity envelopes e text sent_at :
  open_direct_message identity (dm_envelope_record.ciphertext e) = inr (text, sent_at) →
  ∃ earlier, (show_mailbox identity (envelopes ++ [e])).1 =
    earlier ++ lit "  de " ++ take 16 (encode_hex (dm_envelope_record.sender_pubkey e)) ++ lit "... : " ++ text ++ newline.
Proof.
  intros E. unfold show_mailbox. cbn [fst]. rewrite !map_app, concat_app. cbn [map concat]. rewrite app_nil_r.
  unfold show_envelope at 2. rewrite E. cbn [fst].
  eexists. apply regroup.
Qed.

Context (a_seed b_seed : bytes) (alice bob : identity_keypair).
Context (Ha : derive_from_seed a_seed = Some alice) (Hb : derive_from_seed b_seed = Some bob).
Context (ephemeral ephemeral_secret : bytes) (Hephemeral : crypto_scalarmult_base ephemeral_secret = Some ephemeral).
Context (time : Z) (text envelope : bytes) (Htime : u64 time) (Htext : validate_text_field text = true).

(** The account of the recipient, who has published a bundle. *)
Context (w : world) (id : Z) (handle : bytes) (banned : bool) (row : prekeys.row).
Context (Hok : tables_ok (db_tables (db w))) (Hauto : autocommit w) (Hseq : dm_seq (t_seq (db_tables (db w))) < 2 ^ 63 - 1).
Context (Haccount : t_users (db_tables (db w)) !! id = Some (users.Row (public_key_ bob) handle banned)).
Context (Hprekey : t_prekeys (db_tables (db w)) !! id = Some row).
Context (Hpublished : published_bundle bob (stored_bundle (public_key_ bob) row)).
Context (Hsealed : seal_direct_message (Some (ephemeral, ephemeral_secret)) time alice
                     (stored_bundle (public_key_ bob) row) text = inr envelope).
Context (Hblob : blob_ok MAX_DM_CIPHERTEXT_SIZE envelope).

Definition new_mail : Z * dm_envelopes.row :=
  (dm_seq (t_seq (db_tables (db w))) + 1, dm_envelopes.Row id (public_key_ alice) envelope).

Lemma public_key_size seed identity : derive_from_seed seed = Some identity → size_of (public_key_ identity) = 32.
Proof.
  unfold derive_from_seed. destruct (crypto_sign_seed_keypair seed) as [[p s]|] eqn:E; [|done].
  intros [= <-]. by destruct (seed_keypair_shape _ _ _ E).
Qed.

Lemma envelope_opens : open_direct_message bob envelope = inr (text, time).
Proof.
  exact (proj1 (sealed_message_opens a_seed b_seed alice bob ephemeral ephemeral_secret time
                  (stored_bundle (public_key_ bob) row) text envelope Ha Hb Hephemeral Hpublished Htime Hsealed Htext)).
Qed.

(** The page with the new mail at its end, when there is room. *)
Lemma page_with_new_mail :
  (length (mailbox_rows id 0 (db_tables (db w))) < Z.to_nat MAX_DM_BATCH_ITEMS)%nat →
  let after := with_mail new_mail.1 new_mail.2 (db_tables (db w)) in
  take (Z.to_nat MAX_DM_BATCH_ITEMS) (mailbox_rows id 0 after) = mailbox_rows id 0 (db_tables (db w)) ++ [new_mail] ∧
  (∃ earlier, (page_shown bob id after).1 =
    earlier ++ lit "  de " ++ take 16 (encode_hex (public_key_ alice)) ++ lit "... : " ++ text ++ newline) ∧
  read_by bob id after new_mail.
Proof.
  intros Hroom after.
  pose proof (mail_grows id (public_key_ alice) envelope w Hok Hauto ltac:(by eexists) (public_key_size _ _ Ha) Hseq) as Hm.
  cbv zeta in Hm. change (with_mail _ _ _) with after in Hm. fold new_mail in Hm.
  assert (take (Z.to_nat MAX_DM_BATCH_ITEMS) (mailbox_rows id 0 after) = mailbox_rows id 0 (db_tables (db w)) ++ [new_mail]) as Hpage.
  { rewrite Hm. apply take_ge. rewrite length_app. cbn [length]. lia. }
  split; [exact Hpage|split].
  - unfold page_shown, first_page, mailbox_page. cbn [dm_list_response.envelopes]. rewrite Hpage, map_app.
    apply (last_line_shown bob _ (envelope_record new_mail) text time). exact envelope_opens.
  - split; [rewrite Hpage; apply elem_of_app; right; by apply list_elem_of_singleton|].
    unfold opens. cbn [new_mail snd dm_envelopes.ciphertext]. by rewrite envelope_opens.
Qed.

(** The tables with the new mail are in order. *)
Lemma with_new_mail_ok : tables_ok (with_mail new_mail.1 new_mail.2 (db_tables (db w))).
Proof.
  refine (insert_dm_ok (db_tables (db w)) _ new_mail.2 new_mail.1 Hok (sealed_nonempty _ _ _ _ _ _ Hsealed) Hblob _).
  unfold insert_dm, has_user, next_id. cbn [new_mail fst snd dm_envelopes.recipient_id dm_envelopes.sender_pubkey].
  rewrite bool_decide_true by (by eexists). rewrite (public_key_size _ _ Ha). cbn [negb orb Z.eqb Pos.eqb].
  by rewrite (proj2 (Z.ltb_lt _ _) Hseq).
Qed.

(** A private message is delivered. Alice, who holds a session as the
    owner of her key, runs [dm-send] with bob's key and a text; bob, on a
    connection of his own and at any later time, runs [dm-fetch]. The server
    serves both, bob is shown the text last, under the name of alice, and the
    server keeps no copy. *)
Theorem message_is_delivered (spare_a spare_b : nat) (t_a t_b : noise_transport) (ch_a ch_b : noise_channel)
    (tr : rate_tracker) (fd_a fd_b : Z) (k_a k_b : session_state)
    (Hla : linked (4 + spare_a) t_a ch_a) (Hlb : linked (4 + spare_b) t_b ch_b)
    (Hka : is_registered k_a = true) (Hkb : is_registered k_b = true)
    (Hroom_a : admitted config 2 (user_id k_a) k_a tr)
    (Halice : announced_pubkey k_a = public_key_ alice) (Hbob : user_id k_b = id)
    (Hroom : (length (mailbox_rows id 0 (db_tables (db w))) < Z.to_nat MAX_DM_BATCH_ITEMS)%nat)
    (Hfits : size_of (encoding (first_page id (with_mail new_mail.1 new_mail.2 (db_tables (db w))))) <= MAX_PAYLOAD_SIZE) :
  ∃ sends statuses s1,
    serve config sends (with_connection w tr (ConnectionSocket fd_a []) ch_a k_a) = Some (statuses, s1) ∧
    (∀ c session out tail, awaits c t_a (concat statuses ++ tail) →
      ∃ c', run_dm_send alice (Some (ephemeral, ephemeral_secret)) time [encode_hex (public_key_ bob); text]
              (CliContext (Client c session) out) = (None, CliContext (Client c' session) (out ++ deposited envelope)) ∧
        sent_bytes (socket_ c') = sent_bytes (socket_ c) ++ concat sends) ∧
    ∀ tr2, admitted config 2 id k_b tr2 → ∃ fetches pages s2,
      serve config fetches (with_connection (shared s1) tr2 (ConnectionSocket fd_b []) ch_b k_b) = Some (pages, s2) ∧
      (∀ c session out tail, awaits c t_b (concat pages ++ tail) →
        ∃ earlier c', run_dm_fetch bob (CliContext (Client c session) out) =
            (None, CliContext (Client c' session)
               (out ++ earlier ++ lit "  de " ++ take 16 (encode_hex (public_key_ alice)) ++ lit "... : " ++ text ++ newline)) ∧
          sent_bytes (socket_ c') = sent_bytes (socket_ c) ++ concat fetches) ∧
      t_dm (db_tables (db (shared s2))) !! new_mail.1 = None.
Proof.
  destruct (page_with_new_mail Hroom) as (_ & (earlier & Eshown) & Hread). pose proof with_new_mail_ok as Hok'.
  assert (size_of (announced_pubkey k_a) = 32) as Hme by (rewrite Halice; exact (public_key_size _ _ Ha)).
  destruct (dm_send_exchange config Hcalm 0 (user_id k_a) spare_a t_a ch_a w tr fd_a k_a alice _ time text id _ handle banned row
              envelope Hroom_a Hla Hka Hme Hok Hauto Hseq Haccount Hprekey Hsealed Hblob)
    as (sends & statuses & s1 & Eserve & Hauto1 & Ht1 & Hclient).
  rewrite Halice in Ht1. exists sends, statuses, s1. split_and!; [exact Eserve|exact Hclient|].
  intros tr2 Hroom_b.
  change (db_tables (db (shared s1)) = with_mail new_mail.1 new_mail.2 (db_tables (db w))) in Ht1.
  set (after := with_mail _ _ _) in *. rewrite <-Ht1 in Hok', Hfits.
  destruct (mailbox_fetched config Hcalm bob spare_b t_b ch_b (shared s1) tr2 fd_b k_b Hlb Hkb
              ltac:(rewrite Hbob; exact Hroom_b) Hok' Hauto1
              ltac:(rewrite Hbob; exact Hfits))
    as (fetches & pages & s2 & Eserve2 & _ & Ht2 & Hclient2).
  rewrite Ht1, Hbob in Ht2, Hclient2. exists fetches, pages, s2. split_and!; [exact Eserve2| |].
  - intros c session out tail Hc. destruct (Hclient2 c session out tail Hc) as (c' & -> & Hs). exists earlier, c'.
    split; [by rewrite Eshown|done].
  - rewrite Ht2. cbn [t_dm set_dm]. apply map_lookup_filter_None. right. intros r Hr Hn. apply Hn.
    assert (r = new_mail.2) as ->; [|exact Hread]. revert Hr. subst after. cbn [with_mail t_dm set_dm].
    rewrite lookup_insert. case_decide; [|done]. by intros [= <-].
Qed.
End delivery.

(** ** A mailbox that is blocked *)

Section blocked.
Context `{SodiumLaws} `{EnvironmentLaws}.
Context (config : server_config).
Context (Hcalm : ∀ n, sql_fails n = false).
Context (identity : identity_keypair).

(** A message that somebody else deposits for an account, from a key, and what
    the handler of their request does of it to the database. *)
Definition deposit (me : Z) (mail : bytes * bytes) (w : world) : world := (insert_envelope me mail.1 mail.2 w).2.
Definition deposits (me : Z) (mails : list (bytes * bytes)) (w : world) : world := foldl (λ w mail, deposit me mail w) w mails.

Definition sendable (mail : bytes * bytes) : Prop :=
  size_of mail.1 = 32 ∧ mail.2 ≠ [] ∧ blob_ok MAX_DM_CIPHERTEXT_SIZE mail.2.

(** Rounds of the mailbox: others deposit, then the server serves one request
    of the recipient. *)
Fixpoint rounds_served (me : Z) (rounds : list (list (bytes * bytes))) (requests : list bytes) (s : machine)
    : option (list bytes * machine) :=
  match rounds, requests with
  | [], [] => Some ([], s)
  | mails :: rounds, request :: requests =>
      match serve config [request] (Machine (deposits me mails (shared s)) (tracker s) (connection s)) with
      | None => None
      | Some (reply, s1) =>
          match rounds_served me rounds requests s1 with
          | None => None
          | Some (replies, s2) => Some (reply ++ replies, s2)
          end
      end
  | _, _ => None
  end.

(** A database that can take more mail for an account. *)
Record receives (me : Z) (more : nat) (w : world) : Prop := Receives {
  receives_ok : tables_ok (db_tables (db w));
  receives_auto : autocommit w;
  receives_known : known (t_users (db_tables (db w))) me;
  receives_seq : dm_seq (t_seq (db_tables (db w))) + Z.of_nat more < 2 ^ 63;
}.

(** The mail of an account, without the numbers. *)
Definition mail_of (me : Z) (w : world) : list (bytes * bytes) :=
  (λ row, (dm_envelopes.sender_pubkey row.2, dm_envelopes.ciphertext row.2)) <$> mailbox_rows me 0 (db_tables (db w)).

Lemma deposit_arrives me mail more w : sendable mail → receives me (S more) w →
  receives me more (deposit me mail w) ∧
  ∃ arrived, mailbox_rows me 0 (db_tables (db (deposit me mail w))) = mailbox_rows me 0 (db_tables (db w)) ++ [arrived] ∧
    (dm_envelopes.sender_pubkey arrived.2, dm_envelopes.ciphertext arrived.2) = mail.
Proof.
  destruct mail as [sender ciphertext]. intros (Hsender & Hne & Hblob) [Hok Ha Hme Hseq]. cbn in Hsender, Hne, Hblob.
  pose proof (insert_envelope_calm Hcalm me sender ciphertext w Ha Hme Hsender ltac:(lia)) as Hi. cbv zeta in Hi.
  pose proof (mail_grows Hcalm me sender ciphertext w Hok Ha Hme Hsender ltac:(lia)) as Hm. cbv zeta in Hm.
  unfold deposit. cbn [fst snd]. destruct (insert_envelope me sender ciphertext w) as [stored w'].
  destruct Hi as (_ & Ha' & Ht). cbn [snd]. rewrite Ht. split.
  - split; [rewrite Ht|done|by rewrite Ht|rewrite Ht; cbn; lia].
    set (row := dm_envelopes.Row me sender ciphertext).
    refine (insert_dm_ok (db_tables (db w)) _ row (dm_seq (t_seq (db_tables (db w))) + 1) Hok Hne Hblob _).
    unfold insert_dm, has_user, next_id. cbn [row dm_envelopes.recipient_id dm_envelopes.sender_pubkey].
    rewrite bool_decide_true by done. rewrite Hsender. cbn [negb orb Z.eqb Pos.eqb].
    by rewrite (proj2 (Z.ltb_lt _ _)) by lia.
  - eexists. split; [exact Hm|done].
Qed.

Lemma deposits_arrive me mails more w : Forall sendable mails → receives me (length mails + more) w →
  receives me more (deposits me mails w) ∧
  ∃ arrived, mailbox_rows me 0 (db_tables (db (deposits me mails w))) = mailbox_rows me 0 (db_tables (db w)) ++ arrived ∧
    ((λ row, (dm_envelopes.sender_pubkey row.2, dm_envelopes.ciphertext row.2)) <$> arrived) = mails.
Proof.
  intros Hmails. revert w. induction Hmails as [|mail mails Hmail _ IH]; intros w Hw.
  - split; [exact Hw|]. exists []. by rewrite app_nil_r.
  - cbn [length Nat.add] in Hw. destruct (deposit_arrives me mail _ w Hmail Hw) as (Hw1 & row & Erow & Email).
    destruct (IH _ Hw1) as (Hw2 & rows & Erows & Emails). split; [exact Hw2|].
    exists (row :: rows). split; [|by rewrite fmap_cons, Email, Emails].
    cbn [deposits foldl]. fold (deposits me mails (deposit me mail w)). by rewrite Erows, Erow, <-app_assoc.
Qed.

(** A full page of mail stays the first page, whatever arrives. *)
Lemma full_page_stays me w w' arrived :
  (Z.to_nat MAX_DM_BATCH_ITEMS <= length (mailbox_rows me 0 (db_tables (db w))))%nat →
  mailbox_rows me 0 (db_tables (db w')) = mailbox_rows me 0 (db_tables (db w)) ++ arrived →
  take (Z.to_nat MAX_DM_BATCH_ITEMS) (mailbox_rows me 0 (db_tables (db w'))) =
    take (Z.to_nat MAX_DM_BATCH_ITEMS) (mailbox_rows me 0 (db_tables (db w))).
Proof. intros Hfull ->. by rewrite take_app_le. Qed.
Lemma page_size page more : size_of (encoding (dm_list_response.mk page more)) = size_of (encoding (dm_list_response.mk page 0)).
Proof.
  assert (∀ x, size_of (encoding (dm_list_response.mk page x)) = size_of (output (write_record_list Wire.write_to page)) + 1) as Hsize.
  { intros x. change (encoding (dm_list_response.mk page x)) with (output (write_record_list Wire.write_to page ▷ write_integer 1 x)).
    rewrite output_seq by auto with wire. rewrite output_integer, size_of_app. f_equal. }
  by rewrite !Hsize.
Qed.

(** The rounds of a mailbox whose first page is full of messages that do not
    open. *)
Lemma blocked_rounds rounds t ch w tr fd k : admitted config (length rounds) (user_id k) k tr →
  linked (2 * length rounds) t ch → is_registered k = true → Forall sendable (concat rounds) →
  receives (user_id k) (length (concat rounds)) w →
  (Z.to_nat MAX_DM_BATCH_ITEMS <= length (mailbox_rows (user_id k) 0 (db_tables (db w))))%nat →
  Forall (λ row : Z * dm_envelopes.row, opens identity (dm_envelopes.ciphertext row.2) = false)
    (take (Z.to_nat MAX_DM_BATCH_ITEMS) (mailbox_rows (user_id k) 0 (db_tables (db w)))) →
  size_of (encoding (first_page (user_id k) (db_tables (db w)))) <= MAX_PAYLOAD_SIZE →
  ∃ requests replies s',
    rounds_served (user_id k) rounds requests (with_connection w tr (ConnectionSocket fd []) ch k) = Some (replies, s') ∧
    mail_of (user_id k) (shared s') = mail_of (user_id k) w ++ concat rounds ∧
    ∀ c session out tail, awaits c t (concat replies ++ tail) →
      ∃ c', fetch_times identity (length rounds) (CliContext (Client c session) out) =
              (None, CliContext (Client c' session)
                       (out ++ concat (replicate (length rounds) (page_shown identity (user_id k) (db_tables (db w))).1))).
Proof.
  revert t ch w tr k. induction rounds as [|mails rounds IH]; intros t ch w tr k Hadmitted Hl Hk Hmails Hw Hfull Hclosed Hfits.
  - exists [], [], (with_connection w tr (ConnectionSocket fd []) ch k). split_and!; [done|by rewrite app_nil_r|].
    intros c session out tail _. exists c. cbn. by rewrite app_nil_r.
  - cbn [concat] in Hmails, Hw. apply Forall_app in Hmails as [Hmails Hlater]. rewrite length_app in Hw.
    destruct (deposits_arrive (user_id k) mails _ w Hmails Hw) as (Hw1 & arrived & Erows & Emails).
    set (w1 := deposits (user_id k) mails w) in *. pose proof (full_page_stays _ _ _ _ Hfull Erows) as Epage.
    assert (dm_list_response.envelopes (first_page (user_id k) (db_tables (db w1))) =
            dm_list_response.envelopes (first_page (user_id k) (db_tables (db w)))) as Eenvelopes
      by (unfold first_page, mailbox_page; cbn; by rewrite Epage).
    assert (page_shown identity (user_id k) (db_tables (db w1)) = page_shown identity (user_id k) (db_tables (db w))) as Eshown
      by (unfold page_shown; by rewrite Eenvelopes).
    replace (2 * length (mails :: rounds))%nat with (2 + 2 * length rounds)%nat in Hl by (cbn; lia).
    destruct (fetch_leg config Hcalm identity (length rounds) (user_id k) (2 * length rounds) t ch w1 tr fd k Hadmitted Hl Hk
                (receives_ok _ _ _ Hw1))
      as (fetch & page & t1 & ch1 & w2 & tr1 & now & Hl1 & Hleft & Hw2 & Eserve & Hclient).
    { destruct (first_page (user_id k) (db_tables (db w1))) as [e1 m1], (first_page (user_id k) (db_tables (db w))) as [e2 m2].
      cbn in Eenvelopes. subst e1. by rewrite page_size, <-(page_size e2 m2). }
    destruct (IH t1 ch1 w2 tr1 (touch now k)) as (requests & replies & s' & Eserve2 & Hkept & Hclient2); try done.
    { cbn [user_id touch]. destruct Hw1 as [? ? ? ?]. split; unfold autocommit in *; by rewrite Hw2. }
    { cbn [user_id touch]. rewrite Hw2, Erows, length_app. lia. }
    { cbn [user_id touch]. by rewrite Hw2, Epage. }
    { cbn [user_id touch]. rewrite Hw2.
      destruct (first_page (user_id k) (db_tables (db w1))) as [e1 m1], (first_page (user_id k) (db_tables (db w))) as [e2 m2].
      cbn in Eenvelopes. subst e1. by rewrite page_size, <-(page_size e2 m2). }
    exists (fetch :: requests), ([page] ++ replies), s'. split_and!.
    + cbn [rounds_served]. cbn [with_connection shared tracker connection]. fold w1.
      change (Machine w1 tr _) with (with_connection w1 tr (ConnectionSocket fd []) ch k). rewrite Eserve.
      change (user_id (touch now k)) with (user_id k) in Eserve2. by rewrite Eserve2.
    + change (user_id (touch now k)) with (user_id k) in Hkept. rewrite Hkept. unfold mail_of.
      rewrite Hw2, Erows, fmap_app, Emails, <-app_assoc. done.
    + intros c session out tail Ha. cbn [concat app] in Ha. rewrite <-app_assoc in Ha.
      destruct (Hclient c session out _ Ha) as (c1 & E1 & Ha1 & _).
      destruct (Hclient2 c1 session (out ++ (page_shown identity (user_id k) (db_tables (db w))).1) tail Ha1) as (c2 & E2). exists c2.
      cbn [fetch_times replicate concat length]. unfold sbind.
      rewrite E1, (show_nothing_more identity _ (page_shown identity (user_id k) (db_tables (db w))).1).
      * change (user_id (touch now k)) with (user_id k) in E2. by rewrite E2, Hw2, Eshown, <-app_assoc.
      * rewrite Eenvelopes. rewrite <-(unreadable_page identity (user_id k) _ Hclosed). unfold page_shown.
        by destruct (show_mailbox _ _).
Qed.

(** C18: mail that its recipient cannot open blocks the mailbox. [dm-fetch]
    acknowledges only what opens and asks for the first page only, so once the
    hundred messages of that page do not open, nothing sent later is ever
    received: whatever others deposit before each fetch, and however often the
    recipient fetches, every fetch succeeds and prints that same page and
    nothing else; and everything deposited is kept by the server, in the
    order in which it came, behind them. The page fits a frame, no statement
    fails, no transaction is open at the start, and the limits have room for the
    recipient's requests. *)
Theorem unreadable_mail_blocks_the_mailbox (rounds : list (list (bytes * bytes))) (t : noise_transport) (ch : noise_channel)
    (w : world) (tr : rate_tracker) (fd : Z) (k : session_state)
    (Hadmitted : admitted config (length rounds) (user_id k) k tr) (Hlinked : linked (2 * length rounds) t ch)
    (Hregistered : is_registered k = true) (Hmails : Forall sendable (concat rounds))
    (Hdatabase : receives (user_id k) (length (concat rounds)) w)
    (Hfull : (Z.to_nat MAX_DM_BATCH_ITEMS <= length (mailbox_rows (user_id k) 0 (db_tables (db w))))%nat)
    (Hunreadable : Forall (λ row : Z * dm_envelopes.row, opens identity (dm_envelopes.ciphertext row.2) = false)
                     (take (Z.to_nat MAX_DM_BATCH_ITEMS) (mailbox_rows (user_id k) 0 (db_tables (db w)))))
    (Hfits : size_of (encoding (first_page (user_id k) (db_tables (db w)))) <= MAX_PAYLOAD_SIZE) :
  ∃ requests replies s',
    rounds_served (user_id k) rounds requests (with_connection w tr (ConnectionSocket fd []) ch k) = Some (replies, s') ∧
    mail_of (user_id k) (shared s') = mail_of (user_id k) w ++ concat rounds ∧
    ∀ c session out tail, awaits c t (concat replies ++ tail) →
      ∃ c', fetch_times identity (length rounds) (CliContext (Client c session) out) =
              (None, CliContext (Client c' session)
                       (out ++ concat (replicate (length rounds) (page_shown identity (user_id k) (db_tables (db w))).1))).
Proof. by apply blocked_rounds. Qed.
End blocked.

(** ** A server that answers what it likes *)

Section substitution.
Context `{SodiumLaws}.

(** Whoever holds the other end of the channel opens the request and answers
    it with any message. *)
Lemma party_exchange {A} `{WireFormat A} spare t ch type payload answer_type (answer : A) :
  linked (S (S spare)) t ch → size_of payload <= MAX_PAYLOAD_SIZE → size_of (encoding answer) <= MAX_PAYLOAD_SIZE →
  ∃ frame sealed ch' reply t1 ch1,
    encode_frame type payload = Some frame ∧ open_message sealed ch = (Some frame, ch') ∧ linked spare t1 ch1 ∧
    ∀ c tail, awaits c t (reply ++ tail) →
      ∃ c1 c2, send_frame type payload c = (true, c1) ∧
        receive_frame c1 = (inr (FrameHeader (1 + size_of (encoding answer)) answer_type, encoding answer), c2) ∧
        awaits c2 t1 tail ∧ sent_bytes (socket_ c2) = sent_bytes (socket_ c) ++ append_length_prefixed_message sealed [].
Proof.
  intros Hl Hsize Hanswer.
  destruct (send_frame_linked _ _ _ type payload Hl Hsize) as (frame & sealed & ch' & t' & Ef & Eo & _ & Hl' & _ & Hc).
  destruct (seal_frame_linked _ _ _ answer_type (encoding answer) Hl' Hanswer)
    as (frame' & reply & ch1 & t1 & Ef' & _ & _ & Hl1 & Esealed & Esend).
  exists frame, sealed, ch', (append_length_prefixed_message reply []), t1, ch1. split_and!; [done..|]. intros c tail Ha.
  destruct (Hc c _ Ha) as (c1 & E1 & Ha1 & Hsent1).
  destruct (sealed_linked _ _ _ _ _ _ _ _ _ _ Hl' Ef' Esealed Esend Ha1) as (c2 & E2 & Ha2 & Hsent2).
  exists c1, c2. split_and!; [done..|congruence].
Qed.

Context (a_seed e_seed : bytes) (alice eve : identity_keypair).
Context (Ha : derive_from_seed a_seed = Some alice) (He : derive_from_seed e_seed = Some eve).
Context (ephemeral ephemeral_secret : bytes) (Hephemeral : crypto_scalarmult_base ephemeral_secret = Some ephemeral).
Context (time : Z) (text envelope : bytes) (Htime : u64 time) (Htext : validate_text_field text = true).
Context (bundle : prekey_bundle_response.t) (Hbundle : published_bundle eve bundle) (Hwf : well_formed bundle).
Context (Hsealed : seal_direct_message (Some (ephemeral, ephemeral_secret)) time alice bundle text = inr envelope).
Context (Hblob : blob_ok MAX_DM_CIPHERTEXT_SIZE envelope).

(** C11: the server chooses who reads a message. [dm-send] checks that the
    bundle it is given is signed by the owner the bundle itself names, and
    never that this owner is the recipient it asked for. Whatever key [target]
    alice types, a server (or anyone who holds that end of the channel) that
    answers with the bundle of eve has alice seal the text for eve: the
    command succeeds, the request the server opens names the target, and the
    envelope in it opens with eve's keys. (The text is one a recipient can read
    and its envelope within the size the protocol allows.) *)
Theorem server_chooses_the_reader (target : bytes) (spare : nat) (t : noise_transport) (ch : noise_channel)
    (reference : Z) (Htarget : size_of target = PUBLIC_KEY_SIZE) (Hlinked : linked (4 + spare) t ch)
    (Hreference : u64 reference) :
  ∃ asked sealed frame ch1 ch2 bundle_bytes status_bytes,
    open_message sealed ch1 = (Some frame, ch2) ∧
    encode_frame message_type.dm_send_request (encoding (dm_send_request.mk target envelope)) = Some frame ∧
    open_direct_message eve envelope = inr (text, time) ∧
    ∀ c session out tail, awaits c t (bundle_bytes ++ status_bytes ++ tail) →
      ∃ c', run_dm_send alice (Some (ephemeral, ephemeral_secret)) time [encode_hex target; text]
              (CliContext (Client c session) out) = (None, CliContext (Client c' session) (out ++ deposited envelope)) ∧
        sent_bytes (socket_ c') = sent_bytes (socket_ c) ++ asked ++ append_length_prefixed_message sealed [].
Proof.
  destruct (party_exchange (2 + spare) t ch message_type.prekey_fetch_request (encoding (prekey_fetch_request.mk target))
              message_type.prekey_bundle_response bundle Hlinked (prekey_request_size _ Htarget) (bundle_size _ Hwf))
    as (f & asked & ch0 & answer & t1 & ch1 & _ & _ & Hl1 & Hclient).
  destruct (party_exchange spare t1 ch1 message_type.dm_send_request (encoding (dm_send_request.mk target envelope))
              message_type.status_ok (status_ok_response.mk reference) Hl1 (send_request_size _ _ Htarget Hblob) (status_ok_size _))
    as (frame & sealed & ch2 & status & t2 & ch3 & Ef & Eo & _ & Hclient2).
  exists (append_length_prefixed_message asked []), sealed, frame, ch1, ch2, answer, status.
  split_and!; [done|done| |].
  { exact (proj1 (sealed_message_opens a_seed e_seed alice eve ephemeral ephemeral_secret time bundle text envelope
                    Ha He Hephemeral Hbundle Htime Hsealed Htext)). }
  intros c session out tail Hc. destruct (Hclient c _ Hc) as (c1 & c2 & E1 & E2 & Hc2 & Hs2).
  destruct (Hclient2 c2 tail Hc2) as (c3 & c4 & E3 & E4 & _ & Hs4). exists c4. split; [|by rewrite Hs4, Hs2, <-app_assoc].
  unfold run_dm_send. rewrite parse_encoded_key by done.
  erewrite ask_answered; [|exact E1|exact E2|done|exact Hwf]. rewrite Hsealed. unfold order.
  erewrite ask_answered; [reflexivity|exact E3|exact E4|done|exact Hreference].
Qed.
End substitution.

(** ** Witnesses *)

Section witnesses.
#[local] Existing Instance toy_sodium.
#[local] Existing Instance toy_sodium_laws.

Definition alice_open : session_state := session_of session_phase.authenticated (public_key_ alice_owner) 1.

Lemma bob_bundle : stored_bundle (public_key_ bob_owner) bob_prekey = bundle_of bob_owner.
Proof. reflexivity. Qed.

Lemma sealed_hello_blob : blob_ok MAX_DM_CIPHERTEXT_SIZE sealed_hello.
Proof. vm_compute. repeat split; discriminate. Qed.

Lemma message_is_delivered_witness : ∃ sends statuses s1 fetches pages s2,
  @serve toy_sodium still default_config sends
    (with_connection (fresh_world two_accounts) (RateTracker ∅ ∅) (ConnectionSocket 5 []) open_channel alice_open)
    = Some (statuses, s1) ∧
  @serve toy_sodium still default_config fetches
    (with_connection (shared s1) (RateTracker ∅ ∅) (ConnectionSocket 6 []) open_channel bob_session) = Some (pages, s2) ∧
  t_dm (db_tables (db (shared s2))) !! 1 = None.
Proof.
  destruct sealed_hello_facts as (Ha & Hb & Hbundle & Hsealed).
  destruct (@message_is_delivered toy_sodium toy_sodium_laws still still_laws default_config (λ _, eq_refl)
              alice_seed bob_seed alice_owner bob_owner Ha Hb drawn_keys.1 drawn_keys.2 eq_refl 1700000000 (lit "hello bob")
              sealed_hello ltac:(done) eq_refl (fresh_world two_accounts) 2 (lit "bob") false bob_prekey two_accounts_ok eq_refl
              ltac:(done) ltac:(vm_compute; reflexivity) ltac:(vm_compute; reflexivity) Hbundle Hsealed sealed_hello_blob
              0 0 _ _ _ _ (RateTracker ∅ ∅) 5 6 alice_open bob_session (open_linked_for 4 ltac:(done))
              (open_linked_for 4 ltac:(done)) eq_refl eq_refl (room_at_first 2 alice_open 1 ltac:(lia) eq_refl) eq_refl eq_refl)
    as (sends & statuses & s1 & E & _ & Hfetch).
  { vm_compute. lia. }
  { vm_compute. discriminate. }
  destruct (Hfetch (RateTracker ∅ ∅) (room_at_first 2 bob_session 2 ltac:(lia) eq_refl)) as (fetches & pages & s2 & E2 & _ & Hgone).
  exists sends, statuses, s1, fetches, pages, s2. split; [exact E|split; [exact E2|exact Hgone]].
Defined.

(** Bob's mailbox, with a hundred messages that do not open. *)
Definition flooded : tables := run_all (replicate 100 (λ t, fst <$> insert_dm garbage_row t)) two_accounts.

Lemma flooded_ok : tables_ok flooded.
Proof.
  apply run_all_ok; [|exact two_accounts_ok]. apply Forall_replicate. intros t t' Ht E.
  apply fmap_Some in E as ([t1 id] & E & ->).
  eapply insert_dm_ok; [exact Ht|..|exact E]; vm_compute; repeat split; try done; by intros [].
Qed.

Lemma flooded_closed : Forall (λ row : Z * dm_envelopes.row, opens bob_owner (dm_envelopes.ciphertext row.2) = false)
  (take (Z.to_nat MAX_DM_BATCH_ITEMS) (@mailbox_rows still 2 0 flooded)).
Proof.
  assert (forallb (λ row : Z * dm_envelopes.row, negb (opens bob_owner (dm_envelopes.ciphertext row.2)))
            (take (Z.to_nat MAX_DM_BATCH_ITEMS) (@mailbox_rows still 2 0 flooded)) = true) as Hall by (vm_compute; reflexivity).
  apply List.Forall_forall. intros row Hrow. apply (proj1 (List.forallb_forall _ _) Hall) in Hrow. by apply negb_true_iff.
Qed.

(** What alice then writes to bob, twice. *)
Definition hello_from_alice : bytes * bytes := (public_key_ alice_owner, sealed_hello).

Lemma hello_sendable : sendable hello_from_alice.
Proof. split_and!; [vm_compute; reflexivity|vm_compute; discriminate|exact sealed_hello_blob]. Qed.

(** It would open, and it is stored; bob never sees it. *)
Lemma unreadable_mail_blocks_the_mailbox_witness : ∃ requests replies s',
  open_direct_message bob_owner sealed_hello = inr (lit "hello bob", 1700000000) ∧
  @rounds_served toy_sodium still default_config 2 [[hello_from_alice]; []; [hello_from_alice]] requests
    (with_connection (fresh_world flooded) (RateTracker ∅ ∅) (ConnectionSocket 5 []) open_channel bob_session)
    = Some (replies, s') ∧
  @mail_of still 2 (shared s') = @mail_of still 2 (fresh_world flooded) ++ [hello_from_alice; hello_from_alice].
Proof.
  destruct (@unreadable_mail_blocks_the_mailbox toy_sodium toy_sodium_laws still still_laws default_config (λ _, eq_refl)
              bob_owner [[hello_from_alice]; []; [hello_from_alice]] _ _ (fresh_world flooded) (RateTracker ∅ ∅) 5 bob_session
              (room_at_first 3 bob_session 2 ltac:(lia) eq_refl) (open_linked_for 6 ltac:(done)) eq_refl)
    as (requests & replies & s' & E & Hmail & _).
  - repeat (apply List.Forall_cons; [exact hello_sendable|]). apply List.Forall_nil.
  - split; [exact flooded_ok|reflexivity|vm_compute; by eexists|vm_compute; reflexivity].
  - vm_compute. lia.
  - exact flooded_closed.
  - vm_compute. discriminate.
  - exists requests, replies, s'. split; [vm_compute; reflexivity|]. split; [exact E|exact Hmail].
Defined.

(** Alice writes to a key that is nobody's, and bob reads it. *)
Lemma server_chooses_the_reader_witness : ∃ bundle_bytes status_bytes,
  open_direct_message bob_owner sealed_hello = inr (lit "hello bob", 1700000000) ∧
  ∀ c session out, awaits c (new_transport tor_key tor_key) (bundle_bytes ++ status_bytes ++ []) →
    ∃ c', run_dm_send alice_owner (Some (drawn_keys.1, drawn_keys.2)) 1700000000 [encode_hex bob_key; lit "hello bob"]
            (CliContext (Client c session) out) = (None, CliContext (Client c' session) (out ++ deposited sealed_hello)).
Proof.
  destruct sealed_hello_facts as (Ha & Hb & Hbundle & Hsealed).
  destruct (@server_chooses_the_reader toy_sodium toy_sodium_laws alice_seed bob_seed alice_owner bob_owner Ha Hb drawn_keys.1
              drawn_keys.2 eq_refl 1700000000 (lit "hello bob") sealed_hello ltac:(done) eq_refl (bundle_of bob_owner) Hbundle
              ltac:(vm_compute; repeat split; discriminate) Hsealed sealed_hello_blob bob_key 0 _ _ 7 eq_refl
              (open_linked_for 4 ltac:(done)) ltac:(done))
    as (asked & sealed & frame & ch1 & ch2 & bundle_bytes & status_bytes & _ & _ & Hopen & Hc).
  exists bundle_bytes, status_bytes. split; [exact Hopen|]. intros c session out Hw.
  destruct (Hc c session out [] Hw) as (c' & E & _). exists c'. exact E.
Defined.
End witnesses.
