(* ===== verification/CommandLine.v ===== *)
(** Two programs and a server: what [hypercom_cli dm-send] run by one person
    and [hypercom_cli dm-fetch] run by another come to, from the arguments of
    the first to the output of the second. *)

From S2P Require Import Prelude.
From S2P Require Import Wire.
From S2P Require Import TextField.
From S2P Require Import Framing.
From S2P Require Import Codec.
From S2P Require Import SocialMessages.
From S2P Require Import TextTools.
From S2P Require Import Hex.
From S2P Require Import RateLimit.
From S2P Require Import Sodium.
From S2P Require Import Noise.
From S2P Require Import Config.
From S2P Require Import ClientOptions.
From S2P Require Import DirectMessages.
From S2P Require Import Files.
From S2P Require Import Keystore.
From S2P Require Import Connection.
From S2P Require Import Database.
From S2P Require Import Repositories.
From S2P Require Import SocialRepositories.
From S2P Require Import Handlers.
From S2P Require Import Server.
From S2P Require Import Effects.
From S2P Require Import Integrity.
From S2P Require Import Scenario.
From S2P Require Import Mailbox.
From S2P Require Import ClientNet.
From S2P Require Import ClientChannel.
From S2P Require Import ClientSession.
From S2P Require Import ClientCommands.
From S2P Require Import ClientMain.
From S2P Require Import ClientLogin.
From S2P Require Import ClientMail.
From S2P Require Import MailDelivery.

(** ** The handshake, across the network *)

Section handshake.
Context `{SodiumLaws} `{EnvironmentLaws}.
Context (config : server_config).

(** A socket that takes what is sent and brings these bytes. *)
Definition delivers (sock : tcp_client_socket) (stream : bytes) : Prop :=
  Forall sends (send_answers sock) ∧
  ∃ answers later, recv_answers sock = answers ++ later ∧ Forall stays_open answers ∧
    (length answers < MAX_RECEIVE_ATTEMPTS)%nat ∧ received_bytes answers = stream.

(** The server's side: the first message in, the second one out. *)
Lemma handshake_served sp ss rp re first second ch w tr fd k :
  size_of first = 32 + AEAD_TAG_SIZE → size_of second = 32 + AEAD_TAG_SIZE →
  accept_handshake_message (Some (rp, re)) first (new_channel sp ss) = (Some second, ch) →
  random_keypair (entropy_reads w) = Some (rp, re) →
  ∃ w1 s1, db w1 = db w ∧
    process_connection_input config [Received (append_length_prefixed_message first [])]
      (with_connection w tr (ConnectionSocket fd []) (new_channel sp ss) k) = (true, s1) ∧
    transmitted s1 = (append_length_prefixed_message second [],
      with_connection w1 tr (ConnectionSocket fd []) ch (enter session_phase.awaiting_hello k)).
Proof.
  change (32 + AEAD_TAG_SIZE) with 48. intros Hfirst Hsecond Haccept Hdrawn.
  set (w1 := World (db w) (calls w) (clock_reads w) (S (entropy_reads w)) (log_entries w)).
  exists w1, (with_connection w1 tr (queued (ConnectionSocket fd []) second) ch (enter session_phase.awaiting_hello k)).
  split; [done|]. split.
  2:{ apply transmitted_all. rewrite append_length_prefixed_bytes. done. }
  set (wire := append_length_prefixed_message first []).
  assert (0 < size_of first <= MAX_NOISE_MESSAGE_SIZE) as Hsize by (rewrite Hfirst; done).
  assert (u32 (size_of first)) as Hu by (rewrite Hfirst; done).
  pose proof (extract_appended first [] MAX_NOISE_MESSAGE_SIZE Hsize Hu) as Hext. rewrite app_nil_r in Hext. fold wire in Hext.
  unfold process_connection_input, sbind at 1, sgets. cbn [connection with_connection input_buffer read_available].
  rewrite app_nil_l. unfold sbind at 1, put_input at 1, on_connection, zoom, smodify. cbn [negb].
  destruct (length wire) as [|fuel] eqn:Elen.
  { exfalso. unfold wire in Elen. rewrite append_length_prefixed_bytes, !length_app, length_le_bytes in Elen. simpl in Elen. lia. }
  cbn [process_messages]. unfold sbind at 1, sgets. cbn [connection with_connection input_buffer]. rewrite Hext.
  unfold sbind at 1, put_input at 1, on_connection, zoom, smodify. cbn [with_connection connection shared tracker].
  unfold sbind at 1, process_message, sbind at 1, sgets. cbn [connection channel]. change (is_established (new_channel sp ss)) with false.
  cbn [negb]. unfold advance_handshake, sbind at 1, draw_keypair, on_world at 1, zoom at 1. cbn [shared]. rewrite Hdrawn.
  unfold sbind at 1, on_connection at 1, on_channel at 1, zoom at 1 2. cbn [connection channel]. rewrite Haccept.
  unfold sbind at 1, on_connection at 1, zoom at 1, Handlers.on_socket, zoom, queue_bytes. cbn [connection socket].
  replace (MAX_PENDING_OUTPUT <? _) with false.
  2:{ symmetry. apply Z.ltb_ge. rewrite append_length_prefixed_bytes, app_nil_l, size_of_app, Hsecond. unfold size_of.
      rewrite length_le_bytes. done. }
  cbn [negb]. unfold sbind at 1, get_session, sgets. cbn [connection session].
  unfold sbind at 1, put_session, on_connection, zoom, smodify. unfold sret. cbn [negb].
  destruct fuel as [|fuel]; cbn [process_messages]; unfold sbind, sgets; reflexivity.
Qed.

(** Both sides. *)
Lemma session_opens spare sp ss ip se rp re w tr fd k :
  size_of ip = 32 → size_of rp = 32 → agree ip se sp ss → agree ip se rp re → Z.of_nat spare <= UINT64_MAX →
  random_keypair (entropy_reads w) = Some (rp, re) →
  ∃ first second t ch w1 s1,
    linked spare t ch ∧ db w1 = db w ∧
    process_connection_input config [Received first] (with_connection w tr (ConnectionSocket fd []) (new_channel sp ss) k) = (true, s1) ∧
    transmitted s1 = (second, with_connection w1 tr (ConnectionSocket fd []) ch (enter session_phase.awaiting_hello k)) ∧
    ∀ sock network endpoint tail,
      endpoint_socks5_host endpoint = [] → network (endpoint_host endpoint) (endpoint_port endpoint) = Connected →
      delivers sock (second ++ tail) →
      ∃ c, open_session network (Some (ip, se)) endpoint (new_connection sp sock) = (None, c) ∧
        awaits c t tail ∧ sent_bytes (socket_ c) = first.
Proof.
  intros Hip Hrp Hes Hee Hspare Hdrawn.
  destruct (handshake_pairs sp ss ip se rp re Hip Hrp Hes Hee)
    as (first & second & ch & k1 & k2 & Hk1 & Hk2 & Hfirst & Hsecond & Haccept & Hch & Hclient).
  destruct (handshake_served sp ss rp re first second ch w tr fd k Hfirst Hsecond Haccept Hdrawn) as (w1 & s1 & Hw1 & E & Esent).
  exists (append_length_prefixed_message first []), (append_length_prefixed_message second []), (new_transport k1 k2), ch, w1, s1.
  split_and!; [|done..|].
  { exists (new_transport k2 k1). split_and!; try done; by apply new_cipher_ready. }
  intros sock network endpoint tail Hsocks Hnet (Hsend & answers & later & Hrecv & Hopen & Hlen & Hbytes).
  rewrite (open_session_direct network _ endpoint _ Hsocks Hnet). cbn [new_connection socket_ server_static_public_].
  set (c0 := ServerConnection _ _ _ _ _ _).
  destruct (Hclient c0 answers later tail) as (c' & left & Eh & Hs & Ht & Hopen' & Hcon & _ & Hsends & Hr & Hl & Hn & Hrest); try done.
  exists c'. unfold sbind. rewrite Eh. split; [done|]. split; [|by rewrite Hs].
  unfold has_channel in Hopen'. split_and!; [done|by destruct (open_ c')|done|done|]. exists left, later. split_and!; try done. lia.
Qed.
End handshake.

(** ** A session for a command *)

Section sessions.
Context `{SodiumLaws} `{EnvironmentLaws}.
Context (config : server_config).
Context (Hcalm : ∀ n, sql_fails n = false).
Context (Hclock : ∀ n, system_clock n < 2 ^ 64).

(** The keys of the server, and those either end draws for a session. *)
Context (sp ss : bytes).

(** What the server draws next suits what the client draws. *)
Definition draws_agree (ip se : bytes) (w : world) : Prop :=
  ∃ rp re, random_keypair (entropy_reads w) = Some (rp, re) ∧ size_of rp = 32 ∧ agree ip se rp re.

(** An identity that can sign. *)
Definition signer (seed : bytes) (identity : identity_keypair) : Prop :=
  derive_from_seed seed = Some identity ∧
  ∀ message, ∃ signature, sign_message message identity = Some signature ∧ size_of signature = SIGNATURE_SIZE.

Lemma session_established (n spare : nat) (seed : bytes) (identity : identity_keypair) ip se w tr fd k id handle :
  admitted config (2 + n) id k tr → Z.of_nat (5 + spare) <= UINT64_MAX → size_of ip = 32 → agree ip se sp ss → draws_agree ip se w → signer seed identity →
  tables_ok (db_tables (db w)) → active_motd (db_tables (db w)) = None →
  t_users (db_tables (db w)) !! id = Some (users.Row (public_key_ identity) handle false) →
  ∃ requests replies t ch w' tr' k',
    serve config requests (with_connection w tr (ConnectionSocket fd []) (new_channel sp ss) k)
      = Some (replies, with_connection w' tr' (ConnectionSocket fd []) ch k') ∧
    linked (S spare) t ch ∧ admitted config n id k' tr' ∧ db w' = db w ∧
    is_registered k' = true ∧ announced_pubkey k' = public_key_ identity ∧ user_id k' = id ∧
    ∀ sock network endpoint tail,
      endpoint_socks5_host endpoint = [] → network (endpoint_host endpoint) (endpoint_port endpoint) = Connected →
      delivers sock (concat replies ++ tail) →
      ∃ c1 c session, open_session network (Some (ip, se)) endpoint (new_connection sp sock) = (None, c1) ∧
        authenticate identity (Client c1 new_session) = (None, Client c session) ∧
        (needs_registration session = false ∧ get_handle session = handle) ∧ awaits c t tail ∧ sent_bytes (socket_ c) = concat requests.
Proof.
  intros Hadmitted Hspare Hip Hes (rp & re & Hdrawn & Hrp & Hee) [Hidentity Hsigns] Hok Hquiet Hrow.
  destruct (session_opens config (5 + spare) sp ss ip se rp re w tr fd k Hip Hrp Hes Hee Hspare Hdrawn)
    as (first & second & t & ch & w1 & s1 & Hl & Hw1 & Efirst & Esecond & Hopen).
  set (k1 := enter session_phase.awaiting_hello k) in *. rewrite <-Hw1 in Hok, Hquiet, Hrow |- *.
  assert (motd_ok (db_tables (db w1))) as Hmotd by (intros m; by rewrite Hquiet).
  destruct (login_exchange config Hcalm Hclock identity seed Hidentity Hsigns n spare t ch w1 tr fd k1 id handle
              Hadmitted Hl eq_refl Hok Hmotd Hrow)
    as (hello & challenge & response & accepted & pushed & s2 & s2' & s3 & s3' & nonce & t1 & ch1 & t2 &
        E1 & E2 & E3 & E4 & Hdb & Hphase & Hid & (w3 & tr3 & k3 & Es3 & Hannounced & Hleft) & Hl1 & Hann & Hclient).
  rewrite Hquiet in Hann. destruct Hann as (-> & Hch & _). rewrite Hch in Es3. subst s3'. cbn in Hdb, Hphase, Hid.
  exists [first; hello; response], [second; challenge; accepted], t1, ch1, w3, tr3, k3.
  split_and!; [|done|done|done| |done|done|].
  { rewrite (serve_one _ _ _ _ _ _ _ Efirst Esecond), (serve_one _ _ _ _ _ _ _ E1 E2).
    rewrite app_nil_r in E4. by rewrite (serve_one _ _ _ _ _ _ _ E3 E4). }
  { unfold is_registered. rewrite bool_decide_true by done. destruct (ok_users _ Hok) as (_ & Hrows & _).
    destruct (Hrows id _ Hrow) as (Hpos & _). cbn. rewrite Hid. destruct (Z.eqb_spec id 0); [lia|done]. }
  intros sock network endpoint tail Hsocks Hnet Hd. cbn [concat] in Hd. rewrite app_nil_r, <-!app_assoc in Hd.
  destruct (Hopen sock network endpoint _ Hsocks Hnet Hd) as (c1 & Eopen & Ha1 & Hs1).
  destruct (Hclient c1 tail Ha1) as (c & Eauth & Ha & Hs).
  exists c1, c, (ClientSession nonce handle id false). split_and!; [done..|].
  cbn [concat]. by rewrite app_nil_r, Hs, Hs1.
Qed.
End sessions.

(** ** The program *)

Section programs.
Context `{SodiumLaws} `{FileSystem}.

(** What a run of the program comes to before it dials: its options, the
    server and the identity they name, what it has said so far, and the files
    as they are by then. The way to the server is direct, and open. *)
Record prepared (s : surroundings) (argv : list bytes) (d : disk) (name : bytes) (parameters : list bytes)
    (sp ip se : bytes) (owner : identity_keypair) (shown : bytes) (d1 : disk) (way : server_endpoint) : Prop := Prepared {
  prepared_command : ∃ options passphrase entry d0,
    parse_cli_options (files d) argv default_options true true = inr options ∧
    ClientOptions.command options = name ∧ ClientOptions.arguments options = parameters ∧
    read_passphrase (passphrase_variable s) (typed s) = inr passphrase ∧
    resolve_server options passphrase d = (inr entry, d0) ∧
    resolve_identity s options entry passphrase d0 = ((inr owner, shown), d1) ∧
    server_key entry = sp ∧ endpoint entry = way;
  prepared_handshake : drawn_handshake_ s = Some (ip, se);
  prepared_direct : endpoint_socks5_host way = [];
  prepared_network : network s (endpoint_host way) (endpoint_port way) = Connected;
}.

Lemma program_runs s argv d name parameters sp ip se owner shown d1 way c1 c session (text : bytes) (c' : client) :
  prepared s argv d name parameters sp ip se owner shown d1 way →
  is_registry_command name = false → name ≠ lit "register" →
  open_session (network s) (Some (ip, se)) way (new_connection sp (line s)) = (None, c1) →
  authenticate owner (Client c1 new_session) = (None, Client c session) → needs_registration session = false →
  (∀ options, ClientOptions.command options = name → ClientOptions.arguments options = parameters →
     dispatch_command owner (drawn_envelope_ s) (time_of_day s) options (CliContext (Client c session) shown) =
       (None, CliContext c' text)) →
  main true s argv d = (Exit 0 text [] (Some c'), d1).
Proof.
  intros [(options & passphrase & entry & d0 & Eparse & Ename & Eargs & Epass & Eserver & Eowner & Ekey & Eway) Edraw _ _]
    Hregistry Hregister Eopen Eauth Hneeds Hdispatch.
  specialize (Hdispatch options Ename Eargs).
  unfold main. cbn [negb]. unfold sbind at 1, sgets. rewrite Eparse, Ename, Hregistry.
  unfold sbind at 1, run_cli. rewrite Epass. unfold sbind at 1. rewrite Eserver. unfold sbind at 1. rewrite Eowner.
  unfold sret. unfold run_session. rewrite Ekey, Eway, Edraw, Eopen, Eauth.
  unfold run_command. rewrite Ename, decide_False by done. cbn [session_]. rewrite Hneeds, Hdispatch. done.
Qed.

Lemma dispatch_dm_send owner ephemeral now options : ClientOptions.command options = lit "dm-send" →
  dispatch_command owner ephemeral now options = run_dm_send owner ephemeral now (ClientOptions.arguments options).
Proof.
  intros E. unfold dispatch_command. rewrite E. repeat (rewrite decide_False by (vm_compute; discriminate)).
  by rewrite decide_True.
Qed.

Lemma dispatch_dm_fetch owner ephemeral now options : ClientOptions.command options = lit "dm-fetch" →
  dispatch_command owner ephemeral now options = run_dm_fetch owner.
Proof.
  intros E. unfold dispatch_command. rewrite E. repeat (rewrite decide_False by (vm_compute; discriminate)).
  by rewrite decide_True.
Qed.
End programs.

(** ** The conversation *)

Section conversation.
Context `{SodiumLaws} `{EnvironmentLaws} `{FileSystem}.
Context (config : server_config).
Context (Hcalm : ∀ n, sql_fails n = false).
Context (Hclock : ∀ n, system_clock n < 2 ^ 64).
Context (sp ss : bytes).

(** A connection that has just been accepted. *)
Definition accepted (w : world) (tr : rate_tracker) (fd : Z) (k : session_state) : machine :=
  with_connection w tr (ConnectionSocket fd []) (new_channel sp ss) k.

(** The keys someone draws for a session suit the server's and whatever the
    server draws. *)
Definition draws (ip se : bytes) : Prop :=
  size_of ip = 32 ∧ agree ip se sp ss ∧ ∀ w, draws_agree ip se w.

Context (a_seed b_seed : bytes) (alice bob : identity_keypair).
Context (Ha : signer a_seed alice) (Hb : signer b_seed bob).
Context (ephemeral ephemeral_secret : bytes) (Hephemeral : crypto_scalarmult_base ephemeral_secret = Some ephemeral).
Context (time : Z) (text envelope : bytes) (Htime : u64 time) (Htext : validate_text_field text = true).

(** Both have an account, bob has published a bundle, and no announcement
    is active. *)
Context (w : world) (a_id id : Z) (a_handle handle : bytes) (row : prekeys.row).
Context (Hok : tables_ok (db_tables (db w))) (Hauto : autocommit w) (Hseq : dm_seq (t_seq (db_tables (db w))) < 2 ^ 63 - 1).
Context (Hquiet : active_motd (db_tables (db w)) = None).
Context (Haccount_a : t_users (db_tables (db w)) !! a_id = Some (users.Row (public_key_ alice) a_handle false)).
Context (Haccount : t_users (db_tables (db w)) !! id = Some (users.Row (public_key_ bob) handle false)).
Context (Hprekey : t_prekeys (db_tables (db w)) !! id = Some row).
Context (Hpublished : published_bundle bob (stored_bundle (public_key_ bob) row)).
Context (Hsealed : seal_direct_message (Some (ephemeral, ephemeral_secret)) time alice
                     (stored_bundle (public_key_ bob) row) text = inr envelope).
Context (Hblob : blob_ok MAX_DM_CIPHERTEXT_SIZE envelope).

(** The mail of bob with the message in it. *)
Definition delivered_mail : Z * dm_envelopes.row := new_mail alice envelope w id.
Definition after_sending : tables := with_mail delivered_mail.1 delivered_mail.2 (db_tables (db w)).

Lemma program_sends ip se tr fd k : draws ip se → admitted config 4 a_id k tr →
  ∃ requests replies s1,
    serve config requests (accepted w tr fd k) = Some (replies, s1) ∧
    autocommit (shared s1) ∧ db_tables (db (shared s1)) = after_sending ∧
    ∀ s argv d shown d1 way tail,
      prepared s argv d (lit "dm-send") [encode_hex (public_key_ bob); text] sp ip se alice shown d1 way →
      drawn_envelope_ s = Some (ephemeral, ephemeral_secret) → time_of_day s = time →
      delivers (line s) (concat replies ++ tail) →
      ∃ c, main true s argv d = (Exit 0 (shown ++ deposited envelope) [] (Some c), d1) ∧
        sent_bytes (socket_ (connection_ c)) = concat requests.
Proof.
  intros (Hip & Hes & Hdraws) Hadmitted.
  destruct (session_established config Hcalm Hclock sp ss 2 3 a_seed alice ip se w tr fd k a_id a_handle)
    as (logins & greetings & t & ch & w1 & tr1 & k1 & Elogin & Hl & Hleft & Hw1 & Hk1 & Hme & Hid & Hsession); try done.
  assert (autocommit w1) as Hauto1 by (unfold autocommit in *; congruence).
  rewrite <-Hw1 in Hok, Hseq, Haccount, Hprekey.
  destruct (dm_send_exchange config Hcalm 0 a_id 0 t ch w1 tr1 fd k1 alice _ time text id _ handle false row
              envelope Hleft Hl Hk1 ltac:(rewrite Hme; exact (public_key_size _ _ (proj1 Ha))) Hok Hauto1 Hseq Haccount Hprekey
              Hsealed Hblob)
    as (sends & statuses & s1 & Eserve & Hauto2 & Ht1 & Hclient).
  exists (logins ++ sends), (greetings ++ statuses), s1. split_and!; [|done| |].
  { unfold accepted. by rewrite (serve_app config logins sends), Elogin, Eserve. }
  { by rewrite Ht1, Hw1, Hme. }
  intros s argv d shown d1 way tail Hp Henvelope Hnow Hd. rewrite concat_app, <-app_assoc in Hd.
  destruct (Hsession (line s) (network s) way _ (prepared_direct _ _ _ _ _ _ _ _ _ _ _ _ Hp)
              (prepared_network _ _ _ _ _ _ _ _ _ _ _ _ Hp) Hd)
    as (c1 & c & session & Eopen & Eauth & [Hneeds _] & Hc & Hsent).
  destruct (Hclient c session shown tail Hc) as (c' & Erun & Hsent').
  exists (Client c' session). split; [|by rewrite concat_app; cbn [connection_]; rewrite Hsent', Hsent].
  eapply program_runs; [exact Hp|reflexivity|by vm_compute|exact Eopen|exact Eauth|exact Hneeds|].
  intros options Ename Eargs. by rewrite (dispatch_dm_send _ _ _ _ Ename), Eargs, Henvelope, Hnow.
Qed.

Lemma program_fetches ip se w1 tr fd k : draws ip se → admitted config 4 id k tr →
  db_tables (db w1) = after_sending → autocommit w1 →
  (length (mailbox_rows id 0 (db_tables (db w))) < Z.to_nat MAX_DM_BATCH_ITEMS)%nat →
  size_of (encoding (first_page id after_sending)) <= MAX_PAYLOAD_SIZE →
  ∃ requests replies s2,
    serve config requests (accepted w1 tr fd k) = Some (replies, s2) ∧
    t_dm (db_tables (db (shared s2))) !! delivered_mail.1 = None ∧
    ∀ s argv d parameters shown d1 way tail,
      prepared s argv d (lit "dm-fetch") parameters sp ip se bob shown d1 way →
      delivers (line s) (concat replies ++ tail) →
      ∃ c earlier, main true s argv d =
          (Exit 0 (shown ++ earlier ++ lit "  de " ++ take 16 (encode_hex (public_key_ alice)) ++ lit "... : " ++ text ++ newline)
             [] (Some c), d1) ∧
        sent_bytes (socket_ (connection_ c)) = concat requests.
Proof.
  intros (Hip & Hes & Hdraws) Hadmitted Ht1 Hauto1 Hroom Hfits.
  destruct (page_with_new_mail Hcalm a_seed b_seed alice bob (proj1 Ha) (proj1 Hb) ephemeral ephemeral_secret Hephemeral time text
              envelope Htime Htext w id handle false row Hok Hauto Hseq Haccount Hpublished Hsealed Hroom)
    as (_ & (earlier & Eshown) & Hread). fold delivered_mail after_sending in Eshown, Hread.
  assert (tables_ok after_sending) as Hok1.
  { exact (with_new_mail_ok a_seed alice bob (proj1 Ha) ephemeral ephemeral_secret time text envelope w id handle
             false row Hok Hseq Haccount Hsealed Hblob). }
  rewrite <-Ht1 in Hok1.
  destruct (session_established config Hcalm Hclock sp ss 2 3 b_seed bob ip se w1 tr fd k id handle)
    as (logins & greetings & t & ch & w2 & tr2 & k2 & Elogin & Hl & Hleft & Hw2 & Hk2 & _ & Hid & Hsession); try done.
  { by rewrite Ht1. } { by rewrite Ht1. }
  assert (autocommit w2) as Hauto2 by (unfold autocommit in *; congruence). rewrite <-Hw2 in Hok1, Ht1.
  destruct (mailbox_fetched config Hcalm bob 0 t ch w2 tr2 fd k2 Hl Hk2 ltac:(rewrite Hid; exact Hleft) Hok1 Hauto2
              ltac:(rewrite Hid, Ht1; exact Hfits))
    as (fetches & pages & s2 & Eserve & _ & Ht2 & Hclient).
  rewrite Hid, Ht1 in Ht2, Hclient.
  exists (logins ++ fetches), (greetings ++ pages), s2. split_and!.
  { unfold accepted. by rewrite (serve_app config logins fetches), Elogin, Eserve. }
  { rewrite Ht2. cbn [t_dm set_dm]. apply map_lookup_filter_None. right. intros r Hr Hn. apply Hn.
    assert (r = delivered_mail.2) as ->; [|exact Hread]. revert Hr. unfold after_sending. cbn [with_mail t_dm set_dm].
    rewrite lookup_insert. case_decide; [|done]. by intros [= <-]. }
  intros s argv d parameters shown d1 way tail Hp Hd. rewrite concat_app, <-app_assoc in Hd.
  destruct (Hsession (line s) (network s) way _ (prepared_direct _ _ _ _ _ _ _ _ _ _ _ _ Hp)
              (prepared_network _ _ _ _ _ _ _ _ _ _ _ _ Hp) Hd)
    as (c1 & c & session & Eopen & Eauth & [Hneeds _] & Hc & Hsent).
  destruct (Hclient c session shown tail Hc) as (c' & Erun & Hsent'). rewrite Eshown in Erun.
  exists (Client c' session), earlier. split; [|by rewrite concat_app; cbn [connection_]; rewrite Hsent', Hsent].
  eapply program_runs; [exact Hp|reflexivity|by vm_compute|exact Eopen|exact Eauth|exact Hneeds|].
  intros options Ename Eargs. by rewrite (dispatch_dm_fetch _ _ _ _ Ename).
Qed.

(** C1: from one terminal to another. Alice runs the program with [dm-send],
    bob's key and a text: it ends with code 0 and says how much it deposited.
    Bob, later and from any machine, runs it with [dm-fetch]: it ends with
    code 0, and the last line it prints is the text under alice's name. The
    server serves both sessions from the handshake on, given exactly the bytes
    the programs send, and keeps no copy of the message.

    So it goes when nothing stands in the way. Both have accounts that are not
    banned, bob has published his keys, and the text is a valid text field of
    which the sealed message is within the size limit. No announcement is
    active (its push would break the first request of a session, C16), no
    statement fails, no transaction is open, and the rate limits have room for
    the four requests of each session. The message is among the first hundred
    of bob's mail, and that page fits a frame. Until bob's session the database
    stays as alice's left it. The programs reach the server directly, not over
    SOCKS5, and the network brings the server's bytes. *)
Theorem programs_exchange_a_message (a_ip a_se b_ip b_se : bytes) (tr : rate_tracker) (fd : Z) (k : session_state)
    (Hdraws_a : draws a_ip a_se) (Hdraws_b : draws b_ip b_se) (Hadmitted_a : admitted config 4 a_id k tr)
    (Hroom : (length (mailbox_rows id 0 (db_tables (db w))) < Z.to_nat MAX_DM_BATCH_ITEMS)%nat)
    (Hfits : size_of (encoding (first_page id after_sending)) <= MAX_PAYLOAD_SIZE) :
  ∃ requests_a replies_a s1,
    serve config requests_a (accepted w tr fd k) = Some (replies_a, s1) ∧
    (∀ s argv d shown d1 way tail,
       prepared s argv d (lit "dm-send") [encode_hex (public_key_ bob); text] sp a_ip a_se alice shown d1 way →
       drawn_envelope_ s = Some (ephemeral, ephemeral_secret) → time_of_day s = time →
       delivers (line s) (concat replies_a ++ tail) →
       ∃ c, main true s argv d = (Exit 0 (shown ++ deposited envelope) [] (Some c), d1) ∧
         sent_bytes (socket_ (connection_ c)) = concat requests_a) ∧
    ∀ w2 tr2 fd2 k2, db w2 = db (shared s1) → admitted config 4 id k2 tr2 → ∃ requests_b replies_b s2,
      serve config requests_b (accepted w2 tr2 fd2 k2) = Some (replies_b, s2) ∧
      t_dm (db_tables (db (shared s2))) !! delivered_mail.1 = None ∧
      ∀ s argv d parameters shown d1 way tail,
        prepared s argv d (lit "dm-fetch") parameters sp b_ip b_se bob shown d1 way →
        delivers (line s) (concat replies_b ++ tail) →
        ∃ c earlier, main true s argv d =
            (Exit 0 (shown ++ earlier ++ lit "  de " ++ take 16 (encode_hex (public_key_ alice)) ++ lit "... : " ++ text ++ newline)
               [] (Some c), d1) ∧
          sent_bytes (socket_ (connection_ c)) = concat requests_b.
Proof.
  destruct (program_sends a_ip a_se tr fd k Hdraws_a Hadmitted_a) as (requests & replies & s1 & E & Hauto1 & Ht1 & Hclient).
  exists requests, replies, s1. split_and!; [exact E|exact Hclient|].
  intros w2 tr2 fd2 k2 Hw2 Hadmitted_b. apply program_fetches; [done|done|by rewrite Hw2|by unfold autocommit in *; rewrite Hw2|done|done].
Qed.
End conversation.

(** ** Witness *)

Section witnesses.
#[local] Existing Instance toy_sodium.
#[local] Existing Instance toy_sodium_laws.
#[local] Existing Instance sound_system.

(** A machine without files, on which the owner's key is drawn first, and a
    network that brings the stream. *)
Definition laptop (owner : identity_keypair) (stream : bytes) : surroundings :=
  Surroundings (Some (lit "pass")) None [] drawn_entropy drawn_salt drawn_nonce (Some owner) (Some (tor_key, tor_key))
    (Some (drawn_keys.1, drawn_keys.2)) 1700000000 (λ _ _, Connected) (ClientSocket false [] [] [Received stream] []).

Definition command_line (name : bytes) (parameters : list bytes) : list bytes :=
  lit "--server-key" :: encode_hex tor_key :: name :: parameters.

Definition nearby : server_endpoint := ServerEndpoint (lit "127.0.0.1") 7717 [] 0.

Lemma laptop_delivers owner stream : delivers (line (laptop owner stream)) (stream ++ []).
Proof.
  split; [constructor|]. exists [Received stream], []. split; [done|]. split; [by repeat constructor|].
  split; [unfold MAX_RECEIVE_ATTEMPTS; cbn; lia|]. cbn. by rewrite !app_nil_r.
Qed.

Lemma laptop_prepared owner stream name parameters options seed shown d1 :
  parse_cli_options ∅ (command_line name parameters) default_options true true = inr options →
  ClientOptions.command options = name → ClientOptions.arguments options = parameters →
  server_label options = [] → server_key_hex options = encode_hex tor_key →
  ServerEndpoint (host options) (port options) (socks5_host options) (socks5_port options) = nearby →
  identity_path options = lit "hypercom_identity.key" →
  owner = keypair_of seed →
  create_identity (lit "hypercom_identity.key") drawn_salt drawn_nonce (lit "pass") (Some owner) (Disk ∅ 1) = (inr owner, d1) →
  shown = new_identity_notice (lit "hypercom_identity.key") →
  prepared (laptop owner stream) (command_line name parameters) empty_disk name parameters tor_key tor_key tor_key owner
    shown d1 nearby.
Proof.
  intros Eparse Ename Eargs Elabel Ekey Eway Epath -> Ecreate ->. split; [|done..].
  exists options, (lit "pass"), (ServerEntry (host options) nearby tor_key identity_source.imported (lit "hypercom_identity.key") false),
    empty_disk.
  split_and!; try done.
  - unfold resolve_server. rewrite decide_True by done. rewrite Ekey, Eway, Epath. unfold decode_server_key.
    rewrite decode_hex_encode. reflexivity.
  - unfold resolve_identity. cbn [source imported_identity_path]. unfold sbind. 
    change (is_regular_file (lit "hypercom_identity.key") empty_disk) with (false, Disk ∅ 1). cbv iota.
    cbn [laptop drawn_salt_ drawn_nonce_ drawn_identity_]. by rewrite Ecreate.
Qed.

Definition identity_file : bytes := lit "hypercom_identity.key".
Definition send_parameters : list bytes := [encode_hex (public_key_ bob_owner); lit "hello bob"].

Lemma alice_prepared : ∃ d1, ∀ stream,
  prepared (laptop alice_owner stream) (command_line (lit "dm-send") send_parameters) empty_disk (lit "dm-send") send_parameters
    tor_key tor_key tor_key alice_owner (new_identity_notice identity_file) d1 nearby.
Proof.
  destruct (parse_cli_options ∅ (command_line (lit "dm-send") send_parameters) default_options true true)
    as [error|options] eqn:E; [vm_compute in E; discriminate E|].
  eexists. intros stream. eapply (laptop_prepared alice_owner stream (lit "dm-send") send_parameters options alice_seed); [exact E|..];
    try (vm_compute in E; injection E as <-; vm_compute; reflexivity); vm_compute; reflexivity.
Qed.

Lemma bob_prepared : ∃ d1, ∀ stream,
  prepared (laptop bob_owner stream) (command_line (lit "dm-fetch") []) empty_disk (lit "dm-fetch") []
    tor_key tor_key tor_key bob_owner (new_identity_notice identity_file) d1 nearby.
Proof.
  destruct (parse_cli_options ∅ (command_line (lit "dm-fetch") []) default_options true true)
    as [error|options] eqn:E; [vm_compute in E; discriminate E|].
  eexists. intros stream. eapply (laptop_prepared bob_owner stream (lit "dm-fetch") [] options bob_seed); [exact E|..];
    try (vm_compute in E; injection E as <-; vm_compute; reflexivity); vm_compute; reflexivity.
Qed.

Lemma toy_draws : @draws toy_sodium still tor_key tor_key tor_key tor_key.
Proof.
  split; [done|]. split; [apply toy_agree|]. intros w. eexists _, _. split; [reflexivity|]. split; [done|apply toy_agree].
Qed.

Lemma toy_signer seed owner : derive_from_seed seed = Some owner → signer seed owner.
Proof.
  intros E. split; [done|]. intros message. eexists. split; [reflexivity|]. unfold size_of. by rewrite length_pad.
Qed.

(** The limits a server has unless it is told otherwise have room for a
    session. *)
Lemma room_for_session account : admitted default_config 4 account alice_waiting (RateTracker ∅ ∅).
Proof. split; [by left|]. split; apply room_empty; right; vm_compute; discriminate. Qed.

(** Alice's program, then bob's, on machines without files. *)
Lemma programs_exchange_a_message_witness : ∃ stream_a c_a d_a stream_b c_b d_b earlier,
  main true (laptop alice_owner stream_a) (command_line (lit "dm-send") send_parameters) empty_disk
    = (Exit 0 (new_identity_notice identity_file ++ deposited sealed_hello) [] (Some c_a), d_a) ∧
  main true (laptop bob_owner stream_b) (command_line (lit "dm-fetch") []) empty_disk
    = (Exit 0 (new_identity_notice identity_file ++ earlier ++ lit "  de " ++ take 16 (encode_hex (public_key_ alice_owner)) ++
               lit "... : " ++ lit "hello bob" ++ newline) [] (Some c_b), d_b).
Proof.
  destruct sealed_hello_facts as (Ha & Hb & Hbundle & Hsealed).
  destruct alice_prepared as [d_a Hpa]. destruct bob_prepared as [d_b Hpb].
  destruct (@programs_exchange_a_message toy_sodium toy_sodium_laws still still_laws sound_system default_config (λ _, eq_refl)
              (λ _, eq_refl) tor_key tor_key alice_seed bob_seed alice_owner bob_owner
              (toy_signer _ _ Ha) (toy_signer _ _ Hb) drawn_keys.1 drawn_keys.2 eq_refl 1700000000 (lit "hello bob") sealed_hello
              ltac:(done) eq_refl (fresh_world two_accounts) 1 2 (lit "alice") (lit "bob") bob_prekey two_accounts_ok eq_refl
              ltac:(done) ltac:(vm_compute; reflexivity) ltac:(vm_compute; reflexivity) ltac:(vm_compute; reflexivity)
              ltac:(vm_compute; reflexivity) Hbundle Hsealed sealed_hello_blob
              tor_key tor_key tor_key tor_key (RateTracker ∅ ∅) 5 alice_waiting toy_draws toy_draws
              (room_for_session 1))
    as (requests_a & replies_a & s1 & _ & Hrun_a & Hfetch).
  { vm_compute. lia. }
  { vm_compute. discriminate. }
  destruct (Hfetch (shared s1) (RateTracker ∅ ∅) 6 alice_waiting eq_refl (room_for_session 2)) as (requests_b & replies_b & s2 & _ & _ & Hrun_b).
  destruct (Hrun_a _ _ _ _ _ _ [] (Hpa (concat replies_a)) eq_refl eq_refl (laptop_delivers _ _)) as (c_a & Ea & _).
  destruct (Hrun_b _ _ _ _ _ _ _ [] (Hpb (concat replies_b)) (laptop_delivers _ _)) as (c_b & earlier & Eb & _).
  exists (concat replies_a), c_a, d_a, (concat replies_b), c_b, d_b, earlier. split; [exact Ea|exact Eb].
Defined.
End witnesses.
