(* ===== verification/GraphicalClient.v ===== *)
(** The graphical client behind its widgets: what its buttons do
    (client/ui/{ui,ui_dm,ui_social,ui_delete,ui_report,server}_actions.cpp,
    connection_guard.cpp and the handlers inside draw_*.cpp), the list of
    servers, and the start of the program (gui_main.cpp up to the window). The
    panels the widgets are in are in [Drawing]. What is drawn at random, the
    clock and what the network brings to a new socket are a class; a text field
    is the text in it. *)

From S2P Require Import Prelude.
From S2P Require Import Wire.
From S2P Require Import TextField.
From S2P Require Import Framing.
From S2P Require Import Codec.
From S2P Require Import SessionMessages.
From S2P Require Import ContentMessages.
From S2P Require Import SocialMessages.
From S2P Require Import TextTools.
From S2P Require Import Hex.
From S2P Require Import Sodium.
From S2P Require Import Noise.
From S2P Require Import ClientOptions.
From S2P Require Import DirectMessages.
From S2P Require Import Files.
From S2P Require Import Connection.
From S2P Require Import Keystore.
From S2P Require Import ClientNet.
From S2P Require Import ClientSession.
From S2P Require Import ClientCommands.

(** ** The state (ui_state.hpp, app_state.hpp, server_slot.hpp) *)

Inductive language := french | english.

Inductive side_panel_tab := direct_messages | social.

Record decrypted_message := DecryptedMessage {
  sender_hex : bytes; message_text : bytes; received_at : Z; readable : bool }.

Definition empty_key : bytes := replicate 32 Byte.x00.

(** [comments_buffer] tells apart the storages [comments] has had: a fetched
    thread is moved in with its own, and the one before is freed. *)
Module ui_state.
Record t := mk {
  current_lang : language; connected : bool; registered : bool; handle : bytes; identity_hex : bytes;
  server_key_hex : bytes; endpoint : server_endpoint; status_message : bytes; status_is_error : bool;
  intro_requested : bool; forums : list forum_record.t; selected_forum_id : Z; posts : list post_record.t;
  selected_post_id : Z; open_post : post_record.t; comments : list comment_record.t;
  comments_buffer : nat; thread_truncated : bool; active_side_tab : side_panel_tab; friends : list friend_record.t; viewed_profile : profile_record.t;
  viewed_top8_slots : list bytes; viewed_top8_details : list friend_record.t; own_top8_slots : list bytes;
  own_top8_details : list friend_record.t; inbox : list decrypted_message; forum_name_input : bytes;
  forum_description_input : bytes; post_title_input : bytes; post_body_input : bytes; comment_input : bytes;
  display_name_input : bytes; bio_input : bytes; dm_recipient_input : bytes; dm_text_input : bytes;
  registration_handle_input : bytes; friend_add_input : bytes;
}.
Definition set_current_lang v s := mk v (connected s) (registered s) (handle s) (identity_hex s) (server_key_hex s)
  (endpoint s) (status_message s) (status_is_error s) (intro_requested s) (forums s) (selected_forum_id s) (posts s)
  (selected_post_id s) (open_post s) (comments s) (comments_buffer s) (thread_truncated s) (active_side_tab s) (friends s) (viewed_profile s)
  (viewed_top8_slots s) (viewed_top8_details s) (own_top8_slots s) (own_top8_details s) (inbox s) (forum_name_input s)
  (forum_description_input s) (post_title_input s) (post_body_input s) (comment_input s) (display_name_input s)
  (bio_input s) (dm_recipient_input s) (dm_text_input s) (registration_handle_input s) (friend_add_input s).
Definition set_connected v s := mk (current_lang s) v (registered s) (handle s) (identity_hex s) (server_key_hex s)
  (endpoint s) (status_message s) (status_is_error s) (intro_requested s) (forums s) (selected_forum_id s) (posts s)
  (selected_post_id s) (open_post s) (comments s) (comments_buffer s) (thread_truncated s) (active_side_tab s) (friends s) (viewed_profile s)
  (viewed_top8_slots s) (viewed_top8_details s) (own_top8_slots s) (own_top8_details s) (inbox s) (forum_name_input s)
  (forum_description_input s) (post_title_input s) (post_body_input s) (comment_input s) (display_name_input s)
  (bio_input s) (dm_recipient_input s) (dm_text_input s) (registration_handle_input s) (friend_add_input s).
Definition set_registered v s := mk (current_lang s) (connected s) v (handle s) (identity_hex s) (server_key_hex s)
  (endpoint s) (status_message s) (status_is_error s) (intro_requested s) (forums s) (selected_forum_id s) (posts s)
  (selected_post_id s) (open_post s) (comments s) (comments_buffer s) (thread_truncated s) (active_side_tab s) (friends s) (viewed_profile s)
  (viewed_top8_slots s) (viewed_top8_details s) (own_top8_slots s) (own_top8_details s) (inbox s) (forum_name_input s)
  (forum_description_input s) (post_title_input s) (post_body_input s) (comment_input s) (display_name_input s)
  (bio_input s) (dm_recipient_input s) (dm_text_input s) (registration_handle_input s) (friend_add_input s).
Definition set_handle v s := mk (current_lang s) (connected s) (registered s) v (identity_hex s) (server_key_hex s)
  (endpoint s) (status_message s) (status_is_error s) (intro_requested s) (forums s) (selected_forum_id s) (posts s)
  (selected_post_id s) (open_post s) (comments s) (comments_buffer s) (thread_truncated s) (active_side_tab s) (friends s) (viewed_profile s)
  (viewed_top8_slots s) (viewed_top8_details s) (own_top8_slots s) (own_top8_details s) (inbox s) (forum_name_input s)
  (forum_description_input s) (post_title_input s) (post_body_input s) (comment_input s) (display_name_input s)
  (bio_input s) (dm_recipient_input s) (dm_text_input s) (registration_handle_input s) (friend_add_input s).
Definition set_status v1 v2 s := mk (current_lang s) (connected s) (registered s) (handle s) (identity_hex s)
  (server_key_hex s) (endpoint s) v1 v2 (intro_requested s) (forums s) (selected_forum_id s) (posts s)
  (selected_post_id s) (open_post s) (comments s) (comments_buffer s) (thread_truncated s) (active_side_tab s) (friends s) (viewed_profile s)
  (viewed_top8_slots s) (viewed_top8_details s) (own_top8_slots s) (own_top8_details s) (inbox s) (forum_name_input s)
  (forum_description_input s) (post_title_input s) (post_body_input s) (comment_input s) (display_name_input s)
  (bio_input s) (dm_recipient_input s) (dm_text_input s) (registration_handle_input s) (friend_add_input s).
Definition set_intro_requested v s := mk (current_lang s) (connected s) (registered s) (handle s) (identity_hex s)
  (server_key_hex s) (endpoint s) (status_message s) (status_is_error s) v (forums s) (selected_forum_id s) (posts s)
  (selected_post_id s) (open_post s) (comments s) (comments_buffer s) (thread_truncated s) (active_side_tab s) (friends s) (viewed_profile s)
  (viewed_top8_slots s) (viewed_top8_details s) (own_top8_slots s) (own_top8_details s) (inbox s) (forum_name_input s)
  (forum_description_input s) (post_title_input s) (post_body_input s) (comment_input s) (display_name_input s)
  (bio_input s) (dm_recipient_input s) (dm_text_input s) (registration_handle_input s) (friend_add_input s).
Definition set_forums v s := mk (current_lang s) (connected s) (registered s) (handle s) (identity_hex s)
  (server_key_hex s) (endpoint s) (status_message s) (status_is_error s) (intro_requested s) v (selected_forum_id s)
  (posts s) (selected_post_id s) (open_post s) (comments s) (comments_buffer s) (thread_truncated s) (active_side_tab s) (friends s) (viewed_profile s)
  (viewed_top8_slots s) (viewed_top8_details s) (own_top8_slots s) (own_top8_details s) (inbox s) (forum_name_input s)
  (forum_description_input s) (post_title_input s) (post_body_input s) (comment_input s) (display_name_input s)
  (bio_input s) (dm_recipient_input s) (dm_text_input s) (registration_handle_input s) (friend_add_input s).
Definition set_selected_forum v s := mk (current_lang s) (connected s) (registered s) (handle s) (identity_hex s)
  (server_key_hex s) (endpoint s) (status_message s) (status_is_error s) (intro_requested s) (forums s) v (posts s)
  (selected_post_id s) (open_post s) (comments s) (comments_buffer s) (thread_truncated s) (active_side_tab s) (friends s) (viewed_profile s)
  (viewed_top8_slots s) (viewed_top8_details s) (own_top8_slots s) (own_top8_details s) (inbox s) (forum_name_input s)
  (forum_description_input s) (post_title_input s) (post_body_input s) (comment_input s) (display_name_input s)
  (bio_input s) (dm_recipient_input s) (dm_text_input s) (registration_handle_input s) (friend_add_input s).
Definition set_posts v s := mk (current_lang s) (connected s) (registered s) (handle s) (identity_hex s)
  (server_key_hex s) (endpoint s) (status_message s) (status_is_error s) (intro_requested s) (forums s)
  (selected_forum_id s) v (selected_post_id s) (open_post s) (comments s) (comments_buffer s) (thread_truncated s) (active_side_tab s) (friends s)
  (viewed_profile s) (viewed_top8_slots s) (viewed_top8_details s) (own_top8_slots s) (own_top8_details s) (inbox s)
  (forum_name_input s) (forum_description_input s) (post_title_input s) (post_body_input s) (comment_input s)
  (display_name_input s) (bio_input s) (dm_recipient_input s) (dm_text_input s) (registration_handle_input s)
  (friend_add_input s).
Definition set_selected_post v s := mk (current_lang s) (connected s) (registered s) (handle s) (identity_hex s)
  (server_key_hex s) (endpoint s) (status_message s) (status_is_error s) (intro_requested s) (forums s)
  (selected_forum_id s) (posts s) v (open_post s) (comments s) (comments_buffer s) (thread_truncated s) (active_side_tab s) (friends s) (viewed_profile s)
  (viewed_top8_slots s) (viewed_top8_details s) (own_top8_slots s) (own_top8_details s) (inbox s) (forum_name_input s)
  (forum_description_input s) (post_title_input s) (post_body_input s) (comment_input s) (display_name_input s)
  (bio_input s) (dm_recipient_input s) (dm_text_input s) (registration_handle_input s) (friend_add_input s).
Definition set_thread v1 v2 v3 v4 s := mk (current_lang s) (connected s) (registered s) (handle s) (identity_hex s)
  (server_key_hex s) (endpoint s) (status_message s) (status_is_error s) (intro_requested s) (forums s)
  (selected_forum_id s) (posts s) v1 v2 v3 (S (comments_buffer s)) v4 (active_side_tab s) (friends s) (viewed_profile s) (viewed_top8_slots s)
  (viewed_top8_details s) (own_top8_slots s) (own_top8_details s) (inbox s) (forum_name_input s)
  (forum_description_input s) (post_title_input s) (post_body_input s) (comment_input s) (display_name_input s)
  (bio_input s) (dm_recipient_input s) (dm_text_input s) (registration_handle_input s) (friend_add_input s).
Definition set_comments v s := mk (current_lang s) (connected s) (registered s) (handle s) (identity_hex s)
  (server_key_hex s) (endpoint s) (status_message s) (status_is_error s) (intro_requested s) (forums s)
  (selected_forum_id s) (posts s) (selected_post_id s) (open_post s) v (comments_buffer s) (thread_truncated s) (active_side_tab s) (friends s)
  (viewed_profile s) (viewed_top8_slots s) (viewed_top8_details s) (own_top8_slots s) (own_top8_details s) (inbox s)
  (forum_name_input s) (forum_description_input s) (post_title_input s) (post_body_input s) (comment_input s)
  (display_name_input s) (bio_input s) (dm_recipient_input s) (dm_text_input s) (registration_handle_input s)
  (friend_add_input s).
Definition set_side_tab v s := mk (current_lang s) (connected s) (registered s) (handle s) (identity_hex s)
  (server_key_hex s) (endpoint s) (status_message s) (status_is_error s) (intro_requested s) (forums s)
  (selected_forum_id s) (posts s) (selected_post_id s) (open_post s) (comments s) (comments_buffer s) (thread_truncated s) v (friends s)
  (viewed_profile s) (viewed_top8_slots s) (viewed_top8_details s) (own_top8_slots s) (own_top8_details s) (inbox s)
  (forum_name_input s) (forum_description_input s) (post_title_input s) (post_body_input s) (comment_input s)
  (display_name_input s) (bio_input s) (dm_recipient_input s) (dm_text_input s) (registration_handle_input s)
  (friend_add_input s).
Definition set_friends v s := mk (current_lang s) (connected s) (registered s) (handle s) (identity_hex s)
  (server_key_hex s) (endpoint s) (status_message s) (status_is_error s) (intro_requested s) (forums s)
  (selected_forum_id s) (posts s) (selected_post_id s) (open_post s) (comments s) (comments_buffer s) (thread_truncated s) (active_side_tab s) v
  (viewed_profile s) (viewed_top8_slots s) (viewed_top8_details s) (own_top8_slots s) (own_top8_details s) (inbox s)
  (forum_name_input s) (forum_description_input s) (post_title_input s) (post_body_input s) (comment_input s)
  (display_name_input s) (bio_input s) (dm_recipient_input s) (dm_text_input s) (registration_handle_input s)
  (friend_add_input s).
Definition set_viewed_profile v s := mk (current_lang s) (connected s) (registered s) (handle s) (identity_hex s)
  (server_key_hex s) (endpoint s) (status_message s) (status_is_error s) (intro_requested s) (forums s)
  (selected_forum_id s) (posts s) (selected_post_id s) (open_post s) (comments s) (comments_buffer s) (thread_truncated s) (active_side_tab s) (friends s) v
  (viewed_top8_slots s) (viewed_top8_details s) (own_top8_slots s) (own_top8_details s) (inbox s) (forum_name_input s)
  (forum_description_input s) (post_title_input s) (post_body_input s) (comment_input s) (display_name_input s)
  (bio_input s) (dm_recipient_input s) (dm_text_input s) (registration_handle_input s) (friend_add_input s).
Definition set_viewed_top8 v1 v2 s := mk (current_lang s) (connected s) (registered s) (handle s) (identity_hex s)
  (server_key_hex s) (endpoint s) (status_message s) (status_is_error s) (intro_requested s) (forums s)
  (selected_forum_id s) (posts s) (selected_post_id s) (open_post s) (comments s) (comments_buffer s) (thread_truncated s) (active_side_tab s) (friends s)
  (viewed_profile s) v1 v2 (own_top8_slots s) (own_top8_details s) (inbox s) (forum_name_input s)
  (forum_description_input s) (post_title_input s) (post_body_input s) (comment_input s) (display_name_input s)
  (bio_input s) (dm_recipient_input s) (dm_text_input s) (registration_handle_input s) (friend_add_input s).
Definition set_own_top8_slots v s := mk (current_lang s) (connected s) (registered s) (handle s) (identity_hex s)
  (server_key_hex s) (endpoint s) (status_message s) (status_is_error s) (intro_requested s) (forums s)
  (selected_forum_id s) (posts s) (selected_post_id s) (open_post s) (comments s) (comments_buffer s) (thread_truncated s) (active_side_tab s) (friends s)
  (viewed_profile s) (viewed_top8_slots s) (viewed_top8_details s) v (own_top8_details s) (inbox s)
  (forum_name_input s) (forum_description_input s) (post_title_input s) (post_body_input s) (comment_input s)
  (display_name_input s) (bio_input s) (dm_recipient_input s) (dm_text_input s) (registration_handle_input s)
  (friend_add_input s).
Definition set_own_top8 v1 v2 s := mk (current_lang s) (connected s) (registered s) (handle s) (identity_hex s)
  (server_key_hex s) (endpoint s) (status_message s) (status_is_error s) (intro_requested s) (forums s)
  (selected_forum_id s) (posts s) (selected_post_id s) (open_post s) (comments s) (comments_buffer s) (thread_truncated s) (active_side_tab s) (friends s)
  (viewed_profile s) (viewed_top8_slots s) (viewed_top8_details s) v1 v2 (inbox s) (forum_name_input s)
  (forum_description_input s) (post_title_input s) (post_body_input s) (comment_input s) (display_name_input s)
  (bio_input s) (dm_recipient_input s) (dm_text_input s) (registration_handle_input s) (friend_add_input s).
Definition set_inbox v s := mk (current_lang s) (connected s) (registered s) (handle s) (identity_hex s)
  (server_key_hex s) (endpoint s) (status_message s) (status_is_error s) (intro_requested s) (forums s)
  (selected_forum_id s) (posts s) (selected_post_id s) (open_post s) (comments s) (comments_buffer s) (thread_truncated s) (active_side_tab s) (friends s)
  (viewed_profile s) (viewed_top8_slots s) (viewed_top8_details s) (own_top8_slots s) (own_top8_details s) v
  (forum_name_input s) (forum_description_input s) (post_title_input s) (post_body_input s) (comment_input s)
  (display_name_input s) (bio_input s) (dm_recipient_input s) (dm_text_input s) (registration_handle_input s)
  (friend_add_input s).
Definition set_forum_inputs v1 v2 s := mk (current_lang s) (connected s) (registered s) (handle s) (identity_hex s)
  (server_key_hex s) (endpoint s) (status_message s) (status_is_error s) (intro_requested s) (forums s)
  (selected_forum_id s) (posts s) (selected_post_id s) (open_post s) (comments s) (comments_buffer s) (thread_truncated s) (active_side_tab s) (friends s)
  (viewed_profile s) (viewed_top8_slots s) (viewed_top8_details s) (own_top8_slots s) (own_top8_details s) (inbox s)
  v1 v2 (post_title_input s) (post_body_input s) (comment_input s) (display_name_input s) (bio_input s)
  (dm_recipient_input s) (dm_text_input s) (registration_handle_input s) (friend_add_input s).
Definition set_post_inputs v1 v2 s := mk (current_lang s) (connected s) (registered s) (handle s) (identity_hex s)
  (server_key_hex s) (endpoint s) (status_message s) (status_is_error s) (intro_requested s) (forums s)
  (selected_forum_id s) (posts s) (selected_post_id s) (open_post s) (comments s) (comments_buffer s) (thread_truncated s) (active_side_tab s) (friends s)
  (viewed_profile s) (viewed_top8_slots s) (viewed_top8_details s) (own_top8_slots s) (own_top8_details s) (inbox s)
  (forum_name_input s) (forum_description_input s) v1 v2 (comment_input s) (display_name_input s) (bio_input s)
  (dm_recipient_input s) (dm_text_input s) (registration_handle_input s) (friend_add_input s).
Definition set_comment_input v s := mk (current_lang s) (connected s) (registered s) (handle s) (identity_hex s)
  (server_key_hex s) (endpoint s) (status_message s) (status_is_error s) (intro_requested s) (forums s)
  (selected_forum_id s) (posts s) (selected_post_id s) (open_post s) (comments s) (comments_buffer s) (thread_truncated s) (active_side_tab s) (friends s)
  (viewed_profile s) (viewed_top8_slots s) (viewed_top8_details s) (own_top8_slots s) (own_top8_details s) (inbox s)
  (forum_name_input s) (forum_description_input s) (post_title_input s) (post_body_input s) v (display_name_input s)
  (bio_input s) (dm_recipient_input s) (dm_text_input s) (registration_handle_input s) (friend_add_input s).
Definition set_dm_text_input v s := mk (current_lang s) (connected s) (registered s) (handle s) (identity_hex s)
  (server_key_hex s) (endpoint s) (status_message s) (status_is_error s) (intro_requested s) (forums s)
  (selected_forum_id s) (posts s) (selected_post_id s) (open_post s) (comments s) (comments_buffer s) (thread_truncated s) (active_side_tab s) (friends s)
  (viewed_profile s) (viewed_top8_slots s) (viewed_top8_details s) (own_top8_slots s) (own_top8_details s) (inbox s)
  (forum_name_input s) (forum_description_input s) (post_title_input s) (post_body_input s) (comment_input s)
  (display_name_input s) (bio_input s) (dm_recipient_input s) v (registration_handle_input s) (friend_add_input s).
Definition set_friend_add_input v s := mk (current_lang s) (connected s) (registered s) (handle s) (identity_hex s)
  (server_key_hex s) (endpoint s) (status_message s) (status_is_error s) (intro_requested s) (forums s)
  (selected_forum_id s) (posts s) (selected_post_id s) (open_post s) (comments s) (comments_buffer s) (thread_truncated s) (active_side_tab s) (friends s)
  (viewed_profile s) (viewed_top8_slots s) (viewed_top8_details s) (own_top8_slots s) (own_top8_details s) (inbox s)
  (forum_name_input s) (forum_description_input s) (post_title_input s) (post_body_input s) (comment_input s)
  (display_name_input s) (bio_input s) (dm_recipient_input s) (dm_text_input s) (registration_handle_input s) v.
Definition set_inputs v1 v2 v3 v4 v5 v6 v7 v8 v9 v10 v11 s := mk (current_lang s) (connected s) (registered s)
  (handle s) (identity_hex s) (server_key_hex s) (endpoint s) (status_message s) (status_is_error s)
  (intro_requested s) (forums s) (selected_forum_id s) (posts s) (selected_post_id s) (open_post s) (comments s) (comments_buffer s)
  (thread_truncated s) (active_side_tab s) (friends s) (viewed_profile s) (viewed_top8_slots s) (viewed_top8_details s) (own_top8_slots s)
  (own_top8_details s) (inbox s) v1 v2 v3 v4 v5 v6 v7 v8 v9 v10 v11.
End ui_state.

Definition new_view (lang : language) (identity_hex server_key_hex : bytes) (endpoint : server_endpoint) : ui_state.t :=
  ui_state.mk lang false false [] identity_hex server_key_hex endpoint [] false false [] 0 [] 0
    (post_record.mk 0 0 empty_key [] [] [] 0 0) [] 0 false direct_messages []
    (profile_record.mk empty_key [] [] [] [] []) (replicate (Z.to_nat TOP8_SLOT_COUNT) empty_key) []
    (replicate (Z.to_nat TOP8_SLOT_COUNT) empty_key) [] [] [] [] [] [] [] [] [] [] [] [] [].

Record app_state := AppState {
  app_lang : language;
  active_slot : nat;
  app_intro_requested : bool;
  app_status_message : bytes;
  app_status_is_error : bool;
  invite_input : bytes;
  passphrase : bytes;
  pending_recovery_phrase : bytes;
  app_registry_path : bytes;
  app_master_seed_path : bytes;
}.

Record server_slot := ServerSlot {
  entry : server_entry;
  slot_identity : identity_keypair;
  slot_client : client;
  slot_view : ui_state.t;
}.

(** What the n-th draw gives: for a seed, for a sealed file, for a handshake,
    for an envelope; the n-th reading of the clock; where connections lead and
    what the n-th socket will bring. *)
Class Desktop := {
  draw_entropy : nat → bytes;
  draw_salt : nat → bytes;
  draw_nonce : nat → bytes;
  draw_handshake : nat → option (bytes * bytes);
  draw_envelope : nat → option (bytes * bytes);
  read_clock : nat → Z;
  route : bytes → Z → dial_result;
  incoming : nat → list recv_result;
  accepting : nat → list send_result;
}.

(** ** What an action on a server works on *)

Record slot_world := SlotWorld { client_of : client; view : ui_state.t; draws : nat }.

Abbreviation action := (state slot_world unit).

Definition on_client {A} (m : state client A) : state slot_world A :=
  zoom client_of (λ c s, SlotWorld c (view s) (draws s)) m.
Definition put_view (f : ui_state.t → ui_state.t) : action :=
  smodify (λ s, SlotWorld (client_of s) (f (view s)) (draws s)).
Definition next_draw : state slot_world nat := λ s, (draws s, SlotWorld (client_of s) (view s) (S (draws s))).

Definition report_failure (message : bytes) : action := put_view (ui_state.set_status message true).
Definition report_success (message : bytes) : action := put_view (ui_state.set_status message false).

Section actions.
Context `{Sodium} `{Desktop}.
Context (identity : identity_keypair).

(** *** connection_guard.cpp *)

Definition ensure_connected : state slot_world bool :=
  let* connection := sgets (λ s, connection_ (client_of s)) in
  if is_open connection then do* put_view (ui_state.set_connected true) in sret true
  else
    let* n := next_draw in
    let* endpoint := sgets (λ s, ui_state.endpoint (view s)) in
    let* failure := on_client (on_link (open_session route (draw_handshake n) endpoint)) in
    let* failure :=
      match failure with
      | Some error => sret (Some error)
      | None => on_client (authenticate identity)
      end in
    match failure with
    | Some error =>
        do* put_view (ui_state.set_connected false) in
        do* report_failure (lit "connexion perdue, reconnexion impossible : " ++ error) in sret false
    | None =>
        do* put_view (ui_state.set_connected true) in
        do* report_success (lit "reconnecte au serveur") in sret true
    end.

Definition when_connected (act : action) : action :=
  let* connected := ensure_connected in if (connected : bool) then act else sret tt.

(** A request and its answer: the failure (empty when nothing could be sent)
    or the answer. *)
Definition exchange {R A} `{WireFormat R, WireFormat A} (type : message_type.t) (request : R) (expected : message_type.t)
    : state slot_world (bytes + A) :=
  let* sent := on_client (on_link (send_typed_message type (write_to request))) in
  if negb sent then sret (inl [])
  else on_client (on_link (receive_typed_message expected read_from)).

Definition when_answered {A} (m : state slot_world (bytes + A)) (answered : A → action) : action :=
  let* answer := m in
  match answer with
  | inl failure => report_failure failure
  | inr answer => answered answer
  end.

(** *** ui_actions.cpp *)

Definition refresh_forum_list : action :=
  when_connected
    (when_answered (exchange message_type.forum_list_request (forum_list_request.mk 0 DEFAULT_LIST_ITEMS)
                      message_type.forum_list_response) (λ response,
       put_view (ui_state.set_forums (forum_list_response.forums response)))).

Definition refresh_post_list : action :=
  let* forum_id := sgets (λ s, ui_state.selected_forum_id (view s)) in
  if forum_id =? 0 then sret tt
  else
    when_connected
      (when_answered (exchange message_type.post_list_request (post_list_request.mk forum_id 0 DEFAULT_LIST_ITEMS)
                        message_type.post_list_response) (λ response,
         do* put_view (ui_state.set_posts (post_list_response.posts response)) in
         report_success (lit "fil a jour"))).

Definition open_thread (post_id : Z) : action :=
  when_connected
    (when_answered (exchange message_type.thread_fetch_request (thread_fetch_request.mk post_id)
                      message_type.thread_response) (λ response,
       do* put_view (ui_state.set_thread post_id (thread_response.post response) (thread_response.comments response)
                       (negb (thread_response.truncated response =? 0))) in
       report_success (lit "fil ouvert"))).

Definition submit_post : action :=
  when_connected
    (let* v := sgets view in
     let title := ui_state.post_title_input v in
     let body := ui_state.post_body_input v in
     if bool_decide (title = []) || bool_decide (body = []) then report_failure (lit "titre et corps sont requis")
     else
       when_answered (exchange message_type.post_create_request
                        (post_create_request.mk (ui_state.selected_forum_id v) title body)
                        message_type.post_info_response) (λ _ : post_info_response.t,
         do* put_view (ui_state.set_post_inputs [] []) in
         do* refresh_post_list in
         report_success (lit "post publie"))).

Definition submit_comment (parent_comment_id : Z) : action :=
  when_connected
    (let* v := sgets view in
     let post_id := ui_state.selected_post_id v in
     let body := ui_state.comment_input v in
     if decide (body = []) then report_failure (lit "commentaire vide")
     else
       when_answered (exchange message_type.comment_create_request (comment_create_request.mk post_id parent_comment_id body)
                        message_type.comment_info_response) (λ _ : comment_info_response.t,
         do* put_view (ui_state.set_comment_input []) in
         do* open_thread post_id in
         report_success (lit "commentaire publie"))).

(** *** ui_delete_actions.cpp, ui_report_actions.cpp *)

Definition delete_post (post_id : Z) : action :=
  when_connected
    (when_answered (exchange message_type.post_delete_request (post_delete_request.mk post_id) message_type.status_ok)
       (λ _ : status_ok_response.t,
         do* put_view (ui_state.set_selected_post 0) in
         do* put_view (ui_state.set_comments []) in
         do* refresh_post_list in
         report_success (lit "post retire"))).

Definition delete_comment (comment_id : Z) : action :=
  when_connected
    (when_answered (exchange message_type.comment_delete_request (comment_delete_request.mk comment_id) message_type.status_ok)
       (λ _ : status_ok_response.t,
         let* post_id := sgets (λ s, ui_state.selected_post_id (view s)) in
         do* open_thread post_id in
         report_success (lit "commentaire retire"))).

Definition report_post (post_id : Z) : action :=
  when_connected
    (when_answered (exchange message_type.report_post_request (report_post_request.mk post_id []) message_type.status_ok)
       (λ _ : status_ok_response.t, report_success (lit "signalement envoye"))).

Definition report_account (target_pubkey : bytes) : action :=
  when_connected
    (when_answered (exchange message_type.report_account_request (report_account_request.mk target_pubkey [])
                      message_type.status_ok)
       (λ _ : status_ok_response.t, report_success (lit "signalement envoye"))).

(** *** ui_dm_actions.cpp *)

Definition publish_own_prekey : action :=
  when_connected
    (match derive_local_prekey identity with
     | None => report_failure (lit "derivation de la prekey impossible")
     | Some (prekey, _) =>
         match sign_message (build_prekey_signing_input (public_key_ identity) prekey) identity with
         | None => report_failure (lit "signature de la prekey impossible")
         | Some signature =>
             when_answered (exchange message_type.prekey_publish_request (prekey_publish_request.mk prekey signature)
                              message_type.status_ok) (λ _ : status_ok_response.t,
               report_success (lit "prekey publiee : on peut vous ecrire"))
         end
     end).

Definition inbox_entry (envelope : dm_envelope_record.t) : decrypted_message :=
  let sender := encode_hex (dm_envelope_record.sender_pubkey envelope) in
  match open_direct_message identity (dm_envelope_record.ciphertext envelope) with
  | inr (text, sent_at) => DecryptedMessage sender text sent_at true
  | inl reason => DecryptedMessage sender reason 0 false
  end.

Definition readable_ids (envelopes : list dm_envelope_record.t) : list Z :=
  map dm_envelope_record.id (filter (λ e, readable (inbox_entry e) = true) envelopes).

Definition refresh_inbox : action :=
  when_connected
    (when_answered (exchange message_type.dm_fetch_request (dm_fetch_request.mk 0 MAX_DM_BATCH_ITEMS)
                      message_type.dm_list_response) (λ response,
       let envelopes := dm_list_response.envelopes response in
       do* put_view (λ v, ui_state.set_inbox (ui_state.inbox v ++ map inbox_entry envelopes) v) in
       if decide (readable_ids envelopes = []) then sret tt
       else
         let* _ : bytes + status_ok_response.t :=
           exchange message_type.dm_ack_request (dm_ack_request.mk (readable_ids envelopes)) message_type.status_ok in
         sret tt)).

Definition submit_direct_message : action :=
  when_connected
    (let* v := sgets view in
     match parse_public_key (ui_state.dm_recipient_input v) with
     | None => report_failure (lit "cle publique du destinataire invalide")
     | Some recipient_pubkey =>
         when_answered (exchange message_type.prekey_fetch_request (prekey_fetch_request.mk recipient_pubkey)
                          message_type.prekey_bundle_response) (λ bundle,
           let* n := next_draw in
           match seal_direct_message (draw_envelope n) (read_clock n) identity bundle (ui_state.dm_text_input v) with
           | inl failure => report_failure failure
           | inr ciphertext =>
               when_answered (exchange message_type.dm_send_request (dm_send_request.mk recipient_pubkey ciphertext)
                                message_type.status_ok) (λ _ : status_ok_response.t,
                 do* put_view (ui_state.set_dm_text_input []) in
                 report_success (lit "message chiffre et depose"))
           end)
     end).

(** *** ui_social_actions.cpp *)

Definition refresh_friend_list : action :=
  when_connected
    (let* sent := on_client (on_link (send_frame message_type.friend_list_request [])) in
     if negb sent then report_failure []
     else
       when_answered (on_client (on_link (receive_typed_message message_type.friend_list_response
                                            friend_list_response.read_from))) (λ response,
         put_view (ui_state.set_friends (friend_list_response.friends response)))).

Definition add_friend : action :=
  when_connected
    (let* v := sgets view in
     match parse_public_key (ui_state.friend_add_input v) with
     | None => report_failure (lit "cle publique invalide")
     | Some target_pubkey =>
         when_answered (exchange message_type.friend_add_request
                          (friend_add_request.mk target_pubkey friendship_status.accepted) message_type.status_ok)
           (λ _ : status_ok_response.t,
             do* put_view (ui_state.set_friend_add_input []) in
             do* refresh_friend_list in
             report_success (lit "ami ajoute"))
     end).

Definition view_profile (target_pubkey : bytes) : action :=
  when_connected
    (when_answered (exchange message_type.profile_get_request (profile_get_request.mk target_pubkey)
                      message_type.profile_response) (λ profile,
       do* put_view (ui_state.set_viewed_profile (profile_response.profile profile)) in
       when_answered (exchange message_type.top8_get_request (top8_get_request.mk target_pubkey)
                        message_type.top8_response) (λ response,
         do* put_view (ui_state.set_viewed_top8 (top8_response.slots response) (top8_response.details response)) in
         report_success (lit "profil charge")))).

Definition refresh_own_top8 : action :=
  when_connected
    (when_answered (exchange message_type.top8_get_request (top8_get_request.mk (public_key_ identity))
                      message_type.top8_response) (λ response,
       put_view (ui_state.set_own_top8 (top8_response.slots response) (top8_response.details response)))).

Definition submit_own_top8 : action :=
  when_connected
    (let* v := sgets view in
     when_answered (exchange message_type.top8_set_request (top8_set_request.mk (ui_state.own_top8_slots v))
                      message_type.status_ok) (λ _ : status_ok_response.t,
       do* refresh_own_top8 in
       report_success (lit "top 8 enregistre"))).

(** *** The handlers inside draw_forum_panel.cpp, draw_dm_panel.cpp,
    draw_social_panel.cpp and draw_auth_modal.cpp *)

Definition create_forum : action :=
  when_connected
    (let* v := sgets view in
     when_answered (exchange message_type.forum_create_request
                      (forum_create_request.mk (ui_state.forum_name_input v) (ui_state.forum_description_input v) [])
                      message_type.forum_info_response) (λ _ : forum_info_response.t,
       do* put_view (ui_state.set_forum_inputs [] []) in
       do* refresh_forum_list in
       report_success (lit "forum fonde"))).

Definition select_forum (forum_id : Z) : action :=
  do* put_view (ui_state.set_selected_forum forum_id) in refresh_post_list.

Definition save_profile : action :=
  when_connected
    (let* v := sgets view in
     when_answered (exchange message_type.profile_set_request
                      (profile_set_request.mk (ui_state.display_name_input v) (ui_state.bio_input v) [] [])
                      message_type.status_ok) (λ _ : status_ok_response.t,
       report_success (lit "profil enregistre"))).

(** The first empty slot takes the key; no slot changes when none is. *)
Fixpoint fill_first_empty (key : bytes) (slots : list bytes) : list bytes :=
  match slots with
  | [] => []
  | slot :: slots => if decide (slot = empty_key) then key :: slots else slot :: fill_first_empty key slots
  end.

Definition mark_favorite (key : bytes) : action :=
  put_view (λ v, ui_state.set_own_top8_slots (fill_first_empty key (ui_state.own_top8_slots v)) v).

Definition remove_favorite (index : nat) : action :=
  put_view (λ v, ui_state.set_own_top8_slots (<[index := empty_key]> (ui_state.own_top8_slots v)) v).

Definition submit_registration (success : bytes) : action :=
  let* v := sgets view in
  let* failure := on_client (register_handle (ui_state.registration_handle_input v)) in
  match failure with
  | Some error => report_failure error
  | None =>
      do* put_view (ui_state.set_registered true) in
      let* session := sgets (λ s, session_ (client_of s)) in
      do* put_view (ui_state.set_handle (get_handle session)) in
      do* report_success success in
      do* put_view (ui_state.set_intro_requested true) in
      refresh_forum_list
  end.
End actions.

(** ** The application (server_actions.cpp, gui_main.cpp) *)

Record application := Application { app : app_state; slots : list server_slot; app_disk : disk; app_draws : nat }.

Definition on_disk {A} (m : state disk A) : state application A :=
  zoom app_disk (λ d a, Application (app a) (slots a) d (app_draws a)) m.
Definition put_app (f : app_state → app_state) : state application unit :=
  smodify (λ a, Application (f (app a)) (slots a) (app_disk a) (app_draws a)).
Definition put_slots (f : list server_slot → list server_slot) : state application unit :=
  smodify (λ a, Application (app a) (f (slots a)) (app_disk a) (app_draws a)).
Definition draw : state application nat :=
  λ a, (app_draws a, Application (app a) (slots a) (app_disk a) (S (app_draws a))).

Definition report (message : bytes) (is_error : bool) : state application unit :=
  put_app (λ s, AppState (app_lang s) (active_slot s) (app_intro_requested s) message is_error (invite_input s)
                  (passphrase s) (pending_recovery_phrase s) (app_registry_path s) (app_master_seed_path s)).
Definition set_pending_phrase (phrase : bytes) : state application unit :=
  put_app (λ s, AppState (app_lang s) (active_slot s) (app_intro_requested s) (app_status_message s) (app_status_is_error s)
                  (invite_input s) (passphrase s) phrase (app_registry_path s) (app_master_seed_path s)).
Definition set_invite_input (text : bytes) : state application unit :=
  put_app (λ s, AppState (app_lang s) (active_slot s) (app_intro_requested s) (app_status_message s) (app_status_is_error s)
                  text (passphrase s) (pending_recovery_phrase s) (app_registry_path s) (app_master_seed_path s)).
Definition set_active_slot (index : nat) : state application unit :=
  put_app (λ s, AppState (app_lang s) index (app_intro_requested s) (app_status_message s) (app_status_is_error s)
                  (invite_input s) (passphrase s) (pending_recovery_phrase s) (app_registry_path s) (app_master_seed_path s)).
Definition set_app_intro (requested : bool) : state application unit :=
  put_app (λ s, AppState (app_lang s) (active_slot s) requested (app_status_message s) (app_status_is_error s)
                  (invite_input s) (passphrase s) (pending_recovery_phrase s) (app_registry_path s) (app_master_seed_path s)).
Definition set_app_language (lang : language) : state application unit :=
  put_app (λ s, AppState lang (active_slot s) (app_intro_requested s) (app_status_message s) (app_status_is_error s)
                  (invite_input s) (passphrase s) (pending_recovery_phrase s) (app_registry_path s) (app_master_seed_path s)).

Section application.
Context `{Sodium} `{FileSystem} `{Desktop}.

(** *** server_actions.cpp *)

(** The error, or the identity; the phrase of a new seed is kept for the
    notice. *)
Definition resolve_slot_identity (e : server_entry) : state application (bytes + identity_keypair) :=
  let* s := sgets app in
  match source e with
  | identity_source.imported => on_disk (unlock_identity (imported_identity_path e) (passphrase s))
  | identity_source.derived =>
      let path := app_master_seed_path s in
      let* stored := on_disk (is_regular_file path) in
      let* seed :=
        (if (stored : bool) then on_disk (unlock_seed path (passphrase s))
         else
           let* n := draw in
           let* created := on_disk (create_seed path (draw_entropy n) (draw_salt n) (draw_nonce n) (passphrase s)) in
           match created with
           | inl error => sret (inl error)
           | inr (seed, phrase) => do* set_pending_phrase phrase in sret (inr seed)
           end) in
      match seed with
      | inl error => sret (inl error)
      | inr seed =>
          match derive_server_identity seed (server_key e) with
          | None => sret (inl (lit "derivation de l'identite impossible"))
          | Some out => sret (inr out)
          end
      end
  end.

(** The error, or nothing. *)
Definition persist : state application (option bytes) :=
  let* a := sgets (λ a, a) in
  let* n := draw in
  on_disk (save (app_registry_path (app a)) (draw_salt n) (draw_nonce n) (passphrase (app a)) (map entry (slots a))).

Definition build_slot (e : server_entry) : state application (bytes + server_slot) :=
  let* resolved := resolve_slot_identity e in
  match resolved with
  | inl error => sret (inl error)
  | inr identity =>
      let* n := draw in
      let* s := sgets app in
      sret (inr (ServerSlot e identity
                   (Client (new_connection (server_key e) (ClientSocket false [] [] (incoming n) (accepting n))) new_session)
                   (new_view (app_lang s) (encode_hex (public_key_ identity)) (encode_hex (server_key e)) (endpoint e))))
  end.

(** An action on a slot. *)
Definition on_slot {A} (index : nat) (m : server_slot → state slot_world A) : state application (option A) := λ a,
  match slots a !! index with
  | None => (None, a)
  | Some s =>
      let '(result, w) := m s (SlotWorld (slot_client s) (slot_view s) (app_draws a)) in
      (Some result, Application (app a) (<[index := ServerSlot (entry s) (slot_identity s) (client_of w) (view w)]> (slots a))
                      (app_disk a) (draws w))
  end.

(** The error, or nothing. *)
Definition connect_slot (s : server_slot) : state slot_world (option bytes) :=
  if negb (trust_acknowledged (entry s)) then sret (Some (lit "avertissement non acquitte pour " ++ label (entry s)))
  else
    let* connection := sgets (λ w, connection_ (client_of w)) in
    if is_open connection then do* put_view (ui_state.set_connected true) in sret None
    else
      let* n := next_draw in
      let* failure := on_client (on_link (open_session route (draw_handshake n) (endpoint (entry s)))) in
      let* failure :=
        match failure with
        | Some error => sret (Some error)
        | None => on_client (authenticate (slot_identity s))
        end in
      match failure with
      | Some error => do* put_view (ui_state.set_connected false) in sret (Some error)
      | None =>
          do* put_view (ui_state.set_connected true) in
          let* session := sgets (λ w, session_ (client_of w)) in
          do* put_view (ui_state.set_registered (negb (needs_registration session))) in
          if needs_registration session then sret None
          else do* put_view (ui_state.set_handle (get_handle session)) in sret None
      end.

Definition add_server_from_invite : state application unit :=
  let* a := sgets (λ a, a) in
  match parse_invite_link (invite_input (app a)) with
  | inl failure => report failure true
  | inr link =>
      match decode_key (link_server_key_hex link) with
      | None => report (lit "cle du serveur illisible") true
      | Some key =>
          let e := ServerEntry (link_host link) (ServerEndpoint (link_host link) (link_port link) [] 0) key
                     identity_source.derived [] false in
          if existsb (λ s, bool_decide (server_key (entry s) = key)) (slots a)
          then report (lit "ce serveur est deja dans la liste") true
          else
            let* built := build_slot e in
            match built with
            | inl failure => report failure true
            | inr s =>
                do* put_slots (λ l, l ++ [s]) in
                let* failure := persist in
                match failure with
                | Some failure => report failure true
                | None =>
                    do* set_invite_input [] in
                    report (lit "serveur ajoute : " ++ label e) false
                end
            end
      end
  end.

Definition acknowledged_entry (e : server_entry) : server_entry :=
  ServerEntry (label e) (endpoint e) (server_key e) (source e) (imported_identity_path e) true.

Definition acknowledge_slot_trust (index : nat) : state application unit :=
  let* a := sgets (λ a, a) in
  match slots a !! index with
  | None => sret tt
  | Some s =>
      do* put_slots (λ l, <[index := ServerSlot (acknowledged_entry (entry s)) (slot_identity s) (slot_client s) (slot_view s)]> l) in
      let* failure := persist in
      match failure with
      | Some failure => report failure true
      | None => sret tt
      end
  end.

(** *** gui_main.cpp *)

Definition load_server_entries (options : cli_options) (passphrase : bytes) : state disk (bytes + list server_entry) :=
  let* stored := is_regular_file (registry_path options) in
  if (stored : bool) then load (registry_path options) passphrase
  else if negb (size_of (server_key_hex options) =? 64) then
    sret (inl (lit "Aucun serveur enregistre, et --server-key absent." ++ newline ++ newline ++
               lit "Ajoutez un serveur avec hypercom_cli server-add, ou passez --server-key."))
  else
    match decode_key (server_key_hex options) with
    | None => sret (inl (lit "--server-key doit faire 64 caracteres hexadecimaux."))
    | Some key =>
        sret (inr [ServerEntry (host options)
                     (ServerEndpoint (host options) (port options) (socks5_host options) (socks5_port options))
                     key identity_source.imported (identity_path options) true])
    end.

(** The language of the window becomes the slot's; a welcome asked for by the
    slot becomes the window's; then the slot is connected if it may be. *)
Definition connect_active (index : nat) : state application unit :=
  let* failure := on_slot index connect_slot in
  match failure with
  | Some (Some error) =>
      let* _ := on_slot index (λ _, put_view (ui_state.set_status error true)) in sret tt
  | _ =>
      let* _ := on_slot index (λ s,
        let* v := sgets view in
        if ui_state.registered v && bool_decide (ui_state.forums v = []) then refresh_forum_list (slot_identity s)
        else sret tt) in
      sret tt
  end.

Definition service_active_slot : state application unit :=
  let* a := sgets (λ a, a) in
  let index := active_slot (app a) in
  match slots a !! index with
  | None => sret tt
  | Some s =>
      let* _ := on_slot index (λ _, put_view (ui_state.set_current_lang (app_lang (app a)))) in
      do* (if ui_state.intro_requested (slot_view s)
           then let* _ := on_slot index (λ _, put_view (ui_state.set_intro_requested false)) in set_app_intro true
           else sret tt) in
      if negb (trust_acknowledged (entry s)) || is_open (connection_ (slot_client s)) then sret tt
      else connect_active index
  end.

(** The slots of the entries, in their order; the first failure ends it. *)
Fixpoint build_slots (entries : list server_entry) : state application (option bytes) :=
  match entries with
  | [] => sret None
  | e :: entries =>
      let* built := build_slot e in
      match built with
      | inl failure => sret (Some failure)
      | inr s => do* put_slots (λ l, l ++ [s]) in build_slots entries
      end
  end.

(** main up to the window: the code and the message of a failure, or the
    application. *)
Definition start_client (sodium_ready : bool) (argv : list bytes) (passphrase : bytes + bytes)
    : state application (option (Z * bytes)) :=
  if negb sodium_ready then sret (Some (1, lit "libsodium n'a pas pu s'initialiser."))
  else
    let* readable := sgets (λ a, files (app_disk a)) in
    match parse_cli_options readable argv default_options false false with
    | inl failure => sret (Some (2, failure))
    | inr options =>
        match passphrase with
        | inl failure => sret (Some (3, failure))
        | inr passphrase =>
            do* put_app (λ _, AppState french 0 false [] false [] passphrase [] (registry_path options)
                                (master_seed_path options)) in
            let* loaded := on_disk (load_server_entries options passphrase) in
            match loaded with
            | inl failure => sret (Some (4, failure))
            | inr entries =>
                let* failure := build_slots entries in
                match failure with
                | Some failure => sret (Some (5, failure))
                | None => do* set_app_intro (replay_intro options) in sret None
                end
            end
        end
    end.
End application.

(** ** A desktop to evaluate the model on *)

(** Every draw is the same, every host accepts, and answers with [answers]. *)
Definition plain_desktop (answers : list recv_result) : Desktop := {|
  draw_entropy := λ _, drawn_entropy;
  draw_salt := λ _, drawn_salt;
  draw_nonce := λ _, drawn_nonce;
  draw_handshake := λ _, Some (pad 32 (lit "ephemeral"), pad 32 (lit "ephemeral"));
  draw_envelope := λ _, Some (drawn_keys.1, drawn_keys.2);
  read_clock := λ _, 1700000000;
  route := λ _ _, Connected;
  incoming := λ _, answers;
  accepting := λ _, [];
|}.

(** ** An open connection is used as it is *)

Lemma still_connected `{Sodium} `{Desktop} identity c session v n : is_open c = true →
  ensure_connected identity (SlotWorld (Client c session) v n) =
    (true, SlotWorld (Client c session) (ui_state.set_connected true v) n).
Proof. intros E. unfold ensure_connected, sbind, sgets. cbn [client_of connection_]. by rewrite E. Qed.
