(* ===== verification/GraphicalUse.v ===== *)
(** The graphical client in use: the steps a person and the frame loop can make
    it take, what holds in every state they lead to, and where the client
    falls short of what it says. *)

From S2P Require Import Prelude.
From S2P Require Import Wire.
From S2P Require Import Framing.
From S2P Require Import Codec.
From S2P Require Import ContentMessages.
From S2P Require Import SocialMessages.
From S2P Require Import TextTools.
From S2P Require Import Hex.
From S2P Require Import Sodium.
From S2P Require Import Noise.
From S2P Require Import ClientOptions.
From S2P Require Import DirectMessages.
From S2P Require Import Recovery.
From S2P Require Import Files.
From S2P Require Import Connection.
From S2P Require Import Keystore.
From S2P Require Import ClientNet.
From S2P Require Import ClientChannel.
From S2P Require Import ClientSession.
From S2P Require Import ClientCommands.
From S2P Require Import ClientMain.
From S2P Require Import GraphicalClient.

(** ** What a click does *)

(** The buttons of the columns, and the one of the registration card. *)
Inductive click :=
| refresh_forums | choose_forum (forum_id : Z) | read_thread (post_id : Z) | publish_post | publish_comment (parent : Z)
| found_forum | remove_post (post_id : Z) | remove_comment (comment_id : Z) | flag_post (post_id : Z) | flag_account (key : bytes)
| publish_prekey | read_inbox | send_message | refresh_friends | befriend | show_profile (key : bytes) | favor (key : bytes)
| unfavor (index : nat) | save_top8 | edit_profile | register (success : bytes).

Section clicks.
Context `{Sodium} `{Desktop}.

Definition perform (identity : identity_keypair) (c : click) : action :=
  match c with
  | refresh_forums => refresh_forum_list identity
  | choose_forum forum_id => select_forum identity forum_id
  | read_thread post_id => open_thread identity post_id
  | publish_post => submit_post identity
  | publish_comment parent => submit_comment identity parent
  | found_forum => create_forum identity
  | remove_post post_id => delete_post identity post_id
  | remove_comment comment_id => delete_comment identity comment_id
  | flag_post post_id => report_post identity post_id
  | flag_account key => report_account identity key
  | publish_prekey => publish_own_prekey identity
  | read_inbox => refresh_inbox identity
  | send_message => submit_direct_message identity
  | refresh_friends => refresh_friend_list identity
  | befriend => add_friend identity
  | show_profile key => view_profile identity key
  | favor key => mark_favorite key
  | unfavor index => remove_favorite index
  | save_top8 => submit_own_top8 identity
  | edit_profile => save_profile identity
  | register success => submit_registration identity success
  end.

Section offers.
Context (own : bytes) (v : ui_state.t).

(** Content that is still there, someone's own or someone else's. *)
Definition own_content (author body : bytes) : bool := bool_decide (author = own) && negb (bool_decide (body = [])).
Definition others_content (author body : bytes) : bool := negb (bool_decide (author = own)) && negb (bool_decide (body = [])).

Definition shown_comment (p : comment_record.t → bool) : bool := existsb p (ui_state.comments v).
Definition shown_friend (key : bytes) : bool := existsb (λ f, bool_decide (friend_record.pubkey f = key)) (ui_state.friends v).

(** What the columns offer: one's own content to delete, that of others to
    report, and for the rest what is on the screen. *)
Definition columns_offer (c : click) : bool :=
  let post := ui_state.open_post v in
  match c with
  | register _ => false
  | choose_forum forum_id => existsb (λ f, forum_record.id f =? forum_id) (ui_state.forums v)
  | read_thread post_id => existsb (λ p, post_record.id p =? post_id) (ui_state.posts v)
  | remove_post post_id =>
      (post_record.id post =? post_id) && own_content (post_record.author_pubkey post) (post_record.body post)
  | flag_post post_id =>
      (post_record.id post =? post_id) && others_content (post_record.author_pubkey post) (post_record.body post)
  | publish_comment parent => (parent =? 0) || shown_comment (λ c, comment_record.id c =? parent)
  | remove_comment comment_id =>
      shown_comment (λ c, (comment_record.id c =? comment_id) && own_content (comment_record.author_pubkey c) (comment_record.body c))
  | flag_account key =>
      shown_comment (λ c, bool_decide (comment_record.author_pubkey c = key) &&
                          others_content (comment_record.author_pubkey c) (comment_record.body c)) ||
      bool_decide (profile_record.pubkey (ui_state.viewed_profile v) = key)
  | show_profile key | favor key => shown_friend key
  | _ => true
  end.
End offers.

(** What [draw_application_frame] offers for a slot: the columns to someone
    registered, the registration card otherwise once the warning is
    acknowledged. *)
Definition offered (s : server_slot) (c : click) : bool :=
  if ui_state.registered (slot_view s) then columns_offer (public_key_ (slot_identity s)) (slot_view s) c
  else trust_acknowledged (entry s) && match c with register _ => true | _ => false end.
End clicks.

(** ** The steps of the application *)

Section steps.
Context `{Sodium} `{FileSystem} `{Desktop}.

Inductive gui_step : application → application → Prop :=
| step_service a : gui_step a (service_active_slot a).2
| step_click a s c :
    slots a !! active_slot (app a) = Some s → offered s c = true →
    gui_step a (on_slot (active_slot (app a)) (λ s, perform (slot_identity s) c) a).2
| step_type a (forum_name forum_description post_title post_body comment display_name bio recipient text handle friend : bytes) :
    gui_step a (on_slot (active_slot (app a)) (λ _, put_view
      (ui_state.set_inputs forum_name forum_description post_title post_body comment display_name bio recipient text handle friend)) a).2
| step_switch a index : (index < length (slots a))%nat → gui_step a (set_active_slot index a).2
| step_invite a text : gui_step a (set_invite_input text a).2
| step_add a : gui_step a (add_server_from_invite a).2
| step_acknowledge a s :
    slots a !! active_slot (app a) = Some s → trust_acknowledged (entry s) = false →
    pending_recovery_phrase (app a) = [] → gui_step a (acknowledge_slot_trust (active_slot (app a)) a).2
| step_phrase_noted a : gui_step a (set_pending_phrase [] a).2
| step_language a lang : gui_step a (on_slot (active_slot (app a)) (λ _, put_view (ui_state.set_current_lang lang)) a).2
| step_tab a tab : gui_step a (on_slot (active_slot (app a)) (λ _, put_view (ui_state.set_side_tab tab)) a).2
| step_window_language a lang : gui_step a (set_app_language lang a).2
| step_welcomed a : gui_step a (set_app_intro false a).2.

(** A server whose warning is not acknowledged has not been dialled. *)
Definition untouched (c : server_connection) : Prop :=
  is_open c = false ∧ dialled (socket_ c) = [] ∧ sent_bytes (socket_ c) = [].

Definition silent (s : server_slot) : Prop :=
  trust_acknowledged (entry s) = false →
  ui_state.registered (slot_view s) = false ∧ untouched (connection_ (slot_client s)).

(** An action on a slot that keeps it silent. *)
Lemma on_slot_silent {A} index (m : server_slot → state slot_world A) a :
  Forall silent (slots a) →
  (∀ s, slots a !! index = Some s → trust_acknowledged (entry s) = false →
     let w := (m s (SlotWorld (slot_client s) (slot_view s) (app_draws a))).2 in
     ui_state.registered (view w) = false ∧ untouched (connection_ (client_of w))) →
  Forall silent (slots (on_slot index m a).2).
Proof.
  intros Hall Hm. unfold on_slot. destruct (slots a !! index) as [s|] eqn:E; [|done].
  specialize (Hm s eq_refl). destruct (m s _) as [result w]. cbn [snd slots] in *.
  apply Forall_insert; [done|]. intros Htrust. by apply Hm.
Qed.

(** What changes neither the client nor the registration. *)
Lemma view_only_silent index (f : ui_state.t → ui_state.t) a :
  (∀ v, ui_state.registered (f v) = ui_state.registered v) →
  Forall silent (slots a) → Forall silent (slots (on_slot index (λ _, put_view f) a).2).
Proof.
  intros Hf Hall. apply on_slot_silent; [done|]. intros s Hs Htrust. cbn. rewrite Hf.
  by apply (Forall_lookup_1 _ _ _ _ Hall Hs).
Qed.

(** The slots keep their entries. *)
Lemma on_slot_entries {A} index (m : server_slot → state slot_world A) a :
  entry <$> slots (on_slot index m a).2 = entry <$> slots a.
Proof.
  unfold on_slot. destruct (slots a !! index) as [s|] eqn:E; [|done]. destruct (m s _) as [result w]. cbn [snd slots].
  rewrite list_fmap_insert. apply list_insert_id. rewrite list_lookup_fmap, E. done.
Qed.

Lemma on_slot_trusted {A} index (m : server_slot → state slot_world A) a :
  (∀ s, slots a !! index = Some s → trust_acknowledged (entry s) = true) →
  Forall silent (slots a) → Forall silent (slots (on_slot index m a).2).
Proof.
  intros Htrust Hall. apply on_slot_silent; [done|]. intros s Hs Hno. specialize (Htrust s Hs). congruence.
Qed.

Lemma on_slot_app {A} index (m : server_slot → state slot_world A) a : app (on_slot index m a).2 = app a.
Proof. unfold on_slot. destruct (slots a !! index); [|done]. by destruct (m _ _). Qed.

Lemma entry_at a a' index s : entry <$> slots a' = entry <$> slots a → slots a' !! index = Some s →
  ∃ s0, slots a !! index = Some s0 ∧ entry s0 = entry s.
Proof.
  intros E Hs. assert ((entry <$> slots a') !! index = Some (entry s)) as H' by (by rewrite list_lookup_fmap, Hs).
  rewrite E, list_lookup_fmap in H'. by apply fmap_Some in H' as (s0 & ? & ?); eauto.
Qed.
End steps.

(** ** Every server waits for its warning *)

Section silence.
Context `{Sodium} `{FileSystem} `{Desktop}.

Definition same_slots (a a' : application) : Prop := slots a' = slots a.

#[export] Instance same_slots_preorder : PreOrder same_slots.
Proof. split; unfold same_slots; [done|]. intros x y z ? ?. congruence. Qed.

Lemma on_disk_slots {A} (m : state disk A) : keeps same_slots (on_disk m).
Proof. intros a. unfold on_disk, zoom. by destruct (m (app_disk a)). Qed.

Lemma put_app_slots f : keeps same_slots (put_app f).
Proof. done. Qed.

Lemma draw_slots : keeps same_slots draw.
Proof. done. Qed.

Lemma sgets_slots {A} (f : application → A) : keeps same_slots (sgets f).
Proof. done. Qed.

Ltac slots_kept := repeat first
  [ apply on_disk_slots | apply put_app_slots | apply draw_slots | apply sgets_slots | apply (keeps_ret same_slots)
  | apply (keeps_bind same_slots); [|intros ?] | case_match ].

Lemma resolve_slot_identity_slots e : keeps same_slots (resolve_slot_identity e).
Proof. unfold resolve_slot_identity. slots_kept. Qed.

Lemma persist_slots : keeps same_slots persist.
Proof. unfold persist. slots_kept. Qed.

Lemma build_slot_slots e : keeps same_slots (build_slot e).
Proof. unfold build_slot. apply (keeps_bind same_slots); [apply resolve_slot_identity_slots|intros ?]. slots_kept. Qed.

(** What [build_slot] builds has not been touched. *)
Lemma build_slot_fresh e a s : (build_slot e a).1 = inr s →
  entry s = e ∧ ui_state.registered (slot_view s) = false ∧ untouched (connection_ (slot_client s)).
Proof.
  unfold build_slot, sbind. destruct (resolve_slot_identity e a) as [[error|identity] a1]; [done|].
  cbn. intros [= <-]. done.
Qed.

Lemma add_server_silent a : Forall silent (slots a) → Forall silent (slots (add_server_from_invite a).2).
Proof.
  intros Hall. unfold add_server_from_invite, sbind at 1, sgets.
  destruct (parse_invite_link _) as [failure|link]; [done|]. destruct (decode_key _) as [key|]; [|done].
  destruct (existsb _ _); [done|]. set (e := ServerEntry _ _ _ _ _ _). unfold sbind at 1.
  pose proof (build_slot_slots e a) as Hs. unfold same_slots in Hs. pose proof (build_slot_fresh e a) as Hf.
  destruct (build_slot e a) as [[failure|s] a1]; cbn [fst snd] in *; [by cbn; rewrite Hs|].
  destruct (Hf s eq_refl) as (He & Hreg & Hun). unfold sbind at 1, put_slots, smodify.
  assert (Forall silent (slots a1 ++ [s])) as Hall1 by (apply Forall_app; rewrite Hs; split; [done|]; by constructor).
  set (a2 := Application _ _ _ _). change (slots a1 ++ [s]) with (slots a2) in Hall1.
  unfold sbind at 1. pose proof (persist_slots a2) as Hp. destruct (persist a2) as [[failure|] a3]; cbn [fst snd] in *;
    unfold same_slots in Hp; [by cbn; rewrite Hp|]. unfold sbind. cbn. by rewrite Hp.
Qed.

Lemma acknowledge_silent index a : Forall silent (slots a) → Forall silent (slots (acknowledge_slot_trust index a).2).
Proof.
  intros Hall. unfold acknowledge_slot_trust, sbind at 1, sgets. destruct (slots a !! index) as [s|] eqn:E; [|done].
  unfold sbind at 1, put_slots, smodify. set (s' := ServerSlot _ _ _ _). set (a1 := Application _ _ _ _).
  assert (Forall silent (slots a1)) as Hall1 by (by apply Forall_insert).
  unfold sbind. pose proof (persist_slots a1) as Hp. destruct (persist a1) as [[failure|] a2]; cbn [fst snd] in *;
    unfold same_slots in Hp; cbn; by rewrite Hp.
Qed.

Lemma service_silent a : Forall silent (slots a) → Forall silent (slots (service_active_slot a).2).
Proof.
  intros Hall. unfold service_active_slot, sbind at 1, sgets. set (index := active_slot (app a)).
  destruct (slots a !! index) as [s|] eqn:E; [|done].
  set (lang := ui_state.set_current_lang (app_lang (app a))).
  pose proof (view_only_silent index lang a (λ v, eq_refl) Hall) as Hs1.
  pose proof (on_slot_entries index (λ _, put_view lang) a) as E1.
  unfold sbind at 1. destruct (on_slot index (λ _, put_view lang) a) as [? a1]. cbn [snd] in Hs1, E1.
  assert (∃ a2, (if ui_state.intro_requested (slot_view s)
                 then let* _ := on_slot index (λ _, put_view (ui_state.set_intro_requested false)) in set_app_intro true
                 else sret tt) a1 = (tt, a2) ∧ Forall silent (slots a2) ∧ entry <$> slots a2 = entry <$> slots a1) as (a2 & E2 & Hs2 & Een).
  { destruct (ui_state.intro_requested _); [|by exists a1]. unfold sbind.
    pose proof (view_only_silent index (ui_state.set_intro_requested false) a1 (λ v, eq_refl) Hs1) as Hs2.
    pose proof (on_slot_entries index (λ _, put_view (ui_state.set_intro_requested false)) a1) as Een.
    destruct (on_slot index _ a1) as [? a2]. eexists. split; [reflexivity|]. done. }
  unfold sbind at 1. rewrite E2. rewrite E1 in Een.
  destruct (negb (trust_acknowledged (entry s)) || is_open _) eqn:Eskip; [done|].
  apply orb_false_iff in Eskip as [Htrust%negb_false_iff _].
  assert (∀ a', entry <$> slots a' = entry <$> slots a → ∀ s', slots a' !! index = Some s' →
    trust_acknowledged (entry s') = true) as Htrusted.
  { intros a' Ea s' Hs'. destruct (entry_at a a' index s' Ea Hs') as (s0 & Hs0 & <-). congruence. }
  unfold connect_active. unfold sbind at 1.
  pose proof (on_slot_trusted index connect_slot a2 (Htrusted a2 Een) Hs2) as Hs3.
  pose proof (on_slot_entries index connect_slot a2) as E3.
  destruct (on_slot index connect_slot a2) as [failure a3]. cbn [snd] in Hs3, E3. rewrite Een in E3.
  assert (∀ A (m : server_slot → state slot_world A), Forall silent (slots ((let* _ := on_slot index m in sret tt) a3).2)) as Hdone.
  { intros A m. unfold sbind. pose proof (on_slot_trusted index m a3 (Htrusted a3 E3) Hs3) as Hm.
    by destruct (on_slot index m a3). }
  destruct failure as [[error|]|]; apply Hdone.
Qed.

Lemma step_silent a a' : gui_step a a' → Forall silent (slots a) → Forall silent (slots a').
Proof.
  intros Hstep Hall. destruct Hstep as [a|a s c Hs Hoffer|a|a index Hi|a text|a|a s Hs Ht Hp|a|a lang|a tab|a lang|a].
  - by apply service_silent.
  - apply on_slot_trusted; [|done]. intros s' Hs'. assert (s' = s) as -> by congruence.
    unfold offered in Hoffer. destruct (trust_acknowledged (entry s)) eqn:Et; [done|].
    pose proof (Forall_lookup_1 _ _ _ _ Hall Hs Et) as [Hreg _]. by rewrite Hreg in Hoffer.
  - by apply view_only_silent.
  - done.
  - done.
  - by apply add_server_silent.
  - by apply acknowledge_silent.
  - done.
  - by apply view_only_silent.
  - by apply view_only_silent.
  - done.
  - done.
Qed.

Lemma build_slots_silent entries a : Forall silent (slots a) → Forall silent (slots (build_slots entries a).2).
Proof.
  revert a. induction entries as [|e entries IH]; intros a Hall; [done|]. cbn [build_slots]. unfold sbind at 1.
  pose proof (build_slot_slots e a) as Hs. unfold same_slots in Hs. pose proof (build_slot_fresh e a) as Hf.
  destruct (build_slot e a) as [[failure|s] a1]; cbn [fst snd] in *; [by cbn; rewrite Hs|].
  destruct (Hf s eq_refl) as (He & Hreg & Hun). unfold sbind, put_slots, smodify. apply IH. cbn.
  apply Forall_app. rewrite Hs. split; [done|]. by constructor.
Qed.

Lemma start_silent sodium_ready argv pass a : slots a = [] →
  Forall silent (slots (start_client sodium_ready argv pass a).2).
Proof.
  intros Hnone. unfold start_client. destruct sodium_ready; cbn [negb]; [|cbn; by rewrite Hnone].
  unfold sbind at 1, sgets. destruct (parse_cli_options _ _ _ _ _) as [failure|options]; [cbn; by rewrite Hnone|].
  destruct pass as [failure|pass]; [cbn; by rewrite Hnone|]. unfold sbind at 1, put_app, smodify.
  set (a1 := Application _ _ _ _). unfold sbind at 1.
  pose proof (on_disk_slots (load_server_entries options pass) a1) as Hs1. unfold same_slots in Hs1.
  destruct (on_disk _ a1) as [[failure|entries] a2]; cbn [snd] in Hs1; [cbn; by rewrite Hs1; cbn; rewrite Hnone|].
  unfold sbind at 1. pose proof (build_slots_silent entries a2) as Hs2. rewrite Hs1 in Hs2. cbn in Hs2. rewrite Hnone in Hs2.
  destruct (build_slots entries a2) as [[failure|] a3]; cbn [snd] in *; by apply Hs2.
Qed.
End silence.

(** ** Starting with a fresh identity *)

Section first_launch.
Context `{Sodium} `{FileSystem} `{Desktop}.
Context (Hsystem : no_failure).

(** The graphical client does not start for someone new. With the key of
    a server, no list of servers and an identity file that does not exist yet,
    the program ends with code 5 and the message that the identity cannot be
    read: unlike the command line client it never creates one. (COMMANDS.md
    tells people to start with a file that must not already exist.) *)
Theorem fresh_identity_does_not_start (argv : list bytes) (options : cli_options) (pass key : bytes) (a : application)
    (Hparse : parse_cli_options (files (app_disk a)) argv default_options false false = inr options)
    (Hno_list : files (app_disk a) !! registry_path options = None)
    (Hlength : size_of (server_key_hex options) = 64) (Hkey : decode_key (server_key_hex options) = Some key)
    (Hno_identity : files (app_disk a) !! identity_path options = None) :
  (start_client true argv (inr pass) a).1 = Some (5, lit "identite illisible : " ++ identity_path options).
Proof.
  unfold start_client. cbn [negb]. unfold sbind at 1, sgets. rewrite Hparse. unfold sbind at 1, put_app, smodify.
  unfold sbind at 1, on_disk at 1, zoom, load_server_entries, sbind at 1. cbn [app_disk].
  rewrite is_regular_file_eq by done. rewrite Hno_list, bool_decide_false by (by intros [? ?]). cbn [negb].
  rewrite Hlength, Z.eqb_refl. cbn [negb]. rewrite Hkey. unfold sret at 1.
  cbn [build_slots]. unfold build_slot, resolve_slot_identity, sbind, sgets, on_disk, zoom. cbn [app app_disk source imported_identity_path passphrase].
  unfold unlock_identity, read_sealed_file, read_file, io_call, sbind, sgets, sret. cbn [files io_calls app_disk].
  rewrite !Hsystem. cbn [negb files]. by rewrite Hno_identity.
Qed.
End first_launch.

(** ** Servers that are only reached through Tor *)

Section invitations.
Context `{SodiumLaws} `{FileSystem}.
Context (Hsystem : no_failure).

Lemma dials_directly network ephemeral endpoint c : endpoint_socks5_host endpoint = [] →
  dialled (socket_ (open_session network ephemeral endpoint c).2) =
    dialled (socket_ c) ++ [(endpoint_host endpoint, endpoint_port endpoint)].
Proof.
  intros Hn. unfold open_session, sbind at 1, smodify. unfold sbind at 1, on_socket at 1, zoom at 1, connect_to_host.
  cbn [socket_]. rewrite bool_decide_true by done. cbn [negb].
  destruct (network _ _); [done|done|]. unfold sbind at 1, sret at 1. set (c0 := ServerConnection _ _ _ _ _ _).
  pose proof (finish_session_dials ephemeral c0) as [Hd _]. by destruct ((do* set_open true in _) c0) as [r c'].
Qed.

(** A server of an invite link is dialled directly. [server-add] keeps
    the proxy of its own command line, never the one the host of the link
    calls for; and every later command on that server, whatever proxy its own
    command line names ([--tor] included), dials the host of the link itself.
    For an onion service, whose address activates Tor when it is given with
    [--host], that is a name the client looks up in the clear. *)
Theorem invited_servers_are_dialled_directly (salt nonce pass text name printed key : bytes) (link : invite_link)
    (options : cli_options) (d d' : disk)
    (Hdrawn : drawn_ok salt nonce) (Hlink : parse_invite_link text = inr link)
    (Hkey : decode_key (link_server_key_hex link) = Some key) (Hname : name ≠ []) (Hno_proxy : socks5_host options = [])
    (Hfits : entry_ok (ServerEntry name (ServerEndpoint (link_host link) (link_port link) [] (socks5_port options)) key
                         identity_source.derived [] false))
    (Hadded : run_server_add salt nonce (inr pass) options [text; name] d = (inr printed, d')) :
  ∃ e, (∀ options', server_label options' = name → registry_path options' = registry_path options →
          (resolve_server options' pass d').1 = inr e) ∧
    ∀ network ephemeral sock,
      dialled (socket_ (open_session network ephemeral (endpoint e) (new_connection (server_key e) sock)).2) =
        dialled sock ++ [(link_host link, link_port link)].
Proof.
  unfold run_server_add in Hadded. rewrite Hlink, Hkey, Hno_proxy in Hadded. cbn [link_host] in Hadded. unfold sbind in Hadded.
  set (e := ServerEntry name _ key _ _ _) in *. exists e. split; [|intros; by apply dials_directly].
  destruct (load_existing (registry_path options) pass d) as [[error|entries] d1] eqn:El; [done|].
  destruct (find_by_label entries name) as [[i other]|] eqn:Efind; [done|].
  destruct (save (registry_path options) salt nonce pass (entries ++ [e]) d1) as [[error|] d2] eqn:Es; [done|].
  injection Hadded as _ ->. intros options' Elabel Epath.
  destruct (save_then_read _ _ _ _ _ _ _ Hsystem Hdrawn Es) as (Hn & sealed & Hf & Hne & Hopen).
  assert (Forall entry_ok (entries ++ [e])) as Hentries.
  { apply Forall_app. split; [by eapply load_existing_ok|by constructor]. }
  pose proof (load_result (registry_path options) pass sealed _ d' Hsystem Hf Hne Hopen) as Hload.
  rewrite (parse_registry_plaintext _ Hentries Hn) in Hload.
  unfold resolve_server. rewrite Elabel, decide_False, Epath by done. unfold sbind.
  destruct (load (registry_path options) pass d') as [loaded d3]. cbn [fst] in Hload. subst loaded.
  assert (list_find (λ x, label x = name) (entries ++ [e]) = Some (length entries, e)) as ->; [|done].
  unfold find_by_label in Efind. apply list_find_None in Efind.
  rewrite list_find_app_r by (by apply list_find_None). cbn. rewrite decide_True by done. cbn. unfold prod_map. cbn. by do 2 f_equal.
Qed.
End invitations.

(** ** Long names *)

Section long_names.
Context `{SodiumLaws} `{FileSystem} `{Desktop}.
Context (Hsystem : no_failure).
Context (Hdraws : ∀ n, drawn_ok (draw_salt n) (draw_nonce n)).

(** Building a slot changes neither where the list is saved nor how it is
    sealed. *)
Definition same_list (a a' : application) : Prop :=
  app_registry_path (app a') = app_registry_path (app a) ∧ passphrase (app a') = passphrase (app a).

#[export] Instance same_list_preorder : PreOrder same_list.
Proof. unfold same_list. split; [by intros a|]. intros a1 a2 a3 [? ?] [? ?]. split; congruence. Qed.

Lemma on_disk_list {A} (m : state disk A) : keeps same_list (on_disk m).
Proof. intros a. unfold on_disk, zoom. by destruct (m (app_disk a)). Qed.

Ltac list_kept := repeat first
  [ apply on_disk_list | by intros ? | apply (keeps_ret same_list) | apply (keeps_bind same_list); [|intros ?] | case_match ].

Lemma build_slot_list e : keeps same_list (build_slot e).
Proof.
  unfold build_slot. apply (keeps_bind same_list); [|intros ?; list_kept]. unfold resolve_slot_identity. list_kept.
Qed.

Lemma persist_saves a a' : persist a = (None, a') →
  ∃ sealed, files (app_disk a') !! app_registry_path (app a) = Some sealed ∧ sealed ≠ [] ∧
    open_blob (passphrase (app a)) sealed = Some (registry_plaintext (map entry (slots a))) ∧
    size_of (map entry (slots a)) <= MAX_SERVERS.
Proof.
  unfold persist, sbind, sgets, draw, on_disk, zoom. cbn [app slots app_disk app_draws].
  destruct (save _ _ _ _ _ _) as [r d'] eqn:E. intros [= -> <-]. cbn [app_disk].
  destruct (save_then_read _ _ _ _ _ _ _ Hsystem (Hdraws _) E) as (Hn & sealed & Hf & Hne & Hopen). by exists sealed.
Qed.

(** What a reported addition has done. *)
Lemma added_server_saved a a' link : parse_invite_link (invite_input (app a)) = inr link →
  add_server_from_invite a = (tt, a') → app_status_is_error (app a') = false →
  ∃ key sealed, decode_key (link_server_key_hex link) = Some key ∧ size_of (slots a) < MAX_SERVERS ∧
    files (app_disk a') !! app_registry_path (app a) = Some sealed ∧ sealed ≠ [] ∧
    open_blob (passphrase (app a)) sealed = Some (registry_plaintext (map entry (slots a) ++
      [ServerEntry (link_host link) (ServerEndpoint (link_host link) (link_port link) [] 0) key identity_source.derived [] false])).
Proof.
  intros Hlink Hadd Hok. revert Hadd Hok. unfold add_server_from_invite. unfold sbind at 1, sgets at 1. rewrite Hlink.
  destruct (decode_key _) as [key|]; [|by intros [= <-]]. destruct (existsb _ _); [by intros [= <-]|].
  set (e := ServerEntry _ _ _ _ _ _). unfold sbind at 1.
  pose proof (build_slot_slots e a) as Hs. unfold same_slots in Hs. pose proof (build_slot_list e a) as Hl. unfold same_list in Hl.
  pose proof (build_slot_fresh e a) as Hf. destruct (build_slot e a) as [[failure|s] a1]; cbn [fst snd] in *; [by intros [= <-]|].
  destruct (Hf s eq_refl) as (He & _). destruct Hl as [Hpath Hpass]. unfold sbind at 1, put_slots, smodify.
  set (a2 := Application _ _ _ _). unfold sbind at 1. destruct (persist a2) as [[failure|] a3] eqn:Ep; [by intros [= <-]|].
  intros [= <-] _. destruct (persist_saves _ _ Ep) as (sealed & Hfile & Hne & Hopen & Hn).
  change (app a2) with (app a1) in *. change (slots a2) with (slots a1 ++ [s]) in *. rewrite Hpath in Hfile. rewrite Hpass in Hopen.
  rewrite map_app, Hs in Hopen, Hn. cbn [map] in Hopen, Hn. rewrite He in Hopen, Hn. exists key, sealed. split; [done|].
  split; [|done]. unfold size_of in *. rewrite length_app, length_map in Hn. cbn in Hn. lia.
Qed.

(** C30: adding an onion server locks the graphical client out. The address of
    an onion service of version 3 is longer than a name may be, and the client
    names an invited server after its host; so the addition it reports as done
    (to a list of well-formed entries, on a disk whose calls do not fail) has
    saved a list that no later start can read: with the same list and the same
    passphrase the program ends with code 4, and every server saved before is
    lost with the new one. *)
Theorem onion_server_locks_the_client (a a' : application) (link : invite_link)
    (Hentries : Forall entry_ok (map entry (slots a)))
    (Hlink : parse_invite_link (invite_input (app a)) = inr link)
    (Hlong : MAX_LABEL_LENGTH < size_of (link_host link) < 2 ^ 32)
    (Hadded : add_server_from_invite a = (tt, a')) (Hreported : app_status_is_error (app a') = false) :
  ∀ argv options later, files (app_disk later) = files (app_disk a') →
    parse_cli_options (files (app_disk later)) argv default_options false false = inr options →
    registry_path options = app_registry_path (app a) →
    (start_client true argv (inr (passphrase (app a))) later).1 =
      Some (4, lit "registre des serveurs mal forme : " ++ app_registry_path (app a)).
Proof.
  destruct (added_server_saved a a' link Hlink Hadded Hreported) as (key & sealed & _ & Hn & Hfile & Hne & Hopen).
  intros argv options later Hlater Hparse Hpath. rewrite <-Hlater, <-Hpath in Hfile.
  unfold start_client. cbn [negb]. unfold sbind at 1, sgets. rewrite Hparse. unfold sbind at 1, put_app, smodify.
  unfold sbind at 1, on_disk at 1, zoom, load_server_entries, sbind at 1. cbn [app_disk].
  rewrite is_regular_file_eq by done. rewrite Hfile, bool_decide_true by by eexists.
  pose proof (load_result (registry_path options) _ sealed _ (Disk (files (app_disk later)) (S (io_calls (app_disk later))))
                Hsystem Hfile Hne Hopen) as Hload.
  rewrite long_label_locks in Hload; [|done|unfold size_of in *; by rewrite length_map|split; [apply size_of_nonneg|exact (proj2 Hlong)]|exact (proj1 Hlong)].
  destruct (load _ _ _) as [r d3]. cbn in Hload. subst r. cbn. by rewrite Hpath.
Qed.
End long_names.

(** ** A login that failed *)

Section failed_login.
Context `{Sodium} `{FileSystem} `{Desktop}.

(** A frame leaves the client of an open connection alone. *)
Lemma frame_skips a index s : active_slot (app a) = index → slots a !! index = Some s →
  is_open (connection_ (slot_client s)) = true →
  ∃ s', slots (service_active_slot a).2 !! index = Some s' ∧ slot_client s' = slot_client s ∧ entry s' = entry s ∧
    slot_identity s' = slot_identity s ∧ ui_state.registered (slot_view s') = ui_state.registered (slot_view s) ∧
    ui_state.status_message (slot_view s') = ui_state.status_message (slot_view s) ∧
    active_slot (app (service_active_slot a).2) = index.
Proof.
  intros Hindex Hs Hopen. pose proof (lookup_lt_Some _ _ _ Hs) as Hlt.
  destruct (service_active_slot a) as [u a'] eqn:E. revert E. cbn [snd]. unfold service_active_slot.
  unfold sbind at 1, sgets. rewrite Hindex, Hs, Hopen, orb_true_r. unfold sbind at 1. unfold on_slot at 1. rewrite Hs.
  destruct (ui_state.intro_requested (slot_view s)).
  - unfold sbind at 1. unfold sbind at 1. unfold on_slot. cbn. rewrite list_lookup_insert_eq by done.
    intros [= _ <-]. cbn. eexists. rewrite list_lookup_insert_eq by (by rewrite length_insert). done.
  - intros [= _ <-]. cbn. eexists. rewrite list_lookup_insert_eq by done. done.
Qed.

Lemma connect_active_fails index s a error w : slots a !! index = Some s →
  connect_slot s (SlotWorld (slot_client s) (slot_view s) (app_draws a)) = (Some error, w) →
  connect_active index a =
    (tt, Application (app a)
           (<[index := ServerSlot (entry s) (slot_identity s) (client_of w) (ui_state.set_status error true (view w))]> (slots a))
           (app_disk a) (draws w)).
Proof.
  intros Hs E. pose proof (lookup_lt_Some _ _ _ Hs) as Hlt. unfold connect_active. unfold sbind at 1. unfold on_slot at 1.
  rewrite Hs, E. unfold sbind, on_slot. cbn. rewrite list_lookup_insert_eq by done. cbn. by rewrite list_insert_insert_eq.
Qed.

(** A failed connection registers nobody. *)
Lemma connect_slot_fails s w0 error w : connect_slot s w0 = (Some error, w) →
  ui_state.registered (view w) = ui_state.registered (view w0).
Proof.
  unfold connect_slot. destruct (negb _); [by intros [= _ <-]|]. unfold sbind at 1, sgets at 1.
  destruct (is_open _); [done|]. unfold sbind at 1, next_draw. unfold sbind at 1, on_client at 1, zoom.
  destruct (on_link _ _) as [[e|] c]; [by intros [= _ <-]|]. unfold sbind at 1, on_client, zoom. cbn [client_of view draws].
  destruct (authenticate _ _) as [[e|] c1]; [by intros [= _ <-]|]. unfold sbind, put_view, smodify, sgets. cbn.
  by destruct (needs_registration _).
Qed.

(** A login that failed is never tried again. When a frame connects a
    server and the login fails while the connection stays open (the server is
    slow to answer, for one), every later frame leaves the connection as it
    is: nothing is sent or dialled however long one waits, the session stays
    without an account, the registration card is offered to someone who may
    have one, and the first action takes the connection for a logged in one. *)
Theorem failed_login_is_never_retried (a : application) (s : server_slot) (error : bytes) (w : slot_world)
    (Hactive : slots a !! active_slot (app a) = Some s)
    (Htrust : trust_acknowledged (entry s) = true) (Hclosed : is_open (connection_ (slot_client s)) = false)
    (Hunregistered : ui_state.registered (slot_view s) = false) (Hnew : ui_state.intro_requested (slot_view s) = false)
    (Hfailed : connect_slot s (SlotWorld (slot_client s) (ui_state.set_current_lang (app_lang (app a)) (slot_view s)) (app_draws a))
                 = (Some error, w))
    (Hleft : is_open (connection_ (client_of w)) = true) :
  ∀ frames, let a' := Nat.iter (S frames) (λ a, (service_active_slot a).2) a in
    ∃ s', slots a' !! active_slot (app a) = Some s' ∧ slot_client s' = client_of w ∧
      ui_state.status_message (slot_view s') = error ∧ offered s' (register []) = true ∧
      ∀ v n, ensure_connected (slot_identity s') (SlotWorld (slot_client s') v n)
               = (true, SlotWorld (client_of w) (ui_state.set_connected true v) n).
Proof.
  pose proof (lookup_lt_Some _ _ _ Hactive) as Hlt.
  pose proof (connect_slot_fails _ _ _ _ Hfailed) as Hkept. cbn in Hkept. rewrite Hunregistered in Hkept.
  assert (∃ s1, slots (service_active_slot a).2 !! active_slot (app a) = Some s1 ∧ slot_client s1 = client_of w ∧
    ui_state.status_message (slot_view s1) = error ∧ ui_state.registered (slot_view s1) = ui_state.registered (view w) ∧
    entry s1 = entry s ∧ active_slot (app (service_active_slot a).2) = active_slot (app a)) as Hfirst.
  { destruct (service_active_slot a) as [u a1] eqn:E. revert E. cbn [snd]. unfold service_active_slot.
    unfold sbind at 1, sgets. rewrite Hactive, Htrust, Hclosed, Hnew. cbn [negb orb].
    unfold sbind at 1. unfold on_slot at 1. rewrite Hactive. cbn [put_view smodify client_of view draws app_draws].
    unfold sbind at 1, sret at 1. erewrite connect_active_fails; [|by apply list_lookup_insert_eq|exact Hfailed].
    intros [= _ <-]. cbn [slots app]. eexists. rewrite list_lookup_insert_eq by (by rewrite length_insert). done. }
  clear Hfailed. intros frames. cbv zeta.
  assert (∃ s', slots (Nat.iter (S frames) (λ a, (service_active_slot a).2) a) !! active_slot (app a) = Some s' ∧
    slot_client s' = client_of w ∧ ui_state.status_message (slot_view s') = error ∧
    ui_state.registered (slot_view s') = false ∧ entry s' = entry s ∧
    active_slot (app (Nat.iter (S frames) (λ a, (service_active_slot a).2) a)) = active_slot (app a))
    as (s' & Hs' & Hclient & Hstatus & Hreg & Hentry & _).
  { induction frames as [|frames (s' & Hs' & Hclient & Hstatus & Hreg & Hentry & Hindex)].
    { destruct Hfirst as (s1 & ? & ? & ? & Hr & ? & ?). exists s1. rewrite Hr. rewrite Hkept. done. }
    destruct (frame_skips _ _ _ Hindex Hs') as (s2 & Hs2 & Ec & Ee & _ & Er & Em & Ei); [by rewrite Hclient|].
    exists s2. by rewrite Ec, Ee, Er, Em. }
  exists s'. split_and!; [done..|by unfold offered; rewrite Hreg, Hentry, Htrust|].
  intros v n. rewrite Hclient. destruct (client_of w) as [c session]. exact (still_connected (slot_identity s') c session v n Hleft).
Qed.
End failed_login.

(** ** Witnesses *)

Section witnesses.
#[local] Existing Instance toy_sodium.
#[local] Existing Instance toy_sodium_laws.
#[local] Existing Instance sound_system.
#[local] Instance desktop : Desktop := plain_desktop [].

Definition direct_arguments : list bytes := [lit "--server-key"; encode_hex (pad 32 (lit "server"))].

(** A machine with an identity file and nothing else. *)
Definition disk_with_identity : disk :=
  (create_identity (lit "hypercom_identity.key") drawn_salt drawn_nonce (lit "pass")
     (derive_from_seed (pad 32 (lit "seed"))) empty_disk).2.

Definition idle_application (d : disk) : application := Application (AppState french 0 false [] false [] [] [] [] []) [] d 0.

Lemma fresh_identity_does_not_start_witness :
  (start_client true direct_arguments (inr (lit "pass")) (idle_application empty_disk)).1
    = Some (5, lit "identite illisible : hypercom_identity.key").
Proof.
  destruct (parse_cli_options ∅ direct_arguments default_options false false) as [failure|options] eqn:E;
    [vm_compute in E; discriminate E|].
  assert (identity_path options = lit "hypercom_identity.key") as Hpath by (vm_compute in E; by injection E as <-).
  rewrite (@fresh_identity_does_not_start toy_sodium sound_system desktop (λ _, eq_refl) direct_arguments options (lit "pass")
             (pad 32 (lit "server")) (idle_application empty_disk) E eq_refl); [by rewrite Hpath|..];
    vm_compute in E; injection E as <-; vm_compute; reflexivity.
Defined.

Lemma invited_servers_are_dialled_directly_witness : ∃ printed d' e,
  run_server_add drawn_salt drawn_nonce (inr (lit "pass")) default_options [onion_link; lit "hidden"] empty_disk = (inr printed, d') ∧
  (resolve_server (set_server (lit "hidden") default_options) (lit "pass") d').1 = inr e ∧
  ∀ network ephemeral sock,
    dialled (socket_ (open_session network ephemeral (endpoint e) (new_connection (server_key e) sock)).2) =
      dialled sock ++ [(lit "pg6mmjiyjmcrsslvykfwnntlaru7p5svn6y2ymmju6nubxndf4pscryd.onion", 7717)].
Proof.
  destruct (run_server_add drawn_salt drawn_nonce (inr (lit "pass")) default_options [onion_link; lit "hidden"] empty_disk)
    as [[error|printed] d'] eqn:E; [vm_compute in E; discriminate E|].
  destruct (parse_invite_link onion_link) as [error|link] eqn:El; [vm_compute in El; discriminate El|].
  assert (link = InviteLink (lit "pg6mmjiyjmcrsslvykfwnntlaru7p5svn6y2ymmju6nubxndf4pscryd.onion") 7717
                   (encode_hex (pad 32 (lit "key")))) as ->
    by (vm_compute in El; injection El as <-; vm_compute; reflexivity).
  destruct (@invited_servers_are_dialled_directly toy_sodium toy_sodium_laws sound_system (λ _, eq_refl) drawn_salt drawn_nonce (lit "pass") onion_link (lit "hidden") printed
              (pad 32 (lit "key")) _ default_options empty_disk d' (conj eq_refl eq_refl) El) as (e & Hresolve & Hdials).
  - vm_compute. reflexivity.
  - discriminate.
  - reflexivity.
  - by_decision.
  - exact E.
  - exists printed, d', e. split; [reflexivity|]. split; [apply Hresolve; reflexivity|exact Hdials].
Defined.

(** The client adds an onion service, and is started again. *)
Lemma onion_server_locks_the_client_witness : ∃ a',
  start_client true direct_arguments (inr (lit "pass")) (idle_application (app_disk a')) =
    (Some (4, lit "registre des serveurs mal forme : hypercom_servers.dat"),
     (start_client true direct_arguments (inr (lit "pass")) (idle_application (app_disk a'))).2).
Proof.
  set (a := (set_invite_input onion_link (start_client true direct_arguments (inr (lit "pass"))
               (idle_application disk_with_identity)).2).2).
  destruct (add_server_from_invite a) as [[] a'] eqn:E.
  assert (app_status_is_error (app a') = false) as Hreported
    by (change a' with (tt, a').2; rewrite <-E; vm_compute; reflexivity).
  destruct (parse_invite_link onion_link) as [error|link] eqn:El; [vm_compute in El; discriminate El|].
  destruct (parse_cli_options (files (app_disk a')) direct_arguments default_options false false) as [error|options] eqn:Eo;
    [vm_compute in Eo; discriminate Eo|].
  exists a'. apply injective_projections; [|reflexivity].
  refine (@onion_server_locks_the_client toy_sodium toy_sodium_laws sound_system desktop (λ _, eq_refl) (λ _, conj eq_refl eq_refl)
            a a' link _ El _ E Hreported direct_arguments options (idle_application (app_disk a')) eq_refl Eo _).
  - apply (bool_decide_unpack _). vm_compute. reflexivity.
  - vm_compute in El. injection El as <-. split; reflexivity.
  - vm_compute in Eo. injection Eo as <-. vm_compute. reflexivity.
Defined.
End witnesses.

(** A server that answers the handshake and then nothing. *)
Section slow_server.
#[local] Existing Instance toy_sodium.
#[local] Existing Instance sound_system.

Definition slow_key : bytes := pad 32 (lit "server").

(** The second message of the handshake, for the keys the client draws. *)
Definition slow_reply : bytes :=
  match write_first_message (Some (pad 32 (lit "ephemeral"), pad 32 (lit "ephemeral"))) [] (new_initiator slow_key) with
  | (Some first, _) =>
      default [] (accept_handshake_message (Some (pad 32 (lit "drawn"), pad 32 (lit "drawn"))) first (new_channel slow_key slow_key)).1
  | (None, _) => []
  end.

#[local] Instance slow_desktop : Desktop :=
  plain_desktop (Received (append_length_prefixed_message slow_reply []) :: replicate 120 RecvInterrupted).

Lemma failed_login_is_never_retried_witness : ∃ a s',
  slots (Nat.iter 3 (λ a, (service_active_slot a).2) a) !! 0%nat = Some s' ∧
  ui_state.status_message (slot_view s') = lit "aucune reponse du serveur" ∧ offered s' (register []) = true.
Proof.
  set (a := (start_client true direct_arguments (inr (lit "pass")) (idle_application disk_with_identity)).2).
  assert (match slots a !! active_slot (app a) with
          | Some s =>
              let '(failure, w) := connect_slot s (SlotWorld (slot_client s)
                                     (ui_state.set_current_lang (app_lang (app a)) (slot_view s)) (app_draws a)) in
              failure = Some (lit "aucune reponse du serveur") ∧ is_open (connection_ (client_of w)) = true
          | None => False
          end) as Hfailed by (vm_compute; split; reflexivity).
  destruct (slots a !! active_slot (app a)) as [s|] eqn:Es; [|destruct Hfailed].
  destruct (connect_slot s _) as [failure w] eqn:E. destruct Hfailed as [-> Hleft].
  destruct (@failed_login_is_never_retried toy_sodium slow_desktop a s (lit "aucune reponse du serveur") w Es) with (frames := 2%nat)
    as (s' & Hs' & _ & Hstatus & Hoffer & _).
  - vm_compute in Es. injection Es as <-. reflexivity.
  - vm_compute in Es. injection Es as <-. reflexivity.
  - vm_compute in Es. injection Es as <-. reflexivity.
  - vm_compute in Es. injection Es as <-. reflexivity.
  - exact E.
  - exact Hleft.
  - exists a, s'. split; [exact Hs'|]. split; [exact Hstatus|exact Hoffer].
Defined.
End slow_server.
