(* ===== verification/GraphicalTop8.v ===== *)
(** The top 8 in the graphical client: the editor starts from empty slots and
    is never loaded, so that the first save replaces what the server had. *)

From S2P Require Import Prelude.
From S2P Require Import Wire.
From S2P Require Import Framing.
From S2P Require Import Codec.
From S2P Require Import SessionMessages.
From S2P Require Import SocialMessages.
From S2P Require Import RateLimit.
From S2P Require Import Sodium.
From S2P Require Import Noise.
From S2P Require Import Config.
From S2P Require Import DirectMessages.
From S2P Require Import Keystore.
From S2P Require Import Connection.
From S2P Require Import Database.
From S2P Require Import Repositories.
From S2P Require Import SocialRepositories.
From S2P Require Import Handlers.
From S2P Require Import Server.
From S2P Require Import Effects.
From S2P Require Import Integrity.
From S2P Require Import Scenario.
From S2P Require Import Transactions.
From S2P Require Import Reads.
From S2P Require Import ClientNet.
From S2P Require Import ClientChannel.
From S2P Require Import ClientSession.
From S2P Require Import ClientLogin.
From S2P Require Import ClientMail.
From S2P Require Import GraphicalClient.

(** ** The server's side *)

Section saving.
Context `{SodiumLaws} `{EnvironmentLaws}.
Context (config : server_config).
Context (Hcalm : ∀ n, sql_fails n = false).

Lemma run_statement_calm statement w o : statement (db_tables (db w)) = Some o →
  ∃ w', run_statement statement w = (true, w') ∧ saved (db w') = saved (db w) ∧ db_tables (db w') = new_tables o.
Proof.
  intros E. unfold run_statement, sbind, prepare. rewrite Hcalm. cbn [negb].
  rewrite (step_done_calm Hcalm statement (tick w) o E). by eexists.
Qed.

Lemma replace_one_slot me friend w :
  autocommit w → known (t_users (db_tables (db w))) me → known (t_users (db_tables (db w))) friend →
  let '(ok, w') := replace_slots me [Top8Entry 0 friend] w in
  ok = true ∧ autocommit w' ∧ replaces_slots me [Top8Entry 0 friend] (db_tables (db w)) (db_tables (db w')).
Proof.
  intros Ha Hme Hfriend. pose proof (replace_slots_atomic me [Top8Entry 0 friend] w Ha) as Hat. unfold atomic in Hat.
  enough ((replace_slots me [Top8Entry 0 friend] w).1 = true) as Hok.
  { destruct (replace_slots me [Top8Entry 0 friend] w) as [ok w']. cbn in Hok. by subst ok. }
  clear Hat. unfold autocommit in Ha. unfold replace_slots, sbind at 1.
  rewrite (execute_calm Hcalm begin_immediate w (DatabaseState (db_tables (db w)) (Some (db_tables (db w))) (last_insert_id (db w)) (changed_row_count (db w)))).
  2:{ cbn. by rewrite Ha. }
  cbn [negb]. unfold sbind at 1. set (w1 := tick (set_db _ w)).
  destruct (run_statement_calm (λ t, Some (Written (delete_slots me t) None 0)) w1 _ eq_refl) as (w2 & -> & Hsaved & Ht).
  cbn [new_tables] in Ht. unfold sbind at 1, prepare. rewrite Hcalm. cbn [negb]. unfold sbind at 1.
  cbn [insert_slots negb]. unfold sbind at 1. rewrite rebind_calm by done. unfold sbind at 1.
  set (w3 := tick (tick w2)).
  assert (insert_top8 me 0 friend (db_tables (db w3)) = Some (set_top8 (<[(me, 0) := friend]> (t_top8 (db_tables (db w3)))) (db_tables (db w3)))) as E.
  { unfold insert_top8, has_user. change (db_tables (db w3)) with (db_tables (db w2)). rewrite Ht. cbn.
    rewrite !bool_decide_true by done. cbn. rewrite bool_decide_false; [done|]. intros [v Hv].
    apply map_lookup_filter_Some in Hv as [_ Hv]. by apply Hv. }
  rewrite (step_done_calm Hcalm _ w3 (Written (set_top8 (<[(me, 0) := friend]> (t_top8 (db_tables (db w3)))) (db_tables (db w3))) None 1)).
  2:{ cbn [slot friend_id]. by rewrite E. }
  unfold sret. unfold finish_transaction, sbind. erewrite (execute_calm Hcalm); [done|]. cbn. rewrite Hsaved. done.
Qed.

(** The slots of a request with one favourite. *)
Definition one_favorite (key : bytes) : list bytes := key :: replicate 7 empty_key.

Lemma empty_slots_resolve index n w : resolve_top8_entries index (replicate n empty_key) w = (Some [], w).
Proof. revert index. induction n as [|n IH]; intros index; [done|]. exact (IH (index + 1)). Qed.

Lemma one_favorite_resolves key friend handle banned w :
  tables_ok (db_tables (db w)) → t_users (db_tables (db w)) !! friend = Some (users.Row key handle banned) →
  is_empty_slot key = false →
  yields (resolve_top8_entries 0 (one_favorite key)) w (Some [Top8Entry 0 friend]).
Proof.
  intros Hok Hrow Hne. destruct (account_found Hcalm w friend key handle banned Hok Hrow) as [Hf Hdb].
  destruct (find_by_pubkey key w) as [found w1] eqn:Ef. cbn [fst snd] in Hf, Hdb. subst found.
  assert (resolve_top8_entries 0 (one_favorite key) w = (Some [Top8Entry 0 friend], w1)) as E; [|unfold yields; by rewrite E].
  unfold one_favorite. cbn [resolve_top8_entries]. rewrite Hne. unfold fbind at 1. rewrite Ef. cbn [Repositories.id].
  unfold fbind. change (empty_key :: _) with (replicate 7 empty_key). by rewrite empty_slots_resolve.
Qed.

Lemma top8_request_ok key : size_of key = PUBLIC_KEY_SIZE → well_formed (top8_set_request.mk (one_favorite key)).
Proof. intros Hk. split; [done|]. repeat (apply List.Forall_cons; [done|]). apply List.Forall_nil. Qed.

Context (k : session_state).
Context (Hregistered : is_registered k = true).

Lemma top8_answers w key friend handle banned :
  tables_ok (db_tables (db w)) → autocommit w → known (t_users (db_tables (db w))) (user_id k) →
  t_users (db_tables (db w)) !! friend = Some (users.Row key handle banned) →
  size_of key = PUBLIC_KEY_SIZE → is_empty_slot key = false →
  answers_with config message_type.top8_set_request (encoding (top8_set_request.mk (one_favorite key))) k
    message_type.status_ok (status_ok_response.mk 0) w
    (λ w2, autocommit w2 ∧ replaces_slots (user_id k) [Top8Entry 0 friend] (db_tables (db w)) (db_tables (db w2))).
Proof.
  intros Hok Ha Hme Hrow Hkey Hne w1 tr sock ch now Hw1.
  unfold autocommit in Ha. rewrite <-Hw1 in Hok, Ha, Hme, Hrow |- *.
  destruct (one_favorite_resolves key friend handle banned w1 Hok Hrow Hne) as [Hf Hdb].
  destruct (resolve_top8_entries 0 (one_favorite key) w1) as [entries w2] eqn:Eresolve. cbn [fst snd] in Hf, Hdb. subst entries.
  pose proof (replace_one_slot (user_id k) friend w2) as Hr. unfold autocommit in Hr. rewrite Hdb in Hr.
  specialize (Hr Ha Hme ltac:(by eexists)).
  destruct (replace_slots (user_id k) [Top8Entry 0 friend] w2) as [ok w3] eqn:Ereplace. destruct Hr as (-> & Ha3 & Ht3).
  exists w3. split; [by split|].
  cbn [route_message route_session_family route_content_family route_social_family].
  unfold handle_top8_set_request. rewrite (registered_passes k Hregistered) by done. unfold with_request.
  rewrite message_reads by (by apply top8_request_ok). cbn [top8_set_request.slots].
  unfold sbind at 1, on_world at 1, zoom at 1. cbn [shared with_connection tracker connection]. rewrite Eresolve.
  cbn [or_error]. unfold sbind, on_world, zoom. cbn [shared tracker connection session].
  change (user_id (touch now k)) with (user_id k). by rewrite Ereplace.
Qed.
End saving.

(** ** The client's side *)

Section client.
Context `{SodiumLaws} `{Desktop}.
Context (identity : identity_keypair).

(** An action's view of the connection. *)
Lemma link_run {A} (m : state server_connection A) c session v n a c' :
  m c = (a, c') →
  on_client (on_link m) (SlotWorld (Client c session) v n) = (a, SlotWorld (Client c' session) v n).
Proof. intros E. unfold on_client, on_link, zoom. cbn. by rewrite E. Qed.

Lemma exchange_answered {R A} `{WireFormat R} `{WireLaws A} type (request : R) expected (answer : A) size c c1 c2 session v n :
  send_frame type (encoding request) c = (true, c1) →
  receive_frame c1 = (inr (FrameHeader size expected, encoding answer), c2) →
  expected ≠ message_type.status_error → well_formed answer →
  exchange type request expected (SlotWorld (Client c session) v n) = (inr answer, SlotWorld (Client c2 session) v n).
Proof.
  intros E1 E2 Hne Hwf. unfold exchange, sbind. unfold send_typed_message.
  change (output (write_to request)) with (encoding request). rewrite (link_run _ _ _ _ _ _ _ E1). cbn [negb].
  exact (link_run _ _ _ _ _ _ _ (receive_typed_expected _ _ _ _ _ E2 Hne Hwf)).
Qed.

(** What is sent is only ever added to. *)
Lemma send_frame_dials type payload : keeps session_dials (send_frame type payload).
Proof.
  unfold send_frame. apply keeps_bind; [apply _|apply keeps_gets, _|]. intros [] ; cbn [negb]; [|apply keeps_ret, _].
  destruct (encode_frame type payload) as [frame|]; [|apply keeps_ret, _].
  apply keeps_bind; [apply _| |].
  { intros c. unfold on_cipher. destruct (transport_ c) as [t|]; [|reflexivity]. by destruct (encrypt_message frame t). }
  intros [sealed|]; [|apply keeps_ret, _].
  intros c. pose proof (send_all_dials (append_length_prefixed_message sealed []) (socket_ c)) as Hs.
  unfold ClientNet.on_socket, zoom, session_dials. by destruct (send_all _ (socket_ c)).
Qed.

Lemma receive_frame_dials : keeps session_dials receive_frame.
Proof.
  intros c. destruct (receive_frame c) as [r c'] eqn:E. destruct (receive_frame_keeps c r c' E) as (E1 & _ & E3).
  split; cbn [snd]; [done|by rewrite E1].
Qed.

Definition world_dials (w w' : slot_world) : Prop :=
  session_dials (connection_ (client_of w)) (connection_ (client_of w')).

#[export] Instance world_dials_preorder : PreOrder world_dials.
Proof. unfold world_dials. split; [by intros w|]. intros w1 w2 w3 ? ?. by etransitivity. Qed.

Lemma on_link_dials {A} (m : state server_connection A) : keeps session_dials m → keeps world_dials (on_client (on_link m)).
Proof.
  intros Hm w. unfold on_client, on_link, zoom, world_dials. specialize (Hm (connection_ (client_of w))).
  by destruct (m _) as [a c].
Qed.

Lemma exchange_dials {R A} `{WireFormat R, WireFormat A} type (request : R) expected :
  keeps world_dials (exchange (A := A) type request expected).
Proof.
  unfold exchange. apply keeps_bind; [apply _|apply on_link_dials, send_frame_dials|].
  intros []; cbn [negb]; [|apply keeps_ret, _]. apply on_link_dials.
  unfold receive_typed_message. apply keeps_bind; [apply _|apply receive_frame_dials|].
  intros [error|[header payload]]; [apply keeps_ret, _|]. repeat case_match; apply keeps_ret, _.
Qed.

Lemma put_view_dials f : keeps world_dials (put_view f).
Proof. by intros w. Qed.

(** Reloading on a connection that is open. *)
Lemma refresh_own_top8_dials c session v n : is_open c = true →
  world_dials (SlotWorld (Client c session) v n) (refresh_own_top8 identity (SlotWorld (Client c session) v n)).2.
Proof.
  intros E. unfold refresh_own_top8, when_connected, sbind. rewrite still_connected by done.
  assert (keeps world_dials (when_answered (exchange message_type.top8_get_request
    (top8_get_request.mk (public_key_ identity)) message_type.top8_response) (λ response,
    put_view (ui_state.set_own_top8 (top8_response.slots response) (top8_response.details response))))) as Hk.
  { apply keeps_bind; [apply _|apply exchange_dials|]. intros [failure|response]; apply put_view_dials. }
  exact (Hk (SlotWorld (Client c session) (ui_state.set_connected true v) n)).
Qed.
End client.

(** ** Saving *)

Section erasing.
Context `{SodiumLaws} `{EnvironmentLaws} `{Desktop}.
Context (config : server_config).
Context (Hcalm : ∀ n, sql_fails n = false).
Context (identity : identity_keypair).

Lemma top8_request_size key : size_of key = PUBLIC_KEY_SIZE →
  size_of (encoding (top8_set_request.mk (one_favorite key))) <= MAX_PAYLOAD_SIZE.
Proof.
  intros Hk. change (encoding (top8_set_request.mk (one_favorite key))) with (output (write_slot_array (one_favorite key))).
  destruct (appends_intro (write_slot_array (one_favorite key)) _ (write_keys_push _)) as [_ ->].
  unfold one_favorite. cbn [concat replicate]. rewrite size_of_app, Hk. vm_compute. discriminate.
Qed.

(** The first save of the top 8 from the graphical client erases it. The
    editor of a server starts with eight empty slots and no action but the
    save itself ever asks the server for the slots it has; so in a session
    where someone marks one favourite and saves, the server is sent that one
    and drops all the others, whatever they were. *)
Theorem first_save_erases_the_top8 (spare : nat) (t : noise_transport) (ch : noise_channel) (w : world)
    (tr : rate_tracker) (fd : Z) (k : session_state) (key handle : bytes) (friend : Z) (banned : bool)
    (lang : language) (own_hex server_hex : bytes) (way : server_endpoint)
    (Hlinked : linked (2 + spare) t ch) (Hregistered : is_registered k = true)
    (Hadmitted : admitted config 1 (user_id k) k tr)
    (Hok : tables_ok (db_tables (db w))) (Hauto : autocommit w)
    (Hme : known (t_users (db_tables (db w))) (user_id k))
    (Hfriend : t_users (db_tables (db w)) !! friend = Some (users.Row key handle banned))
    (Hkey : is_empty_slot key = false) :
  ∃ request reply s1,
    serve config [request] (with_connection w tr (ConnectionSocket fd []) ch k) = Some ([reply], s1) ∧
    (∀ slot, t_top8 (db_tables (db (shared s1))) !! (user_id k, slot) = if decide (slot = 0) then Some friend else None) ∧
    ∀ c session n tail, awaits c t (reply ++ tail) →
      let w1 := ((do* mark_favorite key in submit_own_top8 identity)
                   (SlotWorld (Client c session) (new_view lang own_hex server_hex way) n)).2 in
      (sent_bytes (socket_ c) ++ request) `prefix_of` sent_bytes (socket_ (connection_ (client_of w1))).
Proof.
  assert (size_of key = PUBLIC_KEY_SIZE) as Hsize.
  { destruct (ok_users _ Hok) as (_ & Hrows & _). by destruct (Hrows friend _ Hfriend) as (_ & ? & _). }
  destruct (answered_exchange config 0 (user_id k) spare t ch w tr fd k message_type.top8_set_request
              (encoding (top8_set_request.mk (one_favorite key))) message_type.status_ok (status_ok_response.mk 0)
              _ Hadmitted Hlinked (top8_request_size key Hsize) (status_ok_size _)
              (top8_answers config Hcalm k Hregistered w key friend handle banned Hok Hauto Hme Hfriend Hsize Hkey))
    as (request & reply & t1 & ch1 & w1 & tr1 & now & s1 & Hl1 & _ & [Ha1 Ht1] & Eserve & Esent & Hclient).
  exists request, reply, (with_connection w1 tr1 (ConnectionSocket fd []) ch1 (touch now k)).
  split_and!; [by rewrite (serve_one _ _ _ _ _ _ _ Eserve Esent)| |].
  - intros slot. cbn [shared with_connection]. rewrite Ht1. cbn. case_decide as Hs.
    + subst slot. by rewrite lookup_insert_eq.
    + rewrite lookup_insert_ne by congruence. apply map_lookup_filter_None. right. intros v Hv Hne. by apply Hne.
  - intros c session n tail Hc. cbv zeta.
    assert (is_open c = true) as Hopen by (by destruct Hc as (_ & ? & _)).
    destruct (Hclient c tail Hc) as (c1 & c2 & E1 & E2 & Hc2 & Hs2).
    assert (is_open c2 = true) as Hopen2 by (by destruct Hc2 as (_ & ? & _)).
    unfold sbind at 1, mark_favorite, put_view, smodify. cbn [client_of view draws].
    unfold submit_own_top8, when_connected. unfold sbind at 1. rewrite still_connected by done. unfold sbind at 1, sgets.
    cbn [view]. match goal with |- context [ui_state.own_top8_slots (ui_state.set_connected true ?x)] =>
      assert (ui_state.own_top8_slots (ui_state.set_connected true x) = one_favorite key) as -> by done end.
    unfold when_answered. unfold sbind at 1.
    erewrite (exchange_answered (A := status_ok_response.t)); [|exact E1|exact E2|done|exact (wrap_fits 64 0 ltac:(done))].
    unfold sbind. match goal with |- context [refresh_own_top8 identity ?x] => pose proof (refresh_own_top8_dials identity c2 session (view x) (draws x) Hopen2) as Hd end.
    cbn [view draws] in Hd. destruct (refresh_own_top8 identity _) as [u w2]. cbn. destruct Hd as [_ Hd]. cbn in Hd.
    by rewrite Hs2 in Hd.
Qed.
End erasing.

(** ** Witness *)

Section witness.
#[local] Existing Instance toy_sodium.
#[local] Existing Instance toy_sodium_laws.

(** Alice has bob in two slots. *)
Definition two_slots : tables := run_all [insert_top8 1 3 2] populated.

Lemma two_slots_ok : tables_ok two_slots.
Proof.
  apply run_all_ok; [|exact populated_ok].
  apply List.Forall_cons; [|apply List.Forall_nil]. intros t t' Ht E. exact (insert_top8_ok _ _ _ _ _ Ht E).
Qed.

Lemma first_save_erases_the_top8_witness : ∃ request reply s1,
  @serve toy_sodium still default_config [request]
    (with_connection (fresh_world two_slots) (RateTracker ∅ ∅) (ConnectionSocket 5 []) open_channel alice_session)
    = Some ([reply], s1) ∧
  t_top8 two_slots !! (1, 3) = Some 2 ∧ t_top8 (db_tables (db (shared s1))) !! (1, 3) = None.
Proof.
  destruct (@first_save_erases_the_top8 toy_sodium toy_sodium_laws still (plain_desktop []) default_config
              (λ _, eq_refl) alice_owner 4 _ _ (fresh_world two_slots) (RateTracker ∅ ∅) 5 alice_session
              bob_key (lit "bob") 2 false french [] [] (ServerEndpoint [] 7717 [] 0) (open_linked_for 6 ltac:(done)) eq_refl
              (room_at_first 1 alice_session 1 ltac:(lia) eq_refl) two_slots_ok eq_refl)
    as (request & reply & s1 & E & Ht & _).
  { vm_compute. by eexists. }
  { vm_compute. reflexivity. }
  { vm_compute. reflexivity. }
  exists request, reply, s1. split; [exact E|]. split; [vm_compute; reflexivity|]. exact (Ht 3).
Defined.
End witness.
