(* ===== verification/I18n.v ===== *)
(** The texts of the graphical client in its two languages (client/ui/i18n.cpp):
    the table, and the search that falls back on the key. *)

From S2P Require Import Prelude.
From S2P Require Import GraphicalClient.

Record translation := Translation { fr : bytes; en : bytes }.

Definition dictionary : list (bytes * translation) :=
  [ (lit "status_encrypted", Translation (lit "Canal chiffré (Noise_NK) et authentifié")
      (lit "Encrypted channel (Noise_NK) & authenticated"));
   (lit "status_offline", Translation (lit "Hors ligne")
      (lit "Offline"));
   (lit "status_server", Translation (lit "Serveur")
      (lit "Server"));
   (lit "status_identity", Translation (lit "Identité")
      (lit "Identity"));
   (lit "status_registered", Translation (lit "Enregistré sous")
      (lit "Registered as"));
   (lit "status_unregistered", Translation (lit "Non enregistré")
      (lit "Not registered"));
   (lit "zoom_label", Translation (lit "Zoom")
      (lit "Zoom"));
   (lit "zoom_reset", Translation (lit "100 %")
      (lit "100 %"));
   (lit "auth_welcome", Translation (lit "BIENVENUE SUR HYPERCOM")
      (lit "WELCOME TO HYPERCOM"));
   (lit "auth_desc_1", Translation (lit "Votre clé publique n'a pas encore de compte sur ce serveur.")
      (lit "Your public key does not have an account on this server yet."));
   (lit "auth_desc_2", Translation (lit "Choisissez un pseudo pour vous enregistrer et accéder au réseau social.")
      (lit "Choose a handle to register and access the social network."));
   (lit "auth_handle_heading", Translation (lit "PSEUDO DE COMPTE")
      (lit "ACCOUNT HANDLE"));
   (lit "auth_handle_hint", Translation (lit "3 à 32 caractères (lettres, chiffres, tiret, souligné)")
      (lit "3 to 32 characters (letters, numbers, dash, underscore)"));
   (lit "auth_btn_register", Translation (lit "S'inscrire et se connecter")
      (lit "Register & Connect"));
   (lit "auth_success", Translation (lit "Compte créé avec succès !")
      (lit "Account successfully created!"));
   (lit "forum_heading", Translation (lit "FORUMS")
      (lit "FORUMS"));
   (lit "forum_btn_refresh", Translation (lit "Actualiser")
      (lit "Refresh"));
   (lit "forum_create_heading", Translation (lit "CRÉER UN FORUM")
      (lit "CREATE FORUM"));
   (lit "forum_create_name", Translation (lit "Nom")
      (lit "Name"));
   (lit "forum_create_desc", Translation (lit "Description")
      (lit "Description"));
   (lit "forum_create_btn", Translation (lit "Créer ce forum")
      (lit "Create this forum"));
   (lit "thread_list_heading", Translation (lit "FIL")
      (lit "FEED"));
   (lit "thread_list_empty", Translation (lit "Choisir un forum")
      (lit "Select a forum"));
   (lit "thread_create_heading", Translation (lit "NOUVEAU POST")
      (lit "NEW POST"));
   (lit "thread_create_title", Translation (lit "Titre")
      (lit "Title"));
   (lit "thread_create_body", Translation (lit "Texte")
      (lit "Body"));
   (lit "thread_create_btn", Translation (lit "Publier le post")
      (lit "Publish post"));
   (lit "thread_create_hint", Translation (lit "texte et liens uniquement")
      (lit "text and links only"));
   (lit "post_read_empty", Translation (lit "Choisir un post pour lire le fil")
      (lit "Select a post to read the thread"));
   (lit "post_reply_heading", Translation (lit "RÉPONDRE")
      (lit "REPLY"));
   (lit "post_reply_btn", Translation (lit "Publier la réponse")
      (lit "Publish reply"));
   (lit "reply_action", Translation (lit "répondre")
      (lit "reply"));
   (lit "delete_action", Translation (lit "retirer")
      (lit "remove"));
   (lit "content_removed", Translation (lit "[retiré par son auteur]")
      (lit "[removed by its author]"));
   (lit "report_action", Translation (lit "signaler")
      (lit "report"));
   (lit "report_account_btn", Translation (lit "Signaler ce compte")
      (lit "Report this account"));
   (lit "replies_heading", Translation (lit "RÉPONSES")
      (lit "REPLIES"));
   (lit "thread_truncated", Translation (lit "(fil tronqué par le serveur)")
      (lit "(thread truncated by server)"));
   (lit "profile_heading", Translation (lit "PROFIL")
      (lit "PROFILE"));
   (lit "profile_name", Translation (lit "Nom affiché")
      (lit "Display name"));
   (lit "profile_bio", Translation (lit "Bio")
      (lit "Bio"));
   (lit "profile_btn_save", Translation (lit "Enregistrer le profil")
      (lit "Save profile"));
   (lit "friends_heading", Translation (lit "AMIS")
      (lit "FRIENDS"));
   (lit "friends_add", Translation (lit "Ajouter par clé")
      (lit "Add by key"));
   (lit "social_tab_dm", Translation (lit "Messages")
      (lit "Messages"));
   (lit "social_tab_social", Translation (lit "Social")
      (lit "Social"));
   (lit "social_view_btn", Translation (lit "voir")
      (lit "view"));
   (lit "social_favorite_btn", Translation (lit "favori")
      (lit "favorite"));
   (lit "social_add_btn", Translation (lit "+")
      (lit "+"));
   (lit "social_save_btn", Translation (lit "Enregistrer le top 8")
      (lit "Save top 8"));
   (lit "top8_heading", Translation (lit "TOP 8")
      (lit "TOP 8"));
   (lit "viewed_profile_heading", Translation (lit "PROFIL CONSULTÉ")
      (lit "VIEWED PROFILE"));
   (lit "viewed_profile_empty", Translation (lit "Choisir un ami pour voir son profil")
      (lit "Select a friend to view their profile"));
   (lit "dm_heading", Translation (lit "MESSAGES PRIVÉS")
      (lit "DIRECT MESSAGES"));
   (lit "dm_status", Translation (lit "Chiffré de bout en bout")
      (lit "End-to-end encrypted"));
   (lit "dm_desc", Translation (lit "Seulement vous, et le destinataire, pouvez lire ces messages.")
      (lit "Only you, and the recipient, can read these messages."));
   (lit "dm_btn_prekey", Translation (lit "Publier ma prekey")
      (lit "Publish my prekey"));
   (lit "dm_btn_inbox", Translation (lit "Relever la boîte")
      (lit "Check inbox"));
   (lit "dm_recipient", Translation (lit "Destinataire")
      (lit "Recipient"));
   (lit "dm_btn_send", Translation (lit "Chiffrer et envoyer")
      (lit "Encrypt and send"));
   (lit "dm_unreadable", Translation (lit "illisible")
      (lit "unreadable"));
   (lit "identity_heading", Translation (lit "IDENTITÉ")
      (lit "IDENTITY"));
   (lit "identity_copy_key", Translation (lit "Copier ma clé publique")
      (lit "Copy my public key"));
   (lit "identity_per_server", Translation (lit "Cette clé ne vaut que sur ce serveur. Ailleurs vous en avez une autre, sans lien avec celle-ci : vos amis doivent vous rajouter sur chaque serveur.")
      (lit "This key only applies to this server. Elsewhere you have a different, unlinked one: your friends must add you again on each server."));
   (lit "servers_heading", Translation (lit "SERVEURS")
      (lit "SERVERS"));
   (lit "servers_add_heading", Translation (lit "REJOINDRE")
      (lit "JOIN"));
   (lit "servers_add_hint", Translation (lit "Collez le lien reçu d'un ami (hypercom://…). Il n'existe pas d'annuaire : on ne rejoint un serveur que sur invitation.")
      (lit "Paste the link a friend sent you (hypercom://…). There is no directory: you only join a server by invitation."));
   (lit "servers_add_btn", Translation (lit "Ajouter ce serveur")
      (lit "Add this server"));
   (lit "trust_heading", Translation (lit "AVANT DE VOUS CONNECTER")
      (lit "BEFORE YOU CONNECT"));
   (lit "trust_server", Translation (lit "Serveur :")
      (lit "Server:"));
   (lit "trust_body", Translation (lit "L'opérateur de ce serveur verra vos publications, vos forums et le moment de vos connexions. Vos messages privés, eux, restent chiffrés : il ne peut pas les lire.")
      (lit "This server's operator will see your posts, your forums and when you connect. Your direct messages stay encrypted: they cannot read them."));
   (lit "trust_identity", Translation (lit "Vous utiliserez ici une identité distincte de celle de vos autres serveurs. Aucun opérateur ne peut faire le lien entre elles.")
      (lit "You will use an identity here that is separate from your other servers. No operator can link them together."));
   (lit "trust_accept", Translation (lit "J'ai compris, se connecter")
      (lit "Understood, connect"))].

Fixpoint find_translation (key : bytes) (entries : list (bytes * translation)) : option translation :=
  match entries with
  | [] => None
  | (name, texts) :: entries => if decide (name = key) then Some texts else find_translation key entries
  end.

Definition tr (key : bytes) (lang : language) : bytes :=
  match find_translation key dictionary with
  | Some texts => match lang with french => fr texts | english => en texts end
  | None => key
  end.

#[global] Arguments tr : simpl never.

(** No key is in the table twice, so that the order of the entries does not
    matter; and no text is missing. *)
Lemma dictionary_is_a_map : NoDup dictionary.*1.
Proof. by_decision. Qed.

Lemma dictionary_is_complete : Forall (λ '(_, texts), fr texts ≠ [] ∧ en texts ≠ []) dictionary.
Proof. by repeat (apply List.Forall_cons; [split; discriminate|]). Qed.

(** A key of the table is always translated, in both languages. *)
Lemma tr_known (key : bytes) (lang : language) : key ∈ dictionary.*1 →
  ∃ texts, (key, texts) ∈ dictionary ∧ tr key lang = match lang with french => fr texts | english => en texts end.
Proof.
  unfold tr. generalize dictionary. intros entries. induction entries as [|[name texts] entries IH]; cbn.
  - by intros ?%not_elem_of_nil.
  - intros Hkey. case_decide as E; [subst name; exists texts; split; [by left|done]|].
    apply elem_of_cons in Hkey as [->|Hkey]; [done|]. destruct (IH Hkey) as (found & Hin & Htr). exists found.
    split; [by right|done].
Qed.
