(* ===== verification/Presentation.v ===== *)
(** The numbers behind the window: the scale of the interface and its zoom
    (client/ui/ui_scale.cpp), the welcome sequence (intro_sequence.cpp), the
    easing of what appears (bubble_reveal.cpp, draw_welcome_overlay.cpp) and the
    first size of the window (gui_main.cpp). [float] and [double] are the
    binary32 and binary64 numbers of the standard library's specification of
    IEEE 754, with its rounding; what the window system and the person give is
    an argument. *)

From Stdlib Require Import SpecFloat.
From S2P Require Import Prelude.
From S2P Require Import TextTools.

(** ** Floating point numbers *)

Abbreviation float := spec_float.

Definition float_of (z : Z) : float := binary_normalize 24 128 z 0 false.
Definition double_of (z : Z) : float := binary_normalize 53 1024 z 0 false.

Definition fadd : float → float → float := SFadd 24 128.
Definition fsub : float → float → float := SFsub 24 128.
Definition fmul : float → float → float := SFmul 24 128.
Definition dadd : float → float → float := SFadd 53 1024.
Definition dsub : float → float → float := SFsub 53 1024.
Definition dmul : float → float → float := SFmul 53 1024.
Definition ddiv : float → float → float := SFdiv 53 1024.

(** Literals: the number nearest to a quotient of two exact ones. *)
Definition float_literal (numerator denominator : Z) : float := SFdiv 24 128 (float_of numerator) (float_of denominator).
Definition double_literal (numerator denominator : Z) : float := SFdiv 53 1024 (double_of numerator) (double_of denominator).

(** [static_cast] between the formats, and to [int] (towards zero). *)
Definition to_format (precision emax : Z) (x : float) : float :=
  match x with
  | S754_finite negative mantissa exponent =>
      binary_normalize precision emax (if negative then Z.neg mantissa else Z.pos mantissa) exponent negative
  | _ => x
  end.
Definition to_float : float → float := to_format 24 128.
Definition to_double : float → float := to_format 53 1024.

Definition to_int (x : float) : Z :=
  match x with
  | S754_finite negative mantissa exponent =>
      let magnitude := if 0 <=? exponent then Z.pos mantissa * 2 ^ exponent else Z.pos mantissa / 2 ^ (- exponent) in
      if negative then - magnitude else magnitude
  | _ => 0
  end.

Definition fmax (a b : float) : float := if SFltb a b then b else a.
Definition fmin (a b : float) : float := if SFltb b a then b else a.

(** ** ui_scale.hpp, ui_scale.cpp *)

Definition MIN_USER_ZOOM : float := float_literal 7 10.
Definition MAX_USER_ZOOM : float := float_literal 25 10.
Definition USER_ZOOM_STEP : float := float_literal 1 10.
Definition BASE_FONT_SIZE : float := float_of 17.

Record ui_scale_state := UiScaleState {
  display_scale : float;
  user_zoom : float;
  applied_scale : float;
  font_rebuild_needed : bool;
}.

Definition new_scale_state : ui_scale_state := UiScaleState (float_of 1) (float_of 1) (float_of 0) true.

Definition set_user_zoom (zoom : float) (s : ui_scale_state) : ui_scale_state :=
  UiScaleState (display_scale s) zoom (applied_scale s) true.

Definition clamp_user_zoom (value : float) : float :=
  if SFltb value MIN_USER_ZOOM then MIN_USER_ZOOM
  else if SFltb MAX_USER_ZOOM value then MAX_USER_ZOOM
  else value.

Definition font_candidates : list bytes :=
  [ lit "/usr/share/fonts/truetype/dejavu/DejaVuSans.ttf";
    lit "/usr/share/fonts/truetype/liberation/LiberationSans-Regular.ttf";
    lit "/usr/share/fonts/TTF/DejaVuSans.ttf";
    lit "/usr/share/fonts/dejavu/DejaVuSans.ttf";
    lit "C:/Windows/Fonts/segoeui.ttf";
    lit "C:/Windows/Fonts/arial.ttf";
    lit "/System/Library/Fonts/SFNS.ttf" ].

Definition find_readable_font_path (exists_ : bytes → bool) : option bytes := List.find exists_ font_candidates.

(** [mode_width] is the width of the primary monitor's mode, if there is one. *)
Definition infer_scale_from_resolution (mode_width : option Z) (reported_scale : float) : float :=
  if SFleb (float_literal 125 100) reported_scale then reported_scale
  else
    match mode_width with
    | None => reported_scale
    | Some width =>
        if 3000 <=? width then float_literal 180 100
        else if 2400 <=? width then float_literal 140 100
        else if 1900 <=? width then float_literal 115 100
        else reported_scale
    end.

(** [content_scale] is what the window system says of the window. *)
Definition detect_display_scale (content_scale : float * float) (mode_width : option Z) (s : ui_scale_state) : ui_scale_state :=
  let '(horizontal, vertical) := content_scale in
  let reported := if SFltb vertical horizontal then horizontal else vertical in
  let reported := if SFltb reported (float_literal 1 10) then float_of 1 else reported in
  UiScaleState (infer_scale_from_resolution mode_width reported) (user_zoom s) (applied_scale s) true.

Definition compute_effective_scale (s : ui_scale_state) : float :=
  let combined := fmul (display_scale s) (user_zoom s) in
  if SFltb combined (float_literal 6 10) then float_literal 6 10
  else if SFltb (float_of 4) combined then float_of 4
  else combined.

(** What the keyboard and the wheel say during a frame. *)
Record zoom_input := ZoomInput {
  key_ctrl : bool; plus_pressed : bool; minus_pressed : bool; zero_pressed : bool; mouse_wheel : float }.

Definition no_zoom_input : zoom_input := ZoomInput false false false false (float_of 0).

(** Whether the zoom changed, and the state. The zoom is written even when it
    did not change enough to be counted. *)
Definition handle_zoom_input (io : zoom_input) (s : ui_scale_state) : bool * ui_scale_state :=
  if negb (key_ctrl io) then (false, s)
  else
    let previous := user_zoom s in
    let zoom :=
      if plus_pressed io then clamp_user_zoom (fadd previous USER_ZOOM_STEP)
      else if minus_pressed io then clamp_user_zoom (fsub previous USER_ZOOM_STEP)
      else if zero_pressed io then float_of 1
      else if SFltb (mouse_wheel io) (float_literal (-1) 100) || SFltb (float_literal 1 100) (mouse_wheel io)
      then clamp_user_zoom (fadd previous (fmul (mouse_wheel io) USER_ZOOM_STEP))
      else previous in
    let change := fsub zoom previous in
    if SFltb (float_literal (-1) 1000) change && SFltb change (float_literal 1 1000)
    then (false, UiScaleState (display_scale s) zoom (applied_scale s) (font_rebuild_needed s))
    else (true, set_user_zoom zoom s).

(** The buttons of [draw_zoom_controls]. *)
Definition zoom_out (s : ui_scale_state) : ui_scale_state :=
  set_user_zoom (clamp_user_zoom (fsub (user_zoom s) USER_ZOOM_STEP)) s.
Definition zoom_in (s : ui_scale_state) : ui_scale_state :=
  set_user_zoom (clamp_user_zoom (fadd (user_zoom s) USER_ZOOM_STEP)) s.

(** The percentage shown between them. *)
Definition zoom_percentage (s : ui_scale_state) : bytes :=
  decimal (to_int (fmul (compute_effective_scale s) (float_of 100))) ++ lit "%".

(** The font that is loaded (none is the built-in one), its size in pixels,
    and the state. [loads] is whether the font library takes the file. *)
Definition rebuild_scaled_font (exists_ loads : bytes → bool) (s : ui_scale_state) : (option bytes * float) * ui_scale_state :=
  let scale := compute_effective_scale s in
  let font := match find_readable_font_path exists_ with Some path => if loads path then Some path else None | None => None end in
  ((font, fmul BASE_FONT_SIZE scale), UiScaleState (display_scale s) (user_zoom s) scale false).

(** gui_main.cpp: nothing is rebuilt that need not be. *)
Definition refresh_scaling_if_needed (exists_ loads : bytes → bool) (s : ui_scale_state) : ui_scale_state :=
  if negb (font_rebuild_needed s) then s else (rebuild_scaled_font exists_ loads s).2.

(** ** gui_main.cpp: the first size of the window *)

Definition WINDOW_MIN_WIDTH : Z := 900.
Definition WINDOW_MIN_HEIGHT : Z := 600.

(** [work_area] is the usable area of the primary monitor, if there is one. *)
Definition compute_initial_window_size (work_area : option (Z * Z)) : Z * Z :=
  match work_area with
  | Some (work_width, work_height) =>
      if (work_width <=? 0) || (work_height <=? 0) then (WINDOW_MIN_WIDTH, WINDOW_MIN_HEIGHT)
      else
        (Z.max WINDOW_MIN_WIDTH (to_int (fmul (float_of work_width) (float_literal 82 100))),
         Z.max WINDOW_MIN_HEIGHT (to_int (fmul (float_of work_height) (float_literal 85 100))))
  | None => (WINDOW_MIN_WIDTH, WINDOW_MIN_HEIGHT)
  end.

(** ** intro_sequence.hpp, intro_sequence.cpp *)

Module intro_phase.
Inductive t := welcome | reveal | finished.
End intro_phase.

Definition INTRO_WELCOME_SECONDS : float := double_of 6.
Definition INTRO_FALLBACK_TOTAL_SECONDS : float := double_literal 125 10.
Definition REVEAL_STAGGER_SHARE : float := double_literal 45 100.
Definition REVEAL_DURATION_SHARE : float := double_literal 50 100.

Record intro_state := IntroState { intro_active : bool; elapsed_seconds : float; total_seconds : float }.

Definition new_intro : intro_state := IntroState false (double_of 0) INTRO_FALLBACK_TOTAL_SECONDS.

Definition begin_intro (track_seconds : float) : intro_state :=
  IntroState true (double_of 0)
    (if SFltb (dadd INTRO_WELCOME_SECONDS (double_of 1)) track_seconds then track_seconds else INTRO_FALLBACK_TOTAL_SECONDS).

Definition advance_intro (delta_seconds : float) (s : intro_state) : intro_state :=
  if negb (intro_active s) then s
  else
    let elapsed := dadd (elapsed_seconds s) delta_seconds in
    IntroState (negb (SFleb (total_seconds s) elapsed)) elapsed (total_seconds s).

Definition get_intro_phase (s : intro_state) : intro_phase.t :=
  if negb (intro_active s) then intro_phase.finished
  else if SFltb (elapsed_seconds s) INTRO_WELCOME_SECONDS then intro_phase.welcome
  else intro_phase.reveal.

Definition compute_element_reveal (s : intro_state) (index count : Z) : float :=
  match get_intro_phase s with
  | intro_phase.finished => float_of 1
  | intro_phase.welcome => float_of 0
  | intro_phase.reveal =>
      let span := dsub (total_seconds s) INTRO_WELCOME_SECONDS in
      if SFleb span (double_of 0) || (count <=? 0) then float_of 1
      else
        let stagger := ddiv (dmul span REVEAL_STAGGER_SHARE) (double_of count) in
        let local := dsub (dsub (elapsed_seconds s) INTRO_WELCOME_SECONDS) (dmul stagger (double_of index)) in
        if SFleb local (double_of 0) then float_of 0
        else
          let progress := ddiv local (dmul span REVEAL_DURATION_SHARE) in
          if SFleb (double_of 1) progress then float_of 1 else to_float progress
  end.

(** ** bubble_reveal.cpp *)

Definition REVEAL_RISE_PIXELS : float := float_of 46.
Definition BACK_OVERSHOOT : float := float_literal 170158 100000.

Definition clamp_unit (value : float) : float :=
  if SFltb value (float_of 0) then float_of 0 else if SFltb (float_of 1) value then float_of 1 else value.

Definition ease_out_cubic (progress : float) : float :=
  let inverted := fsub (float_of 1) (clamp_unit progress) in
  fsub (float_of 1) (fmul (fmul inverted inverted) inverted).

Definition ease_out_back (progress : float) : float :=
  let inverted := fsub (clamp_unit progress) (float_of 1) in
  fadd (fadd (float_of 1) (fmul (fmul (fmul (fadd BACK_OVERSHOOT (float_of 1)) inverted) inverted) inverted))
    (fmul (fmul BACK_OVERSHOOT inverted) inverted).

(** The opacity and the vertical position of what is being revealed, of those
    the style and the cursor have. *)
Definition begin_bubble_reveal (progress scale alpha cursor : float) : float * float :=
  let clamped := clamp_unit progress in
  let opacity := ease_out_cubic (fmul clamped (float_literal 145 100)) in
  let placement := ease_out_back clamped in
  (fmul alpha opacity, fadd cursor (fmul (fmul (fsub (float_of 1) placement) REVEAL_RISE_PIXELS) scale)).

(** ** draw_welcome_overlay.cpp *)

Definition CARD_FADE_SECONDS : float := double_literal 9 10.

Definition compute_card_opacity (s : intro_state) : float :=
  let elapsed := elapsed_seconds s in
  let remaining := dsub INTRO_WELCOME_SECONDS elapsed in
  if SFltb elapsed CARD_FADE_SECONDS then ease_out_cubic (to_float (ddiv elapsed CARD_FADE_SECONDS))
  else if SFltb remaining CARD_FADE_SECONDS
  then ease_out_cubic (to_float (ddiv (fmax (double_of 0) remaining) CARD_FADE_SECONDS))
  else float_of 1.

(** ** Comparisons and numbers *)

Definition is_number (x : float) : bool := match x with S754_nan => false | _ => true end.
Definition is_finite (x : float) : bool := match x with S754_zero _ | S754_finite _ _ _ => true | _ => false end.

Definition within (low high x : float) : bool := SFleb low x && SFleb x high.

Lemma compare_opposite (a b : float) : is_number a = true → is_number b = true →
  ∃ c, SFcompare a b = Some c ∧ SFcompare b a = Some (CompOpp c).
Proof.
  assert (∀ m n, Pos.compare_cont Eq n m = CompOpp (Pos.compare_cont Eq m n)) as Hpos
    by (intros m n; exact (eq_sym (Pos.compare_cont_antisym m n Eq))).
  destruct a as [[]|[]| |[] m e], b as [[]|[]| |[] n f]; intros Ha Hb; try discriminate;
    cbn; try (eexists; split; reflexivity);
    rewrite (Z.compare_antisym e f), (Hpos m n); destruct (Z.compare e f), (Pos.compare_cont Eq m n);
    eexists; split; reflexivity.
Qed.

Lemma not_below (a b : float) : is_number a = true → is_number b = true → SFltb a b = false → SFleb b a = true.
Proof.
  intros Ha Hb. unfold SFltb, SFleb. destruct (compare_opposite a b Ha Hb) as (c & -> & ->). by destruct c.
Qed.

(** A number put between two others is between them. *)
Lemma clamped_within (low high x : float) : is_number low = true → is_number high = true → is_number x = true →
  SFleb low high = true → SFleb low low = true → SFleb high high = true →
  within low high (if SFltb x low then low else if SFltb high x then high else x) = true.
Proof.
  intros Hlow Hhigh Hx Hle Hll Hhh. unfold within. destruct (SFltb x low) eqn:E1; [by rewrite Hll, Hle|].
  destruct (SFltb high x) eqn:E2; [by rewrite Hle, Hhh|]. by rewrite (not_below x low), (not_below high x).
Qed.

Lemma within_finite (low high x : float) : is_finite low = true → is_finite high = true →
  within low high x = true → is_finite x = true.
Proof.
  unfold within. intros Hlow Hhigh [H1 H2]%andb_true_iff.
  destruct x as [|[]| |]; [done|..|done];
    destruct low as [[]|[]| |[]], high as [[]|[]| |[]]; discriminate.
Qed.

(** Rounding gives a number. *)
Section rounding.
Context (precision emax : Z).

Lemma shr_1_nonneg r : 0 <= shr_m r → 0 <= shr_m (shr_1 r).
Proof. destruct r as [[|[]|[]] [] []]; cbn; lia. Qed.

Lemma iter_shr_nonneg n r : 0 <= shr_m r → 0 <= shr_m (SpecFloat.iter_pos shr_1 n r).
Proof.
  revert r. induction n as [n IH|n IH|]; intros r Hr; cbn; [|by apply IH, IH|by apply shr_1_nonneg].
  by apply IH, IH, shr_1_nonneg.
Qed.

Lemma shr_fexp_nonneg m e l : 0 <= m → 0 <= shr_m (shr_fexp precision emax m e l).1.
Proof.
  intros Hm. unfold shr_fexp, shr. assert (0 <= shr_m (shr_record_of_loc m l)) as Hr by (by destruct l as [|[]]).
  destruct (_ - e); [done|by apply iter_shr_nonneg|done].
Qed.

Lemma round_aux_number s m e l : 0 <= m → is_number (binary_round_aux precision emax s m e l) = true.
Proof.
  intros Hm. unfold binary_round_aux.
  pose proof (shr_fexp_nonneg m e l Hm) as H1. destruct (shr_fexp precision emax m e l) as [r1 e1]. cbn [fst] in H1.
  set (m1 := round_nearest_even _ _). assert (0 <= m1) as Hm1.
  { unfold m1, round_nearest_even. destruct (loc_of_shr_record r1) as [|[]]; [done| |done|lia]. case_match; lia. }
  pose proof (shr_fexp_nonneg m1 e1 loc_Exact Hm1) as H2. destruct (shr_fexp precision emax m1 e1 loc_Exact) as [r2 e2].
  cbn [fst] in H2. destruct (shr_m r2); [done|by case_match|lia].
Qed.

Lemma normalize_number m e s : is_number (binary_normalize precision emax m e s) = true.
Proof.
  unfold binary_normalize, binary_round. destruct m; [done|..]; destruct (shl_align _ _ _); by apply round_aux_number.
Qed.

Lemma add_number x y : is_finite x = true → is_number y = true → is_number (SFadd precision emax x y) = true.
Proof. destruct x as [[]|[]| |[]], y as [[]|[]| |[]]; try done; intros _ _; apply normalize_number. Qed.

Lemma sub_number x y : is_finite x = true → is_number y = true → is_number (SFsub precision emax x y) = true.
Proof. destruct x as [[]|[]| |[]], y as [[]|[]| |[]]; try done; intros _ _; apply normalize_number. Qed.

(** Of a number and a nonzero one. *)
Lemma mul_number x s m e : is_number x = true → is_number (SFmul precision emax x (S754_finite s m e)) = true.
Proof. destruct x as [[]|[]| |[]]; try done; intros _; by apply round_aux_number. Qed.
End rounding.

(** ** The scale stays within its bounds *)

Definition zoom_ok (zoom : float) : bool := within MIN_USER_ZOOM MAX_USER_ZOOM zoom.

Lemma zoom_finite zoom : zoom_ok zoom = true → is_finite zoom = true.
Proof. by apply within_finite. Qed.

Lemma clamp_zoom_ok value : is_number value = true → zoom_ok (clamp_user_zoom value) = true.
Proof. intros Hvalue. by apply clamped_within. Qed.

Lemma compared_number a b : SFltb a b = true → is_number a = true ∧ is_number b = true.
Proof. unfold SFltb. by destruct a as [|[]| |], b as [|[]| |]. Qed.

Lemma handle_zoom_ok io s : zoom_ok (user_zoom s) = true → zoom_ok (user_zoom (handle_zoom_input io s).2) = true.
Proof.
  intros Hs. pose proof (zoom_finite _ Hs) as Hfinite. unfold handle_zoom_input. destruct (key_ctrl io); cbn [negb]; [|done].
  set (zoom := if plus_pressed io then _ else _). enough (zoom_ok zoom = true) by (by case_match).
  unfold zoom, fadd, fsub, fmul. destruct (plus_pressed io); [by apply clamp_zoom_ok, add_number|].
  destruct (minus_pressed io); [by apply clamp_zoom_ok, sub_number|].
  destruct (zero_pressed io); [done|]. destruct (_ || _) eqn:Ewheel; [|done].
  assert (is_number (mouse_wheel io) = true) as Hwheel by (by apply orb_true_iff in Ewheel as [[? ?]%compared_number|[? ?]%compared_number]).
  apply clamp_zoom_ok, add_number; [done|]. change USER_ZOOM_STEP with (S754_finite false 13421773 (-27)). by apply mul_number.
Qed.

Inductive scale_event := ZoomKeys (io : zoom_input) | ZoomOut | ZoomIn | FontRebuilt (exists_ loads : bytes → bool).

Definition scale_step (e : scale_event) (s : ui_scale_state) : ui_scale_state :=
  match e with
  | ZoomKeys io => (handle_zoom_input io s).2
  | ZoomOut => zoom_out s
  | ZoomIn => zoom_in s
  | FontRebuilt exists_ loads => refresh_scaling_if_needed exists_ loads s
  end.

Lemma scale_step_ok e s : zoom_ok (user_zoom s) = true →
  zoom_ok (user_zoom (scale_step e s)) = true ∧ display_scale (scale_step e s) = display_scale s.
Proof.
  intros Hs. pose proof (zoom_finite _ Hs) as Hfinite. destruct e as [io| | |exists_ loads]; cbn [scale_step].
  - split; [by apply handle_zoom_ok|]. unfold handle_zoom_input. by repeat case_match.
  - split; [|done]. by apply clamp_zoom_ok, sub_number.
  - split; [|done]. by apply clamp_zoom_ok, add_number.
  - unfold refresh_scaling_if_needed. by case_match.
Qed.

(** C37: the interface stays readable: whatever the keys, the buttons and the wheel
    have done (a wheel may turn by any float), the user's zoom is between 70%
    and 250%, and the scale everything is drawn at between 0.6 and 4, on any
    screen of which the reported scale is a number. *)
Theorem scale_stays_bounded (content_scale : float * float) (mode_width : option Z) (events : list scale_event)
    (Hnumber : is_number (display_scale (detect_display_scale content_scale mode_width new_scale_state)) = true) :
  let s := fold_left (λ s e, scale_step e s) events (detect_display_scale content_scale mode_width new_scale_state) in
  within MIN_USER_ZOOM MAX_USER_ZOOM (user_zoom s) = true ∧
  within (float_literal 6 10) (float_of 4) (compute_effective_scale s) = true.
Proof.
  set (s0 := detect_display_scale content_scale mode_width new_scale_state) in *.
  assert (zoom_ok (user_zoom s0) = true) as Hs0 by (unfold s0, detect_display_scale; by destruct content_scale).
  clearbody s0. intros s. assert (zoom_ok (user_zoom s) = true ∧ is_number (display_scale s) = true) as [Hzoom Hdisplay].
  { unfold s. clear s. revert s0 Hs0 Hnumber. induction events as [|e events IH]; intros s0 Hs0 Hnumber; [done|].
    destruct (scale_step_ok e s0 Hs0) as [H1 H2]. cbn. apply IH; [done|by rewrite H2]. }
  split; [exact Hzoom|]. unfold compute_effective_scale. apply clamped_within; try done.
  destruct (user_zoom s) as [[]|[]| |sign m e] eqn:Euser; try discriminate Hzoom. by apply mul_number.
Qed.

Lemma scale_stays_bounded_witness :
  let s := fold_left (λ s e, scale_step e s) (replicate 9 ZoomOut)
             (detect_display_scale (float_of 1, float_of 1) (Some 1920) new_scale_state) in
  within MIN_USER_ZOOM MAX_USER_ZOOM (user_zoom s) = true ∧ zoom_percentage s = lit "80%".
Proof.
  split; [|vm_compute; reflexivity].
  exact (proj1 (scale_stays_bounded (float_of 1, float_of 1) (Some 1920) (replicate 9 ZoomOut) eq_refl)).
Defined.
