(* ===== verification/Audio.v ===== *)
(** The music of the welcome (client/ui/audio_player.cpp): looking for the file,
    and the engine and the sound of miniaudio, which is the calls made of it and
    what it answers. *)

From Stdlib Require Import SpecFloat.
From S2P Require Import Prelude.
From S2P Require Import Wire.
From S2P Require Import Presentation.

(** ** Finding the file *)

(** [parent_path] of a path that the system gives, which is absolute and has no
    empty component. *)
Fixpoint drop_component (reversed : bytes) : bytes :=
  match reversed with
  | [] => []
  | b :: reversed => if decide (b = byte_of 47) then reversed else drop_component reversed
  end.

Definition parent_path (path : bytes) : bytes :=
  match rev (drop_component (rev path)) with
  | [] => if bool_decide (byte_of 47 ∈ path) then lit "/" else []
  | parent => parent
  end.

(** [operator/] of paths. *)
Definition path_append (base name : bytes) : bytes :=
  if decide (head name = Some (byte_of 47)) then name
  else if bool_decide (base = []) || bool_decide (last base = Some (byte_of 47)) then base ++ name
  else base ++ lit "/" ++ name.

Record audio_system := AudioSystem {
  executable_link : option bytes;
  working_directory : bytes;
  is_regular : bytes → bool;
  engine_starts : nat → bool;
  sound_decodes : nat → bytes → bool;
  sound_length : nat → option float;
  sound_plays : nat → bool;
}.

(** What was asked of miniaudio, with its answer. *)
Inductive audio_call :=
| EngineInit (done : bool)
| SoundInit (path : bytes) (done : bool)
| SoundLength (length : option float)
| SoundStart (done : bool)
| SoundUninit
| EngineUninit.

(** The private state, and the calls made so far. *)
Record audio_player := AudioPlayer {
  engine_ready : bool;
  sound_ready : bool;
  length_seconds : float;
  calls : list audio_call;
}.

Definition new_player : audio_player := AudioPlayer false false (double_of 0) [].

Section audio.
Context (system : audio_system).

Definition find_executable_directory : bytes :=
  match executable_link system with
  | Some target => parent_path target
  | None => working_directory system
  end.

Definition asset_candidates (file_name : bytes) : list bytes :=
  let base := find_executable_directory in
  let up := lit ".." in
  [path_append base file_name;
   path_append (path_append base (lit "assets")) file_name;
   path_append (path_append base up) file_name;
   path_append (path_append (path_append base up) up) file_name;
   path_append (path_append (path_append (path_append base up) up) up) file_name;
   file_name].

Definition find_asset_path (file_name : bytes) : bytes :=
  default [] (List.find (is_regular system) (asset_candidates file_name)).

(** ** Playing it *)

Abbreviation player_of := (state audio_player).

(** One call of miniaudio, by its number. *)
Definition ask {A} (answer : nat → A) (call : A → audio_call) : player_of A := λ p,
  let a := answer (length (calls p)) in
  (a, AudioPlayer (engine_ready p) (sound_ready p) (length_seconds p) (calls p ++ [call a])).
Definition tell (call : audio_call) : player_of unit := ask (λ _, tt) (λ _, call).

Definition set_engine_ready (ready : bool) : player_of unit :=
  smodify (λ p, AudioPlayer ready (sound_ready p) (length_seconds p) (calls p)).
Definition set_sound_ready (ready : bool) : player_of unit :=
  smodify (λ p, AudioPlayer (engine_ready p) ready (length_seconds p) (calls p)).
Definition set_length (length : float) : player_of unit :=
  smodify (λ p, AudioPlayer (engine_ready p) (sound_ready p) length (calls p)).

Definition stop_track : player_of unit :=
  let* sound := sgets sound_ready in
  do* (if (sound : bool) then do* tell SoundUninit in set_sound_ready false else sret tt) in
  let* engine := sgets engine_ready in
  if (engine : bool) then do* tell EngineUninit in set_engine_ready false else sret tt.

(** The error, or nothing. *)
Definition start_track (file_name : bytes) : player_of (option bytes) :=
  let path := find_asset_path file_name in
  if decide (path = []) then sret (Some (lit "fichier audio introuvable : " ++ file_name))
  else
    let* engine := ask (engine_starts system) EngineInit in
    if negb engine then sret (Some (lit "aucune sortie audio disponible"))
    else
      do* set_engine_ready true in
      let* sound := ask (λ n, sound_decodes system n path) (SoundInit path) in
      if negb sound then do* stop_track in sret (Some (lit "decodage impossible : " ++ path))
      else
        do* set_sound_ready true in
        let* length := ask (sound_length system) SoundLength in
        do* (match length with Some length => set_length (to_double length) | None => sret tt end) in
        let* plays := ask (sound_plays system) SoundStart in
        if negb plays then do* stop_track in sret (Some (lit "demarrage de la lecture impossible"))
        else sret None.

Definition get_track_length_seconds (p : audio_player) : float := length_seconds p.
End audio.

(** ** What is held of miniaudio *)

(** Engines initialised and not released. *)
Definition engine_change (call : audio_call) : Z :=
  match call with EngineInit true => 1 | EngineUninit => -1 | _ => 0 end.
Definition sound_change (call : audio_call) : Z :=
  match call with SoundInit _ true => 1 | SoundUninit => -1 | _ => 0 end.
Definition live (change : audio_call → Z) (p : audio_player) : Z := foldr Z.add 0 (map change (calls p)).

(** The flags tell what is held. *)
Definition accounted (p : audio_player) : Prop :=
  live engine_change p = Z.b2z (engine_ready p) ∧ live sound_change p = Z.b2z (sound_ready p).

Lemma live_snoc change e s x cs c :
  live change (AudioPlayer e s x (cs ++ [c])) = live change (AudioPlayer e s x cs) + change c.
Proof.
  unfold live. cbn [calls]. rewrite map_app. induction (map change cs) as [|z zs IH]; cbn in *; [lia|]. rewrite IH. lia.
Qed.

(** What is held does not depend on the flags. *)
Lemma live_calls change e s x e' s' x' cs :
  live change (AudioPlayer e s x cs) = live change (AudioPlayer e' s' x' cs).
Proof. done. Qed.

(** Releasing what is held. *)
Lemma stop_track_releases p : let p' := (stop_track p).2 in
  engine_ready p' = false ∧ sound_ready p' = false ∧ length_seconds p' = length_seconds p ∧
  live engine_change p' = live engine_change p - Z.b2z (engine_ready p) ∧
  live sound_change p' = live sound_change p - Z.b2z (sound_ready p).
Proof.
  destruct p as [[] [] len cs]; unfold stop_track, tell, ask, set_sound_ready, set_engine_ready, smodify, sgets, sbind, sret; cbn -[live];
    split_and!; try done; rewrite ?live_snoc; cbn; unfold live; cbn; lia.
Qed.

(** Noting the length changes nothing else. *)
Lemma length_kept (answer : option float) q : ∃ len',
  match answer with Some l => set_length (to_double l) | None => sret tt end q =
    (tt, AudioPlayer (engine_ready q) (sound_ready q) len' (calls q)).
Proof. destruct answer as [l|], q; eexists; reflexivity. Qed.

Section starting.
Context (system : audio_system) (file_name : bytes).

(** What a start does: nothing when there is no file or no engine; otherwise an
    engine and perhaps a sound more, both released again when it fails. *)
Lemma start_track_spec p (found := bool_decide (find_asset_path system file_name ≠ [])) :
  let '(failure, p') := start_track system file_name p in
  match failure with
  | None => engine_ready p' = true ∧ sound_ready p' = true ∧
      live engine_change p' = live engine_change p + 1 ∧ live sound_change p' = live sound_change p + 1
  | Some _ =>
      if found && engine_starts system (length (calls p))
      then engine_ready p' = false ∧ sound_ready p' = false ∧ live engine_change p' = live engine_change p ∧
           (live sound_change p' = live sound_change p ∨ live sound_change p' = live sound_change p - 1 ∧ sound_ready p = true)
      else engine_ready p' = engine_ready p ∧ sound_ready p' = sound_ready p ∧
           live engine_change p' = live engine_change p ∧ live sound_change p' = live sound_change p
  end.
Proof.
  unfold start_track, found. destruct (decide (find_asset_path system file_name = [])) as [Hnone|Hfound].
  { rewrite bool_decide_false by (by intros ?). done. }
  rewrite bool_decide_true by done. destruct p as [e s len cs].
  unfold sbind at 1, ask at 1. cbn [calls engine_ready sound_ready length_seconds andb].
  destruct (engine_starts system (length cs)); cbn [negb].
  2:{ unfold sret. split_and!; try done; rewrite live_snoc; cbn; unfold live; cbn; lia. }
  unfold sbind at 1, set_engine_ready at 1, smodify at 1. unfold sbind at 1, ask at 1. cbn [calls sound_ready length_seconds].
  destruct (sound_decodes system _ _); cbn [negb].
  2:{ unfold sbind, sret. set (q := AudioPlayer _ _ _ _). pose proof (stop_track_releases q) as (H1 & H2 & _ & H3 & H4).
      destruct (stop_track q) as [[] q']. cbn [snd] in *. split_and!; [done|done| |];
        [rewrite H3|rewrite H4]; unfold q; rewrite !live_snoc; cbn; unfold live; cbn; destruct s; cbn; [lia|lia| |];
        [right; split; [lia|done]|left; lia]. }
  unfold sbind at 1, set_sound_ready at 1, smodify at 1. unfold sbind at 1, ask at 1. cbn [calls engine_ready length_seconds].
  unfold sbind at 1.
  match goal with
  | |- context [match ?answer with Some l => set_length (to_double l) | None => sret tt end ?q] =>
      destruct (length_kept answer q) as [len' ->]
  end.
  unfold sbind at 1, ask at 1. cbn [calls engine_ready sound_ready length_seconds].
  destruct (sound_plays system _); cbn [negb].
  - unfold sret. split_and!; try done; rewrite !live_snoc; cbn; unfold live; cbn; lia.
  - unfold sbind, sret. match goal with |- context [stop_track ?p] => set (q' := p) end. pose proof (stop_track_releases q') as (H1 & H2 & _ & H3 & H4).
    destruct (stop_track q') as [[] q'']. cbn [snd] in *. split_and!; [done|done| |left];
      [rewrite H3|rewrite H4]; unfold q'; cbn [calls engine_ready sound_ready]; rewrite !live_snoc; cbn; unfold live; cbn; lia.
Qed.
End starting.
