(* ===== verification/Drawing.v ===== *)
(** What the graphical client draws, and what the person before it does to it:
    the panels of client/ui/draw_*.cpp and the frame of gui_main.cpp. Dear ImGui
    is in immediate mode: a frame is one run of the drawing functions, in which
    each widget is shown and answers at once whether it was used. The answers
    are an argument (the person, who sees what was drawn so far); positions,
    sizes and colours of the style are not part of what is shown. *)

From Stdlib Require Import SpecFloat.
From S2P Require Import Prelude.
From S2P Require Import Wire.
From S2P Require Import Codec.
From S2P Require Import TextTools.
From S2P Require Import Sodium.
From S2P Require Import DirectMessages.
From S2P Require Import SessionMessages.
From S2P Require Import ContentMessages.
From S2P Require Import SocialMessages.
From S2P Require Import Files.
From S2P Require Import ClientOptions.
From S2P Require Import Keystore.
From S2P Require Import ClientNet.
From S2P Require Import ClientSession.
From S2P Require Import GraphicalClient.
From S2P Require Import I18n.
From S2P Require Import Presentation.

(** ** Widgets and the person who uses them *)

Inductive tint := plain | ink | ink_muted | accent | accent_text | alert.

Inductive widget :=
| Text (color : tint) (text : bytes)
| TextDisabled (text : bytes)
| Button (label : bytes)
| SmallButton (label : bytes)
| Selectable (label : bytes) (selected : bool)
| InputText (label : bytes) (capacity : Z) (contents : bytes)
| OpenScope (name : bytes)
| CloseScope
| PushID (id : Z)
| PopID.

#[export] Instance tint_eq_dec : EqDecision tint.
Proof. solve_decision. Defined.
#[export] Instance widget_eq_dec : EqDecision widget.
Proof. solve_decision. Defined.

(** Of the widgets drawn so far in the frame, the last one first, and the
    widget: whether it is pressed, what it is made to contain, whether Enter is
    typed in it. *)
Class Person := {
  presses : list widget → widget → bool;
  writes : list widget → widget → option bytes;
  confirms : list widget → widget → bool;
}.

(** Somebody who watches. *)
Definition bystander : Person :=
  {| presses := λ _ _, false; writes := λ _ _, None; confirms := λ _ _, false |}.

(** ** A frame under way *)

Record canvas (W : Type) := Canvas { world_of : W; shown : list widget }.
Arguments Canvas {W}.
Arguments world_of {W}.
Arguments shown {W}.

(** A drawing function: [None] is undefined behaviour. *)
Definition ui (W A : Type) : Type := canvas W → option (A * canvas W).

#[export] Instance ui_ret W : MRet (ui W) := λ A a c, Some (a, c).
#[export] Instance ui_bind W : MBind (ui W) := λ A B k m c,
  match m c with
  | Some (a, c') => k a c'
  | None => None
  end.

(** What the program reads and does. *)
Definition look {W} : ui W W := λ c, Some (world_of c, c).
Definition act {W A} (m : state W A) : ui W A := λ c,
  let '(a, w) := m (world_of c) in Some (a, Canvas w (shown c)).

Definition show {W} (x : widget) : ui W unit := λ c, Some (tt, Canvas (world_of c) (x :: shown c)).

(** The text a field of [capacity] bytes can hold: its end is marked by a zero. *)
Definition fits_field (capacity : Z) (text : bytes) : bool :=
  (size_of text <? capacity) && forallb (λ b, negb (byte_val b =? 0)) text.

Section widgets.
Context `{Person} {W : Type}.

Definition press (x : widget) : ui W bool := λ c, Some (presses (shown c) x, Canvas (world_of c) (x :: shown c)).

(** A field: what is written into it, if it fits. *)
Definition edit (label : bytes) (capacity : Z) (contents : W → bytes) (store : bytes → W → W) : ui W widget := λ c,
  let x := InputText label capacity (contents (world_of c)) in
  let w :=
    match writes (shown c) x with
    | Some text => if fits_field capacity text then store text (world_of c) else world_of c
    | None => world_of c
    end in
  Some (x, Canvas w (x :: shown c)).

Definition when_pressed (x : widget) (handler : ui W unit) : ui W unit :=
  pressed ← press x; if (pressed : bool) then handler else mret tt.

Definition draw_section_heading (label : bytes) : ui W unit := show (Text accent_text label).

Definition draw_status_dot (secure : bool) (label : bytes) : ui W unit :=
  show (Text (if secure then accent_text else alert) (if secure then lit "[ok]" else lit "[!]"));;
  show (Text plain label).

Fixpoint draw_each {A} (draw : A → ui W unit) (items : list A) : ui W unit :=
  match items with
  | [] => mret tt
  | item :: items => draw item;; draw_each draw items
  end.
End widgets.

(** ** The panels of a server *)

(** The input fields of a server's view. *)
Inductive input_field :=
| forum_name | forum_description | post_title | post_body | comment_text | display_name_text | bio_text | recipient_text
| direct_text | handle_text | friend_text.

Definition field_contents (field : input_field) (v : ui_state.t) : bytes :=
  match field with
  | forum_name => ui_state.forum_name_input v
  | forum_description => ui_state.forum_description_input v
  | post_title => ui_state.post_title_input v
  | post_body => ui_state.post_body_input v
  | comment_text => ui_state.comment_input v
  | display_name_text => ui_state.display_name_input v
  | bio_text => ui_state.bio_input v
  | recipient_text => ui_state.dm_recipient_input v
  | direct_text => ui_state.dm_text_input v
  | handle_text => ui_state.registration_handle_input v
  | friend_text => ui_state.friend_add_input v
  end.

(** [sizeof] of the buffers of ui_state.hpp. *)
Definition field_capacity (field : input_field) : Z :=
  match field with
  | forum_name => 64 | forum_description => 256 | post_title => 256 | post_body => 4096 | comment_text => 2048
  | display_name_text => 64 | bio_text => 1024 | recipient_text => 80 | direct_text => 2048 | handle_text => 64
  | friend_text => 80
  end.

Definition input_field_eqb (a b : input_field) : bool :=
  match a, b with
  | forum_name, forum_name | forum_description, forum_description | post_title, post_title | post_body, post_body
  | comment_text, comment_text | display_name_text, display_name_text | bio_text, bio_text
  | recipient_text, recipient_text | direct_text, direct_text | handle_text, handle_text | friend_text, friend_text => true
  | _, _ => false
  end.

Definition store_field (field : input_field) (text : bytes) (v : ui_state.t) : ui_state.t :=
  let f other := if input_field_eqb other field then text else field_contents other v in
  ui_state.set_inputs (f forum_name) (f forum_description) (f post_title) (f post_body) (f comment_text)
    (f display_name_text) (f bio_text) (f recipient_text) (f direct_text) (f handle_text) (f friend_text) v.

Section panels.
Context `{Sodium} `{Desktop} `{Person}.
Context (owner : identity_keypair).

Abbreviation panel_of := (ui slot_world).

Definition seen {A} (f : ui_state.t → A) : panel_of A := λ c, Some (f (view (world_of c)), c).

(** [tr] in the language of the view. *)
Definition translated (key : bytes) : panel_of bytes := lang ← seen ui_state.current_lang; mret (tr key lang).

Definition heading (key : bytes) : panel_of unit := text ← translated key; draw_section_heading text.
Definition label_text (color : tint) (key : bytes) : panel_of unit := text ← translated key; show (Text color text).
Definition label_disabled (key : bytes) : panel_of unit := text ← translated key; show (TextDisabled text).
Definition on_button (key : bytes) (handler : action) : panel_of unit :=
  text ← translated key; when_pressed (Button text) (act handler).
Definition on_small_button (key : bytes) (handler : action) : panel_of unit :=
  text ← translated key; when_pressed (SmallButton text) (act handler).

Definition edit_field (label : bytes) (field : input_field) : panel_of widget :=
  edit label (field_capacity field) (λ w, field_contents field (view w))
    (λ text w, SlotWorld (client_of w) (store_field field text (view w)) (draws w)).

(** The name of a translated field is its label. *)
Definition input (key : bytes) (field : input_field) : panel_of unit :=
  label ← translated key; edit_field label field;; mret tt.
Definition unnamed_input (label : bytes) (field : input_field) : panel_of unit := edit_field label field;; mret tt.

(** *** draw_thread_panel.cpp *)

Definition is_own_content (author : bytes) : bool := bool_decide (author = public_key_ owner).
Definition is_removed (body : bytes) : bool := bool_decide (body = []).

Definition draw_post_header : panel_of unit :=
  post ← seen ui_state.open_post;
  show (Text ink (post_record.title post));;
  show (Text ink_muted (lit "@" ++ post_record.author_handle post));;
  (if is_removed (post_record.body post) then mret tt
   else if is_own_content (post_record.author_pubkey post)
   then on_small_button (lit "delete_action") (delete_post owner (post_record.id post))
   else on_small_button (lit "report_action") (report_post owner (post_record.id post)));;
  post ← seen ui_state.open_post;
  if is_removed (post_record.body post) then label_text ink_muted (lit "content_removed")
  else show (Text plain (post_record.body post)).

(** The storage of the comments must still be the one the loop walks. *)
Definition dereference (buffer : nat) : panel_of unit := λ c,
  if (ui_state.comments_buffer (view (world_of c)) =? buffer)%nat then Some (tt, c) else None.

(** The body of the loop, from its first look at the comment; [static_cast<int>]
    of the identifier wraps. *)
Definition draw_comment (buffer : nat) (comment : comment_record.t) : panel_of unit :=
  dereference buffer;;
  show (Text ink_muted (lit "@" ++ comment_record.author_handle comment));;
  (if is_removed (comment_record.body comment) then label_text ink_muted (lit "content_removed")
   else show (Text plain (comment_record.body comment)));;
  show (PushID (wrap 32 (comment_record.id comment)));;
  on_small_button (lit "reply_action") (submit_comment owner (comment_record.id comment));;
  dereference buffer;;
  (if is_removed (comment_record.body comment) then mret tt
   else if is_own_content (comment_record.author_pubkey comment)
   then on_small_button (lit "delete_action") (delete_comment owner (comment_record.id comment))
   else on_small_button (lit "report_action") (report_account owner (comment_record.author_pubkey comment)));;
  show PopID.

Definition draw_comment_tree : panel_of unit :=
  comments ← seen ui_state.comments;
  buffer ← seen ui_state.comments_buffer;
  draw_each (draw_comment buffer) comments.

Definition draw_thread_column : panel_of unit :=
  show (OpenScope (lit "colonne_fil"));;
  selected ← seen ui_state.selected_post_id;
  if selected =? 0 then label_disabled (lit "post_read_empty");; show CloseScope
  else
    draw_post_header;;
    heading (lit "replies_heading");;
    show (OpenScope (lit "comment_tree"));;
    draw_comment_tree;;
    truncated ← seen ui_state.thread_truncated;
    (if (truncated : bool) then label_disabled (lit "thread_truncated") else mret tt);;
    show CloseScope;;
    unnamed_input (lit "##reponse") comment_text;;
    on_button (lit "post_reply_btn") (submit_comment owner 0);;
    show CloseScope.

(** *** draw_forum_panel.cpp *)

Definition draw_forum_creator : panel_of unit :=
  heading (lit "forum_create_heading");;
  input (lit "forum_create_name") forum_name;;
  input (lit "forum_create_desc") forum_description;;
  on_button (lit "forum_create_btn") (create_forum owner).

Definition draw_forum (forum : forum_record.t) : panel_of unit :=
  selected ← seen ui_state.selected_forum_id;
  when_pressed
    (Selectable (forum_record.name forum ++ lit "  (" ++ decimal (forum_record.post_count forum) ++ lit ")")
       (forum_record.id forum =? selected))
    (act (select_forum owner (forum_record.id forum))).

Definition draw_forum_list : panel_of unit :=
  heading (lit "forum_heading");;
  on_button (lit "forum_btn_refresh") (refresh_forum_list owner);;
  show (OpenScope (lit "forum_list"));;
  forums ← seen ui_state.forums;
  draw_each draw_forum forums;;
  show CloseScope;;
  draw_forum_creator.

Definition draw_post (post : post_record.t) : panel_of unit :=
  selected ← seen ui_state.selected_post_id;
  when_pressed
    (Selectable (post_record.title post ++ lit "   @" ++ post_record.author_handle post) (post_record.id post =? selected))
    (act (open_thread owner (post_record.id post))).

Definition draw_post_list : panel_of unit :=
  heading (lit "thread_list_heading");;
  selected ← seen ui_state.selected_forum_id;
  if selected =? 0 then label_disabled (lit "thread_list_empty")
  else
    show (OpenScope (lit "post_list"));;
    posts ← seen ui_state.posts;
    draw_each draw_post posts;;
    show CloseScope.

Definition draw_post_composer : panel_of unit :=
  selected ← seen ui_state.selected_forum_id;
  if selected =? 0 then mret tt
  else
    heading (lit "thread_create_heading");;
    input (lit "thread_create_title") post_title;;
    input (lit "thread_create_body") post_body;;
    on_button (lit "thread_create_btn") (submit_post owner);;
    label_disabled (lit "thread_create_hint").

Definition draw_forum_column : panel_of unit :=
  show (OpenScope (lit "colonne_forums"));;
  draw_forum_list;;
  draw_post_list;;
  draw_post_composer;;
  show CloseScope.

(** *** draw_dm_panel.cpp *)

Definition draw_profile_editor : panel_of unit :=
  heading (lit "profile_heading");;
  input (lit "profile_name") display_name_text;;
  input (lit "profile_bio") bio_text;;
  on_button (lit "profile_btn_save") (save_profile owner).

Definition draw_message (entry : decrypted_message) : panel_of unit :=
  show (Text ink_muted (take 16 (sender_hex entry)));;
  if readable entry then show (Text plain (message_text entry))
  else unreadable ← translated (lit "dm_unreadable"); show (Text alert (unreadable ++ lit " : " ++ message_text entry)).

Definition draw_inbox : panel_of unit :=
  show (OpenScope (lit "inbox"));;
  entries ← seen ui_state.inbox;
  draw_each draw_message entries;;
  show CloseScope.

(** Copying the key changes nothing but the clipboard. *)
Definition draw_identity_panel : panel_of unit :=
  heading (lit "identity_heading");;
  handle ← seen ui_state.handle;
  show (Text plain (lit "@" ++ handle));;
  key ← seen ui_state.identity_hex;
  show (Text ink_muted key);;
  on_button (lit "identity_copy_key") (sret tt);;
  label_text ink_muted (lit "identity_per_server");;
  draw_profile_editor.

Definition draw_dm_panel : panel_of unit :=
  heading (lit "dm_heading");;
  status ← translated (lit "dm_status");
  draw_status_dot true status;;
  label_text ink_muted (lit "dm_desc");;
  on_button (lit "dm_btn_prekey") (publish_own_prekey owner);;
  on_button (lit "dm_btn_inbox") (refresh_inbox owner);;
  draw_inbox;;
  input (lit "dm_recipient") recipient_text;;
  unnamed_input (lit "##dm") direct_text;;
  on_button (lit "dm_btn_send") (submit_direct_message owner).

(** *** draw_social_panel.cpp *)

Fixpoint find_slot_record (slot : bytes) (details : list friend_record.t) : option friend_record.t :=
  match details with
  | [] => None
  | record :: details => if decide (friend_record.pubkey record = slot) then Some record else find_slot_record slot details
  end.

Definition find_slot_detail (slot : bytes) (details : list friend_record.t) : option friend_record.t :=
  if decide (slot = empty_key) then None else find_slot_record slot details.

(** The slots are read where they are, as the loop reaches them. *)
Definition draw_top8_slot (removable : bool) (slots : ui_state.t → list bytes) (details : ui_state.t → list friend_record.t)
    (index : nat) : panel_of unit :=
  slot ← seen (λ v, slots v !!! index);
  records ← seen details;
  show (PushID (Z.of_nat index));;
  (match find_slot_detail slot records with
   | Some detail =>
       show (Text plain (decimal (Z.of_nat index + 1) ++ lit ". @" ++ friend_record.handle detail));;
       if removable then when_pressed (SmallButton (lit "x")) (act (remove_favorite index)) else mret tt
   | None => show (TextDisabled (decimal (Z.of_nat index + 1) ++ lit ". --"))
   end);;
  show PopID.

Definition draw_top8_grid (removable : bool) (slots : ui_state.t → list bytes) (details : ui_state.t → list friend_record.t)
    : panel_of unit :=
  draw_each (draw_top8_slot removable slots details) (seq 0 (Z.to_nat TOP8_SLOT_COUNT)).

Definition draw_friend (indexed : nat * friend_record.t) : panel_of unit :=
  let '(index, entry) := indexed in
  show (PushID (Z.of_nat index));;
  show (Text plain (lit "@" ++ friend_record.handle entry));;
  on_small_button (lit "social_view_btn") (view_profile owner (friend_record.pubkey entry));;
  on_small_button (lit "social_favorite_btn") (mark_favorite (friend_record.pubkey entry));;
  show PopID.

Definition draw_friends_panel : panel_of unit :=
  heading (lit "friends_heading");;
  on_button (lit "forum_btn_refresh") (refresh_friend_list owner);;
  show (OpenScope (lit "friends_list"));;
  friends ← seen ui_state.friends;
  draw_each draw_friend (imap pair friends);;
  show CloseScope;;
  input (lit "friends_add") friend_text;;
  on_small_button (lit "social_add_btn") (add_friend owner).

Definition draw_viewed_profile_panel : panel_of unit :=
  heading (lit "viewed_profile_heading");;
  profile ← seen ui_state.viewed_profile;
  if decide (profile_record.handle profile = []) then label_disabled (lit "viewed_profile_empty")
  else
    show (Text plain (lit "@" ++ profile_record.handle profile ++ lit "  (" ++ profile_record.display_name profile ++ lit ")"));;
    show (Text ink_muted (profile_record.bio profile));;
    on_small_button (lit "report_account_btn") (report_account owner (profile_record.pubkey profile));;
    show (OpenScope (lit "viewed_top8"));;
    draw_top8_grid false ui_state.viewed_top8_slots ui_state.viewed_top8_details;;
    show CloseScope.

Definition draw_own_top8_editor : panel_of unit :=
  heading (lit "top8_heading");;
  show (OpenScope (lit "own_top8"));;
  draw_top8_grid true ui_state.own_top8_slots ui_state.own_top8_details;;
  show CloseScope;;
  on_button (lit "social_save_btn") (submit_own_top8 owner).

Definition draw_social_panel : panel_of unit :=
  draw_friends_panel;; draw_viewed_profile_panel;; draw_own_top8_editor.

(** *** draw_dm_panel.cpp: the column *)

Definition is_direct_messages (tab : side_panel_tab) : bool := match tab with direct_messages => true | social => false end.

(** Which panel is drawn was decided before the tabs were. *)
Definition draw_side_column : panel_of unit :=
  show (OpenScope (lit "colonne_laterale"));;
  draw_identity_panel;;
  tab ← seen ui_state.active_side_tab;
  let dm_active := is_direct_messages tab in
  (if dm_active then label_disabled (lit "social_tab_dm")
   else on_small_button (lit "social_tab_dm") (put_view (ui_state.set_side_tab direct_messages)));;
  (if negb dm_active then label_disabled (lit "social_tab_social")
   else on_small_button (lit "social_tab_social") (put_view (ui_state.set_side_tab social)));;
  (if dm_active then draw_dm_panel else draw_social_panel);;
  show CloseScope.

(** *** gui_main.cpp: the three columns *)

Definition draw_columns : panel_of unit := draw_forum_column;; draw_thread_column;; draw_side_column.

(** *** draw_auth_modal.cpp *)

Definition draw_auth_modal : panel_of unit :=
  show (OpenScope (lit "creation_compte_modal"));;
  label_text accent (lit "auth_welcome");;
  label_text plain (lit "auth_desc_1");;
  label_text ink_muted (lit "auth_desc_2");;
  heading (lit "auth_handle_heading");;
  before ← (λ c : canvas slot_world, Some (shown c, c));
  field ← edit_field (lit "##registration_handle") handle_text;
  label_disabled (lit "auth_handle_hint");;
  status ← seen ui_state.status_message;
  error ← seen ui_state.status_is_error;
  (if decide (status = []) then mret tt else show (Text (if (error : bool) then alert else accent) status));;
  register ← translated (lit "auth_btn_register");
  pressed ← press (Button register);
  (if (pressed : bool) || confirms before field
   then success ← translated (lit "auth_success"); act (submit_registration owner success)
   else mret tt);;
  show CloseScope.
End panels.

(** ** The window *)

Record window := Window { client_state : application; scale_state : ui_scale_state }.

Abbreviation frame_of := (ui window).

Definition on_application {A} (m : state application A) : frame_of A :=
  act (zoom client_state (λ a w, Window a (scale_state w)) m).
Definition on_scale (f : ui_scale_state → ui_scale_state) : frame_of unit :=
  act (smodify (λ w, Window (client_state w) (f (scale_state w)))).
Definition application_now : frame_of application := λ c, Some (client_state (world_of c), c).

Section window.
Context `{Sodium} `{FileSystem} `{Desktop} `{Person}.

(** A panel of the server displayed, if there is one. *)
Definition on_active {A} (m : server_slot → ui slot_world A) : frame_of (option A) := λ c,
  let a := client_state (world_of c) in
  match slots a !! active_slot (app a) with
  | None => Some (None, c)
  | Some s =>
      match m s (Canvas (SlotWorld (slot_client s) (slot_view s) (app_draws a)) (shown c)) with
      | None => None
      | Some (result, c') =>
          let w := world_of c' in
          Some (Some result,
                Canvas (Window (Application (app a)
                                  (<[active_slot (app a) := ServerSlot (entry s) (slot_identity s) (client_of w) (view w)]> (slots a))
                                  (app_disk a) (draws w))
                         (scale_state (world_of c))) (shown c'))
      end
  end.

(** A text of the window, in its language. *)
Definition app_text (key : bytes) : frame_of bytes := a ← application_now; mret (tr key (app_lang (app a))).
Definition app_heading (key : bytes) : frame_of unit := text ← app_text key; draw_section_heading text.
Definition app_label (color : tint) (key : bytes) : frame_of unit := text ← app_text key; show (Text color text).

(** *** draw_server_bar.cpp *)

Definition draw_server_button (indexed : nat * server_slot) : frame_of unit :=
  let '(index, s) := indexed in
  show (PushID (Z.of_nat index));;
  when_pressed (Button (label (entry s))) (on_application (set_active_slot index));;
  show (Text (if ui_state.connected (slot_view s) then accent_text else ink_muted)
          (if ui_state.connected (slot_view s) then lit "[ok]" else lit "[--]"));;
  show PopID.

Definition INVITE_INPUT_SIZE : Z := 160.

Definition draw_invite_field : frame_of unit :=
  edit (lit "##invite") INVITE_INPUT_SIZE (λ w, invite_input (app (client_state w)))
    (λ text w, Window (set_invite_input text (client_state w)).2 (scale_state w));;
  mret tt.

Definition draw_server_bar : frame_of unit :=
  show (OpenScope (lit "barre_serveurs"));;
  app_heading (lit "servers_heading");;
  a ← application_now;
  draw_each draw_server_button (imap pair (slots a));;
  app_heading (lit "servers_add_heading");;
  app_label ink_muted (lit "servers_add_hint");;
  draw_invite_field;;
  add ← app_text (lit "servers_add_btn");
  when_pressed (Button add) (on_application add_server_from_invite);;
  a ← application_now;
  (if decide (app_status_message (app a) = []) then mret tt
   else show (Text (if app_status_is_error (app a) then alert else ink_muted) (app_status_message (app a))));;
  show CloseScope.

(** Whether the warning was shown. *)
Definition draw_trust_warning : frame_of bool :=
  a ← application_now;
  match slots a !! active_slot (app a) with
  | None => mret false
  | Some s =>
      if trust_acknowledged (entry s) then mret false
      else
        show (OpenScope (lit "##avertissement"));;
        app_heading (lit "trust_heading");;
        server ← app_text (lit "trust_server");
        show (Text plain (server ++ lit "  " ++ label (entry s)));;
        app_label ink (lit "trust_body");;
        app_label ink_muted (lit "trust_identity");;
        accept ← app_text (lit "trust_accept");
        when_pressed (Button accept) (on_application (acknowledge_slot_trust (active_slot (app a))));;
        show CloseScope;;
        mret true
  end.

Definition recovery_notice (lang : language) : bytes :=
  match lang with
  | french =>
      lit "Notez ces 12 mots sur papier, dans l'ordre. Ils ne seront plus jamais affiches. Avec eux, vous retrouvez toutes vos identites sur tous les serveurs ; sans eux, perdre le fichier de graine les perd toutes. Ne les partagez avec personne."
  | english =>
      lit "Write these 12 words down on paper, in order. They will never be shown again. With them you recover every identity on every server; without them, losing the seed file loses them all. Share them with nobody."
  end.

(** Whether the notice was shown. *)
Definition draw_recovery_phrase_notice : frame_of bool :=
  a ← application_now;
  if decide (pending_recovery_phrase (app a) = []) then mret false
  else
    let lang := app_lang (app a) in
    show (OpenScope (lit "##phrase_recuperation"));;
    draw_section_heading (match lang with french => lit "Phrase de recuperation" | english => lit "Recovery phrase" end);;
    show (Text plain (recovery_notice lang));;
    show (Text ink (pending_recovery_phrase (app a)));;
    when_pressed (Button (match lang with french => lit "J'ai note ma phrase" | english => lit "I wrote it down" end))
      (on_application (set_pending_phrase []));;
    show CloseScope;;
    mret true.

(** *** ui_scale.cpp *)

Definition draw_zoom_controls : frame_of unit :=
  on_active (λ _, label_disabled (lit "zoom_label"));;
  when_pressed (SmallButton (lit "-")) (on_scale zoom_out);;
  w ← look;
  show (Text plain (zoom_percentage (scale_state w)));;
  when_pressed (SmallButton (lit "+")) (on_scale zoom_in).

(** *** gui_main.cpp *)

Definition is_french (lang : language) : bool := match lang with french => true | english => false end.

Definition language_button (name : bytes) (lang : language) : ui slot_world unit :=
  current ← seen ui_state.current_lang;
  if bool_decide (is_french current = is_french lang) then show (TextDisabled name)
  else when_pressed (SmallButton name) (act (put_view (ui_state.set_current_lang lang))).

Definition draw_top_bar_left : ui slot_world unit :=
  connected ← seen ui_state.connected;
  status ← translated (if (connected : bool) then lit "status_encrypted" else lit "status_offline");
  draw_status_dot connected status;;
  show (TextDisabled (lit "|"));;
  server ← translated (lit "status_server");
  server_key ← seen ui_state.server_key_hex;
  show (TextDisabled (server ++ lit " " ++ take 16 server_key));;
  show (TextDisabled (lit "|"));;
  own ← translated (lit "status_identity");
  own_key ← seen ui_state.identity_hex;
  show (TextDisabled (own ++ lit " " ++ take 16 own_key));;
  show (TextDisabled (lit "|")).

Definition draw_top_bar_right : ui slot_world unit :=
  show (TextDisabled (lit "|"));;
  language_button (lit "FR") french;;
  language_button (lit "EN") english;;
  status ← seen ui_state.status_message;
  error ← seen ui_state.status_is_error;
  if decide (status = []) then mret tt else show (Text (if (error : bool) then alert else ink_muted) status).

Definition draw_top_bar : frame_of unit :=
  on_active (λ _, draw_top_bar_left);;
  draw_zoom_controls;;
  on_active (λ _, draw_top_bar_right);;
  mret tt.

(** The window takes the language of the server displayed. *)
Definition follow_language : state application unit :=
  let* a := sgets (λ a, a) in
  match slots a !! active_slot (app a) with
  | Some s => set_app_language (ui_state.current_lang (slot_view s))
  | None => sret tt
  end.

(** The columns of somebody registered, otherwise the registration card once
    the warning is acknowledged. *)
Definition draw_server (s : server_slot) : ui slot_world unit :=
  if ui_state.registered (slot_view s) then draw_columns (slot_identity s)
  else if trust_acknowledged (entry s) then draw_auth_modal (slot_identity s)
  else mret tt.

Definition draw_server_zone (io : zoom_input) : frame_of unit :=
  show (OpenScope (lit "zone_serveur"));;
  a ← application_now;
  (match slots a !! active_slot (app a) with
   | None => mret tt
   | Some _ =>
       draw_top_bar;;
       on_scale (λ s, (handle_zoom_input io s).2);;
       on_application follow_language;;
       on_active draw_server;;
       mret tt
   end);;
  show CloseScope.

(** The welcome message covers the window, and nothing else is done. *)
Definition draw_welcome_overlay : frame_of unit :=
  show (OpenScope (lit "accueil_hypercom"));;
  show (Text ink (lit "Bienvenue dans l'espace HyperCom."));;
  show (Text accent_text (lit "Amusez-vous et restez gentils !"));;
  show CloseScope.

Definition draw_application_frame (io : zoom_input) (intro : intro_state) : frame_of unit :=
  match get_intro_phase intro with
  | intro_phase.welcome => draw_welcome_overlay
  | _ =>
      on_application service_active_slot;;
      show (OpenScope (lit "hypercom"));;
      draw_server_bar;;
      draw_server_zone io;;
      show CloseScope;;
      notice ← draw_recovery_phrase_notice;
      if (notice : bool) then mret tt else draw_trust_warning;; mret tt
  end.
End window.
