(* ===== verification/RenderLoop.v ===== *)
(** The render loop of the graphical client (gui_main.cpp) and its refinement:
    every frame, whatever the person does in it, is a sequence of the steps of
    [GraphicalUse], each of which does only what the screen offers. *)

From Stdlib Require Import SpecFloat.
From stdpp Require Import relations.
From S2P Require Import Prelude.
From S2P Require Import Wire.
From S2P Require Import Codec.
From S2P Require Import TextTools.
From S2P Require Import Sodium.
From S2P Require Import ContentMessages.
From S2P Require Import SocialMessages.
From S2P Require Import DirectMessages.
From S2P Require Import Files.
From S2P Require Import ClientOptions.
From S2P Require Import Keystore.
From S2P Require Import ClientNet.
From S2P Require Import ClientSession.
From S2P Require Import GraphicalClient.
From S2P Require Import GraphicalUse.
From S2P Require Import I18n.
From S2P Require Import Presentation.
From S2P Require Import Audio.
From S2P Require Import Drawing.

(** ** The loop *)

(** What happens between the beginning and the end of a frame: the person, the
    keys of the zoom, the time since the frame before. *)
Record frame_input := FrameInput {
  person : Person;
  zoom_keys : zoom_input;
  delta_time : float;
}.

(** The window system: what it says of the window's scale and of the monitor,
    and the font files that exist and load; and what plays the music. *)
Record window_system := WindowSystem {
  opens_window : bool;
  content_scale : float * float;
  mode_width : option Z;
  font_exists : bytes → bool;
  font_loads : bytes → bool;
  speakers : audio_system;
}.

Record program := Program { main_window : window; intro : intro_state; music : audio_player }.

Definition THEME_FILE_NAME : bytes := lit "menu.mp3".

Section loop.
Context `{Sodium} `{FileSystem} `{Desktop}.
Context (system : window_system).

Definition render_frame (f : frame_input) (p : program) : option program :=
  let a := client_state (main_window p) in
  let scale := refresh_scaling_if_needed (font_exists system) (font_loads system) (scale_state (main_window p)) in
  let '(a, intro, music) :=
    if app_intro_requested (app a)
    then let music := (start_track (speakers system) THEME_FILE_NAME (music p)).2 in
         ((set_app_intro false a).2, begin_intro (get_track_length_seconds music), music)
    else (a, intro p, music p) in
  let intro := advance_intro (delta_time f) intro in
  match draw_application_frame (H2 := person f) (zoom_keys f) intro (Canvas (Window a scale) []) with
  | Some (_, c) => Some (Program (world_of c) intro music)
  | None => None
  end.

(** Frame after frame until the window is closed. *)
Fixpoint run_render_loop (frames : list frame_input) (p : program) : option program :=
  match frames with
  | [] => Some p
  | f :: frames =>
      match render_frame f p with
      | Some p' => run_render_loop frames p'
      | None => None
      end
  end.

(** The window is created after the client has started; then the exit code is
    that of the closed window. *)
Definition open_program (a : application) : program :=
  Program (Window a (detect_display_scale (content_scale system) (mode_width system) new_scale_state)) new_intro new_player.

(** After the loop. *)
Definition close_program (p : program) : program := Program (main_window p) (intro p) (stop_track (music p)).2.

(** [main]: the code and the message of a failure, or the state in which the
    window was closed, with code 0. *)
Definition graphical_main (sodium_ready : bool) (argv : list bytes) (passphrase : bytes + bytes) (frames : list frame_input)
    (a : application) : option (Z * bytes + program) :=
  let '(failure, a) := start_client sodium_ready argv passphrase a in
  match failure with
  | Some failure => Some (inl failure)
  | None =>
      if negb (opens_window system)
      then Some (inl (7, lit "Creation de la fenetre impossible : pilote OpenGL 3.3 absent ?"))
      else (λ p, inr (close_program p)) <$> run_render_loop frames (open_program a)
  end.
End loop.

(** ** Drawing by steps *)

(** From the worlds of [P] a drawing function goes by steps of [R] to the worlds
    of [Q]. *)
Definition drives {W A} (R : relation W) (P : W → Prop) (m : ui W A) (Q : A → W → Prop) : Prop :=
  ∀ c a c', P (world_of c) → m c = Some (a, c') → rtc R (world_of c) (world_of c') ∧ Q a (world_of c').

Section drives.
Context {W : Type} (R : relation W).

Lemma drives_ret {A} (P : W → Prop) (a : A) (Q : A → W → Prop) : (∀ w, P w → Q a w) → drives R P (mret a) Q.
Proof. intros HQ c b c' HP E. injection E. intros <- <-. split; [done|by apply HQ]. Qed.

Lemma drives_bind {A B} P (m : ui W A) (k : A → ui W B) M Q :
  drives R P m M → (∀ a, drives R (M a) (k a) Q) → drives R P (m ≫= k) Q.
Proof.
  intros Hm Hk c b c' HP. unfold mbind, ui_bind. destruct (m c) as [[a c1]|] eqn:Em; [|done]. intros Ek.
  destruct (Hm c a c1 HP Em) as [H1 HM]. destruct (Hk a c1 b c' HM Ek) as [H2 HQ]. split; [by etransitivity|done].
Qed.

Lemma drives_weaken {A} (P P' : W → Prop) (m : ui W A) (Q Q' : A → W → Prop) :
  drives R P' m Q' → (∀ w, P w → P' w) → (∀ a w, Q' a w → Q a w) → drives R P m Q.
Proof. intros Hm HP HQ c a c' Hc E. destruct (Hm c a c' (HP _ Hc) E). split; auto. Qed.

Lemma drives_show P (x : widget) : drives R P (show x) (λ _, P).
Proof. intros c a c' HP E. injection E. intros <- <-. done. Qed.

Lemma drives_press `{Person} P (x : widget) : drives R P (press x) (λ _, P).
Proof. intros c a c' HP E. injection E. intros <- <-. done. Qed.

Lemma drives_act {A} P (m : state W A) (Q : A → W → Prop) :
  (∀ w, P w → rtc R w (m w).2 ∧ Q (m w).1 (m w).2) → drives R P (act m) Q.
Proof. intros Hm c a c' HP. unfold act. specialize (Hm _ HP). destruct (m (world_of c)) as [b w]. by intros [= <- <-]. Qed.

Lemma drives_pressed `{Person} (P Q : W → Prop) (x : widget) (handler : ui W unit) :
  (∀ w, P w → Q w) → drives R P handler (λ _, Q) → drives R P (when_pressed x handler) (λ _, Q).
Proof.
  intros HPQ Hh. eapply drives_bind; [apply drives_press|]. intros []; [exact Hh|by apply drives_ret].
Qed.

Lemma drives_each {A} (P : W → Prop) (draw : A → ui W unit) (items : list A) :
  (∀ item, item ∈ items → drives R P (draw item) (λ _, P)) → drives R P (draw_each draw items) (λ _, P).
Proof.
  induction items as [|item items IH]; intros Hdraw; [by apply drives_ret|]. cbn [draw_each].
  eapply drives_bind; [apply Hdraw; by left|]. intros ?. apply IH. intros i Hi. apply Hdraw. by right.
Qed.

Lemma drives_edit `{Person} P label capacity (contents : W → bytes) store :
  (∀ text w, P w → R w (store text w) ∧ P (store text w)) → drives R P (edit label capacity contents store) (λ _, P).
Proof.
  intros Hstore c a c' HP E. injection E. intros <- <-. cbn. destruct (writes _ _) as [text|]; [|done].
  destruct (fits_field capacity text); [|done]. destruct (Hstore text (world_of c) HP). split; [by apply rtc_once|done].
Qed.
End drives.

(** ** The steps on the server displayed *)

Section slot_steps.
Context `{Sodium} `{Desktop}.
Context (s : server_slot).

Definition at_world (w : slot_world) : server_slot := ServerSlot (entry s) (slot_identity s) (client_of w) (view w).

Inductive slot_step : relation slot_world :=
| slot_click w c : offered (at_world w) c = true → slot_step w (perform (slot_identity s) c w).2
| slot_type w (forum_name forum_description post_title post_body comment display_name bio recipient text handle friend : bytes) :
    slot_step w (put_view (ui_state.set_inputs forum_name forum_description post_title post_body comment display_name bio
                             recipient text handle friend) w).2
| slot_language w lang : slot_step w (put_view (ui_state.set_current_lang lang) w).2
| slot_tab w tab : slot_step w (put_view (ui_state.set_side_tab tab) w).2.

(** The application with the slot in another world. *)
Definition placed (index : nat) (w : slot_world) (a : application) : application :=
  Application (app a) (<[index := at_world w]> (slots a)) (app_disk a) (draws w).

Lemma placed_back a index : slots a !! index = Some s →
  placed index (SlotWorld (slot_client s) (slot_view s) (app_draws a)) a = a.
Proof.
  intros Hs. unfold placed, at_world. cbn. destruct a as [ap sl d n]. cbn in *. f_equal. rewrite list_insert_id; [done|].
  rewrite Hs. by destruct s.
Qed.

Lemma on_slot_placed {A} (m : state slot_world A) a index w : (index < length (slots a))%nat →
  (on_slot index (λ _, m) (placed index w a)).2 = placed index (m w).2 a.
Proof.
  intros Hi. unfold on_slot, placed. cbn. rewrite list_lookup_insert_eq by done. cbn.
  destruct w as [cl v n]. cbn. destruct (m _) as [x w']. cbn. by rewrite list_insert_insert_eq.
Qed.
End slot_steps.

Section lifting.
Context `{Sodium} `{FileSystem} `{Desktop}.

Lemma slot_step_gui s a w w' : slots a !! active_slot (app a) = Some s → slot_step s w w' →
  gui_step (placed s (active_slot (app a)) w a) (placed s (active_slot (app a)) w' a).
Proof.
  intros Hs Hstep. pose proof (lookup_lt_Some _ _ _ Hs) as Hi. set (index := active_slot (app a)) in *.
  assert (active_slot (app (placed s index w a)) = index) as Hindex by done.
  destruct Hstep as [w c Hoffered|w|w lang|w tab].
  - rewrite <-(on_slot_placed s (perform (slot_identity s) c) a index w Hi).
    assert (slots (placed s index w a) !! index = Some (at_world s w)) as Hslot
      by (cbn; by rewrite list_lookup_insert_eq).
    assert (on_slot index (λ _, perform (slot_identity s) c) (placed s index w a) =
            on_slot index (λ s0, perform (slot_identity s0) c) (placed s index w a)) as ->.
    { unfold on_slot. by rewrite Hslot. }
    rewrite <-Hindex. by eapply step_click.
  - rewrite <-(on_slot_placed s _ a index w Hi), <-Hindex. apply step_type.
  - rewrite <-(on_slot_placed s _ a index w Hi), <-Hindex. apply step_language.
  - rewrite <-(on_slot_placed s _ a index w Hi), <-Hindex. apply step_tab.
Qed.

Lemma slot_steps_gui s a w w' : slots a !! active_slot (app a) = Some s → rtc (slot_step s) w w' →
  rtc gui_step (placed s (active_slot (app a)) w a) (placed s (active_slot (app a)) w' a).
Proof. intros Hs. induction 1 as [|w1 w2 w3 Hstep _ IH]; [done|]. eapply rtc_l; [by apply slot_step_gui|exact IH]. Qed.
End lifting.

(** ** What an action leaves on the screen *)

Section kept.
Context `{Sodium} `{Desktop}.

(** A part of the view is what it was. *)
Definition same_view {B} (f : ui_state.t → B) (w w' : slot_world) : Prop := f (view w') = f (view w).

#[export] Instance same_view_preorder {B} (f : ui_state.t → B) : PreOrder (same_view f).
Proof. split; unfold same_view; [by intros w|]. intros w1 w2 w3 ? ?. congruence. Qed.

(** The comments are the ones of their storage, and a storage that was given up
    does not come back. *)
Definition same_comments (w w' : slot_world) : Prop :=
  (ui_state.comments_buffer (view w) <= ui_state.comments_buffer (view w'))%nat ∧
  (ui_state.comments_buffer (view w') = ui_state.comments_buffer (view w) →
     ui_state.comments (view w') = ui_state.comments (view w)).

#[export] Instance same_comments_preorder : PreOrder same_comments.
Proof.
  split; unfold same_comments; [by intros w|]. intros w1 w2 w3 [H1 E1] [H2 E2]. split; [lia|]. intros E.
  rewrite E2, E1 by lia. done.
Qed.

(** What depends on the view alone is kept by whatever leaves the view. *)
Definition view_relation (R : slot_world → slot_world → Prop) : Prop :=
  ∀ w w', view w' = view w → R w w'.

Lemma same_view_relation {B} (f : ui_state.t → B) : view_relation (same_view f).
Proof. unfold view_relation, same_view. by intros w w' ->. Qed.

Lemma same_comments_relation : view_relation same_comments.
Proof. unfold view_relation, same_comments. by intros w w' ->. Qed.

Section relation.
Context (R : slot_world → slot_world → Prop) (HR : view_relation R).

Lemma on_client_kept {A} (m : state client A) : keeps R (on_client m).
Proof. intros w. unfold on_client, zoom. destruct (m _). by apply HR. Qed.

Lemma next_draw_kept : keeps R next_draw.
Proof. intros w. by apply HR. Qed.

Context `{!PreOrder R}.

Lemma exchange_kept {Q A} `{WireFormat Q, WireFormat A} type (request : Q) expected :
  keeps R (exchange (A := A) type request expected).
Proof.
  unfold exchange. apply keeps_bind; [apply _|apply on_client_kept|]. intros []; cbn [negb];
    [apply on_client_kept|apply keeps_ret, _].
Qed.
End relation.
End kept.

Create HintDb kept.
#[export] Hint Resolve same_view_relation same_comments_relation : kept.

Ltac action_kept := repeat first
  [ apply on_client_kept; solve [eauto with kept]
  | apply exchange_kept; [solve [eauto with kept]|apply _]
  | apply next_draw_kept; solve [eauto with kept]
  | apply keeps_ret; apply _
  | apply keeps_gets; apply _
  | solve [intros ?; reflexivity]
  | apply keeps_bind; [apply _| |intros ?]
  | case_match ].

Ltac open_action :=
  unfold refresh_forum_list, select_forum, open_thread, submit_post, submit_comment, create_forum, delete_post, delete_comment,
    report_post, report_account, publish_own_prekey, refresh_inbox, submit_direct_message, refresh_friend_list, add_friend,
    view_profile, mark_favorite, remove_favorite, submit_own_top8, save_profile, refresh_own_top8;
  unfold refresh_post_list, open_thread, refresh_forum_list, refresh_friend_list, when_connected, when_answered,
    report_failure, report_success.

Section kept_actions.
Context `{Sodium} `{Desktop}.
Context (owner : identity_keypair).

Lemma ensure_connected_kept R `{!PreOrder R} : view_relation R →
  (∀ v w, R w (put_view (ui_state.set_connected v) w).2) → (∀ m b w, R w (put_view (ui_state.set_status m b) w).2) →
  keeps R (ensure_connected owner).
Proof.
  intros HR Hc Hs. unfold ensure_connected. apply keeps_bind; [done|apply keeps_gets; apply _|]. intros c.
  destruct (is_open c).
  { apply keeps_bind; [done|intros w; apply Hc|intros ?; apply keeps_ret; apply _]. }
  apply keeps_bind; [done|by apply next_draw_kept|]. intros n. apply keeps_bind; [done|apply keeps_gets; apply _|]. intros e.
  apply keeps_bind; [done|by apply on_client_kept|]. intros r. apply keeps_bind; [done| |].
  { destruct r; [apply keeps_ret; apply _|by apply on_client_kept]. }
  intros []; (apply keeps_bind; [done|intros w; apply Hc|intros ?]); unfold report_failure, report_success;
    (apply keeps_bind; [done|intros w; apply Hs|intros ?]); apply keeps_ret; apply _.
Qed.

Lemma perform_registered (c : click) : (∀ t, c ≠ register t) → keeps (same_view ui_state.registered) (perform owner c).
Proof.
  intros Hc. assert (keeps (same_view ui_state.registered) (ensure_connected owner)) as He
    by (apply ensure_connected_kept; [apply _|apply same_view_relation|done..]).
  destruct c; cbn [perform]; try (by edestruct Hc);
    open_action; action_kept.
Qed.
Ltac connection_kept f :=
  assert (keeps (same_view f) (ensure_connected owner)) by (apply ensure_connected_kept; [apply _|apply same_view_relation|done..]).

Lemma choosing_keeps_forums forum_id : keeps (same_view ui_state.forums) (select_forum owner forum_id).
Proof. connection_kept ui_state.forums. open_action. action_kept. Qed.

Lemma reading_keeps_posts post_id : keeps (same_view ui_state.posts) (open_thread owner post_id).
Proof. connection_kept ui_state.posts. open_action. action_kept. Qed.

Lemma viewing_keeps_friends key : keeps (same_view ui_state.friends) (view_profile owner key).
Proof. connection_kept ui_state.friends. open_action. action_kept. Qed.

(** What a click under a comment does to the comments: a thread that is fetched
    comes with a storage of its own. *)
Lemma comment_click_kept c : match c with publish_comment _ | remove_comment _ | flag_account _ => True | _ => False end →
  keeps same_comments (perform owner c).
Proof.
  assert (keeps same_comments (ensure_connected owner)) as He
    by (apply ensure_connected_kept; [apply _|apply same_comments_relation|by split..]).
  assert (∀ post details comments truncated,
    keeps same_comments (put_view (ui_state.set_thread post details comments truncated))) as Hthread
    by (intros post details comments truncated w; split; cbn; [lia|intros ?; lia]).
  assert (∀ f, (∀ v, ui_state.comments_buffer (f v) = ui_state.comments_buffer v ∧ ui_state.comments (f v) = ui_state.comments v) →
    keeps same_comments (put_view f)) as Hview.
  { intros f Hf w. unfold same_comments. cbn. destruct (Hf (view w)) as [-> ->]. by split. }
  destruct c; intros Hc; try done; cbn [perform]; open_action;
    repeat first [exact He | apply Hthread | apply Hview; by intros v | progress action_kept].
Qed.
End kept_actions.

(** ** The panels go by steps *)

Section panels.
Context `{Sodium} `{FileSystem} `{Desktop} `{Person}.
Context (s : server_slot).

Abbreviation owner := (slot_identity s).
Abbreviation drives_slot := (drives (slot_step s)).

Definition is_registered (w : slot_world) : Prop := ui_state.registered (view w) = true.

Lemma drives_click (P Q : slot_world → Prop) c :
  (∀ w, P w → offered (at_world s w) c = true) → (∀ w, P w → Q (perform owner c w).2) →
  drives_slot P (act (perform owner c)) (λ _, Q).
Proof. intros Ho HQ. apply drives_act. intros w HP. split; [by apply rtc_once, slot_click, Ho|by apply HQ]. Qed.

Lemma drives_seen {A} (P : slot_world → Prop) (f : ui_state.t → A) : drives_slot P (seen f) (λ x w, P w ∧ f (view w) = x).
Proof. intros c a c' HP E. injection E. by intros <- <-. Qed.

Lemma drives_seen_only {A} (P : slot_world → Prop) (f : ui_state.t → A) : drives_slot P (seen f) (λ _, P).
Proof. eapply drives_weaken; [apply drives_seen|done|]. by intros a w []. Qed.

Lemma drives_translated P key : drives_slot P (translated key) (λ _, P).
Proof. eapply drives_bind; [apply drives_seen_only|]. intros lang. by apply drives_ret. Qed.

Lemma drives_heading P key : drives_slot P (heading key) (λ _, P).
Proof. eapply drives_bind; [apply drives_translated|]. intros text. apply drives_show. Qed.

Lemma drives_label P color key : drives_slot P (label_text color key) (λ _, P).
Proof. eapply drives_bind; [apply drives_translated|]. intros text. apply drives_show. Qed.

Lemma drives_disabled P key : drives_slot P (label_disabled key) (λ _, P).
Proof. eapply drives_bind; [apply drives_translated|]. intros text. apply drives_show. Qed.

Lemma drives_status_dot P secure text : drives_slot P (draw_status_dot secure text) (λ _, P).
Proof. eapply drives_bind; [apply drives_show|]. intros ?. apply drives_show. Qed.

Lemma drives_on_button (P Q : slot_world → Prop) key handler :
  (∀ w, P w → Q w) → drives_slot P (act handler) (λ _, Q) → drives_slot P (on_button key handler) (λ _, Q).
Proof. intros HPQ Hh. eapply drives_bind; [apply drives_translated|]. intros text. by apply drives_pressed. Qed.

Lemma drives_on_small_button (P Q : slot_world → Prop) key handler :
  (∀ w, P w → Q w) → drives_slot P (act handler) (λ _, Q) → drives_slot P (on_small_button key handler) (λ _, Q).
Proof. intros HPQ Hh. eapply drives_bind; [apply drives_translated|]. intros text. by apply drives_pressed. Qed.

(** Typing changes nothing but the text of a field. *)
Lemma drives_field (P : slot_world → Prop) label field :
  (∀ text w, P w → P (SlotWorld (client_of w) (store_field field text (view w)) (draws w))) →
  drives_slot P (edit_field label field) (λ _, P).
Proof. intros HP. apply drives_edit. intros text w Hw. split; [apply slot_type|by apply HP]. Qed.

Lemma drives_input P key field :
  (∀ text w, P w → P (SlotWorld (client_of w) (store_field field text (view w)) (draws w))) →
  drives_slot P (input key field) (λ _, P).
Proof.
  intros HP. eapply drives_bind; [apply drives_translated|]. intros label.
  eapply drives_bind; [by apply drives_field|]. intros ?. by apply drives_ret.
Qed.

Lemma drives_unnamed_input P label field :
  (∀ text w, P w → P (SlotWorld (client_of w) (store_field field text (view w)) (draws w))) →
  drives_slot P (unnamed_input label field) (λ _, P).
Proof. intros HP. eapply drives_bind; [by apply drives_field|]. intros ?. by apply drives_ret. Qed.

(** A click that registers nobody, on what the state before shows. *)
Lemma registered_click (P : slot_world → Prop) c : (∀ t, c ≠ register t) →
  (∀ w, P w → is_registered w ∧ columns_offer (public_key_ owner) (view w) c = true) →
  drives_slot P (act (perform owner c)) (λ _, is_registered).
Proof.
  intros Hc HP. apply drives_click.
  - intros w Hw. destruct (HP w Hw) as [Hr Ho]. unfold offered. cbn. by rewrite Hr.
  - intros w Hw. destruct (HP w Hw) as [Hr _]. unfold is_registered. by rewrite (perform_registered owner c Hc w).
Qed.

Lemma button_click key c : (∀ t, c ≠ register t) → (∀ own v, columns_offer own v c = true) →
  drives_slot is_registered (on_button key (perform owner c)) (λ _, is_registered).
Proof. intros Hc Ho. apply drives_on_button; [done|]. apply registered_click; [done|]. by split. Qed.

Lemma small_button_click key c : (∀ t, c ≠ register t) → (∀ own v, columns_offer own v c = true) →
  drives_slot is_registered (on_small_button key (perform owner c)) (λ _, is_registered).
Proof. intros Hc Ho. apply drives_on_small_button; [done|]. apply registered_click; [done|]. by split. Qed.
End panels.

Ltac drive := repeat first
  [ apply drives_show | apply drives_heading | apply drives_label | apply drives_disabled | apply drives_translated
  | apply drives_status_dot | apply drives_seen_only
  | (apply drives_input; done) | (apply drives_unnamed_input; done) | (apply drives_ret; done)
  | match goal with |- drives _ _ (_ ≫= _) _ => eapply drives_bind; [solve [drive]|intros ?] end
  | case_match ].

Section columns.
Context `{Sodium} `{FileSystem} `{Desktop} `{Person}.
Context (s : server_slot).

Abbreviation owner := (slot_identity s).
Abbreviation drives_slot := (drives (slot_step s)).
Abbreviation keeps_registered m := (drives_slot is_registered m (λ _, is_registered)).

Lemma content_of author body : is_removed body = false →
  (if is_own_content owner author then own_content (public_key_ owner) author body
   else others_content (public_key_ owner) author body) = true.
Proof.
  unfold is_removed, is_own_content, own_content, others_content. intros ->. by case_bool_decide.
Qed.

(** *** The thread *)

Lemma post_header_drives : keeps_registered (draw_post_header owner).
Proof.
  eapply drives_bind; [apply drives_seen|]. intros post.
  eapply drives_bind; [apply drives_show|]. intros ?. eapply drives_bind; [apply drives_show|]. intros ?.
  eapply (drives_bind _ _ _ _ (λ _, is_registered)); [|intros ?; drive].
  destruct (is_removed (post_record.body post)) eqn:Eremoved; [apply drives_ret; by intros w []|].
  pose proof (content_of (post_record.author_pubkey post) (post_record.body post) Eremoved) as Hcontent.
  destruct (is_own_content owner _); (apply drives_on_small_button; [by intros w []|]).
  - apply (registered_click s _ (remove_post (post_record.id post))); [done|]. intros w [Hr Hpost].
    split; [done|]. cbn. rewrite Hpost, Z.eqb_refl. exact Hcontent.
  - apply (registered_click s _ (flag_post (post_record.id post))); [done|]. intros w [Hr Hpost].
    split; [done|]. cbn. rewrite Hpost, Z.eqb_refl. exact Hcontent.
Qed.

(** The loop over the comments: as long as it walks their storage, they are the
    ones it started from. *)
Definition walks (buffer : nat) (comments : list comment_record.t) (w : slot_world) : Prop :=
  is_registered w ∧ (ui_state.comments_buffer (view w) = buffer → ui_state.comments (view w) = comments) ∧
  (buffer <= ui_state.comments_buffer (view w))%nat.

Lemma dereference_drives buffer comments :
  drives_slot (walks buffer comments) (dereference buffer)
    (λ _ w, walks buffer comments w ∧ ui_state.comments (view w) = comments).
Proof.
  intros c a c' Hw. unfold dereference. destruct (Nat.eqb_spec (ui_state.comments_buffer (view (world_of c))) buffer) as [E|];
    [|done]. intros E'. injection E'. intros <- <-. split; [done|]. split; [done|]. by apply Hw.
Qed.

Lemma comment_click buffer comments key c :
  match c with publish_comment _ | remove_comment _ | flag_account _ => True | _ => False end →
  (∀ w, ui_state.comments (view w) = comments → columns_offer (public_key_ owner) (view w) c = true) →
  drives_slot (λ w, walks buffer comments w ∧ ui_state.comments (view w) = comments)
    (on_small_button key (perform owner c)) (λ _, walks buffer comments).
Proof.
  intros Hc Ho. assert (∀ t, c ≠ register t) as Hr by (by destruct c).
  apply drives_on_small_button; [by intros w []|]. apply drives_click.
  - intros w [(Hreg & _) Hcomments]. unfold offered. cbn. rewrite Hreg. by apply Ho.
  - intros w [(Hreg & Hsame & Hle) Hcomments].
    destruct (comment_click_kept owner c Hc w) as [Hgrows Hkept].
    split_and!; [unfold is_registered; by rewrite (perform_registered owner c Hr w)| |lia].
    intros E. rewrite Hkept by lia. done.
Qed.

Lemma comment_drives buffer comments comment : comment ∈ comments →
  drives_slot (walks buffer comments) (draw_comment owner buffer comment) (λ _, walks buffer comments).
Proof.
  intros Hin. apply list_elem_of_In in Hin. unfold draw_comment.
  eapply drives_bind; [apply dereference_drives|]. intros ?. eapply drives_bind; [apply drives_show|]. intros ?.
  eapply (drives_bind _ _ _ _ (λ _ w, walks buffer comments w ∧ ui_state.comments (view w) = comments)); [drive|]. intros ?.
  eapply drives_bind; [apply drives_show|]. intros ?.
  eapply drives_bind.
  { apply (comment_click buffer comments _ (publish_comment (comment_record.id comment))); [done|]. intros w E.
    cbn. apply orb_true_iff. right. unfold shown_comment. rewrite E. apply existsb_exists. exists comment.
    split; [done|]. apply Z.eqb_refl. }
  intros ?. eapply drives_bind; [apply dereference_drives|]. intros ?.
  eapply (drives_bind _ _ _ _ (λ _, walks buffer comments)); [|intros ?; apply drives_show].
  destruct (is_removed (comment_record.body comment)) eqn:Eremoved; [apply drives_ret; by intros w []|].
  pose proof (content_of (comment_record.author_pubkey comment) (comment_record.body comment) Eremoved) as Hcontent.
  destruct (is_own_content owner _).
  - apply (comment_click buffer comments _ (remove_comment (comment_record.id comment))); [done|]. intros w E.
    cbn. unfold shown_comment. rewrite E. apply existsb_exists. exists comment. split; [done|]. by rewrite Z.eqb_refl.
  - apply (comment_click buffer comments _ (flag_account (comment_record.author_pubkey comment))); [done|]. intros w E.
    cbn. apply orb_true_iff. left. unfold shown_comment. rewrite E. apply existsb_exists. exists comment.
    split; [done|]. by rewrite bool_decide_true.
Qed.

Lemma comment_tree_drives : keeps_registered (draw_comment_tree owner).
Proof.
  unfold draw_comment_tree. eapply drives_bind; [apply drives_seen|]. intros comments.
  eapply drives_bind; [apply drives_seen|]. intros buffer.
  eapply drives_weaken.
  - apply (drives_each _ (walks buffer comments)). intros comment Hin. by apply comment_drives.
  - cbn. intros w [[Hr <-] <-]. split_and!; [done|done|lia].
  - by intros ? w (? & _).
Qed.

Lemma thread_column_drives : keeps_registered (draw_thread_column owner).
Proof.
  unfold draw_thread_column. eapply drives_bind; [apply drives_show|]. intros ?.
  eapply drives_bind; [apply drives_seen_only|]. intros selected. destruct (selected =? 0); [drive|].
  eapply drives_bind; [apply post_header_drives|]. intros ?. eapply drives_bind; [apply drives_heading|]. intros ?.
  eapply drives_bind; [apply drives_show|]. intros ?. eapply drives_bind; [apply comment_tree_drives|]. intros ?.
  eapply drives_bind; [apply drives_seen_only|]. intros truncated.
  eapply (drives_bind _ _ _ _ (λ _, is_registered)); [drive|]. intros ?.
  eapply drives_bind; [apply drives_show|]. intros ?. eapply drives_bind; [by apply drives_unnamed_input|]. intros ?.
  eapply drives_bind; [by apply (button_click s _ (publish_comment 0))|]. intros ?. apply drives_show.
Qed.

(** *** The forums *)

(** A loop of which the handlers leave the list it goes over. *)
Lemma list_drives {A} (f : ui_state.t → list A) (draw : A → ui slot_world unit) (click_of : A → click) :
  (∀ item t, click_of item ≠ register t) →
  (∀ item, keeps (same_view f) (perform owner (click_of item))) →
  (∀ item w, item ∈ f (view w) → columns_offer (public_key_ owner) (view w) (click_of item) = true) →
  (∀ item items, item ∈ items →
     drives_slot (λ w, is_registered w ∧ f (view w) = items) (act (perform owner (click_of item)))
       (λ _ w, is_registered w ∧ f (view w) = items) →
     drives_slot (λ w, is_registered w ∧ f (view w) = items) (draw item) (λ _ w, is_registered w ∧ f (view w) = items)) →
  ∀ items, drives_slot (λ w, is_registered w ∧ f (view w) = items) (draw_each draw items) (λ _, is_registered).
Proof.
  intros Hr Hkept Hoffer Hdraw items.
  eapply drives_weaken; [apply (drives_each _ (λ w, is_registered w ∧ f (view w) = items))|done|by intros ? w []].
  intros item Hin. apply Hdraw; [done|]. apply drives_click.
  - intros w [Hreg E]. unfold offered. cbn. rewrite Hreg. apply Hoffer. by rewrite E.
  - intros w [Hreg E]. unfold is_registered. rewrite (perform_registered owner _ (Hr item) w). split; [done|].
    rewrite <-E. exact (Hkept item w).
Qed.

Lemma forums_drive forums :
  drives_slot (λ w, is_registered w ∧ ui_state.forums (view w) = forums) (draw_each (draw_forum owner) forums) (λ _, is_registered).
Proof.
  revert forums.
  apply (list_drives _ _ (λ forum, choose_forum (forum_record.id forum))); [done|intros ?; apply choosing_keeps_forums| |].
  - intros forum w Hin. cbn. apply existsb_exists. exists forum. split; [by apply list_elem_of_In|apply Z.eqb_refl].
  - intros forum forums Hin Hclick. unfold draw_forum. eapply drives_bind; [apply drives_seen_only|]. intros selected.
    by apply drives_pressed.
Qed.

Lemma posts_drive posts :
  drives_slot (λ w, is_registered w ∧ ui_state.posts (view w) = posts) (draw_each (draw_post owner) posts) (λ _, is_registered).
Proof.
  revert posts.
  apply (list_drives _ _ (λ post, read_thread (post_record.id post))); [done|intros ?; apply reading_keeps_posts| |].
  - intros post w Hin. cbn. apply existsb_exists. exists post. split; [by apply list_elem_of_In|apply Z.eqb_refl].
  - intros post posts Hin Hclick. unfold draw_post. eapply drives_bind; [apply drives_seen_only|]. intros selected.
    by apply drives_pressed.
Qed.

Lemma forum_creator_drives : keeps_registered (draw_forum_creator owner).
Proof.
  unfold draw_forum_creator. eapply drives_bind; [apply drives_heading|]. intros ?.
  eapply drives_bind; [by apply drives_input|]. intros ?. eapply drives_bind; [by apply drives_input|]. intros ?.
  by apply (button_click s _ found_forum).
Qed.

Lemma forum_list_drives : keeps_registered (draw_forum_list owner).
Proof.
  unfold draw_forum_list. eapply drives_bind; [apply drives_heading|]. intros ?.
  eapply drives_bind; [by apply (button_click s _ refresh_forums)|]. intros ?.
  eapply drives_bind; [apply drives_show|]. intros ?. eapply drives_bind; [apply drives_seen|]. intros forums.
  eapply drives_bind; [apply forums_drive|]. intros ?. eapply drives_bind; [apply drives_show|]. intros ?.
  apply forum_creator_drives.
Qed.

Lemma post_list_drives : keeps_registered (draw_post_list owner).
Proof.
  unfold draw_post_list. eapply drives_bind; [apply drives_heading|]. intros ?.
  eapply drives_bind; [apply drives_seen_only|]. intros selected. destruct (selected =? 0); [drive|].
  eapply drives_bind; [apply drives_show|]. intros ?. eapply drives_bind; [apply drives_seen|]. intros posts.
  eapply drives_bind; [apply posts_drive|]. intros ?. apply drives_show.
Qed.

Lemma post_composer_drives : keeps_registered (draw_post_composer owner).
Proof.
  unfold draw_post_composer. eapply drives_bind; [apply drives_seen_only|]. intros selected.
  destruct (selected =? 0); [drive|]. eapply drives_bind; [apply drives_heading|]. intros ?.
  eapply drives_bind; [by apply drives_input|]. intros ?. eapply drives_bind; [by apply drives_input|]. intros ?.
  eapply drives_bind; [by apply (button_click s _ publish_post)|]. intros ?. drive.
Qed.

Lemma forum_column_drives : keeps_registered (draw_forum_column owner).
Proof.
  unfold draw_forum_column. eapply drives_bind; [apply drives_show|]. intros ?.
  eapply drives_bind; [apply forum_list_drives|]. intros ?. eapply drives_bind; [apply post_list_drives|]. intros ?.
  eapply drives_bind; [apply post_composer_drives|]. intros ?. apply drives_show.
Qed.

(** *** The side *)

Lemma copying_drives P key : drives_slot P (on_button key (sret tt)) (λ _, P).
Proof. apply drives_on_button; [done|]. by apply drives_act. Qed.

Lemma identity_panel_drives : keeps_registered (draw_identity_panel owner).
Proof.
  unfold draw_identity_panel, draw_profile_editor. eapply drives_bind; [apply drives_heading|]. intros ?.
  eapply drives_bind; [apply drives_seen_only|]. intros handle. eapply drives_bind; [apply drives_show|]. intros ?.
  eapply drives_bind; [apply drives_seen_only|]. intros key. eapply drives_bind; [apply drives_show|]. intros ?.
  eapply drives_bind; [apply copying_drives|]. intros ?. eapply drives_bind; [apply drives_label|]. intros ?.
  eapply drives_bind; [apply drives_heading|]. intros ?.
  eapply drives_bind; [by apply drives_input|]. intros ?. eapply drives_bind; [by apply drives_input|]. intros ?.
  by apply (button_click s _ edit_profile).
Qed.

Lemma inbox_drives P : drives_slot P draw_inbox (λ _, P).
Proof.
  unfold draw_inbox. eapply drives_bind; [apply drives_show|]. intros ?.
  eapply drives_bind; [apply drives_seen_only|]. intros entries.
  eapply drives_bind; [|intros ?; apply drives_show]. apply drives_each. intros entry _. unfold draw_message. drive.
Qed.

Lemma dm_panel_drives : keeps_registered (draw_dm_panel owner).
Proof.
  unfold draw_dm_panel. eapply drives_bind; [apply drives_heading|]. intros ?.
  eapply drives_bind; [apply drives_translated|]. intros status. eapply drives_bind; [apply drives_status_dot|]. intros ?.
  eapply drives_bind; [apply drives_label|]. intros ?.
  eapply drives_bind; [by apply (button_click s _ publish_prekey)|]. intros ?.
  eapply drives_bind; [by apply (button_click s _ read_inbox)|]. intros ?.
  eapply drives_bind; [apply inbox_drives|]. intros ?.
  eapply drives_bind; [by apply drives_input|]. intros ?. eapply drives_bind; [by apply drives_unnamed_input|]. intros ?.
  by apply (button_click s _ send_message).
Qed.

Lemma top8_grid_drives removable slots details : keeps_registered (draw_top8_grid removable slots details).
Proof.
  apply drives_each. intros index _. unfold draw_top8_slot.
  eapply drives_bind; [apply drives_seen_only|]. intros slot. eapply drives_bind; [apply drives_seen_only|]. intros records.
  eapply drives_bind; [apply drives_show|]. intros ?. eapply (drives_bind _ _ _ _ (λ _, is_registered)); [|intros ?; apply drives_show].
  destruct (find_slot_detail slot records); [|apply drives_show]. eapply drives_bind; [apply drives_show|]. intros ?.
  destruct removable; [|by apply drives_ret]. apply drives_pressed; [done|].
  by apply (registered_click s _ (unfavor index)).
Qed.

Definition friends_shown (friends : list friend_record.t) (w : slot_world) : Prop :=
  is_registered w ∧ ui_state.friends (view w) = friends.

Lemma friend_click friends key c : (∀ t, c ≠ register t) → keeps (same_view ui_state.friends) (perform owner c) →
  (∀ w, ui_state.friends (view w) = friends → columns_offer (public_key_ owner) (view w) c = true) →
  drives_slot (friends_shown friends) (on_small_button key (perform owner c)) (λ _, friends_shown friends).
Proof.
  intros Hr Hkept Ho. apply drives_on_small_button; [done|]. apply drives_click.
  - intros w [Hreg E]. unfold offered. cbn. rewrite Hreg. by apply Ho.
  - intros w [Hreg E]. unfold friends_shown, is_registered. rewrite (perform_registered owner c Hr w). split; [done|].
    rewrite <-E. apply Hkept.
Qed.

Lemma friends_drive friends :
  drives_slot (friends_shown friends) (draw_each (draw_friend owner) (imap pair friends)) (λ _, friends_shown friends).
Proof.
  apply drives_each. intros [index entry] Hin.
  assert (∀ w, ui_state.friends (view w) = friends → shown_friend (view w) (friend_record.pubkey entry) = true) as Hshown.
  { intros w E. unfold shown_friend. rewrite E. apply existsb_exists. exists entry. split; [|by apply bool_decide_true].
    apply list_elem_of_In. apply list_elem_of_lookup in Hin as [i Hi]. rewrite list_lookup_imap in Hi.
    apply fmap_Some in Hi as (entry' & Hi & [= _ <-]). by eapply list_elem_of_lookup_2. }
  unfold draw_friend. eapply drives_bind; [apply drives_show|]. intros ?. eapply drives_bind; [apply drives_show|]. intros ?.
  eapply drives_bind; [by apply (friend_click friends _ (show_profile (friend_record.pubkey entry))); [|apply viewing_keeps_friends|]|].
  intros ?. eapply drives_bind; [by apply (friend_click friends _ (favor (friend_record.pubkey entry))); [|intros w|]|].
  intros ?. apply drives_show.
Qed.

Lemma friends_panel_drives : keeps_registered (draw_friends_panel owner).
Proof.
  unfold draw_friends_panel. eapply drives_bind; [apply drives_heading|]. intros ?.
  eapply drives_bind; [by apply (button_click s _ refresh_friends)|]. intros ?.
  eapply drives_bind; [apply drives_show|]. intros ?. eapply drives_bind; [apply drives_seen|]. intros friends.
  eapply drives_bind; [apply friends_drive|]. intros ?. eapply (drives_bind _ _ _ _ (λ _, is_registered)).
  { eapply drives_weaken; [apply (drives_show _ is_registered)|by intros w []|done]. }
  intros ?. eapply drives_bind; [by apply drives_input|]. intros ?. by apply (small_button_click s _ befriend).
Qed.

Lemma viewed_profile_drives : keeps_registered (draw_viewed_profile_panel owner).
Proof.
  unfold draw_viewed_profile_panel. eapply drives_bind; [apply drives_heading|]. intros ?.
  eapply drives_bind; [apply drives_seen|]. intros profile. case_decide.
  { eapply drives_weaken; [apply (drives_disabled s is_registered)|by intros w []|done]. }
  eapply drives_bind; [apply drives_show|]. intros ?. eapply drives_bind; [apply drives_show|]. intros ?.
  eapply (drives_bind _ _ _ _ (λ _, is_registered)).
  { apply drives_on_small_button; [by intros w []|].
    apply (registered_click s _ (flag_account (profile_record.pubkey profile))); [done|]. intros w [Hr E]. split; [done|].
    cbn. rewrite E. rewrite bool_decide_true by done. apply orb_true_r. }
  intros ?. eapply drives_bind; [apply drives_show|]. intros ?. eapply drives_bind; [apply top8_grid_drives|]. intros ?.
  apply drives_show.
Qed.

Lemma social_panel_drives : keeps_registered (draw_social_panel owner).
Proof.
  unfold draw_social_panel, draw_own_top8_editor. eapply drives_bind; [apply friends_panel_drives|]. intros ?.
  eapply drives_bind; [apply viewed_profile_drives|]. intros ?. eapply drives_bind; [apply drives_heading|]. intros ?.
  eapply drives_bind; [apply drives_show|]. intros ?. eapply drives_bind; [apply top8_grid_drives|]. intros ?.
  eapply drives_bind; [apply drives_show|]. intros ?. by apply (button_click s _ save_top8).
Qed.

Lemma tab_drives key tab : keeps_registered (on_small_button key (put_view (ui_state.set_side_tab tab))).
Proof.
  apply drives_on_small_button; [done|]. apply drives_act. intros w Hw. split; [apply rtc_once, slot_tab|done].
Qed.

Lemma side_column_drives : keeps_registered (draw_side_column owner).
Proof.
  unfold draw_side_column. eapply drives_bind; [apply drives_show|]. intros ?.
  eapply drives_bind; [apply identity_panel_drives|]. intros ?. eapply drives_bind; [apply drives_seen_only|]. intros tab.
  eapply (drives_bind _ _ _ _ (λ _, is_registered)); [destruct (is_direct_messages tab); [apply drives_disabled|apply tab_drives]|].
  intros ?. eapply (drives_bind _ _ _ _ (λ _, is_registered)).
  { destruct (negb (is_direct_messages tab)); [apply drives_disabled|apply tab_drives]. }
  intros ?. eapply (drives_bind _ _ _ _ (λ _, is_registered)); [|intros ?; apply drives_show].
  destruct (is_direct_messages tab); [apply dm_panel_drives|apply social_panel_drives].
Qed.

Lemma columns_drive : keeps_registered (draw_columns owner).
Proof.
  unfold draw_columns. eapply drives_bind; [apply forum_column_drives|]. intros ?.
  eapply drives_bind; [apply thread_column_drives|]. intros ?. apply side_column_drives.
Qed.

(** *** The registration card *)

Definition unregistered (w : slot_world) : Prop := ui_state.registered (view w) = false.

Lemma auth_modal_drives : trust_acknowledged (entry s) = true →
  drives_slot unregistered (draw_auth_modal owner) (λ _ _, True).
Proof.
  intros Htrust. unfold draw_auth_modal. eapply drives_bind; [apply drives_show|]. intros ?.
  eapply drives_bind; [apply drives_label|]. intros ?. eapply drives_bind; [apply drives_label|]. intros ?.
  eapply drives_bind; [apply drives_label|]. intros ?. eapply drives_bind; [apply drives_heading|]. intros ?.
  eapply (drives_bind _ _ _ _ (λ _, unregistered)).
  { intros c b c' Hw E. injection E. by intros <- <-. }
  intros before. eapply drives_bind; [by apply drives_field|]. intros field.
  eapply drives_bind; [apply drives_disabled|]. intros ?. eapply drives_bind; [apply drives_seen_only|]. intros status.
  eapply drives_bind; [apply drives_seen_only|]. intros error.
  eapply (drives_bind _ _ _ _ (λ _, unregistered)); [drive|]. intros ?.
  eapply drives_bind; [apply drives_translated|]. intros register_text.
  eapply drives_bind; [apply drives_press|]. intros pressed.
  eapply (drives_bind _ _ _ _ (λ _ _, True)).
  2:{ intros ?. eapply drives_weaken; [apply (drives_show _ (λ _, True))|done|done]. }
  destruct ((pressed : bool) || _); [|by apply drives_ret]. eapply drives_bind; [apply drives_translated|]. intros success.
  apply (drives_click s _ _ (register success)); [|done]. intros w Hw. unfold offered. cbn. rewrite Hw. by rewrite Htrust.
Qed.
End columns.

(** ** The window goes by steps *)

Section frames.
Context `{Sodium} `{FileSystem} `{Desktop} `{Person}.

(** A step of the client, or a change of scale. *)
Definition window_step (w w' : window) : Prop :=
  gui_step (client_state w) (client_state w') ∨ client_state w' = client_state w.

Abbreviation drives_window := (drives window_step).
Abbreviation any := (λ _ : window, True).
Abbreviation ends := (λ _ _, True).

Lemma window_steps w w' : rtc window_step w w' → rtc gui_step (client_state w) (client_state w').
Proof.
  induction 1 as [|w1 w2 w3 [Hstep|E] _ IH]; [done|by eapply rtc_l|by rewrite <-E].
Qed.

Lemma steps_window a a' scale : rtc gui_step a a' → rtc window_step (Window a scale) (Window a' scale).
Proof. induction 1 as [|a1 a2 a3 Hstep _ IH]; [done|]. eapply rtc_l; [|exact IH]. by left. Qed.

Lemma on_active_drives {A} (m : server_slot → ui slot_world A) :
  (∀ s a, slots a !! active_slot (app a) = Some s →
     drives (slot_step s) (λ w, w = SlotWorld (slot_client s) (slot_view s) (app_draws a)) (m s) ends) →
  drives_window any (on_active m) ends.
Proof.
  intros Hm c x c' _. unfold on_active. set (a := client_state (world_of c)). destruct (slots a !! active_slot (app a)) as [s|] eqn:Hs;
    [|intros E; injection E; by intros <- <-].
  specialize (Hm s a Hs (Canvas (SlotWorld (slot_client s) (slot_view s) (app_draws a)) (shown c))).
  destruct (m s _) as [[result c1]|]; [|done]. intros E. injection E. intros <- <-. cbn. split; [|done].
  destruct (Hm result c1 eq_refl eq_refl) as [Hsteps _]. cbn in Hsteps.
  pose proof (slot_steps_gui s a _ _ Hs Hsteps) as Hgui. rewrite (placed_back s a _ Hs) in Hgui.
  apply (steps_window _ _ (scale_state (world_of c))) in Hgui. unfold a in Hgui at 1.
  by destruct (world_of c) as [client scale].
Qed.

Lemma on_application_drives {A} P (m : state application A) (Q : A → window → Prop) :
  (∀ a scale, P (Window a scale) → rtc gui_step a (m a).2 ∧ Q (m a).1 (Window (m a).2 scale)) →
  drives_window P (on_application m) Q.
Proof.
  intros Hm. apply drives_act. intros [a scale] HP. unfold zoom. cbn. specialize (Hm a scale HP). destruct (m a) as [x a'].
  cbn in *. destruct Hm as [Hsteps HQ]. split; [by apply steps_window|exact HQ].
Qed.

Lemma on_scale_drives f : drives_window any (on_scale f) ends.
Proof. apply drives_act. intros w _. split; [|done]. apply rtc_once. by right. Qed.

Lemma application_now_drives P : drives_window P application_now (λ a w, P w ∧ client_state w = a).
Proof. intros c a c' HP E. injection E. by intros <- <-. Qed.

Lemma application_now_only P : drives_window P application_now (λ _, P).
Proof. eapply drives_weaken; [apply application_now_drives|done|]. by intros a w []. Qed.

Lemma app_text_drives P key : drives_window P (app_text key) (λ _, P).
Proof. eapply drives_bind; [apply application_now_only|]. intros a. by apply drives_ret. Qed.

Lemma app_heading_drives P key : drives_window P (app_heading key) (λ _, P).
Proof. eapply drives_bind; [apply app_text_drives|]. intros text. apply drives_show. Qed.

Lemma app_label_drives P color key : drives_window P (app_label color key) (λ _, P).
Proof. eapply drives_bind; [apply app_text_drives|]. intros text. apply drives_show. Qed.

(** Choosing among the servers there are. *)
Lemma server_button_drives n indexed : (indexed.1 < n)%nat →
  drives_window (λ w, length (slots (client_state w)) = n) (draw_server_button indexed)
    (λ _ w, length (slots (client_state w)) = n).
Proof.
  destruct indexed as [index s]. intros Hi. unfold draw_server_button. cbn in Hi.
  eapply drives_bind; [apply drives_show|]. intros ?.
  eapply (drives_bind _ _ _ _ (λ _ w, length (slots (client_state w)) = n)).
  { apply drives_pressed; [done|]. apply on_application_drives. intros b scale Hn. cbn in Hn. split; [|done].
    apply rtc_once, step_switch. by rewrite Hn. }
  intros ?. eapply drives_bind; [apply drives_show|]. intros ?. apply drives_show.
Qed.

Lemma server_bar_drives : drives_window any draw_server_bar ends.
Proof.
  unfold draw_server_bar. eapply drives_bind; [apply drives_show|]. intros ?.
  eapply drives_bind; [apply app_heading_drives|]. intros ?. eapply drives_bind; [apply application_now_drives|]. intros now.
  eapply (drives_bind _ _ _ _ (λ _, any)).
  { eapply drives_weaken.
    - apply (drives_each _ (λ w, length (slots (client_state w)) = length (slots now))). intros indexed Hin.
      apply server_button_drives. apply list_elem_of_lookup in Hin as [i Hi]. rewrite list_lookup_imap in Hi.
      apply fmap_Some in Hi as (s & Hs & ->). by eapply lookup_lt_Some.
    - by intros w [_ ->].
    - done. }
  intros ?. eapply drives_bind; [apply app_heading_drives|]. intros ?. eapply drives_bind; [apply app_label_drives|]. intros ?.
  eapply (drives_bind _ _ _ _ (λ _, any)).
  { unfold draw_invite_field. eapply drives_bind; [apply drives_edit|intros ?; by apply drives_ret].
    intros text w _. split; [|done]. left. apply step_invite. }
  intros ?. eapply drives_bind; [apply app_text_drives|]. intros add. eapply (drives_bind _ _ _ _ (λ _, any)).
  { apply drives_pressed; [done|]. apply on_application_drives. intros before scale _. split; [|done]. apply rtc_once, step_add. }
  intros ?. eapply drives_bind; [apply application_now_only|]. intros later.
  eapply (drives_bind _ _ _ _ (λ _, any)); [|intros ?; apply drives_show]. case_decide; [by apply drives_ret|apply drives_show].
Qed.

Lemma language_button_drives s P name lang : drives (slot_step s) P (language_button name lang) ends.
Proof.
  unfold language_button. eapply drives_bind; [apply drives_seen_only|]. intros current. case_bool_decide.
  { eapply drives_weaken; [apply (drives_show _ P)|done|done]. }
  eapply drives_weaken; [apply (drives_pressed _ P (λ _, True))|done|done]; [done|].
  apply drives_act. intros w _. split; [apply rtc_once, slot_language|done].
Qed.

Lemma top_bar_drives : drives_window any draw_top_bar ends.
Proof.
  unfold draw_top_bar, draw_zoom_controls.
  eapply drives_bind; [apply on_active_drives; intros s b _|intros ?].
  { eapply (drives_weaken _ _ (λ _, True) _ _ (λ _ _, True)); [|done|done].
    unfold draw_top_bar_left.
    repeat (eapply (drives_bind _ (λ _, True));
            [first [apply drives_seen_only | apply drives_translated | apply drives_status_dot | apply drives_show]|intros ?]).
    apply drives_show. }
  eapply (drives_bind _ _ _ _ (λ _, any)).
  { eapply drives_bind; [apply on_active_drives; intros s b _; eapply drives_weaken; [apply (drives_disabled s (λ _, True))|done|done]|].
    intros ?. eapply drives_bind; [apply (drives_pressed _ any any); [done|apply on_scale_drives]|]. intros ?.
    eapply (drives_bind _ _ _ _ (λ _, any)); [intros c x c' _ E; injection E; by intros <- <-|]. intros w.
    eapply drives_bind; [apply drives_show|]. intros ?. apply (drives_pressed _ any any); [done|apply on_scale_drives]. }
  intros ?. eapply drives_bind; [|intros ?; by apply drives_ret].
  apply on_active_drives. intros s b _. unfold draw_top_bar_right. eapply drives_bind; [apply drives_show|]. intros ?.
  eapply drives_bind; [apply language_button_drives|]. intros ?. eapply drives_bind; [apply language_button_drives|]. intros ?.
  eapply drives_bind; [apply drives_seen_only|]. intros status. eapply drives_bind; [apply drives_seen_only|]. intros error.
  case_decide; [by apply drives_ret|apply drives_show].
Qed.

Lemma follow_language_steps a : rtc gui_step a (follow_language a).2.
Proof.
  unfold follow_language, sbind, sgets. destruct (slots a !! _) as [s|]; [|done]. apply rtc_once, step_window_language.
Qed.

Lemma server_drives s a : slots a !! active_slot (app a) = Some s →
  drives (slot_step s) (λ w, w = SlotWorld (slot_client s) (slot_view s) (app_draws a)) (draw_server s) ends.
Proof.
  intros Hs. unfold draw_server. destruct (ui_state.registered (slot_view s)) eqn:Hr.
  - eapply drives_weaken; [apply columns_drive|by intros w ->|done].
  - destruct (trust_acknowledged (entry s)) eqn:Ht; [|by apply drives_ret].
    eapply drives_weaken; [by apply auth_modal_drives|by intros w ->|done].
Qed.

Lemma server_zone_drives io : drives_window any (draw_server_zone io) ends.
Proof.
  unfold draw_server_zone. eapply drives_bind; [apply drives_show|]. intros ?.
  eapply drives_bind; [apply application_now_only|]. intros now. eapply (drives_bind _ _ _ _ (λ _, any)); [|intros ?; apply drives_show].
  destruct (slots now !! _); [|by apply drives_ret]. eapply drives_bind; [apply top_bar_drives|]. intros ?.
  eapply drives_bind; [apply on_scale_drives|]. intros ?. eapply (drives_bind _ _ _ _ (λ _, any)).
  { apply on_application_drives. intros before scale _. split; [apply follow_language_steps|done]. }
  intros ?. eapply drives_bind; [apply on_active_drives, server_drives|]. intros ?. by apply drives_ret.
Qed.

(** A notice that is not shown means that no phrase is pending. *)
Lemma notice_drives :
  drives_window any draw_recovery_phrase_notice
    (λ notice w, notice = false → pending_recovery_phrase (app (client_state w)) = []).
Proof.
  unfold draw_recovery_phrase_notice. eapply drives_bind; [apply application_now_drives|]. intros now.
  case_decide as Hpending; [apply drives_ret; by intros w [_ ->]|].
  eapply (drives_weaken _ _ any _ _ (λ notice _, notice = true)); [|done|by intros ? w ->].
  eapply drives_bind; [apply drives_show|]. intros ?. eapply drives_bind; [apply drives_show|]. intros ?.
  eapply drives_bind; [apply drives_show|]. intros ?. eapply drives_bind; [apply drives_show|]. intros ?.
  eapply (drives_bind _ _ _ _ (λ _, any)).
  { apply drives_pressed; [done|]. apply on_application_drives. intros before scale _. split; [apply rtc_once, step_phrase_noted|done]. }
  intros ?. eapply drives_bind; [apply drives_show|]. intros ?. by apply drives_ret.
Qed.

(** The warning is acknowledged for the server it is about. *)
Lemma trust_warning_drives :
  drives_window (λ w, pending_recovery_phrase (app (client_state w)) = []) draw_trust_warning ends.
Proof.
  unfold draw_trust_warning. eapply drives_bind; [apply application_now_drives|]. intros now.
  destruct (slots now !! active_slot (app now)) as [s|] eqn:Hs; [|by apply drives_ret].
  destruct (trust_acknowledged (entry s)) eqn:Ht; [by apply drives_ret|].
  eapply drives_bind; [apply drives_show|]. intros ?. eapply drives_bind; [apply app_heading_drives|]. intros ?.
  eapply drives_bind; [apply app_text_drives|]. intros server. eapply drives_bind; [apply drives_show|]. intros ?.
  eapply drives_bind; [apply app_label_drives|]. intros ?. eapply drives_bind; [apply app_label_drives|]. intros ?.
  eapply drives_bind; [apply app_text_drives|]. intros accept.
  eapply (drives_bind _ _ _ _ (λ _, any)).
  { apply drives_pressed; [done|]. apply on_application_drives. intros before scale [Hpending E]. cbn in Hpending, E. subst before.
    split; [|done]. apply rtc_once. by eapply step_acknowledge. }
  intros ?. eapply drives_bind; [apply drives_show|]. intros ?. by apply drives_ret.
Qed.

Lemma frame_drives io intro : drives_window any (draw_application_frame io intro) ends.
Proof.
  unfold draw_application_frame. assert (drives_window any draw_welcome_overlay ends) as Hwelcome.
  { unfold draw_welcome_overlay. do 3 (eapply drives_bind; [apply drives_show|]; intros ?). apply drives_show. }
  destruct (get_intro_phase intro); [exact Hwelcome|..].
  all: eapply (drives_bind _ _ _ _ (λ _, any));
    [apply on_application_drives; intros b scale _; split; [apply rtc_once, step_service|done]|intros ?].
  all: eapply drives_bind; [apply drives_show|]; intros ?; eapply drives_bind; [apply server_bar_drives|]; intros ?.
  all: eapply drives_bind; [apply server_zone_drives|]; intros ?; eapply drives_bind; [apply drives_show|]; intros ?.
  all: eapply drives_bind; [apply notice_drives|]; intros []; [by apply drives_ret|].
  all: eapply (drives_bind _ _ _ _ (λ _, any)); [eapply (drives_weaken _ _ _ _ _ (λ _ _, True)); [apply trust_warning_drives|by intros w Hw; apply Hw|done]|]; intros ?; by apply drives_ret.
Qed.
End frames.

(** ** The program *)

Section program.
Context `{Sodium} `{FileSystem} `{Desktop}.
Context (system : window_system).

Lemma render_frame_steps f p p' : render_frame system f p = Some p' →
  rtc gui_step (client_state (main_window p)) (client_state (main_window p')).
Proof.
  unfold render_frame. set (a := client_state (main_window p)). set (scale := refresh_scaling_if_needed _ _ _).
  set (welcomed := if app_intro_requested (app a) then _ else _). intros E.
  assert (rtc gui_step a welcomed.1.1) as Hwelcomed.
  { unfold welcomed. destruct (app_intro_requested (app a)); [apply rtc_once, step_welcomed|done]. }
  destruct welcomed as [[a1 intro1] music1]. cbn [fst] in Hwelcomed. etransitivity; [exact Hwelcomed|].
  pose proof (frame_drives (H2 := person f) (zoom_keys f) (advance_intro (delta_time f) intro1)
                (Canvas (Window a1 scale) [])) as Hframe.
  destruct (draw_application_frame _ _ _) as [[[] c]|]; [|done]. injection E as <-.
  destruct (Hframe tt c I eq_refl) as [Hsteps _]. exact (window_steps _ _ Hsteps).
Qed.

Lemma run_render_loop_steps frames p p' : run_render_loop system frames p = Some p' →
  rtc gui_step (client_state (main_window p)) (client_state (main_window p')).
Proof.
  revert p. induction frames as [|f frames IH]; intros p; cbn; [by intros [= ->]|].
  destruct (render_frame system f p) as [p1|] eqn:Ef; [|done]. intros E. etransitivity; [by eapply render_frame_steps|by apply IH].
Qed.

(** C7: the graphical program does only what its screen offers. Whatever a person
    presses and types in the frames of a run, in any order and as often as they
    like in a single frame, if the run reaches the closing of its window (that
    is, without undefined behaviour on the way), the client goes from the state
    its start left to the one in which the window is closed by steps of which
    each is something the panels offer in the state it is taken in: one deletes
    what is still there and one's own and reports what is somebody else's,
    answers comments and follows links that are displayed, registers only
    without an account, and acknowledges a warning only after the recovery
    phrase was put away. *)
Theorem graphical_program_follows_its_screen (sodium_ready : bool) (argv : list bytes) (passphrase : bytes + bytes)
    (frames : list frame_input) (a : application) (closed : program)
    (Hran : graphical_main system sodium_ready argv passphrase frames a = Some (inr closed)) :
  ∃ started, start_client sodium_ready argv passphrase a = (None, started) ∧
    rtc gui_step started (client_state (main_window closed)).
Proof.
  unfold graphical_main in Hran. destruct (start_client _ _ _ a) as [[failure|] started]; [done|].
  destruct (opens_window system); [|done]. cbn [negb] in Hran.
  destruct (run_render_loop system frames (open_program system started)) as [p|] eqn:E; [|done]. injection Hran as <-.
  exists started. split; [done|]. exact (run_render_loop_steps frames _ _ E).
Qed.
End program.
