(* ===== verification/FrameFacts.v ===== *)
(** Single frames of the graphical client: the frames nobody touches, what
    choosing another server does to the language, the reply that frees the
    thread it is under, and the music of a second welcome. *)

From Stdlib Require Import SpecFloat.
From stdpp Require Import relations.
From S2P Require Import Prelude.
From S2P Require Import Wire.
From S2P Require Import Framing.
From S2P Require Import Codec.
From S2P Require Import TextTools.
From S2P Require Import Sodium.
From S2P Require Import Noise.
From S2P Require Import SessionMessages.
From S2P Require Import ContentMessages.
From S2P Require Import SocialMessages.
From S2P Require Import DirectMessages.
From S2P Require Import Files.
From S2P Require Import ClientOptions.
From S2P Require Import Connection.
From S2P Require Import Keystore.
From S2P Require Import ClientNet.
From S2P Require Import ClientChannel.
From S2P Require Import ClientSession.
From S2P Require Import ClientMain.
From S2P Require Import GraphicalClient.
From S2P Require Import GraphicalUse.
From S2P Require Import I18n.
From S2P Require Import Presentation.
From S2P Require Import Audio.
From S2P Require Import Drawing.
From S2P Require Import RenderLoop.

(** ** A person who is done

    From the moment the widgets drawn are [past], the person does nothing. *)

Class Done (p : Person) (past : list widget → Prop) := {
  done_presses : ∀ l x, past l → presses (Person := p) l x = false;
  done_writes : ∀ l x, past l → writes (Person := p) l x = None;
  done_confirms : ∀ l x, past l → confirms (Person := p) l x = false;
  done_stays : ∀ l x, past l → past (x :: l);
}.

#[export] Instance bystander_done : Done bystander (λ _, True).
Proof. by split. Qed.

(** Somebody who uses the widget of a rank in the frame, and nothing else. *)
Definition presses_once (rank : nat) : Person :=
  {| presses := λ l _, bool_decide (length l = rank); writes := λ _ _, None; confirms := λ _ _, false |}.

#[export] Instance pressed_done rank : Done (presses_once rank) (λ l, rank < length l)%nat.
Proof. split; cbn; [intros l _ Hl; apply bool_decide_eq_false; lia|done|done|lia]. Qed.

Section inert.
Context (p : Person) (past : list widget → Prop) `{!Done p past}.
#[local] Existing Instance p.

(** Nothing comes of drawing: there is a result, and the world is as it was. *)
Definition inert {W A} (P : W → Prop) (m : ui W A) : Prop :=
  ∀ c, P (world_of c) → past (shown c) → ∃ a l, m c = Some (a, Canvas (world_of c) l) ∧ past l.

Lemma inert_ret {W A} P (a : A) : inert (W := W) P (mret a).
Proof. intros [w l] HP Hl. by exists a, l. Qed.

Lemma inert_bind {W A B} P (m : ui W A) (k : A → ui W B) : inert P m → (∀ a, inert P (k a)) → inert P (m ≫= k).
Proof.
  intros Hm Hk c HP Hl. destruct (Hm c HP Hl) as (a & l & E & Hl'). unfold mbind, ui_bind. rewrite E.
  exact (Hk a (Canvas (world_of c) l) HP Hl').
Qed.

Lemma inert_show {W} P x : inert (W := W) P (show x).
Proof. intros c HP Hl. eexists _, _. split; [done|]. by apply done_stays. Qed.

Lemma inert_pressed {W} P x (handler : ui W unit) : inert P (when_pressed x handler).
Proof.
  intros c HP Hl. unfold when_pressed, press, mbind, ui_bind. rewrite done_presses by done.
  eexists _, _. split; [done|]. by apply done_stays.
Qed.

Lemma inert_edit {W} P label capacity (contents : W → bytes) store : inert P (edit label capacity contents store).
Proof.
  intros c HP Hl. unfold edit. rewrite done_writes by done. eexists _, _. split; [done|]. by apply done_stays.
Qed.

Lemma inert_each {W A} P (draw : A → ui W unit) items : (∀ item, inert P (draw item)) → inert P (draw_each draw items).
Proof.
  intros Hdraw. induction items as [|item items IH]; [apply inert_ret|]. cbn [draw_each]. by apply inert_bind.
Qed.

Section panels.
Context `{Sodium} `{Desktop}.
Context (owner : identity_keypair).

Lemma inert_seen {A} P (f : ui_state.t → A) : inert P (seen f).
Proof. intros [w l] HP Hl. by eexists _, _. Qed.

Lemma inert_translated P key : inert P (translated key).
Proof. apply inert_bind; [apply inert_seen|intros ?; apply inert_ret]. Qed.

Lemma inert_heading P key : inert P (heading key).
Proof. apply inert_bind; [apply inert_translated|intros ?; apply inert_show]. Qed.

Lemma inert_label P color key : inert P (label_text color key).
Proof. apply inert_bind; [apply inert_translated|intros ?; apply inert_show]. Qed.

Lemma inert_disabled P key : inert P (label_disabled key).
Proof. apply inert_bind; [apply inert_translated|intros ?; apply inert_show]. Qed.

Lemma inert_status_dot {W} P secure text : inert (W := W) P (draw_status_dot secure text).
Proof. apply inert_bind; [apply inert_show|intros ?; apply inert_show]. Qed.

Lemma inert_on_button P key handler : inert P (on_button key handler).
Proof. apply inert_bind; [apply inert_translated|intros ?; apply inert_pressed]. Qed.

Lemma inert_on_small_button P key handler : inert P (on_small_button key handler).
Proof. apply inert_bind; [apply inert_translated|intros ?; apply inert_pressed]. Qed.

Lemma inert_input P key field : inert P (input key field).
Proof.
  apply inert_bind; [apply inert_translated|intros ?]. apply inert_bind; [apply inert_edit|intros ?; apply inert_ret].
Qed.

Lemma inert_unnamed P label field : inert P (unnamed_input label field).
Proof. apply inert_bind; [apply inert_edit|intros ?; apply inert_ret]. Qed.
End panels.
End inert.

Ltac stays_inert p := repeat
  lazymatch goal with
  | |- Done _ _ => apply _
  | |- inert _ _ (mbind _ _) => apply inert_bind; [|intros ?]
  | |- inert _ _ (show _) => apply (inert_show p)
  | |- inert _ _ (draw_section_heading _) => apply (inert_show p)
  | |- inert _ _ (mret _) => apply inert_ret
  | |- inert _ _ (heading _) => apply (inert_heading p)
  | |- inert _ _ (label_text _ _) => apply (inert_label p)
  | |- inert _ _ (label_disabled _) => apply (inert_disabled p)
  | |- inert _ _ (translated _) => apply inert_translated
  | |- inert _ _ (draw_status_dot _ _) => apply (inert_status_dot p)
  | |- inert _ _ (seen _) => apply inert_seen
  | |- inert _ _ (on_button _ _) => apply (inert_on_button p)
  | |- inert _ _ (on_small_button _ _) => apply (inert_on_small_button p)
  | |- inert _ _ (when_pressed _ _) => apply (inert_pressed p)
  | |- inert _ _ (input _ _) => apply (inert_input p)
  | |- inert _ _ (unnamed_input _ _) => apply (inert_unnamed p)
  | |- inert _ _ (edit_field _ _) => apply (inert_edit p)
  | |- inert _ _ (draw_each _ _) => apply inert_each; intros ?
  | |- inert _ _ (match _ with _ => _ end) => case_match
  | |- inert _ _ (let _ := _ in _) => cbv zeta
  end.

Section panels_inert.
Context (p : Person) (past : list widget → Prop) `{!Done p past}.
#[local] Existing Instance p.
Context `{Sodium} `{FileSystem} `{Desktop}.
Context (owner : identity_keypair).

Abbreviation still := (inert past (λ _ : slot_world, True)).

Lemma dereference_inert buffer :
  inert past (λ w, ui_state.comments_buffer (view w) = buffer) (dereference buffer).
Proof. intros [w l] HP Hl. cbn in HP. unfold dereference. cbn. rewrite HP, Nat.eqb_refl. by eexists _, _. Qed.

Lemma comment_tree_inert : still (draw_comment_tree owner).
Proof.
  intros c _ Hl.
  assert (inert past (λ w, ui_state.comments_buffer (view w) = ui_state.comments_buffer (view (world_of c)))
            (draw_each (draw_comment owner (ui_state.comments_buffer (view (world_of c)))) (ui_state.comments (view (world_of c))))) as Htree.
  { apply inert_each. intros comment. unfold draw_comment.
    repeat (stays_inert p; try apply dereference_inert). }
  exact (Htree c eq_refl Hl).
Qed.

Lemma columns_inert : still (draw_columns owner).
Proof.
  pose proof comment_tree_inert as Htree.
  unfold draw_columns, draw_forum_column, draw_forum_list, draw_forum_creator, draw_forum, draw_post_list, draw_post, draw_post_composer,
    draw_thread_column, draw_post_header, draw_side_column, draw_identity_panel, draw_profile_editor, draw_dm_panel, draw_inbox,
    draw_message, draw_social_panel, draw_friends_panel, draw_friend, draw_viewed_profile_panel, draw_own_top8_editor,
    draw_top8_grid, draw_top8_slot.
  repeat (stays_inert p; try exact Htree).
Qed.

Lemma auth_modal_inert : still (draw_auth_modal owner).
Proof.
  unfold draw_auth_modal. do 5 (apply inert_bind; [solve [stays_inert p]|intros ?]).
  intros c _ Hl. unfold mbind at 1, ui_bind at 1.
  enough (∀ before, past before → still (field ← edit_field (lit "##registration_handle") handle_text;
    label_disabled (lit "auth_handle_hint");;
    status ← seen ui_state.status_message;
    error ← seen ui_state.status_is_error;
    (if decide (status = []) then mret tt else show (Text (if (error : bool) then alert else accent) status));;
    register ← translated (lit "auth_btn_register");
    pressed ← press (Button register);
    (if (pressed : bool) || confirms before field
     then success ← translated (lit "auth_success"); act (submit_registration owner success)
     else mret tt);;
    show CloseScope)) as Hrest by exact (Hrest (shown c) Hl c I Hl).
  intros before Hbefore. do 4 (apply inert_bind; [solve [stays_inert p]|intros ?]).
  apply inert_bind; [solve [stays_inert p]|intros ?]. apply inert_bind; [solve [stays_inert p]|intros ?].
  intros c' _ Hl'. unfold mbind at 1, ui_bind at 1, press. rewrite (done_presses _ _ Hl'). cbn [orb].
  rewrite (done_confirms _ _ Hbefore). eexists _, _. split; [done|]. by do 2 apply done_stays.
Qed.
End panels_inert.

(** ** A frame nobody touches *)

Section frames_inert.
Context (p : Person) (past : list widget → Prop) `{!Done p past}.
#[local] Existing Instance p.
Context `{Sodium} `{FileSystem} `{Desktop}.

Abbreviation still := (inert past (λ _ : window, True)).

Lemma slot_put_back a s : slots a !! active_slot (app a) = Some s →
  Application (app a)
    (<[active_slot (app a) := ServerSlot (entry s) (slot_identity s) (slot_client s) (slot_view s)]> (slots a))
    (app_disk a) (app_draws a) = a.
Proof. exact (placed_back s a (active_slot (app a))). Qed.

Lemma on_active_inert {A} (m : server_slot → ui slot_world A) :
  (∀ s, inert past (λ _, True) (m s)) → still (on_active m).
Proof.
  intros Hm [[a scale] l] _ Hl. unfold on_active. cbn [world_of shown client_state scale_state] in *.
  destruct (slots a !! active_slot (app a)) as [s|] eqn:Es; [|by eexists _, _].
  destruct (Hm s (Canvas (SlotWorld (slot_client s) (slot_view s) (app_draws a)) l) I Hl) as (x & l' & -> & Hl').
  eexists _, l'. split; [|done]. cbn. by rewrite (slot_put_back a s Es).
Qed.

Lemma application_now_inert : still application_now.
Proof. intros [w l] _ Hl. by eexists _, _. Qed.

Lemma look_inert : still look.
Proof. intros [w l] _ Hl. by eexists _, _. Qed.

Lemma app_text_inert key : still (app_text key).
Proof. apply inert_bind; [apply application_now_inert|intros ?; apply inert_ret]. Qed.

Lemma app_heading_inert key : still (app_heading key).
Proof. apply inert_bind; [apply app_text_inert|intros ?; by apply (inert_show p)]. Qed.

Lemma app_label_inert color key : still (app_label color key).
Proof. apply inert_bind; [apply app_text_inert|intros ?; by apply (inert_show p)]. Qed.

Ltac window_inert := repeat (stays_inert p; try first
  [ apply application_now_inert | apply look_inert | apply app_text_inert | apply app_heading_inert | apply app_label_inert
  | apply on_active_inert; intros ? ]).

Lemma server_button_inert indexed : still (draw_server_button indexed).
Proof. destruct indexed as [index s]. unfold draw_server_button. window_inert. Qed.

Lemma below_buttons_inert :
  still (app_heading (lit "servers_add_heading");;
         app_label ink_muted (lit "servers_add_hint");;
         draw_invite_field;;
         add ← app_text (lit "servers_add_btn");
         when_pressed (Button add) (on_application add_server_from_invite);;
         a ← application_now;
         (if decide (app_status_message (app a) = []) then mret tt
          else show (Text (if app_status_is_error (app a) then alert else ink_muted) (app_status_message (app a))));;
         show CloseScope).
Proof.
  apply inert_bind; [apply app_heading_inert|intros ?]. apply inert_bind; [apply app_label_inert|intros ?].
  apply inert_bind; [apply inert_bind; [by apply (inert_edit p)|intros ?; apply inert_ret]|intros ?]. window_inert.
Qed.

Lemma server_bar_inert : still draw_server_bar.
Proof.
  unfold draw_server_bar. apply inert_bind; [by apply (inert_show p)|intros ?].
  apply inert_bind; [apply app_heading_inert|intros ?]. apply inert_bind; [apply application_now_inert|intros ?].
  apply inert_bind; [apply inert_each, server_button_inert|intros ?]. apply below_buttons_inert.
Qed.

Lemma top_bar_inert : still draw_top_bar.
Proof. unfold draw_top_bar, draw_zoom_controls, draw_top_bar_left, draw_top_bar_right, language_button. window_inert. Qed.

Lemma notices_inert :
  still (notice ← draw_recovery_phrase_notice; if (notice : bool) then mret tt else draw_trust_warning;; mret tt).
Proof. unfold draw_recovery_phrase_notice, draw_trust_warning. window_inert. Qed.

Lemma server_inert s : inert past (λ _, True) (draw_server s).
Proof.
  unfold draw_server. pose proof (columns_inert p past (slot_identity s)) as Hcolumns.
  pose proof (auth_modal_inert p past (slot_identity s)) as Hmodal.
  destruct (ui_state.registered _); [exact Hcolumns|]. destruct (trust_acknowledged _); [exact Hmodal|apply inert_ret].
Qed.

(** Under the server bar a frame only moves the language of the server
    displayed to the window. *)
Lemma server_zone_idle io c : key_ctrl io = false → past (shown c) → ∃ l,
  draw_server_zone io c =
    Some (tt, Canvas (Window (follow_language (client_state (world_of c))).2 (scale_state (world_of c))) l) ∧ past l.
Proof.
  intros Hctrl Hl. unfold draw_server_zone, mbind, ui_bind. cbn [show world_of application_now].
  set (c1 := Canvas (world_of c) (OpenScope (lit "zone_serveur") :: shown c)).
  assert (past (shown c1)) as Hl1 by by apply done_stays.
  change (client_state (world_of c1)) with (client_state (world_of c)). destruct (world_of c) as [a scale] eqn:Ew.
  cbn [client_state scale_state]. destruct (slots a !! active_slot (app a)) as [s|] eqn:Es.
  2:{ unfold mret, ui_ret. cbn [show world_of shown]. unfold follow_language, sbind, sgets. rewrite Es.
      eexists. split; [done|]. by apply done_stays. }
  destruct (top_bar_inert c1 I Hl1) as (? & l2 & -> & Hl2). unfold c1. cbn [world_of]. unfold on_scale at 1, act, smodify.
  cbn [world_of client_state scale_state shown]. unfold handle_zoom_input. rewrite Hctrl. cbn [negb snd].
  unfold on_application at 1, act, zoom. cbn [world_of client_state scale_state shown].
  destruct (follow_language a) as [u a1]. cbn [snd].
  destruct (on_active_inert draw_server server_inert (Canvas (Window a1 scale) l2) I Hl2) as (r & l3 & -> & Hl3).
  unfold mret, ui_ret. cbn [show world_of shown]. eexists. split; [done|]. by apply done_stays.
Qed.

(** From the server zone to the end of the frame. *)
Lemma rest_idle io c : key_ctrl io = false → past (shown c) → ∃ l,
  (draw_server_zone io;;
   show CloseScope;;
   notice ← draw_recovery_phrase_notice;
   if (notice : bool) then mret tt else draw_trust_warning;; mret tt) c =
    Some (tt, Canvas (Window (follow_language (client_state (world_of c))).2 (scale_state (world_of c))) l).
Proof.
  intros Hctrl Hl. destruct (server_zone_idle io c Hctrl Hl) as (l1 & E1 & Hl1).
  unfold mbind at 1, ui_bind at 1. rewrite E1. unfold mbind at 1, ui_bind at 1. cbn [show world_of shown].
  destruct (notices_inert (Canvas (Window (follow_language (client_state (world_of c))).2 (scale_state (world_of c))) (CloseScope :: l1))
              I (done_stays _ _ Hl1)) as ([] & l2 & E2 & _).
  exists l2. exact E2.
Qed.
End frames_inert.

Section left_alone.
Context `{Sodium} `{FileSystem} `{Desktop}.
Context (system : window_system).

(** The frame of somebody who watches. *)
Definition untouched_frame (f : frame_input) : Prop := person f = bystander ∧ key_ctrl (zoom_keys f) = false.

Lemma frame_untouched io intro a scale : key_ctrl io = false → get_intro_phase intro ≠ intro_phase.welcome → ∃ l,
  draw_application_frame (H2 := bystander) io intro (Canvas (Window a scale) []) =
    Some (tt, Canvas (Window (follow_language (service_active_slot a).2).2 scale) l).
Proof.
  intros Hctrl Hphase. unfold draw_application_frame.
  assert (∀ m : ui window unit, match get_intro_phase intro with intro_phase.welcome => draw_welcome_overlay | _ => m end = m) as ->
    by (intros m; by destruct (get_intro_phase intro)).
  unfold mbind at 1, ui_bind at 1. unfold on_application at 1, act, zoom. cbn [world_of client_state scale_state shown].
  destruct (service_active_slot a) as [u a1]. cbn [snd]. unfold mbind at 1, ui_bind at 1. cbn [show world_of shown].
  unfold mbind at 1, ui_bind at 1.
  destruct (server_bar_inert bystander (λ _, True) (Canvas (Window a1 scale) [OpenScope (lit "hypercom")]) I I) as ([] & l1 & -> & _).
  destruct (rest_idle bystander (λ _, True) io (Canvas (Window a1 scale) l1) Hctrl I) as (l2 & E). exists l2. exact E.
Qed.

(** A server that the service of a frame has nothing to do for. *)
Definition settled (a : application) : Prop :=
  app_intro_requested (app a) = false ∧
  match slots a !! active_slot (app a) with
  | Some s =>
      ui_state.current_lang (slot_view s) = app_lang (app a) ∧ ui_state.intro_requested (slot_view s) = false ∧
      (trust_acknowledged (entry s) = false ∨ is_open (connection_ (slot_client s)) = true)
  | None => True
  end.

Lemma settled_service a : settled a → (service_active_slot a).2 = a ∧ (follow_language a).2 = a.
Proof.
  intros [_ Hs]. unfold service_active_slot, follow_language, sbind at 1, sgets.
  destruct (slots a !! active_slot (app a)) as [s|] eqn:Es; [|by unfold sbind, sgets; rewrite Es].
  destruct Hs as (Hlang & Hintro & Hdone). rewrite Hintro.
  assert (negb (trust_acknowledged (entry s)) || is_open (connection_ (slot_client s)) = true) as ->
    by (destruct Hdone as [->| ->]; [done|apply orb_true_r]).
  split.
  - unfold sbind, sret, on_slot. rewrite Es. cbn. rewrite <-Hlang.
    assert (ui_state.set_current_lang (ui_state.current_lang (slot_view s)) (slot_view s) = slot_view s) as ->
      by (by destruct (slot_view s)).
    exact (slot_put_back a s Es).
  - unfold sbind, sgets. rewrite Es, Hlang. destruct a as [[] sl d n]. done.
Qed.

(** C22: a settled client nobody touches stays as it is. When the server
    displayed is connected, or its warning not acknowledged, when the program
    already follows the language of that server, and when no font is waiting to
    be rebuilt and no welcome is running, any number of frames that the person
    only looks at are drawn without undefined behaviour and leave the program
    exactly as it was: nothing is dialled, sent, stored or drawn at random. *)
Theorem untouched_program_stays (frames : list frame_input) (a : application) (scale : ui_scale_state) (i : intro_state) (m : audio_player)
    (Hframes : Forall untouched_frame frames) (Hsettled : settled a)
    (Hfont : font_rebuild_needed scale = false) (Hintro : intro_active i = false) :
  run_render_loop system frames (Program (Window a scale) i m) = Some (Program (Window a scale) i m).
Proof.
  induction Hframes as [|f frames [Hperson Hctrl] _ IH]; [done|]. cbn [run_render_loop]. unfold render_frame.
  cbn [main_window client_state scale_state RenderLoop.intro]. rewrite (proj1 Hsettled).
  unfold refresh_scaling_if_needed. rewrite Hfont. cbn [negb].
  assert (advance_intro (delta_time f) i = i) as -> by (unfold advance_intro; by rewrite Hintro).
  rewrite Hperson. destruct (frame_untouched (zoom_keys f) i a scale Hctrl) as [l ->].
  { unfold get_intro_phase. by rewrite Hintro. }
  destruct (settled_service a Hsettled) as [-> ->]. exact IH.
Qed.
End left_alone.

(** ** Servers whose warning is pending *)

Section pending.
Context `{Sodium} `{FileSystem} `{Desktop}.
Context (system : window_system).

(** C29: a server is not dialled before its warning is acknowledged. Whatever a
    person presses and types in the frames of a run, a server of which nobody
    acknowledged the warning when the window is closed has a connection that
    was never opened: no host was dialled on it and not a byte was sent. *)
Theorem pending_servers_hear_nothing (sodium_ready : bool) (argv : list bytes) (pass : bytes + bytes)
    (frames : list frame_input) (a : application) (closed : program) (s : server_slot)
    (Hempty : slots a = []) (Hran : graphical_main system sodium_ready argv pass frames a = Some (inr closed))
    (Hslot : s ∈ slots (client_state (main_window closed))) (Hunacknowledged : trust_acknowledged (entry s) = false) :
  dialled (socket_ (connection_ (slot_client s))) = [] ∧ sent_bytes (socket_ (connection_ (slot_client s))) = [].
Proof.
  unfold graphical_main in Hran. pose proof (start_silent sodium_ready argv pass a Hempty) as Hsilent.
  destruct (start_client _ _ _ a) as [[failure|] started]; [done|]. cbn [snd] in Hsilent.
  destruct (opens_window system); [|done]. cbn [negb] in Hran.
  destruct (run_render_loop system frames (open_program system started)) as [p|] eqn:E; [|done]. injection Hran as <-.
  apply run_render_loop_steps in E. cbn [open_program close_program main_window client_state] in E, Hslot.
  assert (Forall silent (slots (client_state (main_window p)))) as Hall.
  { clear Hslot. induction E as [|a1 a2 a3 Hstep _ IH]; [done|]. by eapply IH, step_silent. }
  rewrite Forall_forall in Hall. by destruct (Hall s Hslot Hunacknowledged) as (_ & _ & ? & ?).
Qed.
End pending.

(** ** Choosing a server *)

Section choosing.
Context `{Sodium} `{FileSystem} `{Desktop}.

(** The service of a frame touches the server displayed, and no other. *)
Definition others_kept (index : nat) (a a' : application) : Prop :=
  active_slot (app a') = active_slot (app a) ∧ length (slots a') = length (slots a) ∧
  ∀ j, j ≠ index → slots a' !! j = slots a !! j.

#[export] Instance others_kept_preorder index : PreOrder (others_kept index).
Proof.
  split; unfold others_kept; [by intros a|]. intros a1 a2 a3 (A1 & L1 & K1) (A2 & L2 & K2). split_and!; [congruence..|].
  intros j Hj. by rewrite K2, K1.
Qed.

Lemma on_slot_others {A} index (m : server_slot → state slot_world A) : keeps (others_kept index) (on_slot index m).
Proof.
  intros a. unfold on_slot. destruct (slots a !! index) as [s|]; [|done]. destruct (m s _) as [x w].
  unfold others_kept. cbn. split_and!; [done|by rewrite length_insert|]. intros j Hj. by rewrite list_lookup_insert_ne.
Qed.

Lemma service_others a : others_kept (active_slot (app a)) a (service_active_slot a).2.
Proof.
  unfold service_active_slot, sbind at 1, sgets. set (index := active_slot (app a)).
  destruct (slots a !! index) as [s|]; [|done].
  apply (keeps_bind (others_kept index)); [apply on_slot_others|]. intros ?.
  apply (keeps_bind (others_kept index)); [|].
  { destruct (ui_state.intro_requested _); [|apply (keeps_ret (others_kept index))].
    apply (keeps_bind (others_kept index)); [apply on_slot_others|]. by intros ? a'. }
  intros ?. destruct (negb _ || _); [apply (keeps_ret (others_kept index))|]. unfold connect_active.
  apply (keeps_bind (others_kept index)); [apply on_slot_others|]. intros [[error|]|];
    (apply (keeps_bind (others_kept index)); [apply on_slot_others|intros ?; apply (keeps_ret (others_kept index))]).
Qed.

(** The button of a rank in the bar, pressed by somebody who presses it. *)
Lemma pressed_server (items : list (nat * server_slot)) k j s rank a scale l :
  items !! k = Some (j, s) → rank = (length l + 4 * k + 1)%nat → ∃ l',
  draw_each (draw_server_button (H2 := presses_once rank)) items (Canvas (Window a scale) l) =
    Some (tt, Canvas (Window (set_active_slot j a).2 scale) l') ∧ (rank < length l')%nat.
Proof.
  revert k l. induction items as [|[i x] items IH]; intros k l Hk Hrank; [by rewrite lookup_nil in Hk|].
  cbn [draw_each]. destruct k as [|k].
  - injection Hk as -> ->. unfold mbind at 1, ui_bind at 1. unfold draw_server_button.
    unfold mbind at 1, ui_bind at 1. cbn [show world_of shown]. unfold mbind at 1, ui_bind at 1. unfold when_pressed, press.
    unfold mbind at 1, ui_bind at 1. cbn [presses presses_once shown world_of]. rewrite bool_decide_true by (cbn; lia).
    unfold on_application, act, zoom. cbn [world_of client_state scale_state shown].
    change (set_active_slot j a) with (tt, (set_active_slot j a).2). cbv iota beta.
    unfold mbind at 1, ui_bind at 1. cbn [show world_of shown]. set (tail := PopID :: _).
    assert (rank < length tail)%nat as Htail by (unfold tail; cbn; lia).
    change (show PopID _) with (Some (tt, Canvas (Window (set_active_slot j a).2 scale) tail)). cbv iota beta.
    destruct (inert_each (λ l, rank < length l)%nat (λ _ : window, True) (draw_server_button (H2 := presses_once rank)) items
                (server_button_inert (presses_once rank) _) (Canvas (Window (set_active_slot j a).2 scale) tail) I Htail) as ([] & l' & E & Hl').
    by exists l'.
  - cbn in Hk. unfold mbind at 1, ui_bind at 1. unfold draw_server_button at 1.
    unfold mbind at 1, ui_bind at 1. cbn [show world_of shown]. unfold mbind at 1, ui_bind at 1. unfold when_pressed, press.
    unfold mbind at 1, ui_bind at 1. cbn [presses presses_once shown world_of]. rewrite bool_decide_false by (cbn; lia).
    unfold mret, ui_ret. unfold mbind at 1, ui_bind at 1. cbn [show world_of shown].
    apply (IH k); [done|]. cbn. lia.
Qed.

Lemma server_bar_pressed a scale j s l rank :
  slots a !! j = Some s → rank = (length l + 4 * j + 3)%nat → ∃ l',
  draw_server_bar (H2 := presses_once rank) (Canvas (Window a scale) l) =
    Some (tt, Canvas (Window (set_active_slot j a).2 scale) l') ∧ (rank < length l')%nat.
Proof.
  intros Hs Hrank. unfold draw_server_bar. unfold mbind at 1, ui_bind at 1. cbn [show world_of shown].
  unfold mbind at 1, ui_bind at 1. unfold app_heading at 1, app_text at 1, draw_section_heading.
  unfold mbind at 1, ui_bind at 1. unfold mbind at 1, ui_bind at 1. cbn [application_now world_of shown client_state].
  unfold mret at 1, ui_ret at 1. cbn [show world_of shown]. unfold mbind at 1, ui_bind at 1.
  cbn [application_now world_of shown client_state]. unfold mbind at 1, ui_bind at 1. set (l0 := _ :: _ :: l).
  destruct (pressed_server (imap pair (slots a)) j j s rank a scale l0) as (l1 & -> & Hl1).
  { by rewrite list_lookup_imap, Hs. }
  { rewrite Hrank. cbn. lia. }
  destruct (below_buttons_inert (presses_once rank) (λ l, rank < length l)%nat
              (Canvas (Window (set_active_slot j a).2 scale) l1) I Hl1) as ([] & l2 & E2 & Hl2).
  exists l2. split; [exact E2|exact Hl2].
Qed.

(** The rank of the button of a server in a frame. *)
Definition server_button_rank (index : nat) : nat := 4 * index + 4.

(** Choosing another server loses the language. In a frame in which somebody
    does nothing but choose another server, the window takes the language that
    server's view was left with: the one the window had when the server was
    built, or was last displayed. (Every view starts in French.) *)
Theorem choosing_a_server_changes_the_language (io : zoom_input) (i : intro_state) (a : application) (scale : ui_scale_state)
    (j : nat) (s : server_slot)
    (Hphase : get_intro_phase i ≠ intro_phase.welcome) (Hctrl : key_ctrl io = false)
    (Hother : j ≠ active_slot (app a)) (Hslot : slots a !! j = Some s) :
  ∃ c, draw_application_frame (H2 := presses_once (server_button_rank j)) io i (Canvas (Window a scale) []) = Some (tt, c) ∧
    active_slot (app (client_state (world_of c))) = j ∧
    app_lang (app (client_state (world_of c))) = ui_state.current_lang (slot_view s).
Proof.
  set (rank := server_button_rank j). unfold draw_application_frame.
  assert (∀ m : ui window unit, match get_intro_phase i with intro_phase.welcome => draw_welcome_overlay | _ => m end = m) as ->
    by (intros m; by destruct (get_intro_phase i)).
  unfold mbind at 1, ui_bind at 1. unfold on_application at 1, act, zoom. cbn [world_of client_state scale_state shown].
  pose proof (service_others a) as (_ & _ & Hothers). destruct (service_active_slot a) as [u a1]. cbn [snd] in *.
  specialize (Hothers j Hother). rewrite Hslot in Hothers.
  unfold mbind at 1, ui_bind at 1. cbn [show world_of shown].
  destruct (server_bar_pressed a1 scale j s [OpenScope (lit "hypercom")] rank) as (l2 & E2 & Hl2);
    [done|unfold rank, server_button_rank; cbn; lia|].
  unfold mbind at 1, ui_bind at 1. rewrite E2. set (a2 := (set_active_slot j a1).2).
  destruct (rest_idle (presses_once rank) (λ l, rank < length l)%nat io (Canvas (Window a2 scale) l2) Hctrl Hl2) as (l3 & E).
  eexists. split; [exact E|]. cbn [world_of client_state scale_state].
  unfold follow_language, sbind, sgets. change (active_slot (app a2)) with j. change (slots a2) with (slots a1).
  by rewrite Hothers.
Qed.
End choosing.

(** ** Answering a comment *)

Section replying.
Context `{Sodium} `{Desktop}.
Context (owner : identity_keypair).

(** An exchange leaves the view alone. *)
Lemma exchange_view {R A} `{WireFormat R, WireFormat A} type (request : R) expected w (r : bytes + A) w' :
  exchange type request expected w = (r, w') → view w' = view w.
Proof.
  unfold exchange, on_client, zoom, sbind. destruct (on_link _ (client_of w)) as [[] c1]; cbn [negb].
  - cbn [client_of]. destruct (on_link _ c1) as [x c2]. by intros [= _ <-].
  - by intros [= _ <-].
Qed.

Definition connected (w : slot_world) : slot_world := (put_view (ui_state.set_connected true) w).2.

Lemma when_connected_open m w : is_open (connection_ (client_of w)) = true → when_connected owner m w = m (connected w).
Proof. intros Hopen. unfold when_connected, ensure_connected, sbind, sgets. by rewrite Hopen. Qed.

(** An answer that the server accepts has the thread loaded again. *)
Lemma reply_loads_thread parent w info posted thread fetched :
  let v := view w in
  is_open (connection_ (client_of w)) = true → ui_state.comment_input v ≠ [] →
  exchange message_type.comment_create_request
    (comment_create_request.mk (ui_state.selected_post_id v) parent (ui_state.comment_input v))
    message_type.comment_info_response (connected w) = (inr (info : comment_info_response.t), posted) →
  is_open (connection_ (client_of posted)) = true →
  exchange message_type.thread_fetch_request (thread_fetch_request.mk (ui_state.selected_post_id v))
    message_type.thread_response (connected (put_view (ui_state.set_comment_input []) posted).2) =
    (inr (thread : thread_response.t), fetched) →
  ui_state.comments_buffer (view (submit_comment owner parent w).2) = S (ui_state.comments_buffer v).
Proof.
  intros v Hopen Htext Hposted Hstill Hfetched. unfold submit_comment. rewrite when_connected_open by done.
  unfold sbind at 1, sgets. rewrite decide_False by done. unfold when_answered, sbind at 1.
  change (ui_state.selected_post_id (view (connected w))) with (ui_state.selected_post_id v).
  change (ui_state.comment_input (view (connected w))) with (ui_state.comment_input v).
  rewrite Hposted. unfold sbind at 1, put_view at 1, smodify at 1. unfold sbind at 1, open_thread.
  rewrite when_connected_open by done. unfold when_answered, sbind at 1. cbn [snd put_view smodify] in Hfetched.
  rewrite Hfetched. apply exchange_view in Hposted, Hfetched. cbn. rewrite Hfetched. cbn. by rewrite Hposted.
Qed.

(** Somebody who presses the button that answers the comment of an
    identifier. *)
Definition replies_to (lang : language) (comment_id : Z) : Person :=
  {| presses := λ l x, bool_decide (x = SmallButton (tr (lit "reply_action") lang) ∧ head l = Some (PushID (wrap 32 comment_id)));
     writes := λ _ _, None; confirms := λ _ _, false |}.

Section drawn.
Context (lang : language) (comment_id : Z).
#[local] Instance replier : Person := replies_to lang comment_id.

(** The comments before that one are drawn, and nothing comes of it. *)
Lemma other_comment_drawn buffer comment w l :
  ui_state.comments_buffer (view w) = buffer → ui_state.current_lang (view w) = lang →
  wrap 32 (comment_record.id comment) ≠ wrap 32 comment_id →
  ∃ l', draw_comment owner buffer comment (Canvas w l) = Some (tt, Canvas w l').
Proof.
  intros Hbuffer Hlang Hid.
  assert (∀ x l, head l ≠ Some (PushID (wrap 32 comment_id)) → presses l x = false) as Hnot
    by (intros x l' Hl; cbn; apply bool_decide_eq_false; by intros [_ ?]).
  unfold draw_comment. unfold mbind at 1, ui_bind at 1, dereference at 1. cbn [world_of view]. rewrite Hbuffer, Nat.eqb_refl.
  unfold mbind at 1, ui_bind at 1. cbn [show world_of shown]. unfold mbind at 1, ui_bind at 1.
  set (c := Canvas w _).
  assert (∃ l2, (if is_removed (comment_record.body comment) then label_text ink_muted (lit "content_removed")
                 else show (Text plain (comment_record.body comment))) c = Some (tt, Canvas w l2)) as [l2 ->]
    by (destruct (is_removed _); by eexists).
  unfold mbind at 1, ui_bind at 1. cbn [show world_of shown]. unfold mbind at 1, ui_bind at 1.
  unfold on_small_button at 1, translated at 1, seen at 1, when_pressed, press, mbind, ui_bind, mret, ui_ret. cbn [world_of shown].
  rewrite Hnot by (cbn; congruence). unfold dereference. cbn [world_of view]. rewrite Hbuffer, Nat.eqb_refl.
  destruct (is_removed _); [by eexists|]. destruct (is_own_content _ _);
    unfold on_small_button, translated, seen, when_pressed, press, mbind, ui_bind, mret, ui_ret; cbn [world_of shown];
    rewrite Hnot by done; by eexists.
Qed.

(** The answer is sent under the comment, which is then read again. *)
Lemma answered_comment_freed buffer comment w l :
  ui_state.comments_buffer (view w) = buffer → ui_state.current_lang (view w) = lang →
  comment_record.id comment = comment_id →
  ui_state.comments_buffer (view (submit_comment owner comment_id w).2) ≠ buffer →
  draw_comment owner buffer comment (Canvas w l) = None.
Proof.
  intros Hbuffer Hlang Hid Hafter. unfold draw_comment. unfold mbind at 1, ui_bind at 1, dereference at 1.
  cbn [world_of view]. rewrite Hbuffer, Nat.eqb_refl.
  unfold mbind at 1, ui_bind at 1. cbn [show world_of shown]. unfold mbind at 1, ui_bind at 1.
  set (c := Canvas w _).
  assert (∃ l2, (if is_removed (comment_record.body comment) then label_text ink_muted (lit "content_removed")
                 else show (Text plain (comment_record.body comment))) c = Some (tt, Canvas w l2)) as [l2 ->]
    by (destruct (is_removed _); by eexists).
  unfold mbind at 1, ui_bind at 1. cbn [show world_of shown]. unfold mbind at 1, ui_bind at 1.
  unfold on_small_button at 1, translated at 1, seen at 1, when_pressed, press, mbind, ui_bind, mret, ui_ret.
  cbn [world_of shown presses replier replies_to]. rewrite Hlang, Hid, bool_decide_true by done. unfold act.
  cbn [world_of shown]. destruct (submit_comment owner comment_id w) as [u w']. cbn [snd] in Hafter.
  unfold dereference. cbn [world_of]. by rewrite (proj2 (Nat.eqb_neq _ _) Hafter).
Qed.
End drawn.

(** C21: answering a comment of the thread frees the thread while it is drawn. The
    panel walks the comments by reference; pressing the reply button of one,
    with a text written and a server that stores it and sends the thread back,
    replaces them in the middle of the walk, and the next look at the comment
    is undefined behaviour: the panel has no result. *)
Theorem replying_frees_the_thread (before after : list comment_record.t) (comment : comment_record.t) (w : slot_world)
    (l : list widget) (info : comment_info_response.t) (posted : slot_world) (thread : thread_response.t) (fetched : slot_world)
    (v := view w) (parent := comment_record.id comment)
    (Hcomments : ui_state.comments v = before ++ comment :: after)
    (Hids : Forall (λ other, wrap 32 (comment_record.id other) ≠ wrap 32 parent) before)
    (Hopen : is_open (connection_ (client_of w)) = true)
    (Htext : ui_state.comment_input v ≠ [])
    (Hposted : exchange message_type.comment_create_request
                 (comment_create_request.mk (ui_state.selected_post_id v) parent (ui_state.comment_input v))
                 message_type.comment_info_response (connected w) = (inr info, posted))
    (Hstill : is_open (connection_ (client_of posted)) = true)
    (Hfetched : exchange message_type.thread_fetch_request (thread_fetch_request.mk (ui_state.selected_post_id v))
                  message_type.thread_response (connected (put_view (ui_state.set_comment_input []) posted).2) =
                  (inr thread, fetched)) :
  draw_comment_tree (H1 := replies_to (ui_state.current_lang v) parent) owner (Canvas w l) = None.
Proof.
  pose proof (reply_loads_thread parent w info posted thread fetched Hopen Htext Hposted Hstill Hfetched) as Hbuffer.
  unfold draw_comment_tree, mbind, ui_bind, seen. cbn [world_of]. fold v. rewrite Hcomments. clear Hcomments.
  revert l. induction Hids as [|other before Hid _ IH]; intros l; cbn [Datatypes.app draw_each].
  - unfold mbind, ui_bind. rewrite answered_comment_freed; [done|done|done|done|]. rewrite Hbuffer. fold v. lia.
  - unfold mbind, ui_bind.
    destruct (other_comment_drawn (ui_state.current_lang v) parent (ui_state.comments_buffer v) other w l eq_refl eq_refl Hid)
      as [l' E].
    unfold replier in E. rewrite E. apply IH.
Qed.
End replying.

(** ** The music *)

Section welcoming.
Context `{Sodium} `{FileSystem} `{Desktop}.
Context (system : window_system).

(** The first welcome of a run holds one engine of the audio library at most,
    and closing the window releases it. *)
Theorem one_welcome_is_released (f : frame_input) (p p' : program)
    (Hsilent : music p = new_player) (Hframe : render_frame system f p = Some p') :
  live engine_change (music (close_program p')) = 0 ∧ live sound_change (music (close_program p')) = 0.
Proof.
  unfold render_frame in Hframe. rewrite Hsilent in Hframe.
  set (m := if app_intro_requested (app (client_state (main_window p))) then (start_track (speakers system) THEME_FILE_NAME new_player).2
            else new_player).
  unfold close_program. cbn [music]. assert (music p' = m) as ->.
  { unfold m. destruct (app_intro_requested _); (destruct (draw_application_frame _ _ _) as [[? c]|]; [|done]); by injection Hframe as <-. }
  pose proof (stop_track_releases m) as (_ & _ & _ & He & Hs). rewrite He, Hs.
  unfold m. destruct (app_intro_requested _); [|done].
  pose proof (start_track_spec (speakers system) THEME_FILE_NAME new_player) as Hspec. cbv zeta in Hspec. clear Hframe.
  destruct (start_track _ _ new_player) as [[failure|] q]; cbn [snd].
  - destruct (bool_decide _ && _); [destruct Hspec as (-> & -> & -> & [->|[_ ?]]); done|by destruct Hspec as (-> & -> & -> & ->)].
  - by destruct Hspec as (-> & -> & -> & ->).
Qed.

(** A second welcome leaks the engine of the first: when one is asked for while
    the audio library plays (an account registered on another server, say), a
    second engine is initialised in the place of the first, which closing the
    window then never releases. *)
Theorem second_welcome_leaks_an_engine (f : frame_input) (p p' : program)
    (Hplaying : engine_ready (music p) = true) (Haccounted : accounted (music p))
    (Hasked : app_intro_requested (app (client_state (main_window p))) = true)
    (Hfile : find_asset_path (speakers system) THEME_FILE_NAME ≠ [])
    (Hengine : engine_starts (speakers system) (length (calls (music p))) = true)
    (Hframe : render_frame system f p = Some p') :
  live engine_change (music (close_program p')) = 1.
Proof.
  unfold render_frame in Hframe. rewrite Hasked in Hframe. unfold close_program. cbn [music].
  assert (music p' = (start_track (speakers system) THEME_FILE_NAME (music p)).2) as ->
    by (destruct (draw_application_frame _ _ _) as [[? c]|]; [|done]; by injection Hframe as <-).
  set (m := (start_track (speakers system) THEME_FILE_NAME (music p)).2).
  pose proof (stop_track_releases m) as (_ & _ & _ & He & _). rewrite He. unfold m.
  pose proof (start_track_spec (speakers system) THEME_FILE_NAME (music p)) as Hspec. cbv zeta in Hspec.
  rewrite bool_decide_true, Hengine in Hspec by done. destruct Haccounted as [Hlive _]. rewrite Hplaying in Hlive.
  destruct (start_track _ _ (music p)) as [[failure|] q]; cbn [snd]; destruct Hspec as (-> & _ & -> & _); rewrite Hlive; done.
Qed.
End welcoming.

(** ** Witnesses *)

Section witnesses.
#[local] Existing Instance toy_sodium.
#[local] Existing Instance sound_system.
#[local] Instance desktop : Desktop := plain_desktop [].

(** A machine that plays what it is given. *)
Definition loudspeakers : audio_system :=
  AudioSystem (Some (lit "/opt/hypercom/hypercom_client")) (lit "/") (λ path, bool_decide (path = lit "/opt/hypercom/menu.mp3"))
    (λ _, true) (λ _ _, true) (λ _, Some (float_of 9)) (λ _, true).

Definition plain_screen : window_system := WindowSystem true (float_of 1, float_of 1) (Some 1920) (λ _, false) (λ _, false) loudspeakers.

(** Somebody who writes the link of a server and presses every button. *)
Definition impatient : Person :=
  {| presses := λ _ x, match x with Button _ => true | _ => false end;
     writes := λ _ x, match x with InputText name _ _ => if decide (name = lit "##invite") then Some onion_link else None | _ => None end;
     confirms := λ _ _, false |}.

Definition frame_of_person (who : Person) : frame_input := FrameInput who no_zoom_input (float_of 0).

Definition frames_of_an_impatient_person : list frame_input :=
  [frame_of_person bystander; frame_of_person impatient; frame_of_person impatient].

Lemma graphical_program_follows_its_screen_witness : ∃ closed started s,
  rtc gui_step started (client_state (main_window closed)) ∧
  slots (client_state (main_window closed)) !! 1%nat = Some s ∧ trust_acknowledged (entry s) = true.
Proof.
  assert (match graphical_main plain_screen true direct_arguments (inr (lit "pass")) frames_of_an_impatient_person
                  (idle_application disk_with_identity) with
          | Some (inr closed) => trust_acknowledged ∘ entry <$> slots (client_state (main_window closed)) !! 1%nat
          | _ => None
          end = Some true) as Hclosed by (vm_compute; reflexivity).
  destruct (graphical_main plain_screen true direct_arguments (inr (lit "pass")) frames_of_an_impatient_person
              (idle_application disk_with_identity)) as [[failure|closed]|] eqn:E; [discriminate Hclosed| |discriminate Hclosed].
  apply fmap_Some in Hclosed as (s & Es & Htrust).
  destruct (graphical_program_follows_its_screen plain_screen true direct_arguments (inr (lit "pass"))
              frames_of_an_impatient_person (idle_application disk_with_identity) closed E) as (started & _ & Hsteps).
  exists closed, started, s. split; [exact Hsteps|]. split; [exact Es|symmetry; exact Htrust].
Defined.

Definition inviting_frames : list frame_input := [frame_of_person impatient; frame_of_person bystander].

Lemma pending_servers_hear_nothing_witness : ∃ closed known new,
  slots (client_state (main_window closed)) = [known; new] ∧
  dialled (socket_ (connection_ (slot_client known))) ≠ [] ∧
  trust_acknowledged (entry new) = false ∧ dialled (socket_ (connection_ (slot_client new))) = [].
Proof.
  assert (match graphical_main plain_screen true direct_arguments (inr (lit "pass")) inviting_frames
                  (idle_application disk_with_identity) with
          | Some (inr closed) =>
              match slots (client_state (main_window closed)) with
              | [known; new] => dialled (socket_ (connection_ (slot_client known))) ≠ [] ∧ trust_acknowledged (entry new) = false
              | _ => False
              end
          | _ => False
          end) as Hclosed by (vm_compute; split; [discriminate|reflexivity]).
  destruct (graphical_main plain_screen true direct_arguments (inr (lit "pass")) inviting_frames
              (idle_application disk_with_identity)) as [[failure|closed]|] eqn:E; [destruct Hclosed| |destruct Hclosed].
  destruct (slots (client_state (main_window closed))) as [|known [|new [|? ?]]] eqn:Eslots; try destruct Hclosed as [].
  exists closed, known, new. split; [exact Eslots|]. split; [assumption|]. split; [assumption|].
  refine (proj1 (pending_servers_hear_nothing plain_screen true direct_arguments (inr (lit "pass")) inviting_frames
                   (idle_application disk_with_identity) closed new eq_refl E _ _)); [|assumption].
  rewrite Eslots. apply list_elem_of_lookup_2 with (i := 1%nat). reflexivity.
Defined.

(** The client as it starts, and with a server added and displayed whose
    warning is not acknowledged yet. *)
Definition started_application : application :=
  (start_client true direct_arguments (inr (lit "pass")) (idle_application disk_with_identity)).2.
Definition invited_application : application :=
  (set_active_slot 1 (add_server_from_invite (set_invite_input onion_link started_application).2).2).2.

Definition settled_scale : ui_scale_state := refresh_scaling_if_needed (λ _, false) (λ _, false) new_scale_state.

Lemma untouched_program_stays_witness :
  run_render_loop plain_screen (replicate 3 (frame_of_person bystander))
    (Program (Window invited_application settled_scale) new_intro new_player) =
  Some (Program (Window invited_application settled_scale) new_intro new_player).
Proof.
  apply (untouched_program_stays plain_screen (replicate 3 (frame_of_person bystander)) invited_application settled_scale new_intro new_player).
  - repeat constructor.
  - split; [reflexivity|]. vm_compute. split; [reflexivity|]. split; [reflexivity|]. left. reflexivity.
  - reflexivity.
  - reflexivity.
Defined.

(** A second server, which was last displayed in English. *)
Definition two_servers : application :=
  let a := started_application in
  Application (app a)
    (slots a ++ ((λ s, ServerSlot (entry s) (slot_identity s) (slot_client s) (ui_state.set_current_lang english (slot_view s))) <$> slots a))
    (app_disk a) (app_draws a).

Lemma choosing_a_server_changes_the_language_witness : ∃ c,
  app_lang (app two_servers) = french ∧
  draw_application_frame (H2 := presses_once (server_button_rank 1)) no_zoom_input new_intro
    (Canvas (Window two_servers settled_scale) []) = Some (tt, c) ∧
  app_lang (app (client_state (world_of c))) = english.
Proof.
  destruct (slots two_servers !! 1%nat) as [s|] eqn:Es; [|vm_compute in Es; discriminate Es].
  destruct (choosing_a_server_changes_the_language no_zoom_input new_intro two_servers settled_scale 1 s)
    as (c & E & _ & Hlang).
  - vm_compute. discriminate.
  - reflexivity.
  - vm_compute. discriminate.
  - exact Es.
  - exists c. split; [reflexivity|]. split; [exact E|]. rewrite Hlang. vm_compute in Es. injection Es as <-. reflexivity.
Defined.

Definition a_comment (id : Z) (text : bytes) : comment_record.t :=
  comment_record.mk id 5 0 (pad 32 (lit "somebody")) (lit "somebody") text 1700000000 0.
Definition a_post : post_record.t := post_record.mk 5 1 (pad 32 (lit "somebody")) (lit "somebody") (lit "titre") (lit "corps") 1700000000 2.

(** What the server seals: the comment it stored, then the thread. *)
Definition thread_answers : list recv_result :=
  let comment := a_comment 3 (lit "bonjour") in
  let frame1 := default [] (encode_frame message_type.comment_info_response (Wire.encoding (comment_info_response.mk comment))) in
  let frame2 := default [] (encode_frame message_type.thread_response
                   (Wire.encoding (thread_response.mk a_post [a_comment 1 (lit "un"); a_comment 2 (lit "deux"); comment] 0))) in
  let (sealed1, channel) := seal_message frame1 open_channel in
  let (sealed2, _) := seal_message frame2 channel in
  [Received (append_length_prefixed_message (default [] sealed1) []);
   Received (append_length_prefixed_message (default [] sealed2) [])].

Definition reading_a_thread : slot_world :=
  SlotWorld (Client (open_connection thread_answers) new_session)
    (ui_state.set_comment_input (lit "bonjour")
       (ui_state.set_thread 5 a_post [a_comment 1 (lit "un"); a_comment 2 (lit "deux")] false
          (new_view french [] [] (ServerEndpoint (lit "host") 7777 [] 0)))) 0.

Definition reader_identity : identity_keypair := IdentityKeypair tor_key tor_key.

Lemma replying_frees_the_thread_witness :
  draw_comment_tree (H1 := replies_to french 2) reader_identity (Canvas reading_a_thread []) = None.
Proof.
  set (w := reading_a_thread). set (v := view w).
  destruct (exchange (A := comment_info_response.t) message_type.comment_create_request
              (comment_create_request.mk (ui_state.selected_post_id v) 2 (ui_state.comment_input v))
              message_type.comment_info_response (connected w)) as [[e|info] posted] eqn:Eposted;
    [vm_compute in Eposted; discriminate Eposted|].
  destruct (exchange (A := thread_response.t) message_type.thread_fetch_request (thread_fetch_request.mk (ui_state.selected_post_id v))
              message_type.thread_response (connected (put_view (ui_state.set_comment_input []) posted).2))
    as [[e|thread] fetched] eqn:Efetched;
    [exfalso; vm_compute in Eposted; injection Eposted as <- <-; vm_compute in Efetched; discriminate Efetched|].
  refine (replying_frees_the_thread reader_identity [a_comment 1 (lit "un")] [] (a_comment 2 (lit "deux")) w []
            info posted thread fetched eq_refl _ eq_refl _ Eposted _ Efetched).
  - repeat constructor. vm_compute. discriminate.
  - vm_compute. discriminate.
  - vm_compute in Eposted. injection Eposted as <- <-. reflexivity.
Defined.

(** The window opened, with a welcome asked for. *)
Definition welcoming_program : program :=
  open_program plain_screen (set_app_intro true invited_application).2.

Lemma one_welcome_is_released_witness : ∃ p',
  render_frame plain_screen (frame_of_person bystander) welcoming_program = Some p' ∧
  engine_ready (music p') = true ∧ live engine_change (music (close_program p')) = 0.
Proof.
  assert (match render_frame plain_screen (frame_of_person bystander) welcoming_program with
          | Some p' => Some (engine_ready (music p'))
          | None => None
          end = Some true) as Hready by (vm_compute; reflexivity).
  destruct (render_frame plain_screen (frame_of_person bystander) welcoming_program) as [p'|] eqn:E; [|discriminate Hready].
  exists p'. split; [reflexivity|]. split; [by injection Hready|].
  exact (proj1 (one_welcome_is_released plain_screen (frame_of_person bystander) welcoming_program p' eq_refl E)).
Defined.

(** The window while it plays, with another welcome asked for. *)
Definition welcomed_again : program :=
  match render_frame plain_screen (frame_of_person bystander) welcoming_program with
  | Some p => Program (Window (set_app_intro true (client_state (main_window p))).2 (scale_state (main_window p))) (intro p) (music p)
  | None => welcoming_program
  end.

Lemma second_welcome_leaks_an_engine_witness : ∃ p',
  render_frame plain_screen (frame_of_person bystander) welcomed_again = Some p' ∧
  live engine_change (music (close_program p')) = 1.
Proof.
  destruct (render_frame plain_screen (frame_of_person bystander) welcomed_again) as [p'|] eqn:E.
  - exists p'. split; [reflexivity|].
    refine (second_welcome_leaks_an_engine plain_screen (frame_of_person bystander) welcomed_again p' _ _ _ _ _ E).
    + vm_compute. reflexivity.
    + vm_compute. split; reflexivity.
    + vm_compute. reflexivity.
    + vm_compute. discriminate.
    + reflexivity.
  - exfalso. vm_compute in E. discriminate E.
Defined.
End witnesses.
