(* ===== verification/FirstFrame.v ===== *)
(** The graphical client and a server together: the first frame of a window on
    the server of an account logs in, over the network, and shows the forums of
    the server's database. *)

From Stdlib Require Import SpecFloat.
From S2P Require Import Prelude.
From S2P Require Import Wire.
From S2P Require Import TextField.
From S2P Require Import Framing.
From S2P Require Import Codec.
From S2P Require Import SessionMessages.
From S2P Require Import ContentMessages.
From S2P Require Import Hex.
From S2P Require Import RateLimit.
From S2P Require Import Sodium.
From S2P Require Import Noise.
From S2P Require Import Config.
From S2P Require Import DirectMessages.
From S2P Require Import Files.
From S2P Require Import Keystore.
From S2P Require Import Connection.
From S2P Require Import Database.
From S2P Require Import Repositories.
From S2P Require Import Handlers.
From S2P Require Import Server.
From S2P Require Import Integrity.
From S2P Require Import Scenario.
From S2P Require Import Reads.
From S2P Require Import ClientNet.
From S2P Require Import ClientChannel.
From S2P Require Import ClientSession.
From S2P Require Import ClientLogin.
From S2P Require Import ClientMail.
From S2P Require Import CommandLine.
From S2P Require Import GraphicalClient.
From S2P Require Import GraphicalUse.
From S2P Require Import GraphicalTop8.
From S2P Require Import Presentation.
From S2P Require Import Audio.
From S2P Require Import Drawing.
From S2P Require Import RenderLoop.
From S2P Require Import FrameFacts.

(** ** What the server answers *)

Lemma forum_name_text name : validate_forum_name name = true → text_ok MAX_FORUM_NAME_LENGTH name.
Proof.
  unfold validate_forum_name. destruct ((size_of name <? _) || _) eqn:Es; [done|].
  apply orb_false_iff in Es as [_ Hmax%Z.ltb_ge]. intros Hall. split; [split; [done|]|].
  - unfold fits. unfold MAX_FORUM_NAME_LENGTH in Hmax. pose proof (size_of_nonneg name). lia.
  - apply printable_ascii_text, Forall_forall. intros c Hc. eapply forallb_forall in Hall; [|by apply list_elem_of_In].
    revert Hall. clear. destruct c; vm_compute; intuition congruence.
Qed.

Section answers.
Context `{SodiumLaws} `{EnvironmentLaws}.
Context (config : server_config).
Context (Hcalm : ∀ n, sql_fails n = false).

(** The rows of the first page of forums, the newest first, and the records
    made of them. *)
Definition forum_rows (t : tables) : list (Z * forums.row * users.row * Z) :=
  Repositories.window 0 DEFAULT_LIST_ITEMS
    (order_rows (newest_first (λ v : Z * forums.row * users.row * Z, forums.created_at v.1.1.2))
       (omap (forum_view t) (map_to_list (t_forums t)))).
Definition forums_shown (t : tables) : list forum_record.t := omap read_forum_record (forum_rows t).
Definition forums_answer (t : tables) : forum_list_response.t :=
  forum_list_response.mk (forums_shown t) (wrap 32 (Z.of_nat (size (t_forums t)))).

(** In a sound database every row makes a record. *)
Lemma forum_row_read t row : tables_ok t → row ∈ forum_rows t →
  ∃ record, read_forum_record row = Some record ∧ well_formed record.
Proof.
  intros Hok Hrow. apply list_elem_of_In in Hrow.
  assert (row ∈ omap (forum_view t) (map_to_list (t_forums t))) as Hview.
  { rewrite <-(order_rows_permutes (newest_first (λ v : Z * forums.row * users.row * Z, forums.created_at v.1.1.2))).
    apply list_elem_of_In in Hrow. unfold forum_rows, Repositories.window in Hrow. change (Z.to_nat 0) with 0%nat in Hrow.
    rewrite drop_0 in Hrow. eapply elem_of_take in Hrow as (i & Hi & _). by eapply list_elem_of_lookup_2. }
  apply list_elem_of_omap in Hview as ([id f] & Hf & Hview). apply elem_of_map_to_list in Hf.
  unfold forum_view in Hview. cbn [snd fst] in Hview.
  destruct (t_users t !! forums.founder_id f) as [u|] eqn:Eu; [|done]. injection Hview as <-.
  destruct (ok_forums _ Hok) as ([Hlow Hhigh] & Hforums & _). destruct (Hforums id f Hf) as (Hid & _ & Hname & Hdesc & Htheme).
  destruct (ok_users _ Hok) as (_ & Husers & _). destruct (Husers _ u Eu) as (_ & Hkey & Hhandle).
  unfold read_forum_record, read_key. rewrite Hkey. cbn. eexists. split; [reflexivity|].
  split; [exact (wrap_fits 64 _ ltac:(done))|]. split; [by apply forum_name_text|]. split; [exact Hdesc|].
  split; [exact Hkey|]. split; [by apply ClientLogin.handle_text|]. split; [exact Htheme|].
  split; [exact (wrap_fits 64 _ ltac:(done))|exact (wrap_fits 32 _ ltac:(done))].
Qed.

Lemma forums_answer_wf t : tables_ok t → well_formed (forums_answer t).
Proof.
  intros Hok. split; [|exact (wrap_fits 32 _ ltac:(done))]. cbn [forums_answer forum_list_response.forums]. unfold forums_shown.
  assert (length (omap read_forum_record (forum_rows t)) <= 50)%nat as Hlen.
  { assert (∀ l, length (omap read_forum_record l) <= length l)%nat as Hshorter
      by (intros l; induction l as [|row l IH]; cbn; [lia|]; destruct (read_forum_record row); cbn; lia).
    etransitivity; [apply Hshorter|]. unfold forum_rows, Repositories.window. rewrite length_take. change (Z.to_nat DEFAULT_LIST_ITEMS) with 50%nat. lia. }
  split; [|unfold size_of, fits; change MAX_LIST_ITEMS with 200; lia].
  apply Forall_forall. intros record Hr. apply list_elem_of_omap in Hr as (row & Hrow & E).
  destruct (forum_row_read t row Hok Hrow) as (record' & E' & Hwf). congruence.
Qed.

Lemma list_forums_yields w : tables_ok (db_tables (db w)) →
  yields (list_forums 0 DEFAULT_LIST_ITEMS) w
    (Some (forum_list_response.forums (forums_answer (db_tables (db w))),
           forum_list_response.total_count (forums_answer (db_tables (db w))))).
Proof.
  intros Hok. unfold list_forums. eapply (yields_bind); [exact (find_one_yields Hcalm _ _ w)|].
  cbn [head mbind option_bind]. intros w1 Hw1. apply (prepared_yields Hcalm). intros w2 Hw2.
  assert (db w2 = db w) as Hw by congruence. apply query_yields. rewrite Hw. clear w1 Hw1 Hw2.
  set (t := db_tables (db w)) in *. fold (forum_rows t).
  assert (∀ l, l ⊆ forum_rows t → Forall2 (λ row record, read_forum_record row = Some record) l (omap read_forum_record l)) as Hread.
  { intros l. induction l as [|row l IH]; intros Hl; [constructor|].
    destruct (forum_row_read t row Hok) as (record & E & _); [apply Hl; by left|]. cbn. rewrite E. constructor; [done|].
    apply IH. intros x Hx. apply Hl. by right. }
  eapply yields_map; [exact (while_rows_yields Hcalm _ _ _ _)|].
  rewrite (read_rows_pure _ _ [] _ (Hread _ (reflexivity _))). done.
Qed.

Context (k : session_state).
Context (Hregistered : Handlers.is_registered k = true).

Lemma forums_answers w : tables_ok (db_tables (db w)) →
  answers_with config message_type.forum_list_request (encoding (forum_list_request.mk 0 DEFAULT_LIST_ITEMS)) k
    message_type.forum_list_response (forums_answer (db_tables (db w))) w (λ w2, db w2 = db w).
Proof.
  intros Hok w1 tr sock ch now Hw1. rewrite <-Hw1 in Hok.
  destruct (list_forums_yields w1 Hok) as [Hpage Hdb].
  exists (list_forums 0 DEFAULT_LIST_ITEMS w1).2. split; [congruence|].
  cbn [route_message route_session_family route_content_family].
  unfold handle_forum_list_request. rewrite (registered_passes k Hregistered) by done. unfold with_request.
  rewrite message_reads; [|split; done]. cbn [forum_list_request.limit forum_list_request.offset].
  change (Z.min _ _) with DEFAULT_LIST_ITEMS.
  unfold sbind, on_world, zoom. cbn [shared with_connection tracker connection].
  destruct (list_forums 0 _ w1) as [page w2]. cbn [fst snd] in *. by rewrite Hpage, Hw1.
Qed.
End answers.

Lemma forum_request_size : size_of (encoding (forum_list_request.mk 0 DEFAULT_LIST_ITEMS)) <= MAX_PAYLOAD_SIZE.
Proof. vm_compute. discriminate. Qed.

(** ** What the client makes of them *)

Section frames.
Context `{SodiumLaws} `{EnvironmentLaws}.
Context (config : server_config).
Context (Hcalm : ∀ n, sql_fails n = false).
Context (Hclock : ∀ n, system_clock n < 2 ^ 64).
Context (sp ss : bytes).

(** The forums are asked for and received. *)
Lemma forums_leg more id spare t ch w tr fd k : admitted config (S more) id k tr →
  linked (2 + spare) t ch → Handlers.is_registered k = true → tables_ok (db_tables (db w)) →
  size_of (encoding (forums_answer (db_tables (db w)))) <= MAX_PAYLOAD_SIZE →
  ∃ request reply t1 ch1 w1 tr1 now,
    linked spare t1 ch1 ∧ db w1 = db w ∧
    serve config [request] (with_connection w tr (ConnectionSocket fd []) ch k)
      = Some ([reply], with_connection w1 tr1 (ConnectionSocket fd []) ch1 (touch now k)) ∧
    ∀ (desktop : Desktop) owner c session tail, awaits c t (reply ++ tail) →
      ∃ c', (∀ v n, refresh_forum_list owner (SlotWorld (Client c session) v n) =
              (tt, SlotWorld (Client c' session)
                     (ui_state.set_forums (forums_shown (db_tables (db w))) (ui_state.set_connected true v)) n)) ∧
        awaits c' t1 tail ∧ sent_bytes (socket_ c') = sent_bytes (socket_ c) ++ request.
Proof.
  intros Hadmitted Hl Hk Hok Hfits.
  destruct (answered_exchange config more id spare t ch w tr fd k message_type.forum_list_request
              (encoding (forum_list_request.mk 0 DEFAULT_LIST_ITEMS)) message_type.forum_list_response _ _ Hadmitted Hl
              forum_request_size Hfits (forums_answers config Hcalm k Hk w Hok))
    as (request & reply & t1 & ch1 & w1 & tr1 & now & s1 & Hl1 & _ & Hw1 & Eserve & Esent & Hclient).
  exists request, reply, t1, ch1, w1, tr1, now. split_and!; [done|done|by rewrite (serve_one _ _ _ _ _ _ _ Eserve Esent)|].
  intros desktop owner c session tail Ha. destruct (Hclient c tail Ha) as (c1 & c2 & E1 & E2 & Ha2 & Hs). exists c2.
  split_and!; [|done|done]. intros v n. unfold refresh_forum_list, when_connected, sbind at 1.
  rewrite still_connected by exact (proj1 (proj2 Ha)). cbv iota. unfold when_answered, sbind.
  rewrite (exchange_answered _ _ _ _ _ _ _ _ _ _ _ E1 E2 ltac:(done) (forums_answer_wf _ Hok)). done.
Qed.

(** A window that displays the server of an account it has not dialled yet: its
    warning is acknowledged, the way to it is direct and open, and the network
    will bring these bytes. *)
Record about_to_log_in (desktop : Desktop) (owner : identity_keypair) (ip se stream : bytes) (a : application)
    (s : server_slot) : Prop := AboutToLogIn {
  slot_displayed : slots a !! active_slot (app a) = Some s;
  slot_trusted : trust_acknowledged (entry s) = true;
  slot_owner : slot_identity s = owner;
  slot_fresh : ∃ sock, slot_client s = Client (new_connection sp sock) new_session ∧ delivers sock stream;
  slot_no_welcome : ui_state.intro_requested (slot_view s) = false;
  slot_no_forums : ui_state.forums (slot_view s) = [];
  slot_direct : endpoint_socks5_host (endpoint (entry s)) = [];
  slot_reachable : route (endpoint_host (endpoint (entry s))) (endpoint_port (endpoint (entry s))) = Connected;
  slot_draw : draw_handshake (app_draws a) = Some (ip, se);
}.

(** An action on the slot of an index, and what it leaves there. *)
Lemma on_slot_does {A} index (m : server_slot → state slot_world A) a s r w :
  slots a !! index = Some s → m s (SlotWorld (slot_client s) (slot_view s) (app_draws a)) = (r, w) →
  ∃ a', on_slot index m a = (Some r, a') ∧ app a' = app a ∧ app_draws a' = draws w ∧
    slots a' !! index = Some (ServerSlot (entry s) (slot_identity s) (client_of w) (view w)).
Proof.
  intros Hs E. unfold on_slot. rewrite Hs, E. eexists. split_and!; [done..|]. cbn.
  rewrite list_lookup_insert_eq by (by eapply lookup_lt_Some). done.
Qed.

(** Connecting a slot whose dialling and log in succeed. *)
Lemma slot_connects `{Desktop} (s : server_slot) c0 c1 c session v n handle :
  trust_acknowledged (entry s) = true → is_open c0 = false →
  open_session route (draw_handshake n) (endpoint (entry s)) c0 = (None, c1) →
  authenticate (slot_identity s) (Client c1 new_session) = (None, Client c session) →
  needs_registration session = false → get_handle session = handle →
  connect_slot s (SlotWorld (Client c0 new_session) v n) =
    (None, SlotWorld (Client c session)
             (ui_state.set_handle handle (ui_state.set_registered true (ui_state.set_connected true v))) (S n)).
Proof.
  intros Htrust Hclosed Eopen Eauth Hneeds Hhandle. unfold connect_slot. rewrite Htrust. cbn [negb].
  unfold sbind at 1, sgets. cbn [client_of connection_]. rewrite Hclosed.
  unfold sbind, next_draw, on_client, on_link, zoom. cbn [client_of connection_ session_ view draws].
  rewrite Eopen. cbn [client_of connection_ session_ view draws].
  rewrite Eauth. cbn [client_of connection_ session_ view draws]. unfold sgets. cbn. by rewrite Hneeds, Hhandle.
Qed.

(** The slot displayed, dialled for the first time: it logs in, and the forums
    are asked for. *)
Lemma active_slot_connects `{Desktop} (a : application) index s c0 c1 c c' session handle forums :
  slots a !! index = Some s → slot_client s = Client c0 new_session → ui_state.forums (slot_view s) = [] →
  trust_acknowledged (entry s) = true → is_open c0 = false →
  open_session route (draw_handshake (app_draws a)) (endpoint (entry s)) c0 = (None, c1) →
  authenticate (slot_identity s) (Client c1 new_session) = (None, Client c session) →
  needs_registration session = false → get_handle session = handle →
  (∀ v n, refresh_forum_list (slot_identity s) (SlotWorld (Client c session) v n) =
     (tt, SlotWorld (Client c' session) (ui_state.set_forums forums (ui_state.set_connected true v)) n)) →
  ∃ a', connect_active index a = (tt, a') ∧ app a' = app a ∧
    slots a' !! index = Some (ServerSlot (entry s) (slot_identity s) (Client c' session)
      (ui_state.set_forums forums (ui_state.set_connected true
        (ui_state.set_handle handle (ui_state.set_registered true (ui_state.set_connected true (slot_view s))))))).
Proof.
  intros Hs Hclient Hempty Htrust Hclosed Eopen Eauth Hneeds Hhandle Hrefresh. unfold connect_active.
  destruct (on_slot_does index connect_slot a s None _ Hs
              ltac:(rewrite Hclient; exact (slot_connects s c0 c1 c session _ _ handle Htrust Hclosed Eopen Eauth Hneeds Hhandle)))
    as (a1 & E1 & Happ1 & _ & Hs1).
  unfold sbind at 1. rewrite E1. unfold sbind at 1.
  match goal with |- context [on_slot index ?m a1] => set (refresh := m) end.
  destruct (on_slot_does index refresh a1 _ tt _ Hs1
              ltac:(unfold refresh, sbind, sgets; cbn; rewrite Hempty; cbn; apply Hrefresh))
    as (a2 & -> & Happ2 & _ & Hs2).
  exists a2. split_and!; [done|congruence|exact Hs2].
Qed.

(** What the window shows of a server whose forums it has received, and what
    was sent for them. *)
Record shows_forums (handle : bytes) (forums : list forum_record.t) (sent : bytes) (s : server_slot) : Prop := ShowsForums {
  shown_connected : ui_state.connected (slot_view s) = true;
  shown_registered : ui_state.registered (slot_view s) = true;
  shown_handle : ui_state.handle (slot_view s) = handle;
  shown_forums : ui_state.forums (slot_view s) = forums;
  shown_sent : sent_bytes (socket_ (connection_ (slot_client s))) = sent;
}.

(** The service of the first frame, after which there is nothing left to do. *)
Lemma service_logs_in (seed : bytes) (owner : identity_keypair) ip se w tr fd k id handle : admitted config 3 id k tr →
  CommandLine.draws sp ss ip se → signer seed owner → tables_ok (db_tables (db w)) → active_motd (db_tables (db w)) = None →
  t_users (db_tables (db w)) !! id = Some (users.Row (public_key_ owner) handle false) →
  size_of (encoding (forums_answer (db_tables (db w)))) <= MAX_PAYLOAD_SIZE →
  ∃ requests replies s1,
    serve config requests (CommandLine.accepted sp ss w tr fd k) = Some (replies, s1) ∧ db (shared s1) = db w ∧
    ∀ desktop (a : application) s tail, about_to_log_in desktop owner ip se (concat replies ++ tail) a s →
      app_intro_requested (app a) = false →
      ∃ s', slots (service_active_slot a).2 !! active_slot (app (service_active_slot a).2) = Some s' ∧
        settled (service_active_slot a).2 ∧
        shows_forums handle (forums_shown (db_tables (db w))) (concat requests) s'.
Proof.
  intros Hadmitted (Hip & Hes & Hdraws) Hsigner Hok Hquiet Haccount Hfits.
  destruct (session_established config Hcalm Hclock sp ss 1 1 seed owner ip se w tr fd k id handle)
    as (logins & greetings & t & ch & w1 & tr1 & k1 & Elogin & Hl & Hleft & Hw1 & Hk1 & _ & _ & Hsession); try done.
  rewrite <-Hw1 in Hok, Hfits.
  destruct (forums_leg 0 id 0 t ch w1 tr1 fd k1 Hleft Hl Hk1 Hok Hfits)
    as (request & reply & t1 & ch1 & w2 & tr2 & now & _ & Hw2 & Eserve & Hclient).
  exists (logins ++ [request]), (greetings ++ [reply]), (with_connection w2 tr2 (ConnectionSocket fd []) ch1 (touch now k1)).
  split_and!; [unfold CommandLine.accepted; by rewrite (serve_app config logins [request]), Elogin, Eserve|cbn; congruence|].
  intros desktop a s tail [Hs Htrust Howner (sock & Hfresh & Hd) Hwelcome Hforums Hdirect Hroute Hdraw] Hquiet_app.
  rewrite concat_app, <-app_assoc in Hd. cbn [concat] in Hd. rewrite app_nil_r in Hd.
  destruct (Hsession sock route (endpoint (entry s)) _ Hdirect Hroute Hd)
    as (c1 & c & session & Eopen & Eauth & [Hneeds Hhandle] & Hc & Hsent).
  destruct (Hclient desktop owner c session tail Hc) as (c' & Erefresh & Hc' & Hsent').
  destruct (on_slot_does (active_slot (app a)) (λ _, put_view (ui_state.set_current_lang (app_lang (app a)))) a s tt _ Hs eq_refl)
    as (a1 & E1 & Eapp1 & Edraws1 & Hs1). cbn [client_of view draws] in Hs1, Edraws1.
  destruct (active_slot_connects a1 (active_slot (app a)) _ (new_connection sp sock) c1 c c' session handle
              (forums_shown (db_tables (db w1))) Hs1 Hfresh Hforums Htrust eq_refl) as (a2 & E2 & Happ2 & Hs2);
    [by rewrite Edraws1, Hdraw|by rewrite Howner|done|done|cbn [slot_identity]; by rewrite Howner|].
  assert ((service_active_slot a).2 = a2) as ->.
  { unfold service_active_slot, sbind at 1, sgets. rewrite Hs. unfold sbind at 1. rewrite E1, Hwelcome.
    unfold sbind at 1, sret at 1. rewrite Htrust, Hfresh. cbn. exact (f_equal snd E2). }
  assert (app a2 = app a) as Happ by congruence. rewrite Happ.
  eexists. split; [by rewrite Hs2|]. split.
  - unfold settled. rewrite Happ, Hs2. split_and!; [done..|]. right. exact (proj1 (proj2 Hc')).
  - split; try done; cbn; [by rewrite Hw1|]. by rewrite Hsent', Hsent, concat_app; cbn; rewrite app_nil_r.
Qed.
End frames.

(** ** The frames of the window *)

Section window.
Context `{Sodium} `{FileSystem} `{Desktop}.
Context (system : window_system).

Lemma follow_language_slots a :
  slots (follow_language a).2 = slots a ∧ active_slot (app (follow_language a).2) = active_slot (app a).
Proof. unfold follow_language, sbind, sgets. by destruct (slots a !! active_slot (app a)). Qed.

(** A frame that is only looked at is the service of the server displayed. *)
Lemma looked_at_frame f a scale i m :
  untouched_frame f → app_intro_requested (app a) = false → intro_active i = false → ∃ scale',
  render_frame system f (Program (Window a scale) i m) =
    Some (Program (Window (follow_language (service_active_slot a).2).2 scale') i m).
Proof.
  intros [Hperson Hctrl] Hwelcome Hintro. unfold render_frame. cbn [main_window client_state scale_state RenderLoop.intro music].
  rewrite Hwelcome. assert (advance_intro (delta_time f) i = i) as -> by (unfold advance_intro; by rewrite Hintro).
  rewrite Hperson. eexists.
  edestruct (frame_untouched (zoom_keys f) i a) as [l ->]; [done|unfold get_intro_phase; by rewrite Hintro|]. done.
Qed.

Lemma looked_at_frames frames a scale i m :
  Forall untouched_frame frames → settled a → intro_active i = false → ∃ scale',
  run_render_loop system frames (Program (Window a scale) i m) = Some (Program (Window a scale') i m).
Proof.
  intros Hframes Hsettled Hintro. revert scale. induction Hframes as [|f frames Hf _ IH]; intros scale; [by exists scale|].
  cbn [run_render_loop]. destruct (looked_at_frame f a scale i m Hf (proj1 Hsettled) Hintro) as [scale1 ->].
  destruct (settled_service a Hsettled) as [-> ->]. apply IH.
Qed.

(** When the service of the first frame settles the client, the others leave it
    so. *)
Lemma first_frame_settles f frames a scale i m :
  Forall untouched_frame (f :: frames) → app_intro_requested (app a) = false → intro_active i = false →
  settled (service_active_slot a).2 → ∃ scale',
  run_render_loop system (f :: frames) (Program (Window a scale) i m) =
    Some (Program (Window (service_active_slot a).2 scale') i m).
Proof.
  intros [Hf Hframes]%Forall_cons Hwelcome Hintro Hsettled. cbn [run_render_loop].
  destruct (looked_at_frame f a scale i m Hf Hwelcome Hintro) as [scale1 ->].
  destruct (settled_service _ Hsettled) as [_ ->]. by apply looked_at_frames.
Qed.
End window.

(** ** The program *)

Section program.
Context `{SodiumLaws} `{EnvironmentLaws}.
Context (config : server_config).
Context (Hcalm : ∀ n, sql_fails n = false).
Context (Hclock : ∀ n, system_clock n < 2 ^ 64).

(** C2: the window opens on the forums. The owner of an account starts the
    graphical program, which displays the server of that account; nobody touches
    it. From the first frame on, however many there are, the window is connected
    and registered under the handle of the account, and shows the forums of the
    server's database, the newest first, up to the fifty of the first page. The
    server serves the whole exchange, handshake, log in and list, given exactly
    the bytes the window sends, and its database is as it was.

    So it goes when nothing stands in the way: the account is not banned, the
    warning of the server displayed was acknowledged and no welcome is pending,
    the server is reached directly and not over SOCKS5 and the network brings
    its bytes, no announcement is active (its push would be taken for the list,
    C16), no statement fails, the rate limits have room for the three requests,
    and the page of forums fits a frame. *)
Theorem first_frame_shows_the_forums (sp ss seed : bytes) (owner : identity_keypair) (ip se : bytes) (w : world)
    (tr : rate_tracker) (fd : Z) (k : session_state) (id : Z) (handle : bytes)
    (Hadmitted : admitted config 3 id k tr) (Hdraws : CommandLine.draws sp ss ip se) (Hsigner : signer seed owner)
    (Hok : tables_ok (db_tables (db w))) (Hquiet : active_motd (db_tables (db w)) = None)
    (Haccount : t_users (db_tables (db w)) !! id = Some (users.Row (public_key_ owner) handle false))
    (Hfits : size_of (encoding (forums_answer (db_tables (db w)))) <= MAX_PAYLOAD_SIZE) :
  ∃ requests replies s1,
    serve config requests (CommandLine.accepted sp ss w tr fd k) = Some (replies, s1) ∧ db (shared s1) = db w ∧
    ∀ (fs : FileSystem) (desktop : Desktop) system argv pass a started s tail f frames,
      start_client true argv pass a = (None, started) → opens_window system = true →
      app_intro_requested (app started) = false →
      about_to_log_in sp desktop owner ip se (concat replies ++ tail) started s →
      Forall untouched_frame (f :: frames) →
      ∃ closed s', graphical_main system true argv pass (f :: frames) a = Some (inr closed) ∧
        slots (client_state (main_window closed)) !! active_slot (app (client_state (main_window closed))) = Some s' ∧
        shows_forums handle (forums_shown (db_tables (db w))) (concat requests) s'.
Proof.
  destruct (service_logs_in config Hcalm Hclock sp ss seed owner ip se w tr fd k id handle)
    as (requests & replies & s1 & Eserve & Hdb & Hservice); try done.
  exists requests, replies, s1. split_and!; [done..|].
  intros fs desktop system argv pass a started s tail f frames Estart Hopens Hwelcome Habout Hframes.
  destruct (Hservice desktop started s tail Habout Hwelcome) as (s' & Hs' & Hsettled & Hshows).
  unfold graphical_main. rewrite Estart, Hopens. cbn [negb]. unfold open_program.
  set (scale := detect_display_scale _ _ _).
  destruct (first_frame_settles system f frames started scale new_intro new_player Hframes Hwelcome eq_refl Hsettled) as [scale' ->].
  eexists _, s'. split; [done|]. by split.
Qed.
End program.

(** ** Witness *)

Section witnesses.
#[local] Existing Instance toy_sodium.
#[local] Existing Instance toy_sodium_laws.
#[local] Existing Instance sound_system.

(** Two accounts and two forums. *)
Definition two_forums : tables :=
  run_all
    [ (λ t, fst <$> insert_forum (forums.Row (lit "general") 1 (lit "everything") [] 1699999999) t);
      (λ t, fst <$> insert_forum (forums.Row (lit "music") 2 [] [] 1700000000) t) ]
    two_accounts.

Lemma two_forums_ok : tables_ok two_forums.
Proof.
  apply run_all_ok; [|exact two_accounts_ok].
  repeat (apply List.Forall_cons); [..|apply List.Forall_nil]; intros t t' Ht E.
  all: apply fmap_Some in E as ([t1 id] & E & ->).
  all: eapply insert_forum_ok; [exact Ht|..|exact E]; vm_compute; repeat split; try done; by intros [].
Qed.

(** A machine with alice's identity file, and a network that brings the
    stream. *)
Definition desk (stream : bytes) : Desktop := {|
  draw_entropy := λ _, drawn_entropy;
  draw_salt := λ _, drawn_salt;
  draw_nonce := λ _, drawn_nonce;
  draw_handshake := λ _, Some (tor_key, tor_key);
  draw_envelope := λ _, Some (drawn_keys.1, drawn_keys.2);
  read_clock := λ _, 1700000000;
  route := λ _ _, Connected;
  incoming := λ _, [Received stream];
  accepting := λ _, [];
|}.

Definition disk_of_alice : disk :=
  (create_identity (lit "hypercom_identity.key") drawn_salt drawn_nonce (lit "pass") (Some alice_owner) empty_disk).2.

Definition window_arguments : list bytes := [lit "--server-key"; encode_hex tor_key].

(** Her window as it opens. *)
Definition alice_at (stream : bytes) : application :=
  (start_client (H1 := desk stream) true window_arguments (inr (lit "pass")) (idle_application disk_of_alice)).2.

Definition alice_slot (stream : bytes) : server_slot :=
  ServerSlot (ServerEntry (lit "127.0.0.1") CommandLine.nearby tor_key identity_source.imported (lit "hypercom_identity.key") true)
    alice_owner (Client (new_connection tor_key (ClientSocket false [] [] [Received stream] [])) new_session)
    (new_view french (encode_hex (public_key_ alice_owner)) (encode_hex tor_key) CommandLine.nearby).

Lemma alice_starts stream :
  start_client (H1 := desk stream) true window_arguments (inr (lit "pass")) (idle_application disk_of_alice) = (None, alice_at stream) ∧
  app_intro_requested (app (alice_at stream)) = false ∧ slots (alice_at stream) = [alice_slot stream] ∧
  active_slot (app (alice_at stream)) = 0%nat.
Proof. split_and!; vm_compute; reflexivity. Qed.

Lemma alice_about_to_log_in stream :
  about_to_log_in tor_key (desk stream) alice_owner tor_key tor_key (stream ++ []) (alice_at stream) (alice_slot stream).
Proof.
  destruct (alice_starts stream) as (_ & _ & Hslots & Hactive). constructor;
    [rewrite Hslots, Hactive; reflexivity|reflexivity|reflexivity| |reflexivity..].
  exists (ClientSocket false [] [] [Received stream] []). split; [reflexivity|]. exact (CommandLine.laptop_delivers alice_owner stream).
Qed.

(** The limits a server has unless it is told otherwise have room for it. *)
Lemma room_for_first_frame account : admitted default_config 3 account alice_waiting (RateTracker ∅ ∅).
Proof. split; [by left|]. split; apply room_empty; right; vm_compute; discriminate. Qed.

(** Alice looks at her window for three frames: it shows the two forums, the
    newer one first. *)
Lemma first_frame_shows_the_forums_witness : ∃ stream closed s,
  graphical_main (H1 := desk stream) plain_screen true window_arguments (inr (lit "pass")) (replicate 3 (frame_of_person bystander))
    (idle_application disk_of_alice) = Some (inr closed) ∧
  ui_state.handle (slot_view s) = lit "alice" ∧
  forum_record.name <$> ui_state.forums (slot_view s) = [lit "music"; lit "general"].
Proof.
  destruct sealed_hello_facts as (Ha & _).
  destruct (@first_frame_shows_the_forums toy_sodium toy_sodium_laws still still_laws default_config (λ _, eq_refl)
              (λ _, eq_refl) tor_key tor_key alice_seed alice_owner tor_key tor_key (fresh_world two_forums) (RateTracker ∅ ∅) 5
              alice_waiting 1 (lit "alice") (room_for_first_frame 1) CommandLine.toy_draws (CommandLine.toy_signer _ _ Ha) two_forums_ok)
    as (requests & replies & s1 & _ & _ & Hwindow).
  { vm_compute. reflexivity. }
  { vm_compute. reflexivity. }
  { vm_compute. discriminate. }
  destruct (alice_starts (concat replies)) as (Estart & Hwelcome & _).
  destruct (Hwindow sound_system (desk (concat replies)) plain_screen window_arguments (inr (lit "pass"))
              (idle_application disk_of_alice) (alice_at (concat replies)) (alice_slot (concat replies)) []
              (frame_of_person bystander) (replicate 2 (frame_of_person bystander)) Estart eq_refl Hwelcome
              (alice_about_to_log_in (concat replies)))
    as (closed & s & Eran & _ & Hshows).
  { repeat constructor. }
  exists (concat replies), closed, s. split; [exact Eran|]. split; [exact (shown_handle _ _ _ _ Hshows)|].
  rewrite (shown_forums _ _ _ _ Hshows). vm_compute. reflexivity.
Defined.
End witnesses.
