(* ===== verification/EventLoop.v ===== *)
(** The event loop of the server on Linux: the descriptors the process owns
    (server/net/unique_descriptor), what epoll watches of them
    (server/net/event_loop), the listening sockets (server/net/tcp_listener,
    server/admin/admin_listener), and start_listeners, dispatch_event and
    run_until_stopped of server/net/server_runtime. What system calls answer
    is an argument; the loop is shown to make only steps of [Runtime], and to
    keep the descriptors it owns, registers and watches in agreement. *)

From stdpp Require Import relations.
From S2P Require Import Prelude.
From S2P Require Import Wire.
From S2P Require Import TextTools.
From S2P Require Import RateLimit.
From S2P Require Import Sodium.
From S2P Require Import Noise.
From S2P Require Import Config.
From S2P Require Import Connection.
From S2P Require Import Database.
From S2P Require Import Handlers.
From S2P Require Import Server.
From S2P Require Import Effects.
From S2P Require Import Permissions.
From S2P Require Import Integrity.
From S2P Require Import Admin.
From S2P Require Import Scenario.
From S2P Require Import Sessions.
From S2P Require Import Runtime.

(** ** Descriptors and epoll *)

(** The descriptors open in the process, and those epoll watches, with whether
    it waits for writing as well. *)
Record kernel := Kernel { open_descriptors : gset Z; interest : gmap Z bool }.

(** The kernel hands out a descriptor that is not in use. *)
Class DescriptorTable := { pick_descriptor : gset Z → Z }.

Class DescriptorLaws `{DescriptorTable} := {
  picked_fresh s : pick_descriptor s ∉ s;
  picked_valid s : 0 <= pick_descriptor s;
}.

Definition NO_DESCRIPTOR : Z := -1.

Definition open_descriptor (descriptor : Z) (k : kernel) : kernel :=
  Kernel ({[descriptor]} ∪ open_descriptors k) (interest k).

(** Closing a descriptor also ends its being watched. *)
Definition close_descriptor (descriptor : Z) (k : kernel) : kernel :=
  if 0 <=? descriptor
  then Kernel (open_descriptors k ∖ {[descriptor]}) (delete descriptor (interest k))
  else k.

(** [epoll_ctl] refuses to add a descriptor twice or to change one it does not
    know; [granted] is its answer otherwise. *)
Definition watch_descriptor (granted : bool) (descriptor : Z) (watch_write update_existing : bool) : state kernel bool := λ k,
  if granted && bool_decide (descriptor ∈ open_descriptors k)
     && eqb (bool_decide (is_Some (interest k !! descriptor))) update_existing
  then (true, Kernel (open_descriptors k) (<[descriptor := watch_write]> (interest k)))
  else (false, k).

Definition forget_descriptor (descriptor : Z) (k : kernel) : kernel :=
  Kernel (open_descriptors k) (delete descriptor (interest k)).

(** ** Listening sockets *)

Record listener_answers := ListenerAnswers {
  address_parses : bool;
  socket_created : bool;
  bound : bool;
  restricted : bool;
  non_blocking : bool;
  listening : bool;
}.

(** What [accept] answers: nothing is waiting, or a connection with the
    address of its peer, whether it can be made non-blocking, and what
    [epoll_ctl] will say of it. *)
Inductive accept_answer :=
| NothingWaiting
| Waiting (peer : bytes) (made_non_blocking watchable : bool).

(** [sizeof(sockaddr_un::sun_path)]. *)
Definition SUN_PATH_SIZE : Z := 108.

Section listeners.
Context `{DescriptorTable}.

Definition new_descriptor : state kernel Z := λ k,
  let descriptor := pick_descriptor (open_descriptors k) in (descriptor, open_descriptor descriptor k).

(** The descriptor goes with the handle that owned it. *)
Definition drop_descriptor {A} (descriptor : Z) (a : A) : state kernel A := λ k, (a, close_descriptor descriptor k).

(** The error, or the descriptor. *)
Definition open_listener (address : bytes) (port : Z) (answers : listener_answers) : state kernel (bytes + Z) :=
  if negb (address_parses answers) then sret (inl (lit "adresse IPv4 invalide : " ++ address))
  else if negb (socket_created answers) then sret (inl (lit "socket() a echoue"))
  else
    let* socket_handle := new_descriptor in
    if negb (bound answers) then
      drop_descriptor socket_handle (inl (lit "bind " ++ address ++ lit ":" ++ decimal port ++ lit " a echoue"))
    else if negb (non_blocking answers) || negb (listening answers) then
      drop_descriptor socket_handle (inl (lit "listen() a echoue"))
    else sret (inr socket_handle).

(** admin_listener *)
Definition open_admin_listener (path : bytes) (answers : listener_answers) : state kernel (bytes + Z) :=
  if SUN_PATH_SIZE <=? size_of path then sret (inl (lit "chemin de socket d'admin trop long : " ++ path))
  else if negb (socket_created answers) then sret (inl (lit "socket AF_UNIX indisponible pour l'admin"))
  else
    let* handle := new_descriptor in
    if negb (bound answers) then drop_descriptor handle (inl (lit "bind du socket d'admin impossible : " ++ path))
    else if negb (restricted answers) then
      drop_descriptor handle (inl (lit "impossible de restreindre le socket d'admin a 0600 : " ++ path))
    else if negb (non_blocking answers) || negb (listening answers) then
      drop_descriptor handle (inl (lit "listen() sur le socket d'admin a echoue"))
    else sret (inr handle).

Definition accept_connection (answer : accept_answer) : state kernel (option (Z * bytes)) :=
  match answer with
  | NothingWaiting => sret None
  | Waiting peer made_non_blocking _ =>
      let* accepted := new_descriptor in
      if negb made_non_blocking then drop_descriptor accepted None else sret (Some (accepted, peer))
  end.

Definition watchable (answer : accept_answer) : bool :=
  match answer with NothingWaiting => false | Waiting _ _ watchable => watchable end.
End listeners.

(** ** The runtime *)

Record runtime := RuntimeState {
  core : server;
  clearnet_listener : Z;
  onion_listener : Z;
  admin_listener : Z;
  signal_descriptor : Z;
  kernel_ : kernel;
}.

Definition set_core (sv : server) (rt : runtime) : runtime :=
  RuntimeState sv (clearnet_listener rt) (onion_listener rt) (admin_listener rt) (signal_descriptor rt) (kernel_ rt).
Definition set_kernel (k : kernel) (rt : runtime) : runtime :=
  RuntimeState (core rt) (clearnet_listener rt) (onion_listener rt) (admin_listener rt) (signal_descriptor rt) k.
Definition set_listeners (clearnet onion admin signal : Z) (rt : runtime) : runtime :=
  RuntimeState (core rt) clearnet onion admin signal (kernel_ rt).

(** What epoll reports of a descriptor, and what the calls on it answer. *)
Record report := Report {
  reported : Z;
  ready : readiness;
  arrivals : list accept_answer;
}.

Inductive wait_result :=
| WaitFailed
| Reported (reports : list report).

(** How the loop stands: still running, or stopped with an error or by a
    signal. *)
Inductive outcome := Running | Failed (error : bytes) | StoppedBySignal.

(** What the calls of [start_listeners] answer. *)
Record start_answers := StartAnswers {
  loop_failure : option bytes;
  clearnet_answers : listener_answers;
  onion_answers : listener_answers;
  admin_answers : listener_answers;
  clearnet_watchable : bool;
  onion_watchable : bool;
  admin_watchable : bool;
  signal_created : bool;
  signal_watchable : bool;
}.

Section event_loop.
Context `{Sodium, Environment, DescriptorTable}.
Context (config : server_config) (static_public static_secret : bytes).
Context (backup : bytes → option bytes).

Definition on_kernel {A} (m : state kernel A) : state runtime A := zoom kernel_ set_kernel m.
Definition on_core (f : server → server) : state runtime unit := smodify (λ rt, set_core (f (core rt)) rt).
Definition on_common {A} (m : state world A) : state runtime A :=
  zoom (λ rt, common (core rt)) (λ w rt, set_core (set_common w (core rt)) rt) m.

(** *** Starting *)

(** The error, or the descriptor; none for a listener that is not enabled. *)
Definition open_configured_listener (settings : listener_config) (answers : listener_answers) : state kernel (bytes + Z) :=
  if negb (enabled settings) then sret (inr NO_DESCRIPTOR)
  else open_listener (bind_address settings) (port settings) answers.

Definition open_loop (failure : option bytes) : state kernel (option bytes) :=
  match failure with
  | Some text => sret (Some (lit "epoll_create1() : " ++ text))
  | None => let* _ := new_descriptor in sret None
  end.

(** The error, or the descriptor; none when no path is configured. *)
Definition open_admin_service (answers : listener_answers) (granted : bool) : state kernel (bytes + Z) :=
  let path := admin_socket_path (paths config) in
  if decide (path = []) then sret (inr NO_DESCRIPTOR)
  else
    let* opened := open_admin_listener path answers in
    match opened with
    | inl error => sret (inl error)
    | inr listener =>
        let* watched := watch_descriptor granted listener false false in
        sret (if watched then inr listener else inl (lit "socket d'admin non enregistrable dans la boucle"))
    end.

(** A listener that exists is watched. *)
Definition watch_listener (granted : bool) (descriptor : Z) : state kernel bool :=
  if 0 <=? descriptor then watch_descriptor granted descriptor false false else sret true.

(** The error, or nothing. *)
Definition start_listeners (a : start_answers) : state runtime (option bytes) :=
  let* failure := on_kernel (open_loop (loop_failure a)) in
  match failure with
  | Some error => sret (Some error)
  | None =>
      let* clearnet := on_kernel (open_configured_listener (clearnet config) (clearnet_answers a)) in
      match clearnet with
      | inl error => sret (Some error)
      | inr clearnet =>
          let* onion := on_kernel (open_configured_listener (onion config) (onion_answers a)) in
          match onion with
          | inl error => sret (Some error)
          | inr onion =>
              let* watched := on_kernel (watch_listener (clearnet_watchable a) clearnet) in
              if negb watched then sret (Some (lit "listener clearnet non enregistrable"))
              else
                let* watched := on_kernel (watch_listener (onion_watchable a) onion) in
                if negb watched then sret (Some (lit "listener onion non enregistrable"))
                else
                  let* admin := on_kernel (open_admin_service (admin_answers a) (admin_watchable a)) in
                  match admin with
                  | inl error => sret (Some error)
                  | inr admin =>
                      let* signal := on_kernel (if signal_created a then new_descriptor else sret NO_DESCRIPTOR) in
                      do* smodify (set_listeners clearnet onion admin signal) in
                      let* watched := on_kernel (watch_descriptor (signal_watchable a) signal false false) in
                      if (signal <? 0) || negb watched
                      then sret (Some (lit "signalfd indisponible : arret propre impossible"))
                      else sret None
                  end
          end
      end
  end.

(** *** Connections *)

(** [server_runtime::close_connection]: the connection owns its descriptor. *)
Definition close_client (descriptor : Z) : state runtime unit := λ rt,
  let k := forget_descriptor descriptor (kernel_ rt) in
  let k := match find_connection (registry (core rt)) descriptor with
           | Some c => close_descriptor (get_descriptor c) k
           | None => k
           end in
  (tt, set_kernel k (set_core (close_connection descriptor (core rt)) rt)).

(** A connection that was accepted. *)
Definition register_connection (is_clearnet : bool) (accepted : Z) (peer_address : bytes) (granted : bool)
    : state runtime unit :=
  let* now := on_common get_unix_timestamp in
  let entry := fresh_connection static_public static_secret (Accepted accepted peer_address granted) now in
  do* (if is_clearnet
       then on_common (write_entry (logging config) log_level.info
                         (lit "connexion acceptee depuis " ++ redact_peer_address (logging config) peer_address))
       else sret tt) in
  let* inserted := zoom (λ rt, registry (core rt)) (λ r rt, set_core (set_registry r (core rt)) rt)
                     (insert_connection (Some entry)) in
  if negb inserted then on_kernel (drop_descriptor accepted tt)
  else
    let* watched := on_kernel (watch_descriptor granted accepted false false) in
    if negb watched then close_client accepted else sret tt.

Fixpoint accept_rounds (budget : nat) (is_clearnet : bool) (answers : list accept_answer) : state runtime unit :=
  match budget, answers with
  | S budget, answer :: answers =>
      let* accepted := on_kernel (accept_connection answer) in
      match accepted with
      | None => sret tt
      | Some (descriptor, peer) =>
          do* register_connection is_clearnet descriptor peer (watchable answer) in
          accept_rounds budget is_clearnet answers
      end
  | _, _ => sret tt
  end.

(** [accept_pending_connections] *)
Definition accept_clients (is_clearnet : bool) (answers : list accept_answer) : state runtime unit :=
  accept_rounds MAX_ACCEPTS_PER_CALL is_clearnet answers.

(** [service_connection] *)
Definition service_client (descriptor : Z) (r : readiness) : state runtime unit :=
  let* sv := sgets core in
  match find_connection (registry sv) descriptor with
  | None => sret tt
  | Some c =>
      if hung_up r then close_client descriptor
      else
        let '(processed, m) :=
          if readable r then process_connection_input config (receives r) (Machine (common sv) (rates sv) c)
          else (true, Machine (common sv) (rates sv) c) in
        do* on_core (λ sv, update_connection descriptor (connection m)
                             (ServerState (registry sv) (shared m) (tracker m) (admin sv) (started_at sv))) in
        if negb processed then close_client descriptor
        else
          let '(flushed, _, k) := flush_pending_writes (sends r) (socket (connection m)) in
          let c := connection m in
          do* on_core (update_connection descriptor (ClientConnection k (channel c) (session c) (input_buffer c))) in
          match flushed with
          | None => close_client descriptor
          | Some has_remaining =>
              let* watched := on_kernel (watch_descriptor (rewatched r) descriptor has_remaining true) in
              if negb watched then close_client descriptor else sret tt
          end
  end.

(** *** Administration *)

(** [accept_admin_connections]: without a bound on the rounds. *)
Fixpoint accept_admins (answers : list accept_answer) : state runtime unit :=
  match answers with
  | [] => sret tt
  | answer :: answers =>
      let* accepted := on_kernel (accept_connection answer) in
      match accepted with
      | None => sret tt
      | Some (descriptor, _) =>
          let* watched := on_kernel (watch_descriptor (watchable answer) descriptor false false) in
          do* on_core (accept_admin descriptor watched) in
          do* (if watched then sret tt else on_kernel (drop_descriptor descriptor tt)) in
          accept_admins answers
      end
  end.

(** [service_admin_connection] and the closures it asks for. The answer is
    watched for writing when some of it is left; a connection that ends gives
    its descriptor back. *)
Definition service_operator (descriptor : Z) (r : readiness) : state runtime unit := λ rt,
  let sv := core rt in
  let '(watched, k) := watch_descriptor (rewatched r) descriptor true true (kernel_ rt) in
  let '((service, close_requests), w) :=
    service_admin_connection config backup (registry sv) (started_at sv) descriptor (receives r) (sends r) watched
      (admin sv) (common sv) in
  let k := match admin sv !! descriptor, service !! descriptor with
           | Some _, None => close_descriptor descriptor (forget_descriptor descriptor (kernel_ rt))
           | _, Some connection => if response_ready connection then k else kernel_ rt
           | None, None => kernel_ rt
           end in
  (tt, fold_left (λ rt target, (close_client target rt).2) close_requests
         (set_kernel k (set_core (ServerState (registry sv) w (rates sv) service (started_at sv)) rt))).

(** *** The loop *)

Definition dispatch_event (e : report) : state runtime unit :=
  let* rt := sgets (λ rt, rt) in
  if reported e =? clearnet_listener rt then accept_clients true (arrivals e)
  else if reported e =? onion_listener rt then accept_clients false (arrivals e)
  else if reported e =? admin_listener rt then accept_admins (arrivals e)
  else if owns_admin_descriptor (admin (core rt)) (reported e) then service_operator (reported e) (ready e)
  else service_client (reported e) (ready e).

(** Whether the signal was among them. *)
Fixpoint dispatch_events (events : list report) : state runtime bool :=
  match events with
  | [] => sret false
  | e :: events =>
      let* signal := sgets signal_descriptor in
      if reported e =? signal then
        do* on_common (write_entry (logging config) log_level.info (lit "signal recu, arret du serveur")) in sret true
      else do* dispatch_event e in dispatch_events events
  end.

(** [sweep_expired_connections] *)
Definition sweep_clients : state runtime unit :=
  let* now := on_common get_unix_timestamp in
  let* r := sgets (λ rt, registry (core rt)) in
  do* smodify (λ rt, fold_left (λ rt descriptor, (close_client descriptor rt).2)
                       (collect_expired_descriptors r now (limits config)) rt) in
  on_core (λ sv, ServerState (registry sv) (common sv) (forget_expired_windows now (rates sv)) (admin sv) (started_at sv)).

(** The rounds of [run_until_stopped]; it is still running when [waits] ends. *)
Fixpoint run_rounds (waits : list wait_result) (last_sweep : Z) : state runtime outcome :=
  match waits with
  | [] => sret Running
  | WaitFailed :: _ => sret (Failed (lit "epoll_wait a echoue"))
  | Reported events :: waits =>
      let* stopped := dispatch_events events in
      if (stopped : bool) then sret StoppedBySignal
      else
        let* now := on_common get_unix_timestamp in
        if now =? last_sweep then run_rounds waits last_sweep
        else do* sweep_clients in run_rounds waits now
  end.

Definition run_until_stopped (waits : list wait_result) : state runtime outcome :=
  let* last_sweep := on_common get_unix_timestamp in run_rounds waits last_sweep.

(** The runtime as it is constructed. *)
Definition new_runtime (w : world) (open : gset Z) : runtime :=
  let '(now, w) := get_unix_timestamp w in
  RuntimeState (new_server config w now) NO_DESCRIPTOR NO_DESCRIPTOR NO_DESCRIPTOR NO_DESCRIPTOR (Kernel open ∅).
End event_loop.

(** ** The ledger of descriptors *)

Definition has_output (c : client_connection) : bool := negb (bool_decide (pending_output_ (socket c) = [])).

(** Who owns a descriptor, and what is watched: [base] are those of the
    process itself, [fixed] the listeners and the signals, and then there are
    the connections and the operators. *)
Record ledger (base fixed : gset Z) (conns : gmap Z client_connection) (ops : gmap Z admin_connection) (k : kernel)
    : Prop := Ledger {
  apart : base ## fixed ∧ dom conns ## dom ops ∧ dom conns ∪ dom ops ## base ∪ fixed;
  valid : set_Forall (Z.le 0) (dom conns ∪ dom ops);
  opened : open_descriptors k = base ∪ fixed ∪ dom conns ∪ dom ops;
  watched : interest k = (has_output <$> conns) ∪ (response_ready <$> ops) ∪ gset_to_gmap false fixed;
}.

Section ledger.
Context `{DescriptorLaws}.
Context (base fixed : gset Z).

Lemma fresh_unowned conns ops k : ledger base fixed conns ops k →
  let fd := pick_descriptor (open_descriptors k) in
  0 <= fd ∧ fd ∉ base ∪ fixed ∪ dom conns ∪ dom ops ∧ conns !! fd = None ∧ ops !! fd = None ∧ interest k !! fd = None.
Proof.
  intros [Ha Hv Ho Hw] fd. pose proof (picked_fresh (open_descriptors k)) as Hf. fold fd in Hf. rewrite Ho in Hf.
  assert (conns !! fd = None ∧ ops !! fd = None) as [Hc Hops] by (split; apply not_elem_of_dom; set_solver).
  split_and!; [apply picked_valid|done..|]. rewrite Hw, !lookup_union_None, !lookup_fmap, Hc, Hops.
  split; [done|]. apply lookup_gset_to_gmap_None. set_solver.
Qed.

Lemma owned_unshared conns ops k fd : ledger base fixed conns ops k → fd ∈ dom conns ∪ dom ops →
  0 <= fd ∧ (fd ∈ dom conns → ops !! fd = None) ∧ (fd ∈ dom ops → conns !! fd = None) ∧
  gset_to_gmap false fixed !! fd = None.
Proof.
  intros [(H1 & H2 & H3) Hv Ho Hw] Hin. split; [by apply Hv|]. rewrite <-!not_elem_of_dom, dom_gset_to_gmap. set_solver.
Qed.

Lemma watch_new conns ops k granted : ledger base fixed conns ops k →
  let fd := pick_descriptor (open_descriptors k) in
  watch_descriptor granted fd false false (open_descriptor fd k) =
    (granted, if granted then Kernel ({[fd]} ∪ open_descriptors k) (<[fd := false]> (interest k)) else open_descriptor fd k).
Proof.
  intros L fd. destruct (fresh_unowned _ _ _ L) as (_ & _ & _ & _ & Hi). fold fd in Hi. unfold watch_descriptor.
  cbn [open_descriptor open_descriptors interest]. rewrite Hi.
  rewrite bool_decide_true by set_solver. rewrite bool_decide_false by (by intros [? ?]). by destruct granted.
Qed.

Lemma watch_again granted fd watch_write k : fd ∈ open_descriptors k → is_Some (interest k !! fd) →
  watch_descriptor granted fd watch_write true k =
    (granted, if granted then Kernel (open_descriptors k) (<[fd := watch_write]> (interest k)) else k).
Proof. intros Ho Hi. unfold watch_descriptor. rewrite !bool_decide_true by done. by destruct granted. Qed.

(** A descriptor that was just opened and is closed again. *)
Lemma close_fresh conns ops k : ledger base fixed conns ops k →
  let fd := pick_descriptor (open_descriptors k) in
  close_descriptor fd (open_descriptor fd k) = k ∧ forget_descriptor fd (open_descriptor fd k) = open_descriptor fd k.
Proof.
  intros L fd. destruct (fresh_unowned _ _ _ L) as (Hv & Hf & _ & _ & Hi). pose proof (opened _ _ _ _ _ L) as Ho.
  fold fd in Hv, Hf, Hi. unfold close_descriptor, forget_descriptor. rewrite (proj2 (Z.leb_le 0 fd) Hv). cbn.
  rewrite delete_id by done. split; [|done]. destruct k as [o i]. cbn in *. f_equal. set_solver.
Qed.

Lemma closed_owned fd k : 0 <= fd →
  close_descriptor fd (forget_descriptor fd k) = Kernel (open_descriptors k ∖ {[fd]}) (delete fd (interest k)).
Proof. intros Hv. unfold close_descriptor. rewrite (proj2 (Z.leb_le 0 fd) Hv). cbn. by rewrite delete_delete_eq. Qed.

(** A connection or an operator that comes. *)
Lemma ledger_connects conns ops k c : ledger base fixed conns ops k → has_output c = false →
  let fd := pick_descriptor (open_descriptors k) in
  ledger base fixed (<[fd := c]> conns) ops (Kernel ({[fd]} ∪ open_descriptors k) (<[fd := false]> (interest k))).
Proof.
  intros L Hc fd. destruct (fresh_unowned _ _ _ L) as (Hv & Hf & _). fold fd in Hv, Hf. destruct L as [Ha Hvs Ho Hw].
  split; cbn; rewrite ?dom_insert_L; [set_solver|set_solver|rewrite Ho; set_solver|].
  by rewrite Hw, fmap_insert, Hc, !insert_union_l.
Qed.

Lemma ledger_admits conns ops k : ledger base fixed conns ops k →
  let fd := pick_descriptor (open_descriptors k) in
  ledger base fixed conns (<[fd := new_admin_connection]> ops)
    (Kernel ({[fd]} ∪ open_descriptors k) (<[fd := false]> (interest k))).
Proof.
  intros L fd. destruct (fresh_unowned _ _ _ L) as (Hv & Hf & Hc & _). fold fd in Hv, Hf, Hc. destruct L as [Ha Hvs Ho Hw].
  split; cbn; rewrite ?dom_insert_L; [set_solver|set_solver|rewrite Ho; set_solver|].
  by rewrite Hw, fmap_insert, insert_union_l, insert_union_r by (by rewrite lookup_fmap, Hc).
Qed.

(** A connection or an operator that ends. *)
Lemma ledger_disconnects conns ops k fd c : ledger base fixed conns ops k → conns !! fd = Some c →
  ledger base fixed (delete fd conns) ops (close_descriptor fd (forget_descriptor fd k)).
Proof.
  intros L Hc%elem_of_dom_2. destruct (owned_unshared _ _ _ fd L) as (Hv & Ho' & _ & Hf'); [set_solver|].
  destruct L as [Ha Hvs Ho Hw]. rewrite closed_owned by done.
  split; cbn; rewrite ?dom_delete_L; [set_solver|set_solver|rewrite Ho; set_solver|].
  rewrite Hw, !delete_union, fmap_delete. rewrite (delete_id (_ <$> ops)) by (by rewrite lookup_fmap, Ho').
  by rewrite (delete_id (gset_to_gmap _ _)).
Qed.

Lemma ledger_dismisses conns ops k fd a : ledger base fixed conns ops k → ops !! fd = Some a →
  ledger base fixed conns (delete fd ops) (close_descriptor fd (forget_descriptor fd k)).
Proof.
  intros L Hc%elem_of_dom_2. destruct (owned_unshared _ _ _ fd L) as (Hv & _ & Ho' & Hf'); [set_solver|].
  destruct L as [Ha Hvs Ho Hw]. rewrite closed_owned by done.
  split; cbn; rewrite ?dom_delete_L; [set_solver|set_solver|rewrite Ho; set_solver|].
  rewrite Hw, !delete_union, fmap_delete. rewrite (delete_id (_ <$> conns)) by (by rewrite lookup_fmap, Ho').
  by rewrite (delete_id (gset_to_gmap _ _)).
Qed.

(** A connection or an operator that goes on. *)
Lemma ledger_updates conns ops k fd c c' : ledger base fixed conns ops k → conns !! fd = Some c →
  ledger base fixed (<[fd := c']> conns) ops (Kernel (open_descriptors k) (<[fd := has_output c']> (interest k))).
Proof.
  intros [Ha Hvs Ho Hw] Hc%elem_of_dom_2.
  split; cbn; rewrite ?dom_insert_L; [set_solver|set_solver|rewrite Ho; set_solver|].
  by rewrite Hw, fmap_insert, !insert_union_l.
Qed.

Lemma ledger_proceeds conns ops k fd a a' : ledger base fixed conns ops k → ops !! fd = Some a →
  ledger base fixed conns (<[fd := a']> ops) (Kernel (open_descriptors k) (<[fd := response_ready a']> (interest k))).
Proof.
  intros L Hc%elem_of_dom_2. destruct (owned_unshared _ _ _ fd L) as (_ & _ & Ho' & _); [set_solver|].
  destruct L as [Ha Hvs Ho Hw]. split; cbn; rewrite ?dom_insert_L; [set_solver|set_solver|rewrite Ho; set_solver|].
  by rewrite Hw, fmap_insert, insert_union_l, insert_union_r by (by rewrite lookup_fmap, Ho').
Qed.

(** What is owned can be watched again. *)
Lemma owned_watched conns ops k fd : ledger base fixed conns ops k → fd ∈ dom conns ∪ dom ops →
  fd ∈ open_descriptors k ∧ is_Some (interest k !! fd).
Proof.
  intros [Ha Hvs Ho Hw] Hin. split; [rewrite Ho; set_solver|].
  apply elem_of_dom. rewrite Hw, !dom_union_L, !dom_fmap_L. set_solver.
Qed.

(** What is watched, and for what. *)
Lemma connection_watched conns ops k fd c : ledger base fixed conns ops k → conns !! fd = Some c →
  interest k !! fd = Some (has_output c).
Proof.
  intros [Ha Hvs Ho Hw] Hc. rewrite Hw. apply lookup_union_Some_l, lookup_union_Some_l. by rewrite lookup_fmap, Hc.
Qed.

Lemma operator_watched conns ops k fd a : ledger base fixed conns ops k → ops !! fd = Some a →
  interest k !! fd = Some (response_ready a).
Proof.
  intros L Hop. destruct (owned_unshared _ _ _ fd L) as (_ & _ & Hc & _); [apply elem_of_dom_2 in Hop; set_solver|].
  destruct L as [Ha Hvs Ho Hw]. rewrite Hw. apply lookup_union_Some_l.
  rewrite lookup_union_r; [by rewrite lookup_fmap, Hop|]. rewrite lookup_fmap, Hc; [done|]. by apply elem_of_dom_2 in Hop.
Qed.
End ledger.
