(* ===== verification/LoopSound.v ===== *)
(** What holds of the event loop: every round of it is a sequence of steps of
    [Runtime], and the descriptors that are open, owned and watched agree in
    every state it reaches. *)

From stdpp Require Import relations.
From S2P Require Import Prelude.
From S2P Require Import Wire.
From S2P Require Import TextTools.
From S2P Require Import RateLimit.
From S2P Require Import Sodium.
From S2P Require Import Noise.
From S2P Require Import Config.
From S2P Require Import Connection.
From S2P Require Import Database.
From S2P Require Import Handlers.
From S2P Require Import Server.
From S2P Require Import Effects.
From S2P Require Import Permissions.
From S2P Require Import Integrity.
From S2P Require Import Admin.
From S2P Require Import Scenario.
From S2P Require Import Sessions.
From S2P Require Import Runtime.
From S2P Require Import EventLoop.

(** ** The administration *)

Section closures.
Context `{Environment}.
Context (config : server_config).

(** What a computation can return. *)
Definition returns {A} (P : A → Prop) (m : state world A) : Prop := ∀ w, P (m w).1.

Lemma returns_ret {A} (P : A → Prop) a : P a → returns P (sret a).
Proof. by intros ? w. Qed.

Lemma returns_bind {A B} (P : B → Prop) (m : state world A) f : (∀ a, returns P (f a)) → returns P (sbind m f).
Proof. intros Hf w. unfold sbind. destruct (m w) as [a w']. apply Hf. Qed.

(** The sessions a command asks to close are registered. *)
Definition closes_registered (r : connection_registry) (fds : list Z) : Prop :=
  Forall (λ fd, is_Some (find_connection r fd)) fds.

Lemma no_closure_registered r m : returns (λ result, closes_registered r result.2) (no_closure m).
Proof. unfold no_closure. apply returns_bind. intros text. apply returns_ret. constructor. Qed.

Lemma sessions_registered r command : returns (λ result, closes_registered r result.2) (run_sessions_command config r command).
Proof.
  unfold run_sessions_command, close_session. repeat case_match; try apply no_closure_registered;
    repeat (apply returns_bind; intros ?); apply returns_ret; repeat constructor; eauto.
Qed.

Lemma command_registered backup r started command :
  returns (λ result, closes_registered r result.2) (execute_admin_command config backup r started command).
Proof.
  unfold execute_admin_command. repeat case_match; try apply no_closure_registered; try apply sessions_registered;
    apply returns_ret; constructor.
Qed.

Lemma build_response_result backup r started a w : closes_registered r (build_response config backup r started a w).1.2.
Proof.
  unfold build_response. destruct (first_line (input a)) as [line|]; [|constructor].
  destruct (parse_admin_command line) as [command|]; [|constructor]. unfold sbind.
  pose proof (command_registered backup r started command w) as Hc.
  by destruct (execute_admin_command config backup r started command w) as [[text reqs] w'].
Qed.

(** What the service of an operator makes of it. *)
Lemma service_operator_result backup r started fd answers sends watched service a w service' reqs w' :
  service !! fd = Some a →
  service_admin_connection config backup r started fd answers sends watched service w = ((service', reqs), w') →
  closes_registered r reqs ∧
  (service' = delete fd service ∨
   ∃ a', service' = <[fd := a']> service ∧ (response_ready a' = true → watched = true) ∧
     (response_ready a' = false → response_ready a = false)).
Proof.
  intros Ha. unfold service_admin_connection. rewrite Ha.
  assert (∀ a', response_ready a' = true → let result := answer_admin_connection fd sends watched a' service in
    result = delete fd service ∨ ∃ a2, result = <[fd := a2]> service ∧ (response_ready a2 = true → watched = true) ∧
      (response_ready a2 = false → response_ready a = false)) as Hanswer.
  { intros a' Hr. unfold answer_admin_connection, close_admin_connection. destruct watched; cbn [negb]; [|rewrite orb_true_r; by left].
    case_match; [by left|]. right. eexists. split; [reflexivity|]. cbn. rewrite Hr. done. }
  destruct (response_ready a) eqn:Er.
  { intros [= <- <- <-]. split; [constructor|]. by apply Hanswer. }
  destruct (read_into_buffer answers (input a)) as [[] buffer]; cbn [negb]; [|intros [= <- <- <-]; split; [constructor|by left]].
  set (a1 := AdminConnection buffer (output a) false). unfold sbind.
  pose proof (build_response_result backup r started a1 w) as Hreqs.
  destruct (build_response config backup r started a1 w) as [[a2 reqs2] w2]. cbn [fst snd] in Hreqs.
  destruct (response_ready a2) eqn:E2; cbn [negb]; intros [= <- <- <-]; (split; [done|]).
  - by apply Hanswer.
  - right. exists a2. split; [done|]. by rewrite E2.
Qed.
End closures.

(** ** What each operation does to the ledger *)

(** The listeners and the signals there are. *)
Definition listeners_of (rt : runtime) : list Z :=
  [clearnet_listener rt; onion_listener rt; admin_listener rt; signal_descriptor rt].

Definition fixed_of (rt : runtime) : gset Z := list_to_set (filter (Z.le 0) (listeners_of rt)).

Abbreviation conns rt := (connections (registry (core rt))).
Abbreviation ops rt := (admin (core rt)).

Section operations.
Context `{Sodium, Environment, !EnvironmentLaws, !DescriptorTable, !DescriptorLaws}.
Context (config : server_config) (static_public static_secret : bytes) (backup : bytes → option bytes).
Context (base : gset Z).

Abbreviation step := (server_step config static_public static_secret).

Definition accounted (rt : runtime) : Prop := ledger base (fixed_of rt) (conns rt) (ops rt) (kernel_ rt).

Definition keyed (rt : runtime) : Prop := ∀ fd c, conns rt !! fd = Some c → get_descriptor c = fd.

Lemma removed_connections fd r : connections (remove_connection fd r) = delete fd (connections r).
Proof.
  unfold remove_connection. destruct (connections r !! fd) as [c|] eqn:E; [done|]. by rewrite delete_id.
Qed.

(** Closing: the connection, of which the socket may have moved on. *)
Lemma close_client_ledger fd rt0 rt :
  accounted rt0 → keyed rt → fd ∉ dom (ops rt0) ∪ fixed_of rt0 → kernel_ rt = kernel_ rt0 → ops rt = ops rt0 →
  fixed_of rt = fixed_of rt0 → delete fd (conns rt) = delete fd (conns rt0) → dom (conns rt) = dom (conns rt0) →
  accounted (close_client fd rt).2.
Proof.
  intros L Hkey Hfd Ek Eo Ef Ec Ed. unfold accounted. cbn [snd close_client].
  change (ops (set_kernel ?k (set_core ?sv rt))) with (ops rt).
  change (fixed_of (set_kernel ?k (set_core ?sv rt))) with (fixed_of rt). cbn [core set_core set_kernel kernel_].
  unfold close_connection. cbn [registry set_registry]. rewrite removed_connections, Ec, Ek, Eo, Ef.
  unfold find_connection. destruct (conns rt !! fd) as [c|] eqn:Hc.
  - rewrite (Hkey _ _ Hc). apply elem_of_dom_2 in Hc. rewrite Ed in Hc. apply elem_of_dom in Hc as [c0 Hc0].
    by eapply ledger_disconnects.
  - assert (conns rt0 !! fd = None) as Hc0 by (by rewrite <-not_elem_of_dom, <-Ed, not_elem_of_dom).
    rewrite delete_id by done. pose proof (watched _ _ _ _ _ L) as Hw.
    assert (interest (kernel_ rt0) !! fd = None) as Hi.
    { apply not_elem_of_union in Hfd as [Ho%not_elem_of_dom Hf]. rewrite Hw, !lookup_union_None, !lookup_fmap, Hc0, Ho.
      by rewrite lookup_gset_to_gmap_None. }
    unfold forget_descriptor. rewrite delete_id by done. unfold accounted in L. by destruct (kernel_ rt0).
Qed.

Lemma close_client_accounted fd rt : accounted rt → keyed rt → fd ∉ dom (ops rt) ∪ fixed_of rt →
  accounted (close_client fd rt).2 ∧ keyed (close_client fd rt).2.
Proof.
  intros L Hkey Hfd. split; [by eapply close_client_ledger|].
  intros fd' c. cbn [snd close_client core set_core set_kernel]. unfold close_connection. cbn [registry set_registry].
  rewrite removed_connections. intros [_ Hc]%lookup_delete_Some. by apply Hkey.
Qed.

Lemma registered_apart rt fd : accounted rt → is_Some (conns rt !! fd) → fd ∉ dom (ops rt) ∪ fixed_of rt.
Proof. intros L Hc%elem_of_dom. destruct (apart _ _ _ _ _ L) as (? & ? & ?). set_solver. Qed.

(** Closing one connection after another. *)
Definition close_clients (fds : list Z) (rt : runtime) : runtime :=
  fold_left (λ rt fd, (close_client fd rt).2) fds rt.

Lemma close_clients_core fds rt : core (close_clients fds rt) = fold_left (λ sv fd, close_connection fd sv) fds (core rt).
Proof. unfold close_clients. revert rt. induction fds as [|fd fds IH]; intros rt; [done|]. cbn [fold_left]. by rewrite IH. Qed.

Lemma close_clients_fixed fds rt : listeners_of (close_clients fds rt) = listeners_of rt.
Proof. unfold close_clients. revert rt. induction fds as [|fd fds IH]; intros rt; [done|]. cbn [fold_left]. by rewrite IH. Qed.

Lemma close_clients_accounted fds rt : accounted rt → keyed rt → Forall (λ fd, fd ∉ dom (ops rt) ∪ fixed_of rt) fds →
  accounted (close_clients fds rt).
Proof.
  unfold close_clients. revert rt. induction fds as [|fd fds IH]; intros rt L Hkey Hall; [done|]. cbn [fold_left].
  apply Forall_cons in Hall as [Hfd Hall]. destruct (close_client_accounted fd rt L Hkey Hfd) as [L' Hkey']. by apply IH.
Qed.

(** Accepting a client. *)
Lemma insert_connection_result c r inserted r' : insert_connection (Some c) r = (inserted, r') →
  connections r !! get_descriptor c = None →
  connections r' = if inserted then <[get_descriptor c := c]> (connections r) else connections r.
Proof. unfold insert_connection. intros E Hn. repeat case_match; simplify_eq/=; done. Qed.

Lemma register_connection_step is_clearnet peer granted rt :
  accounted rt →
  let fd := pick_descriptor (open_descriptors (kernel_ rt)) in
  let rt' := (register_connection config static_public static_secret is_clearnet fd peer granted
                (set_kernel (open_descriptor fd (kernel_ rt)) rt)).2 in
  accounted rt' ∧ listeners_of rt' = listeners_of rt ∧
  core rt' = accept_one config static_public static_secret is_clearnet (Accepted fd peer granted) (core rt).
Proof.
  intros L fd. cbv zeta. destruct (fresh_unowned _ _ _ _ _ L) as (_ & _ & Hc & _). fold fd in Hc.
  destruct (register_connection _ _ _ _ _ _ _ _) as [u' rt'] eqn:E. cbn [snd]. revert E.
  unfold register_connection, accept_one. cbn [Runtime.peer accepted_watched accepted_descriptor].
  unfold sbind at 1, on_common at 1, zoom at 1. cbn [core set_kernel].
  destruct (get_unix_timestamp (common (core rt))) as [now w1]. unfold sbind at 1.
  set (rt1 := set_core _ _). set (entry := fresh_connection _ _ _ now).
  set (message := lit "connexion acceptee depuis " ++ _).
  destruct (if is_clearnet then write_entry (logging config) log_level.info message w1 else (tt, w1)) as [u w2] eqn:Ew.
  assert ((if is_clearnet then on_common (write_entry (logging config) log_level.info message) else sret tt) rt1
            = (u, set_core (set_common w2 (core rt1)) rt1)) as ->.
  { destruct is_clearnet; unfold on_common, zoom; cbn [common core rt1 set_core set_common]; [by rewrite Ew|]. by simplify_eq. }
  unfold sbind at 1, zoom at 1. change (registry (core (set_core _ rt1))) with (registry (core rt)).
  destruct (insert_connection (Some entry) (registry (core rt))) as [inserted r] eqn:Ei.
  pose proof (insert_connection_result entry _ _ _ Ei Hc) as Er. change (get_descriptor entry) with fd in Er.
  destruct (close_fresh _ _ _ _ _ L) as [Ec Ef]. fold fd in Ec, Ef.
  destruct inserted; cbn [negb orb].
  - unfold sbind, on_kernel, zoom. cbn [kernel_ set_core set_kernel rt1].
    pose proof (watch_new _ _ _ _ _ granted L) as Hw. cbv zeta in Hw. fold fd in Hw. rewrite Hw.
    destruct granted; cbn [negb]; intros [= _ <-]; (split; [|done]); unfold accounted; cbn.
    + rewrite Er. exact (ledger_connects _ _ _ _ _ entry L eq_refl).
    + unfold find_connection. rewrite Er, lookup_insert_eq. change (get_descriptor entry) with fd. rewrite Ef, Ec.
      rewrite removed_connections. cbn. rewrite Er, delete_insert_id by done. exact L.
  - unfold on_kernel, zoom, drop_descriptor. cbn [kernel_ set_core set_kernel rt1]. rewrite Ec. intros [= _ <-].
    split; [|done]. unfold accounted. cbn. rewrite Er. exact L.
Qed.

(** ** Every operation is a step of the server *)

Definition loop_ok (rt : runtime) : Prop := accounted rt ∧ server_ok config (core rt).

Definition runs (rt rt' : runtime) : Prop :=
  loop_ok rt → loop_ok rt' ∧ rtc step (core rt) (core rt') ∧ listeners_of rt' = listeners_of rt.

#[export] Instance runs_preorder : PreOrder runs.
Proof.
  split; [by intros rt Hok|]. intros rt1 rt2 rt3 H12 H23 Hok. destruct (H12 Hok) as (Hok2 & Hr2 & Hf2).
  destruct (H23 Hok2) as (Hok3 & Hr3 & Hf3). split_and!; [done|by etransitivity|congruence].
Qed.

Lemma runs_given rt rt' : (loop_ok rt → runs rt rt') → runs rt rt'.
Proof. intros Hrun Hok. by apply Hrun. Qed.

Lemma runs_step rt rt' :
  (loop_ok rt → accounted rt' ∧ listeners_of rt' = listeners_of rt ∧ step (core rt) (core rt')) → runs rt rt'.
Proof.
  intros Hstep Hok. destruct (Hstep Hok) as (Ha & Hf & Hs). split_and!; [split|by apply rtc_once|done]; [done|].
  eapply server_step_ok; [apply Hok|exact Hs].
Qed.

Lemma loop_keyed rt : loop_ok rt → keyed rt.
Proof. intros [_ Hok] fd c. apply (keyed_by_descriptor _ (server_registry _ _ Hok)). Qed.

Lemma clock_runs : keeps runs (on_common get_unix_timestamp).
Proof.
  intros rt. apply runs_step. intros [L _]. pose proof (step_clock config static_public static_secret (core rt)) as Hs.
  unfold on_common, zoom. by destruct (get_unix_timestamp (common (core rt))).
Qed.

Lemma log_runs level message : keeps runs (on_common (write_entry (logging config) level message)).
Proof.
  intros rt. apply runs_step. intros [L _]. pose proof (step_log config static_public static_secret level message (core rt)) as Hs.
  unfold on_common, zoom. by destruct (write_entry (logging config) level message (common (core rt))).
Qed.

Lemma accept_connection_result answer rt : accounted rt →
  let fd := pick_descriptor (open_descriptors (kernel_ rt)) in
  on_kernel (accept_connection answer) rt = (None, rt) ∨
  ∃ peer, on_kernel (accept_connection answer) rt = (Some (fd, peer), set_kernel (open_descriptor fd (kernel_ rt)) rt).
Proof.
  intros L fd. destruct (close_fresh _ _ _ _ _ L) as [Ec _]. fold fd in Ec. unfold on_kernel, zoom.
  destruct answer as [|peer made_non_blocking granted]; cbn; [left; by destruct rt|].
  fold fd. destruct made_non_blocking; cbn; [right; by exists peer|]. left. unfold drop_descriptor. rewrite Ec. by destruct rt.
Qed.

Lemma accept_rounds_runs budget is_clearnet answers :
  keeps runs (accept_rounds config static_public static_secret budget is_clearnet answers).
Proof.
  revert answers. induction budget as [|budget IH]; intros [|answer answers] rt; [by cbn..|].
  apply runs_given. intros [L _]. cbn [accept_rounds]. unfold sbind at 1.
  destruct (accept_connection_result answer rt L) as [->|[peer ->]]; [done|].
  destruct (register_connection_step is_clearnet peer (watchable answer) rt L) as (L' & Hf & Hcore).
  unfold sbind at 1. destruct (register_connection _ _ _ _ _ _ _ _) as [u rt'] eqn:E. cbn [snd] in L', Hf, Hcore.
  assert (runs rt rt') as Hrun.
  { apply runs_step. intros _. split_and!; [done..|]. rewrite Hcore.
    destruct (fresh_unowned _ _ _ _ _ L) as (_ & _ & Hfresh & _).
    exact (step_accept config static_public static_secret is_clearnet [Accepted _ peer (watchable answer)] (core rt) (conj Hfresh I)). }
  transitivity rt'; [done|apply IH].
Qed.

Lemma accept_admins_runs answers : keeps runs (accept_admins answers).
Proof.
  induction answers as [|answer answers IH]; intros rt; [done|].
  apply runs_given. intros [L _]. cbn [accept_admins]. unfold sbind at 1.
  destruct (accept_connection_result answer rt L) as [->|[peer ->]]; [done|].
  set (fd := pick_descriptor _). pose proof (watch_new _ _ _ _ _ (watchable answer) L) as Hw. cbv zeta in Hw. fold fd in Hw.
  unfold sbind at 1, on_kernel at 1, zoom at 1. cbn [kernel_ set_kernel]. rewrite Hw. unfold sbind at 1, on_core, smodify.
  destruct (fresh_unowned _ _ _ _ _ L) as (_ & _ & _ & Ho & _). fold fd in Ho.
  match goal with |- context [(sbind ?m ?f) ?x] => destruct (m x) as [u rt'] eqn:E; unfold sbind at 1; rewrite E end.
  transitivity rt'; [|apply IH]. apply runs_step. intros _. destruct (watchable answer); injection E as _ <-.
  - split_and!; [|done|exact (step_accept_admin _ _ _ fd true (core rt))]. exact (ledger_admits _ _ _ _ _ L).
  - split_and!; [|done|exact (step_accept_admin _ _ _ fd false (core rt))].
    destruct (close_fresh _ _ _ _ _ L) as [Ec _]. fold fd in Ec. unfold accounted. cbn.
    unfold accept_admin_connection. rewrite delete_id by done. rewrite Ec. exact L.
Qed.

(** Serving a client: the work on the connection, then what becomes of it. *)
Lemma flush_remaining answers k b taken k' : flush_pending_writes answers k = (Some b, taken, k') →
  b = negb (bool_decide (pending_output_ k' = [])).
Proof.
  revert k b taken k'. induction answers as [|[[|n]| |] answers IH]; intros [d [|x out]] b taken k'; cbn; try by intros [= <- _ <-].
  - destruct (flush_pending_writes answers _) as [[r t] k2] eqn:E. intros [= -> <- <-]. by eapply IH.
  - apply IH.
Qed.

(** The connection [c1] stands for the one registered; it is then closed. *)
Lemma close_updated rt fd c c1 rt1 : accounted rt → keyed rt → conns rt !! fd = Some c → get_descriptor c1 = fd →
  conns rt1 = <[fd := c1]> (conns rt) → kernel_ rt1 = kernel_ rt → ops rt1 = ops rt → fixed_of rt1 = fixed_of rt →
  accounted (close_client fd rt1).2.
Proof.
  intros L Hkey Hc Hd Ec Ek Eo Ef. apply (close_client_ledger fd rt rt1); try done.
  - intros fd' c'. rewrite Ec. intros [[<- <-]|[_ ?]]%lookup_insert_Some; [done|by apply Hkey].
  - by eapply registered_apart.
  - by rewrite Ec, delete_insert_eq.
  - rewrite Ec, dom_insert_L. apply elem_of_dom_2 in Hc. set_solver.
Qed.

Lemma service_client_runs fd r : keeps runs (service_client config fd r).
Proof.
  intros rt. apply runs_step. intros Hloop. pose proof (loop_keyed _ Hloop) as Hkey. destruct Hloop as [L Hok].
  pose proof (step_service config static_public static_secret fd r (core rt)) as Hs. revert Hs.
  destruct (service_client config fd r rt) as [u rt'] eqn:E. cbn [snd]. revert E.
  unfold service_client, service_connection. unfold sbind at 1, sgets. unfold find_connection.
  destruct (conns rt !! fd) as [c|] eqn:Hc; [|by intros [= _ <-]].
  destruct (hung_up r).
  { intros [= _ <-] Hs. split; [|done]. apply close_client_accounted; [done|done|]. by eapply registered_apart. }
  destruct (if readable r then _ else _) as [processed m] eqn:Em.
  assert (get_descriptor (connection m) = fd) as Hd.
  { destruct (readable r); [|injection Em as <- <-; by apply Hkey].
    pose proof (process_connection_ok config (receives r) (Machine (common (core rt)) (rates (core rt)) c)
      (server_connections _ _ Hok _ _ Hc) (server_database _ _ Hok)) as (_ & _ & Hd & _).
    rewrite Em in Hd. etransitivity; [exact Hd|by apply Hkey]. }
  unfold sbind at 1, on_core at 1, smodify. set (rt1 := set_core _ rt).
  assert (conns rt1 = <[fd := connection m]> (conns rt)) as E1 by done.
  destruct processed; cbn [negb].
  2:{ intros [= _ <-] Hs. split; [|done]. exact (close_updated rt fd c (connection m) rt1 L Hkey Hc Hd E1 eq_refl eq_refl eq_refl). }
  destruct (flush_pending_writes (sends r) (socket (connection m))) as [[flushed taken] k] eqn:Eflush.
  pose proof (flush_descriptor (sends r) (socket (connection m))) as Hk. rewrite Eflush in Hk. cbn [snd] in Hk.
  set (c2 := ClientConnection k _ _ _). unfold sbind at 1, on_core, smodify. set (rt2 := set_core _ rt1).
  assert (conns rt2 = <[fd := c2]> (conns rt)) as E2 by (unfold rt2; cbn; by rewrite insert_insert_eq).
  assert (get_descriptor c2 = fd) as Hd2 by (by rewrite <-Hd).
  destruct flushed as [has_remaining|].
  2:{ rewrite bool_decide_true by done. cbn [orb]. intros [= _ <-] Hs. split; [|done].
      exact (close_updated rt fd c c2 rt2 L Hkey Hc Hd2 E2 eq_refl eq_refl eq_refl). }
  rewrite bool_decide_false by done. cbn [orb].
  destruct (owned_watched _ _ _ _ _ fd L) as [Ho Hi]; [apply elem_of_dom_2 in Hc; set_solver|].
  unfold sbind, on_kernel, zoom. change (kernel_ rt2) with (kernel_ rt). rewrite watch_again by done.
  destruct (rewatched r); cbn [negb]; intros [= _ <-] Hs; (split; [|done]).
  - unfold accounted. change (conns (set_kernel ?k ?rt)) with (conns rt). rewrite E2.
    assert (has_remaining = has_output c2) as -> by (exact (flush_remaining _ _ _ _ _ Eflush)).
    exact (ledger_updates _ _ _ _ _ _ _ c2 L Hc).
  - exact (close_updated rt fd c c2 rt2 L Hkey Hc Hd2 E2 eq_refl eq_refl eq_refl).
Qed.

(** Serving an operator. *)
Lemma service_operator_runs fd r : keeps runs (service_operator config backup fd r).
Proof.
  intros rt. apply runs_step. intros Hloop. pose proof (loop_keyed _ Hloop) as Hkey. destruct Hloop as [L _].
  pose proof (step_admin config static_public static_secret backup fd r (core rt)) as Hs. revert Hs.
  unfold service_operator, service_admin.
  destruct (admin (core rt) !! fd) as [a|] eqn:Ha.
  2:{ unfold service_admin_connection. rewrite Ha. destruct (watch_descriptor _ _ _ _ _) as [granted k]. cbn. rewrite !Ha.
      intros Hs. split_and!; [exact L|done|exact Hs]. }
  destruct (owned_watched _ _ _ _ _ fd L) as [Ho Hi]; [apply elem_of_dom_2 in Ha; set_solver|].
  rewrite watch_again by done.
  destruct (service_admin_connection _ _ _ _ _ _ _ _ _ _) as [[service reqs] w] eqn:E.
  destruct (service_operator_result _ _ _ _ _ _ _ _ _ a _ _ _ _ Ha E) as [Hreqs Hshape]. cbn [snd].
  set (k := match service !! fd with Some _ => _ | None => _ end).
  set (rt1 := set_kernel k _). change (fold_left _ reqs rt1) with (close_clients reqs rt1).
  rewrite close_clients_core, close_clients_fixed. intros Hs. split_and!; [|done|exact Hs].
  assert (dom service ⊆ dom (ops rt)) as Hdom.
  { apply elem_of_dom_2 in Ha. destruct Hshape as [->|(a' & -> & _)]; [rewrite dom_delete_L|rewrite dom_insert_L]; set_solver. }
  apply close_clients_accounted; [|exact Hkey|].
  - unfold accounted. cbn. destruct Hshape as [->|(a' & -> & Hready & Hidle)]; unfold k.
    + rewrite lookup_delete_eq. by eapply ledger_dismisses.
    + rewrite lookup_insert_eq. pose proof (ledger_proceeds _ _ _ _ _ _ _ a' L Ha) as Hl.
      destruct (response_ready a'); [by rewrite Hready|].
      assert (interest (kernel_ rt) !! fd = Some false) as Hfd.
      { rewrite <-(Hidle eq_refl). by apply (operator_watched _ _ _ _ _ _ _ L). }
      rewrite (insert_id (interest _)) in Hl by done. by destruct (kernel_ rt).
  - eapply Forall_impl; [exact Hreqs|]. cbn. intros fd' Hfd'.
    pose proof (registered_apart rt fd' L Hfd'). change (fixed_of rt1) with (fixed_of rt). set_solver.
Qed.

Lemma expired_registered r now limits : Forall (λ fd, is_Some (connections r !! fd)) (collect_expired_descriptors r now limits).
Proof.
  apply Forall_forall. intros fd Hfd. unfold collect_expired_descriptors in Hfd. apply list_elem_of_omap in Hfd as ([fd' c] & Hin & E).
  apply elem_of_map_to_list in Hin. cbn in E. case_match; simplify_eq. by eexists.
Qed.

Lemma sweep_runs : keeps runs (sweep_clients config).
Proof.
  intros rt. apply runs_step. intros Hloop. pose proof (loop_keyed _ Hloop) as Hkey. destruct Hloop as [L _].
  pose proof (step_sweep config static_public static_secret (core rt)) as Hs. revert Hs.
  destruct (sweep_clients config rt) as [u rt'] eqn:E. cbn [snd]. revert E.
  unfold sweep_clients, sweep_expired_connections. unfold sbind at 1, on_common, zoom.
  destruct (get_unix_timestamp (common (core rt))) as [now w]. unfold sbind, sgets, smodify, on_core.
  set (rt1 := set_core _ rt). set (fds := collect_expired_descriptors _ _ _).
  change (fold_left (λ rt descriptor, (close_client descriptor rt).2) fds rt1) with (close_clients fds rt1).
  intros [= _ <-] Hs. assert (accounted (close_clients fds rt1)) as L1.
  { apply close_clients_accounted; [exact L|exact Hkey|]. eapply Forall_impl; [apply expired_registered|]. cbn.
    intros fd Hfd. by apply (registered_apart rt). }
  split_and!; [exact L1|exact (close_clients_fixed fds rt1)|]. cbn [core set_core]. rewrite close_clients_core. exact Hs.
Qed.

(** *** The loop *)

Lemma dispatch_event_runs e : keeps runs (dispatch_event config static_public static_secret backup e).
Proof.
  apply keeps_bind; [apply _|apply keeps_gets, _|]. intros rt.
  repeat case_match; first [apply accept_rounds_runs|apply accept_admins_runs|apply service_operator_runs|apply service_client_runs].
Qed.

Lemma dispatch_events_runs events : keeps runs (dispatch_events config static_public static_secret backup events).
Proof.
  induction events as [|e events IH]; [apply keeps_ret, _|]. cbn [dispatch_events].
  apply keeps_bind; [apply _|apply keeps_gets, _|]. intros signal. case_match.
  - apply keeps_bind; [apply _|apply log_runs|]. intros _. apply keeps_ret, _.
  - apply keeps_bind; [apply _|apply dispatch_event_runs|]. intros _. apply IH.
Qed.

Lemma run_rounds_runs waits last_sweep : keeps runs (run_rounds config static_public static_secret backup waits last_sweep).
Proof.
  revert last_sweep. induction waits as [|[|events] waits IH]; intros last_sweep; [apply keeps_ret, _..|]. cbn [run_rounds].
  apply keeps_bind; [apply _|apply dispatch_events_runs|]. intros []; [apply keeps_ret, _|].
  apply keeps_bind; [apply _|apply clock_runs|]. intros now. case_match; [apply IH|].
  apply keeps_bind; [apply _|apply sweep_runs|]. intros _. apply IH.
Qed.

Lemma run_until_stopped_runs waits : keeps runs (run_until_stopped config static_public static_secret backup waits).
Proof. apply keeps_bind; [apply _|apply clock_runs|]. intros last_sweep. apply run_rounds_runs. Qed.
End operations.

(** ** Starting *)

Section starting.
Context `{Sodium, Environment, !DescriptorTable, !DescriptorLaws}.
Context (config : server_config).

(** The descriptor, when there is one. *)
Definition held (fd : Z) : gset Z := if 0 <=? fd then {[fd]} else ∅.

Definition plain_kernel (opened watched : gset Z) : kernel := Kernel opened (gset_to_gmap false watched).

(** Descriptors come in, and are watched, one at a time. *)
Definition opens {A} (m : state kernel (A + Z)) : Prop := ∀ opened watched fd k',
  m (plain_kernel opened watched) = (inr fd, k') → held fd ## opened ∧ k' = plain_kernel (held fd ∪ opened) watched.

Lemma new_descriptor_held opened watched :
  let fd := pick_descriptor opened in
  new_descriptor (plain_kernel opened watched) = (fd, plain_kernel (held fd ∪ opened) watched) ∧ held fd ## opened ∧ held fd = {[fd]}.
Proof.
  intros fd. pose proof (picked_fresh opened) as Hf. pose proof (picked_valid opened) as Hv. fold fd in Hf, Hv.
  assert (held fd = {[fd]}) as Eh by (unfold held; by rewrite (proj2 (Z.leb_le 0 fd) Hv)).
  rewrite Eh. split_and!; [done|set_solver|done].
Qed.

Lemma open_listener_opens address port answers : opens (open_listener address port answers).
Proof.
  intros opened watched fd k'. unfold open_listener. do 2 (case_match; [done|]). unfold sbind.
  destruct (new_descriptor_held opened watched) as (-> & Hd & _). case_match; [done|]. case_match; [done|]. by intros [= <- <-].
Qed.

Lemma open_configured_opens settings answers : opens (open_configured_listener settings answers).
Proof.
  intros opened watched fd k'. unfold open_configured_listener. case_match; [|apply open_listener_opens].
  intros [= <- <-]. unfold held. cbn. split; [set_solver|]. by rewrite (left_id_L ∅ (∪)).
Qed.

Lemma open_admin_opens path answers opened watched fd k' :
  open_admin_listener path answers (plain_kernel opened watched) = (inr fd, k') →
  0 <= fd ∧ held fd ## opened ∧ k' = plain_kernel (held fd ∪ opened) watched.
Proof.
  unfold open_admin_listener. do 2 (case_match; [done|]). unfold sbind.
  destruct (new_descriptor_held opened watched) as (-> & Hd & _). do 3 (case_match; [done|]). intros [= <- <-].
  split_and!; [apply picked_valid|done..].
Qed.

Lemma watch_plain granted fd opened watched k' : 0 <= fd →
  watch_descriptor granted fd false false (plain_kernel opened watched) = (true, k') → k' = plain_kernel opened (held fd ∪ watched).
Proof.
  intros Hv. unfold watch_descriptor. case_match; [|done]. intros [= <-]. unfold plain_kernel, held. cbn. f_equal.
  rewrite (proj2 (Z.leb_le 0 fd) Hv). by rewrite gset_to_gmap_union_singleton.
Qed.

Lemma watch_listener_plain granted fd opened watched k' :
  watch_listener granted fd (plain_kernel opened watched) = (true, k') → k' = plain_kernel opened (held fd ∪ watched).
Proof.
  unfold watch_listener. destruct (Z.leb_spec 0 fd) as [Hv|Hn].
  - by apply watch_plain.
  - intros [= <-]. unfold held. rewrite (proj2 (Z.leb_gt 0 fd) Hn). by rewrite (left_id_L ∅ (∪)).
Qed.

Lemma open_service_watched answers granted opened watched fd k' :
  open_admin_service config answers granted (plain_kernel opened watched) = (inr fd, k') →
  held fd ## opened ∧ k' = plain_kernel (held fd ∪ opened) (held fd ∪ watched).
Proof.
  unfold open_admin_service. case_decide.
  { intros [= <- <-]. unfold held. cbn. split; [set_solver|]. by rewrite !(left_id_L ∅ (∪)). }
  unfold sbind at 1. destruct (open_admin_listener _ _ _) as [[error|listener] k1] eqn:E; [done|].
  destruct (open_admin_opens _ _ _ _ _ _ E) as (Hv & Hd & ->). unfold sbind.
  destruct (watch_descriptor granted listener false false _) as [[] k2] eqn:Ew; [|done]. intros [= <- <-].
  split; [done|]. by apply watch_plain in Ew.
Qed.

Lemma fixed_of_held rt :
  fixed_of rt = held (signal_descriptor rt) ∪ held (admin_listener rt) ∪ held (onion_listener rt) ∪ held (clearnet_listener rt).
Proof.
  assert (∀ fd l, list_to_set (filter (Z.le 0) (fd :: l)) = held fd ∪ list_to_set (C := gset Z) (filter (Z.le 0) l)) as Hc.
  { intros fd l. rewrite filter_cons. unfold held. case_decide as Hv.
    - by rewrite (proj2 (Z.leb_le 0 fd) Hv).
    - rewrite (proj2 (Z.leb_gt 0 fd)) by lia. by rewrite (left_id_L ∅ (∪)). }
  unfold fixed_of, listeners_of. rewrite !Hc. cbn. set_solver.
Qed.

Lemma on_kernel_run {A B} (m : state kernel A) (f : A → state runtime B) rt a k :
  m (kernel_ rt) = (a, k) → sbind (on_kernel m) f rt = f a (set_kernel k rt).
Proof. intros E. unfold sbind, on_kernel, zoom. by rewrite E. Qed.

Ltac kernel_step E :=
  match goal with |- sbind (on_kernel ?m) _ ?rt = _ → _ =>
    let r := fresh "r" in let k := fresh "k" in
    destruct (m (kernel_ rt)) as [r k] eqn:E; rewrite (on_kernel_run m _ rt _ _ E); cbn [kernel_ set_kernel set_listeners] in E
  end.

(** A server that has started watches its listeners and the signals. *)
Lemma started_accounted a w opened rt : start_listeners config a (new_runtime config w opened) = (None, rt) →
  core rt = core (new_runtime config w opened) ∧ 0 <= signal_descriptor rt ∧
  ∃ loop, loop ∉ opened ∧ ledger ({[loop]} ∪ opened) (fixed_of rt) ∅ ∅ (kernel_ rt).
Proof.
  unfold new_runtime. destruct (get_unix_timestamp w) as [now w1]. set (sv := new_server config w1 now).
  change (Kernel opened ∅) with (plain_kernel opened ∅). unfold start_listeners.
  kernel_step E0. unfold open_loop in E0. destruct (loop_failure a); [by injection E0 as <- <-|]. unfold sbind in E0.
  destruct (new_descriptor_held opened ∅) as (Enew & Hd0 & Eh). rewrite Enew in E0. injection E0 as <- <-. clear Enew.
  set (loop := pick_descriptor opened) in *.
  kernel_step E1. destruct r as [error|c]; [done|]. destruct (open_configured_opens _ _ _ _ _ _ E1) as [Hd1 ->]. clear E1.
  kernel_step E2. destruct r as [error|o]; [done|]. destruct (open_configured_opens _ _ _ _ _ _ E2) as [Hd2 ->]. clear E2.
  kernel_step E3. destruct r; [|done]. apply watch_listener_plain in E3 as ->. cbn [negb].
  kernel_step E4. destruct r; [|done]. apply watch_listener_plain in E4 as ->. cbn [negb].
  kernel_step E5. destruct r as [error|ad]; [done|]. destruct (open_service_watched _ _ _ _ _ _ E5) as [Hd5 ->]. clear E5.
  kernel_step E6. destruct (signal_created a); [|injection E6 as <- <-].
  2:{ unfold sbind at 1, smodify. kernel_step E7. done. }
  match type of E6 with new_descriptor (plain_kernel ?x ?y) = _ => destruct (new_descriptor_held x y) as (Enew & Hd6 & Es) end.
  rewrite Enew in E6. injection E6 as <- <-. clear Enew.
  match type of Es with held (pick_descriptor ?x) = _ => pose proof (picked_valid x) as Hv; set (signal := pick_descriptor x) in * end.
  unfold sbind at 1, smodify. kernel_step E7. rewrite (proj2 (Z.ltb_ge signal 0) Hv).
  destruct r; [|done]. apply watch_plain in E7 as ->; [|done]. cbn [negb orb]. intros [= <-].
  split_and!; [done..|]. exists loop. rewrite <-Eh. split; [set_solver|].
  rewrite fixed_of_held. cbn [signal_descriptor admin_listener onion_listener clearnet_listener set_listeners set_kernel kernel_].
  split; cbn [open_descriptors plain_kernel interest]; rewrite ?dom_empty_L, ?fmap_empty.
  - set_solver.
  - set_solver.
  - set_solver.
  - rewrite !(left_id_L ∅ (∪)). f_equal. set_solver.
Qed.
End starting.

(** ** What the loop guarantees *)

Section guarantees.
Context `{Sodium, Environment, !EnvironmentLaws, !DescriptorTable, !DescriptorLaws}.
Context (config : server_config) (static_public static_secret : bytes) (backup : bytes → option bytes).
Context (Hcaps : u32 (max_connections (limits config)) ∧ u32 (max_connections_per_address (limits config))).

(** From the start to any state of the loop. *)
Lemma loop_sound w opened a rt waits out rt' :
  holds tables_ok w → start_listeners config a (new_runtime config w opened) = (None, rt) →
  run_until_stopped config static_public static_secret backup waits rt = (out, rt') →
  ∃ loop, loop ∉ opened ∧ loop_ok config ({[loop]} ∪ opened) rt' ∧
    rtc (server_step config static_public static_secret) (core (new_runtime config w opened)) (core rt') ∧
    listeners_of rt' = listeners_of rt.
Proof.
  intros Hw Hstart Hrun. destruct (started_accounted config a w opened rt Hstart) as (Hcore & Hsignal & loop & Hfresh & L).
  exists loop. split; [done|]. pose proof (run_until_stopped_runs config static_public static_secret backup ({[loop]} ∪ opened) waits rt) as Hruns.
  rewrite Hrun in Hruns. cbn [snd] in Hruns. rewrite <-Hcore. apply Hruns. split.
  - unfold accounted. rewrite Hcore. unfold new_runtime. by destruct (get_unix_timestamp w).
  - rewrite Hcore. unfold new_runtime. pose proof (clock_safe tables_ok w Hw) as Hw1. destruct (get_unix_timestamp w) as [now w1].
    exact (new_server_ok config w1 now Hw1 (proj1 Hcaps) (proj2 Hcaps)).
Qed.

(** C5: the event loop refines the server of [Runtime]. Whatever epoll reports
    in whatever order, whatever the calls answer and whichever descriptors the
    kernel hands out, the state of the server between two rounds is one the
    steps of [Runtime] lead to from the server as it was constructed: in
    particular no connection is ever accepted under a descriptor that is still
    registered, which the steps assume. *)
Theorem event_loop_takes_server_steps (w : world) (opened : gset Z) (a : start_answers) (rt rt' : runtime)
    (waits : list wait_result) (out : outcome)
    (Hdatabase : holds tables_ok w)
    (Hstart : start_listeners config a (new_runtime config w opened) = (None, rt))
    (Hrun : run_until_stopped config static_public static_secret backup waits rt = (out, rt')) :
  rtc (server_step config static_public static_secret)
    (new_server config (get_unix_timestamp w).2 (get_unix_timestamp w).1) (core rt').
Proof.
  destruct (loop_sound w opened a rt waits out rt' Hdatabase Hstart Hrun) as (loop & _ & _ & Hsteps & _).
  unfold new_runtime in Hsteps. by destruct (get_unix_timestamp w).
Qed.

(** C6: every descriptor is accounted for, and every connection is heard.
    After any number of rounds, the open descriptors are those the process
    started with, the one of epoll, the listeners and the signals, and one for
    each connection and each operator: none leaks and none is used after it is
    closed. Epoll watches the listeners, the signals, the connections and the
    operators and nothing else, and it waits for writing exactly where bytes
    are left to send: no connection is forgotten with an answer pending, and
    none makes the loop spin with nothing to write. *)
Theorem descriptors_are_accounted_for (w : world) (opened : gset Z) (a : start_answers) (rt rt' : runtime)
    (waits : list wait_result) (out : outcome)
    (Hdatabase : holds tables_ok w)
    (Hstart : start_listeners config a (new_runtime config w opened) = (None, rt))
    (Hrun : run_until_stopped config static_public static_secret backup waits rt = (out, rt')) :
  ∃ loop, loop ∉ opened ∧
    open_descriptors (kernel_ rt') =
      {[loop]} ∪ opened ∪ fixed_of rt ∪ dom (connections (registry (core rt'))) ∪ dom (admin (core rt')) ∧
    dom (interest (kernel_ rt')) = fixed_of rt ∪ dom (connections (registry (core rt'))) ∪ dom (admin (core rt')) ∧
    (∀ fd c, find_connection (registry (core rt')) fd = Some c →
       get_descriptor c = fd ∧ interest (kernel_ rt') !! fd = Some (negb (bool_decide (pending_output_ (socket c) = [])))) ∧
    (∀ fd o, admin (core rt') !! fd = Some o → interest (kernel_ rt') !! fd = Some (response_ready o)) ∧
    (∀ fd, fd ∈ fixed_of rt → interest (kernel_ rt') !! fd = Some false).
Proof.
  destruct (loop_sound w opened a rt waits out rt' Hdatabase Hstart Hrun) as (loop & Hfresh & Hok & _ & Hlisteners).
  assert (fixed_of rt' = fixed_of rt) as Hf by (unfold fixed_of; by rewrite Hlisteners).
  pose proof (loop_keyed _ _ _ Hok) as Hkey. destruct Hok as [L _]. unfold accounted in L. rewrite Hf in L.
  exists loop. pose proof L as [(A1 & A2 & A3) Hv Ho Hw]. split_and!; [done|done| | | |].
  - rewrite Hw, !dom_union_L, !dom_fmap_L, dom_gset_to_gmap. set_solver.
  - intros fd c Hc. split; [by apply Hkey|]. by eapply (connection_watched _ _ _ _ _ fd c).
  - intros fd o Hop. by eapply operator_watched.
  - intros fd Hfd. rewrite Hw. rewrite lookup_union_r; [by apply lookup_gset_to_gmap_Some|].
    rewrite lookup_union_None, !lookup_fmap, !fmap_None, <-!not_elem_of_dom. set_solver.
Qed.

(** The loop with its signal descriptor. *)
Definition signalled (base : gset Z) (signal : Z) (rt : runtime) : Prop := loop_ok config base rt ∧ signal_descriptor rt = signal.

Lemma runs_signalled base signal rt rt' : runs config static_public static_secret base rt rt' →
  signalled base signal rt → signalled base signal rt'.
Proof. intros Hrun [Hok Hs]. destruct (Hrun Hok) as (Hok' & _ & Hl). split; [done|]. injection Hl as _ _ _ ->. done. Qed.

Lemma dispatch_stops base signal events rt : signalled base signal rt → signal ∈ map reported events →
  (dispatch_events config static_public static_secret backup events rt).1 = true.
Proof.
  revert rt. induction events as [|e events IH]; intros rt Hok; [by intros ?%elem_of_nil|].
  cbn [map dispatch_events]. unfold sbind at 1, sgets. rewrite (proj2 Hok). intros Hin. destruct (Z.eqb_spec (reported e) signal) as [Es|Hne].
  - unfold sbind, on_common, zoom. by destruct (write_entry _ _ _ _).
  - apply elem_of_cons in Hin as [?|Hin]; [congruence|]. unfold sbind at 1.
    pose proof (runs_signalled _ _ _ _ (dispatch_event_runs config static_public static_secret backup base e rt) Hok) as Hok'.
    destruct (dispatch_event _ _ _ _ e rt) as [u rt']. by apply IH.
Qed.

Lemma rounds_stop base signal before events after last_sweep rt : signalled base signal rt → signal ∈ map reported events →
  (run_rounds config static_public static_secret backup (map Reported before ++ Reported events :: after) last_sweep rt).1
    = StoppedBySignal.
Proof.
  revert last_sweep rt. induction before as [|events0 before IH]; intros last_sweep rt Hok Hin; cbn [map app run_rounds]; unfold sbind at 1.
  - pose proof (dispatch_stops base signal events rt Hok Hin) as Hs. destruct (dispatch_events _ _ _ _ events rt) as [stopped rt1].
    cbn in Hs. by subst stopped.
  - pose proof (runs_signalled _ _ _ _ (dispatch_events_runs config static_public static_secret backup base events0 rt) Hok) as Hok1.
    destruct (dispatch_events _ _ _ _ events0 rt) as [[] rt1]; [done|]. cbn [snd] in Hok1. unfold sbind at 1.
    pose proof (runs_signalled _ _ _ _ (clock_runs config static_public static_secret base rt1) Hok1) as Hok2.
    destruct (on_common get_unix_timestamp rt1) as [now rt2]. cbn [snd] in Hok2. case_match; [by apply IH|]. unfold sbind at 1.
    pose proof (runs_signalled _ _ _ _ (sweep_runs config static_public static_secret backup base rt2) Hok2) as Hok3.
    destruct (sweep_clients config rt2) as [u rt3]. by apply IH.
Qed.

(** C15: a signal stops the server. In the round that reports it the loop ends,
    without an error, whatever else the round and the rounds before it
    reported and whatever the calls of them answered: nothing a client or an
    operator does keeps the server from being stopped. *)
Theorem signal_stops_the_server (w : world) (opened : gset Z) (a : start_answers) (rt : runtime)
    (before : list (list report)) (events : list report) (after : list wait_result)
    (Hdatabase : holds tables_ok w)
    (Hstart : start_listeners config a (new_runtime config w opened) = (None, rt))
    (Hsignal : signal_descriptor rt ∈ map reported events) :
  (run_until_stopped config static_public static_secret backup (map Reported before ++ Reported events :: after) rt).1
    = StoppedBySignal.
Proof.
  destruct (loop_sound w opened a rt [] Running (run_until_stopped config static_public static_secret backup [] rt).2 Hdatabase Hstart)
    as (loop & _ & Hok & _ & Hl); [by unfold run_until_stopped, sbind; destruct (on_common get_unix_timestamp rt)|].
  unfold run_until_stopped, sbind in *. destruct (on_common get_unix_timestamp rt) as [now rt1] eqn:E. cbn [snd run_rounds sret] in Hok, Hl.
  injection Hl as _ _ _ Hl. by apply (rounds_stop ({[loop]} ∪ opened) (signal_descriptor rt)).
Qed.
End guarantees.

(** ** Where the loop falls short *)

Section shortcomings.
Context `{Sodium, Environment, !EnvironmentLaws, !DescriptorTable, !DescriptorLaws}.
Context (config : server_config) (backup : bytes → option bytes).

(** An operator that is gone is never closed. Once an answer is ready the
    service of an administration connection only sends, and takes any refusal
    of [send] for a reason to try again, a peer that has left included; so
    each report of the connection leaves the whole state as it was, and as
    epoll goes on reporting a connection that was hung up, the loop spins. *)
Theorem gone_operator_is_never_closed (base : gset Z) (rt : runtime) (fd : Z) (o : admin_connection) (r : readiness)
    (Haccounted : accounted base rt) (Hoperator : admin (core rt) !! fd = Some o)
    (Hready : response_ready o = true) (Hleft : output o ≠ [])
    (Hgone : ∀ size, head (sends r) ≠ Some (Sent (S size))) (Hwatched : rewatched r = true) :
  service_operator config backup fd r rt = (tt, rt).
Proof.
  destruct (owned_watched _ _ _ _ _ fd Haccounted) as [Ho Hi]; [apply elem_of_dom_2 in Hoperator; set_solver|].
  unfold service_operator. rewrite watch_again by done. rewrite Hwatched, Hoperator.
  unfold service_admin_connection. rewrite Hoperator, Hready. cbn. unfold answer_admin_connection.
  assert (flush_buffer (sends r) (output o) = output o) as ->.
  { destruct (output o) as [|b rest]; [done|]. destruct (sends r) as [|[[|n]| |] l]; try done. by destruct (Hgone n). }
  rewrite bool_decide_false by done. cbn. destruct o as [i out ready']. cbn in *. subst ready'.
  rewrite insert_id by done. rewrite Hoperator. cbn.
  pose proof (operator_watched _ _ _ _ _ _ _ Haccounted Hoperator) as Hint. cbn in Hint.
  rewrite insert_id by done. by destruct rt as [[] ? ? ? ? []].
Qed.
End shortcomings.

(** ** A run of the loop *)

(** The lowest descriptor that is not open, as POSIX has it. *)
Definition lowest_unused (s : gset Z) : Z := default 0 (head (filter (λ fd, fd ∉ s) (seqZ 0 (Z.of_nat (size s) + 1)))).

#[local] Instance lowest_first : DescriptorTable := {| pick_descriptor := lowest_unused |}.

Lemma lowest_first_laws : DescriptorLaws.
Proof.
  assert (∀ s, lowest_unused s ∈ filter (λ fd, fd ∉ s) (seqZ 0 (Z.of_nat (size s) + 1))) as Hin.
  { intros s. unfold lowest_unused. destruct (filter _ _) as [|fd l] eqn:E; [|cbn; apply list_elem_of_here].
    assert (list_to_set (C := gset Z) (seqZ 0 (Z.of_nat (size s) + 1)) ⊆ s) as Hsub.
    { intros fd Hfd%elem_of_list_to_set. destruct (decide (fd ∈ s)) as [|Hn]; [done|].
      assert (fd ∈ filter (λ fd, fd ∉ s) (seqZ 0 (Z.of_nat (size s) + 1))) as Hf by (by apply list_elem_of_filter).
      rewrite E in Hf. by apply elem_of_nil in Hf. }
    apply subseteq_size in Hsub. rewrite size_list_to_set, length_seqZ in Hsub by apply NoDup_seqZ. lia. }
  split; intros s; cbn; specialize (Hin s); apply list_elem_of_filter in Hin as [Hn Hr]; [done|].
  apply elem_of_seqZ in Hr. lia.
Qed.

Section witnesses.
#[local] Existing Instance toy_sodium.
#[local] Existing Instance calm.
#[local] Existing Instance lowest_first_laws.
#[local] Instance calm_laws : EnvironmentLaws := scripted_laws _ _.

(** A server with one listener and the administration socket. *)
Definition small_config : server_config :=
  ServerConfig (ListenerConfig true (lit "0.0.0.0") 7717 []) default_listener (limits default_config) (logging default_config)
    (paths default_config) true.

Definition granted_listener : listener_answers := ListenerAnswers true true true true true true.
Definition granted_start : start_answers :=
  StartAnswers None granted_listener granted_listener granted_listener true true true true true.

(** After the three standard descriptors: epoll, the listener, the operators'
    listener and the signals. *)
Definition standard_descriptors : gset Z := {[0; 1; 2]}.

Definition quiet : readiness := Readiness false false [] [] true.
Definition arrival (listener : Z) (peer : bytes) : report := Report listener quiet [Waiting peer true true].

(** A client and an operator connect. *)
Definition first_round : list report := [arrival 4 (lit "192.0.2.1"); arrival 5 []].

(** The operator closes the client, another one connects, and the report of
    the hang-up of the first comes last. *)
Definition operator_says (command : bytes) (sends : list send_result) : report :=
  Report 8 (Readiness false true [Received (command ++ newline)] sends true) [].
Definition hang_up : report := Report 7 (Readiness true false [] [] true) [].
Definition second_round : list report := [operator_says (lit "sessions close 7") [Sent 100]; arrival 4 (lit "192.0.2.2"); hang_up].

Definition started : option bytes * runtime :=
  start_listeners small_config granted_start (new_runtime small_config (fresh_world populated) standard_descriptors).

Definition run_of (rounds : list (list report)) : outcome * runtime :=
  run_until_stopped small_config [] [] (λ _, None) (map Reported rounds) started.2.

(** The clients there are, by their addresses. *)
Definition clients (rt : runtime) : list (Z * bytes) :=
  map (λ entry : Z * client_connection, (entry.1, peer_address (session entry.2))) (map_to_list (connections (registry (core rt)))).

(** A report that is still in the batch when its descriptor has gone to
    someone else is taken for theirs: the newcomer is disconnected. *)
Lemma stale_report_closes_the_newcomer :
  clients (run_of [first_round; take 2 second_round]).2 = [(7, lit "192.0.2.2")] ∧
  clients (run_of [first_round; second_round]).2 = [].
Proof. split; vm_compute; reflexivity. Qed.

Lemma small_caps : u32 (max_connections (limits small_config)) ∧ u32 (max_connections_per_address (limits small_config)).
Proof. by_decision. Qed.

Lemma populated_holds : holds tables_ok (fresh_world populated).
Proof. apply autocommit_holds; [done|exact populated_ok]. Qed.

Lemma started_result :
  start_listeners small_config granted_start (new_runtime small_config (fresh_world populated) standard_descriptors) = (None, started.2).
Proof. vm_compute. reflexivity. Qed.

Lemma event_loop_takes_server_steps_witness : ∃ rt',
  run_of [first_round; second_round] = (Running, rt') ∧
  rtc (server_step small_config [] [])
    (new_server small_config (get_unix_timestamp (fresh_world populated)).2 (get_unix_timestamp (fresh_world populated)).1) (core rt').
Proof.
  destruct (run_of [first_round; second_round]) as [out rt'] eqn:E.
  assert (out = Running) as -> by (change out with (out, rt').1; rewrite <-E; vm_compute; reflexivity).
  exists rt'. split; [reflexivity|]. unfold run_of in E.
  exact (event_loop_takes_server_steps small_config [] [] (λ _, None) small_caps (fresh_world populated) standard_descriptors
           granted_start started.2 rt' (map Reported [first_round; second_round]) Running populated_holds started_result E).
Defined.

(** An operator asks for help and takes nothing of the answer. *)
Lemma helped :
  let '(out, rt) := run_of [first_round; [operator_says (lit "help") []]] in
  out = Running ∧ match admin (core rt) !! 8 with
                  | Some o => response_ready o = true ∧ bool_decide (output o = []) = false
                  | None => False
                  end.
Proof. vm_compute. split; [|split]; reflexivity. Qed.

(** An answer that the operator did not take is waited for. *)
Lemma descriptors_are_accounted_for_witness : ∃ rt' o,
  run_of [first_round; [operator_says (lit "help") []]] = (Running, rt') ∧
  admin (core rt') !! 8 = Some o ∧ interest (kernel_ rt') !! 8 = Some (response_ready o) ∧ response_ready o = true.
Proof.
  pose proof helped as Hadmin. destruct (run_of [first_round; [operator_says (lit "help") []]]) as [out rt'] eqn:E.
  destruct Hadmin as [-> Hadmin].
  destruct (admin (core rt') !! 8) as [o|] eqn:Eo; [|destruct Hadmin]. destruct Hadmin as [Ho _].
  unfold run_of in E. destruct (descriptors_are_accounted_for small_config [] [] (λ _, None) small_caps (fresh_world populated) standard_descriptors
              granted_start started.2 rt' (map Reported [first_round; [operator_says (lit "help") []]]) Running populated_holds
              started_result E) as (loop & _ & _ & _ & _ & Hops & _).
  exists rt', o. split; [reflexivity|]. split; [exact Eo|]. split; [exact (Hops 8 o Eo)|exact Ho].
Defined.

Lemma signal_stops_the_server_witness :
  (run_until_stopped small_config [] [] (λ _, None)
     (map Reported [first_round] ++ Reported [hang_up; Report 6 quiet []; arrival 4 (lit "192.0.2.3")] ::
      [Reported [hang_up]]) started.2).1
    = StoppedBySignal.
Proof.
  refine (signal_stops_the_server small_config [] [] (λ _, None) small_caps (fresh_world populated) standard_descriptors
    granted_start started.2 [first_round] [hang_up; Report 6 quiet []; arrival 4 (lit "192.0.2.3")] [Reported [hang_up]] populated_holds started_result _).
  change (6 ∈ [7; 6; 4]). apply list_elem_of_further, list_elem_of_here.
Defined.

(** The operator asks for help and hangs up. *)
Lemma gone_operator_is_never_closed_witness : ∃ rt o,
  admin (core rt) !! 8 = Some o ∧
  service_operator small_config (λ _, None) 8 (Readiness true false [] [SendError] true) rt = (tt, rt).
Proof.
  pose proof helped as Hadmin. destruct (run_of [first_round; [operator_says (lit "help") []]]) as [out rt] eqn:E.
  destruct Hadmin as [_ Hadmin].
  destruct (admin (core rt) !! 8) as [o|] eqn:Eo; [|destruct Hadmin]. destruct Hadmin as [Hready Hleft%bool_decide_eq_false].
  unfold run_of in E. destruct (loop_sound small_config [] [] (λ _, None) small_caps (fresh_world populated) standard_descriptors
              granted_start started.2 (map Reported [first_round; [operator_says (lit "help") []]]) out rt populated_holds
              started_result E) as (loop & _ & [L _] & _).
  exists rt, o. split; [exact Eo|].
  exact (gone_operator_is_never_closed small_config (λ _, None) _ rt 8 o (Readiness true false [] [SendError] true) L Eo Hready Hleft
           ltac:(intros size; discriminate) eq_refl).
Defined.
End witnesses.
