(* ===== verification/ServerMain.v ===== *)
(** The server program (server/server_main.cpp), from the path of its
    configuration to its exit code: the configuration, the database and its
    migrations, the static key, the connect file, and the runtime with its
    loop. What the system answers is gathered in [host]; the theorems follow
    every start to the states the server serves in. *)

From stdpp Require Import relations.
From S2P Require Import Prelude.
From S2P Require Import Wire.
From S2P Require Import TextTools.
From S2P Require Import Hex.
From S2P Require Import Sodium.
From S2P Require Import Config.
From S2P Require Import ConfigFile.
From S2P Require Import DirectMessages.
From S2P Require Import Files.
From S2P Require Import Connection.
From S2P Require Import Database.
From S2P Require Import Migrations.
From S2P Require Import Startup.
From S2P Require Import Handlers.
From S2P Require Import Server.
From S2P Require Import Effects.
From S2P Require Import Permissions.
From S2P Require Import Integrity.
From S2P Require Import Scenario.
From S2P Require Import Sessions.
From S2P Require Import Runtime.
From S2P Require Import EventLoop.
From S2P Require Import LoopSound.

Definition EXIT_CONFIGURATION_ERROR : Z := 2.
Definition EXIT_RUNTIME_ERROR : Z := 3.

(** What the system answers to a start: the regular files of the migrations
    directory, the scripts recorded in the database, the error of opening it,
    the key pair drawn if one has to be, the answers to [start_listeners], the
    descriptors open before, and what epoll reports. *)
Record host := Host {
  migration_entries : option (list migration_file);
  recorded : gmap bytes Z;
  open_failure : option bytes;
  drawn_static : option (bytes * bytes);
  start_calls : start_answers;
  opened_before : gset Z;
  reports : list wait_result;
}.

(** How a run ends, with what it wrote to its error output; [None] while it
    serves. *)
Record ending := Ending { exit_code : option Z; error_output : bytes; serving : option runtime }.

Section program.
Context `{Sodium} `{FileSystem} `{Environment} `{DescriptorTable}.
(** What a script does to the database, and where a backup goes. *)
Context (run_script : bytes → tables → tables * option bytes) (backup : bytes → option bytes).

(** The connection of the migrations is the one of the server, before it
    serves. *)
Definition with_schema {A : Type} (applied : gmap bytes Z) (m : state (Migrations.connection (Schema := tables)) A) : state world A := λ w,
  let '(a, c) := m (Migrations.Connection (Content (db_tables (db w)) applied) None (calls w) (clock_reads w) []) in
  (a, World (DatabaseState (schema (current c)) (match transaction c with Some _ => Some (schema (committed c)) | None => None end)
               (last_insert_id (db w)) (changed_row_count (db w)))
        (engine_calls c) (clock_readings c) (entropy_reads w) (log_entries w ++ notices c)).

(** The pragmas of [open_database], of which none changes a table, then the
    migrations: the error, or nothing. *)
Definition prepare_database (config : server_config) (h : host) : state world (option bytes) :=
  match open_failure h with
  | Some text => sret (Some (lit "ouverture de " ++ database_path (paths config) ++ lit " : " ++ text))
  | None =>
      with_schema (recorded h)
        (let* failure := execute_script (λ x, (x, None)) in
         match failure with
         | Some error => sret (Some error)
         | None => apply_pending_migrations run_script (logging config) (migrations_directory (paths config)) (migration_entries h)
         end)
  end.

Definition log_error (config : server_config) (text : bytes) : state startup unit :=
  on_log (write_entry (logging config) log_level.error text).

(** The runtime on what was prepared. *)
Definition serve_until_stopped (config : server_config) (static_public static_secret : bytes) (h : host) (w : world)
    : option bytes * outcome * runtime :=
  let rt := new_runtime config w (opened_before h) in
  let '(failure, rt) := start_listeners config (start_calls h) rt in
  match failure with
  | Some error => (Some error, Running, rt)
  | None =>
      let '(result, rt) := run_until_stopped config static_public static_secret backup (reports h) rt in
      (None, result, rt)
  end.

(** What [run_server] returns, and the runtime if it got as far. *)
Definition run_server (config : server_config) (h : host) : state startup (option Z * option runtime) :=
  let* failure := on_log (prepare_database config h) in
  match failure with
  | Some error => do* log_error config error in sret (Some EXIT_RUNTIME_ERROR, None)
  | None =>
      let* keys := Startup.on_disk (load_or_create_server_key (server_key_path (paths config)) (drawn_static h)) in
      match keys with
      | inl error => do* log_error config error in sret (Some EXIT_RUNTIME_ERROR, None)
      | inr (static_public, static_secret) =>
          do* announce_server_key config static_public in
          do* write_connect_file config static_public in
          λ s,
            let '(failure, result, rt) := serve_until_stopped config static_public static_secret h (start_world s) in
            match failure, result with
            | Some error, _ | None, Failed error =>
                ((Some EXIT_RUNTIME_ERROR, Some (on_common (write_entry (logging config) log_level.error error) rt).2), s)
            | None, StoppedBySignal =>
                ((Some 0, Some (on_common (write_entry (logging config) log_level.info (lit "arret propre")) rt).2), s)
            | None, Running => ((None, Some rt), s)
            end
      end
  end.

Definition config_path (arguments : list bytes) : bytes :=
  match arguments with path :: _ => path | [] => lit "hypercom.conf" end.

Definition main (sodium_ready : bool) (arguments : list bytes) (h : host) : state startup ending :=
  if negb sodium_ready then
    sret (Ending (Some EXIT_RUNTIME_ERROR) (lit "libsodium n'a pas pu s'initialiser, arret" ++ newline) None)
  else
    let* contents := Startup.on_disk (read_file (config_path arguments)) in
    match load_validated_config (config_path arguments) contents with
    | (None, shown) => sret (Ending (Some EXIT_CONFIGURATION_ERROR) shown None)
    | (Some config, shown) =>
        let* '(code, rt) := run_server config h in
        sret (Ending code shown rt)
    end.
End program.

(** ** Every start leads to states that are sound *)

Section soundness.
Context `{Sodium} `{FileSystem} `{Environment, !EnvironmentLaws} `{!DescriptorTable, !DescriptorLaws}.
Context (run_script : bytes → tables → tables * option bytes) (backup : bytes → option bytes).

(** The scripts of the directory leave a well-formed database well formed. *)
Definition scripts_sound (h : host) : Prop := ∀ files file script t t',
  migration_entries h = Some files → file ∈ files → migration_script file = Some script →
  tables_ok t → run_script script t = (t', None) → tables_ok t'.

Lemma sort_by_name_elements file files : file ∈ sort_by_name files → file ∈ files.
Proof.
  assert (∀ x l, file ∈ insert_by_name x l → file = x ∨ file ∈ l) as Hinsert.
  { intros x l. induction l as [|y l IH]; cbn [insert_by_name].
    - intros Hin. left. by apply list_elem_of_singleton in Hin.
    - case_match; intros Hin; apply elem_of_cons in Hin as [->|Hin]; [by left|by right|right; by left|].
      destruct (IH Hin) as [|]; [by left|right; by right]. }
  induction files as [|x files IH]; [done|]. cbn. intros [->|Hin]%Hinsert; [by left|right; by apply IH].
Qed.

Lemma migrated_ok files x y :
  (∀ file script t t', file ∈ files → migration_script file = Some script → tables_ok t → run_script script t = (t', None) → tables_ok t') →
  migrated run_script files x y → tables_ok (schema x) → tables_ok (schema y).
Proof.
  intros Hs Hm. induction Hm as [x|file files x y Ha _ IH|file files x y script s now Hscript Ha Hrun _ IH]; intros Hx; [done|..].
  - apply IH; [|done]. intros. eapply Hs; [by right|done..].
  - apply IH; [intros; eapply Hs; [by right|done..]|]. eapply (Hs file); [by left|done..].
Qed.

Lemma prepare_database_ok config h w w' : scripts_sound h → saved (db w) = None → tables_ok (db_tables (db w)) →
  prepare_database run_script config h w = (None, w') → holds tables_ok w'.
Proof.
  intros Hs Hn Hok. unfold prepare_database. destruct (open_failure h); [done|]. unfold with_schema.
  set (c0 := Migrations.Connection _ _ _ _ _). unfold sbind.
  destruct (execute_script (λ x, (x, None)) c0) as [r1 c1] eqn:E1.
  destruct (execute_create_table c0 r1 c1 eq_refl E1) as [Hc1 Ht1]. destruct r1 as [error|]; [done|].
  destruct (apply_pending_migrations _ _ _ _ c1) as [r2 c2] eqn:E2. intros [= -> <-].
  destruct (pending_spec _ _ _ _ _ _ _ Ht1 E2) as (done & rest & Hm & Hf & Hr). destruct (Hr eq_refl) as [Hcollect Ht2].
  assert (tables_ok (schema (committed c2))) as Hok2.
  { eapply migrated_ok; [|exact Hm|by rewrite Hc1]. intros file script t t' Hin Hscript Ht Hrun.
    unfold collect_migration_files in Hcollect. destruct (migration_entries h) as [files|] eqn:Ee; [|done]. injection Hcollect as <-.
    apply sort_by_name_elements, list_elem_of_filter in Hin as [_ Hin]. by eapply Hs. }
  apply autocommit_holds; cbn; [by rewrite Ht2|]. unfold current. by rewrite Ht2.
Qed.

(** Starting the listeners does not touch the server. *)
Definition same_core (rt rt' : runtime) : Prop := core rt' = core rt.

#[export] Instance same_core_preorder : PreOrder same_core.
Proof. split; unfold same_core; [done|]. intros x y z ? ?. congruence. Qed.

Lemma on_kernel_core {A} (m : state kernel A) : keeps same_core (on_kernel m).
Proof. intros rt. unfold on_kernel, zoom. by destruct (m (kernel_ rt)). Qed.

Lemma start_listeners_core config a : keeps same_core (start_listeners config a).
Proof.
  unfold start_listeners. repeat first [ apply on_kernel_core | apply (keeps_ret same_core)
    | apply (keeps_bind same_core); [|intros ?] | case_match | by intros ? ].
Qed.

(** What the runtime serves is reached from what was prepared. *)
Lemma served_states config public secret h w result rt failure :
  holds tables_ok w → config_typed config → serve_until_stopped backup config public secret h w = (failure, result, rt) →
  rtc (server_step config public secret) (new_server config (get_unix_timestamp w).2 (get_unix_timestamp w).1) (core rt).
Proof.
  intros Hw (_ & _ & Hc1 & Hc2 & _). unfold serve_until_stopped.
  assert (core (new_runtime config w (opened_before h)) = new_server config (get_unix_timestamp w).2 (get_unix_timestamp w).1) as <-.
  { unfold new_runtime. by destruct (get_unix_timestamp w). }
  destruct (start_listeners config (start_calls h) _) as [[error|] rt0] eqn:E.
  - intros [= <- <- <-]. pose proof (start_listeners_core config (start_calls h) (new_runtime config w (opened_before h))) as Hcore.
    rewrite E in Hcore. unfold same_core in Hcore. cbn in Hcore. rewrite Hcore. apply rtc_refl.
  - destruct (run_until_stopped _ _ _ _ _ rt0) as [result' rt'] eqn:Er. intros [= <- <- <-].
    by destruct (loop_sound config public secret backup (conj Hc1 Hc2) w (opened_before h) (start_calls h) rt0 (reports h) result' rt' Hw E Er)
      as (loop & _ & _ & Hsteps & _).
Qed.

(** What [run_server] does before it serves only writes to the log. *)
Definition keeps_database (s s' : startup) : Prop := holds tables_ok (start_world s) → holds tables_ok (start_world s').

#[export] Instance keeps_database_preorder : PreOrder keeps_database.
Proof. split; unfold keeps_database; [by intros ? ?|]. intros x y z ? ?. auto. Qed.

Lemma on_disk_database {A} (m : state disk A) : keeps keeps_database (Startup.on_disk m).
Proof. intros s Hs. unfold Startup.on_disk, zoom. by destruct (m (start_disk s)). Qed.

Lemma on_log_database policy level message : keeps keeps_database (on_log (write_entry policy level message)).
Proof.
  intros s Hs. unfold on_log, zoom. pose proof (write_entry_holds policy level message (start_world s) Hs) as Hw.
  by destruct (write_entry _ _ _ _).
Qed.

Lemma announced_database config public :
  keeps keeps_database (do* announce_server_key config public in write_connect_file config public).
Proof.
  unfold announce_server_key, write_connect_file. repeat first [ apply on_disk_database | apply on_log_database
    | apply (keeps_ret keeps_database) | apply (keeps_bind keeps_database); [|intros ?] | case_match ].
Qed.

(** The start of a server up to its listeners: the database is prepared, the
    key pair is loaded from the key file, or drawn and stored there, and it is
    announced in the log and in the connect file. *)
Record started_with (config : server_config) (h : host) (s s' : startup) (public secret : bytes) : Prop := StartedWith {
  started_database : ∃ w, prepare_database run_script config h (start_world s) = (None, w) ∧
    ∃ d, load_or_create_server_key (server_key_path (paths config)) (drawn_static h) (start_disk s) = (inr (public, secret), d) ∧
      (∃ stored, files d !! server_key_path (paths config) = Some stored ∧ take 32 stored = secret) ∧
      (do* announce_server_key config public in write_connect_file config public) (Startup d w) = (tt, s');
  started_pair : compute_public_from_secret secret = Some public;
  started_file : server_key_path (paths config) ≠ connect_file_path (paths config) →
    ∃ stored, files (start_disk s') !! server_key_path (paths config) = Some stored ∧ take 32 stored = secret;
}.

(** What libsodium draws is a pair. *)
Definition drawn_pair (h : host) : Prop := ∀ public secret, drawn_static h = Some (public, secret) →
  size_of secret = X25519_SECRET_KEY_SIZE ∧ compute_public_from_secret secret = Some public.

Lemma announced_files config public s path : path ≠ connect_file_path (paths config) →
  files (start_disk ((do* announce_server_key config public in write_connect_file config public) s).2) !! path =
    files (start_disk s) !! path.
Proof.
  intros Hpath. unfold sbind, announce_server_key, on_log, zoom. destruct (write_entry _ _ _ _) as [u w].
  by rewrite write_connect_file_others.
Qed.

(** The ways a run ends after the configuration. *)
Lemma run_server_result config h s code ort s' :
  scripts_sound h → drawn_pair h → saved (db (start_world s)) = None → tables_ok (db_tables (db (start_world s))) →
  config_typed config → run_server run_script backup config h s = ((code, ort), s') →
  (code = None ∨ code = Some 0 ∨ code = Some EXIT_RUNTIME_ERROR) ∧
  ∀ rt, ort = Some rt → ∃ public secret,
    started_with config h s s' public secret ∧ holds tables_ok (start_world s') ∧
    rtc (server_step config public secret)
      (new_server config (get_unix_timestamp (start_world s')).2 (get_unix_timestamp (start_world s')).1) (core rt) ∧
    (code = Some 0 → (serve_until_stopped backup config public secret h (start_world s')).1.2 = StoppedBySignal).
Proof.
  intros Hs Hdrawn Hn Hok Htyped. unfold run_server. unfold sbind at 1, on_log at 1, zoom at 1.
  destruct (prepare_database run_script config h (start_world s)) as [[error|] w1] eqn:Ep.
  { unfold sbind. destruct (log_error _ _ _). intros [= <- <- <-]. split; [by right; right|done]. }
  pose proof (prepare_database_ok _ _ _ _ Hs Hn Hok Ep) as Hw1. unfold sbind at 1, Startup.on_disk at 1, zoom at 1. cbn [start_disk].
  destruct (load_or_create_server_key _ _ _) as [[error|[public secret]] d1] eqn:Ek.
  { unfold sbind. destruct (log_error _ _ _). intros [= <- <- <-]. split; [by right; right|done]. }
  set (s1 := Startup _ _). pose proof (announced_database config public s1) as Hannounced.
  pose proof (announced_files config public s1 (server_key_path (paths config))) as Hfiles.
  destruct (loaded_key_is_stored _ _ _ _ _ _ Hdrawn Ek) as (stored & Hstored & _ & Htake & Hpair).
  assert (∀ s3, (do* announce_server_key config public in write_connect_file config public) s1 = (tt, s3) →
    started_with config h s s3 public secret) as Hstarted.
  { intros s3 E3. split; [|exact Hpair|].
    - exists w1. split; [exact Ep|]. exists d1. split; [exact Ek|]. split; [by exists stored|exact E3].
    - intros Hpath. exists stored. rewrite E3 in Hfiles. cbn [snd] in Hfiles. by rewrite (Hfiles Hpath). }
  unfold sbind at 1 in Hannounced. unfold sbind at 1 in Hstarted.
  unfold sbind at 1. destruct (announce_server_key config public s1) as [u s2]. unfold sbind at 1.
  destruct (write_connect_file config public s2) as [[] s3]. cbn [snd] in Hannounced. specialize (Hannounced Hw1).
  specialize (Hstarted s3 eq_refl).
  destruct (serve_until_stopped backup config public secret h (start_world s3)) as [[failure result] rt0] eqn:Eserve.
  pose proof (served_states _ _ _ _ _ _ _ _ Hannounced Htyped Eserve) as Hrun.
  assert (∀ level message, rtc (server_step config public secret)
    (new_server config (get_unix_timestamp (start_world s3)).2 (get_unix_timestamp (start_world s3)).1)
    (core (on_common (write_entry (logging config) level message) rt0).2)) as Hlogged.
  { intros level message. eapply rtc_r; [exact Hrun|]. pose proof (step_log config public secret level message (core rt0)) as Hl.
    unfold on_common, zoom. by destruct (write_entry _ _ _ _). }
  destruct failure as [error|]; [|destruct result as [|error|]]; intros [= <- <- <-].
  all: split; [by eauto|]; intros rt [= <-]; exists public, secret; rewrite Eserve.
  all: split_and!; done.
Qed.
End soundness.

(** ** The program *)

Section promises.
Context `{Sodium} `{FileSystem} `{Environment, !EnvironmentLaws} `{!DescriptorTable, !DescriptorLaws}.
Context (run_script : bytes → tables → tables * option bytes) (backup : bytes → option bytes).

(** C3: the server program, from its arguments to the states it serves in. On
    a database that is well formed and with migrations that leave it so,
    whatever the configuration file says, whichever calls fail while it starts
    and serves and whatever clients and operators do: the program ends with
    code 2 before it has touched anything, or runs under a configuration that
    was accepted. Then it ends with code 3, or with code 0 because of a
    signal, or serves. And it serves with the pair that it loaded from the key
    file, or drew because it could read none and stored there: the secret key is
    the first 32 bytes of that file, still there when it serves (unless the
    connect file is configured to be the same file), the public key is the one
    of that secret key, and is what was announced. The state is one the steps of
    the server lead to from the database it prepared: a well-formed database, at
    most the configured number of connections, and no session that has not
    proved its key. *)
Theorem server_program_is_sound (arguments : list bytes) (h : host) (s s' : startup) (e : ending)
    (Hscripts : scripts_sound run_script h) (Hdrawn : drawn_pair h) (Hclosed : saved (db (start_world s)) = None)
    (Hdatabase : tables_ok (db_tables (db (start_world s))))
    (Hmain : main run_script backup true arguments h s = (e, s')) :
  match load_validated_config (config_path arguments) (read_file (config_path arguments) (start_disk s)).1 with
  | (None, shown) =>
      e = Ending (Some 2) shown None ∧ start_world s' = start_world s ∧ files (start_disk s') = files (start_disk s)
  | (Some config, shown) =>
      error_output e = shown ∧ (exit_code e = None ∨ exit_code e = Some 0 ∨ exit_code e = Some 3) ∧
      ∀ rt, serving e = Some rt → ∃ public secret,
        started_with run_script config h
          (Startup (read_file (config_path arguments) (start_disk s)).2 (start_world s)) s' public secret ∧
        (exit_code e = Some 0 →
           (serve_until_stopped backup config public secret h (start_world s')).1.2 = StoppedBySignal) ∧
        rtc (server_step config public secret)
          (new_server config (get_unix_timestamp (start_world s')).2 (get_unix_timestamp (start_world s')).1) (core rt) ∧
        holds tables_ok (common (core rt)) ∧
        connection_count (registry (core rt)) <= max_connections (limits config) ∧
        ∀ fd c, find_connection (registry (core rt)) fd = Some c → phase (session c) = session_phase.authenticated →
          ∃ signature, proves_key (session c) signature
  end.
Proof.
  revert Hmain. unfold main. cbn [negb]. set (path := config_path arguments).
  unfold sbind at 1, Startup.on_disk at 1, zoom at 1. destruct (read_file path (start_disk s)) as [contents d1] eqn:Eread.
  assert (files d1 = files (start_disk s)) as Hfiles.
  { revert Eread. unfold read_file, io_call, sbind, sgets. cbn. by intros [= _ <-]. }
  cbn [fst snd]. destruct (load_validated_config path contents) as [[config|] shown] eqn:Ec; [|by intros [= <- <-]].
  destruct (load_validated_accepts _ _ _ _ Ec) as [[Htyped _] _]. unfold sbind.
  destruct (run_server run_script backup config h _) as [[code ort] s2] eqn:Erun. intros [= <- <-].
  destruct (run_server_result run_script backup config h (Startup d1 (start_world s)) code ort s2 Hscripts Hdrawn Hclosed
              Hdatabase Htyped Erun) as [Hcode Hserves].
  split_and!; [done|exact Hcode|]. intros rt Ert.
  destruct (Hserves rt Ert) as (public & secret & Hstarted & Hw & Hrun & Hstop). exists public, secret.
  destruct Htyped as (_ & _ & Hc1 & Hc2 & _). pose proof (clock_safe tables_ok _ Hw) as Hw'.
  pose proof (server_reaches_ok _ _ _ _ _ (new_server_ok config _ (get_unix_timestamp (start_world s2)).1 Hw' Hc1 Hc2) Hrun)
    as [Hd Hr [Hcap _] Hcs].
  split_and!; [done..| |].
  - pose proof (total_capped _ Hr) as Ht. rewrite Hcap in Ht. destruct Hc1. lia.
  - intros fd c Hfd Hphase. destruct (Hcs _ _ Hfd) as [[_ Hp] _]. by apply Hp.
Qed.
End promises.

(** ** A start *)

Section witness.
#[local] Existing Instance toy_sodium.
#[local] Existing Instance calm.
#[local] Existing Instance lowest_first.
#[local] Existing Instance lowest_first_laws.
#[local] Instance calm_laws : EnvironmentLaws := scripted_laws _ _.
#[local] Instance sound_system : FileSystem := {| io_fails := λ _, false; io_written := λ _, 0%nat |}.

Definition small_conf : bytes :=
  lit "[clearnet]" ++ newline ++ lit "enabled = true" ++ newline ++ lit "bind_address = 0.0.0.0" ++ newline ++ lit "port = 7717" ++ newline.

(** The script of the directory has run before. *)
Definition small_host : host :=
  Host (Some [MigrationFile (lit "0001_initial_schema.sql") (Some [])]) {[lit "0001_initial_schema.sql" := 1]} None
    (Some (server_public, server_public)) granted_start standard_descriptors
    [Reported [arrival 4 (lit "192.0.2.1")]; Reported [Report 6 quiet []]].

Definition small_start : startup := Startup (Disk {[lit "hypercom.conf" := small_conf]} 0) (fresh_world populated).

(** A client connects, then a signal comes: the program ends with code 0, and
    the client was within the limit. *)
Lemma server_program_is_sound_witness : ∃ e s' config rt secret stored,
  main (λ _ t, (t, None)) (λ _, None) true [] small_host small_start = (e, s') ∧
  (load_validated_config (lit "hypercom.conf") (Some small_conf)).1 = Some config ∧
  exit_code e = Some 0 ∧ serving e = Some rt ∧ holds tables_ok (common (core rt)) ∧
  connection_count (registry (core rt)) <= max_connections (limits config) ∧
  files (start_disk s') !! server_key_path (paths config) = Some stored ∧ take 32 stored = secret.
Proof.
  assert (let '(e, s') := main (λ _ t, (t, None)) (λ _, None) true [] small_host small_start in
          exit_code e = Some 0 ∧ match serving e with Some rt => connection_count (registry (core rt)) = 1 | None => False end)
    as Hrun by (vm_compute; split; reflexivity).
  destruct (main (λ _ t, (t, None)) (λ _, None) true [] small_host small_start) as [e s'] eqn:E. destruct Hrun as [Hcode Hserving].
  destruct (serving e) as [rt|] eqn:Es; [|destruct Hserving].
  pose proof (server_program_is_sound (λ _ t, (t, None)) (λ _, None) [] small_host small_start s' e) as Hsound.
  change (read_file (config_path []) (start_disk small_start)).1 with (Some small_conf) in Hsound. change (config_path []) with (lit "hypercom.conf") in Hsound.
  destruct (load_validated_config (lit "hypercom.conf") (Some small_conf)) as [[config|] shown] eqn:Ec; [|vm_compute in Ec; discriminate Ec].
  destruct Hsound as (_ & _ & Hserves).
  - intros files file script t t' _ _ _ Ht [= <-]. exact Ht.
  - intros public secret [= <- <-]. split; vm_compute; reflexivity.
  - reflexivity.
  - exact populated_ok.
  - exact E.
  - destruct (Hserves rt Es) as (public & secret & Hstarted & _ & _ & Hd & Hcount & _).
    destruct (started_file _ _ _ _ _ _ _ Hstarted) as (stored & Hstored & Htake);
      [vm_compute in Ec; injection Ec as <- _; vm_compute; discriminate|].
    exists e, s', config, rt, secret, stored. split; [reflexivity|]. split; [reflexivity|]. split; [exact Hcode|]. split; [exact Es|].
    split; [exact Hd|]. split; [exact Hcount|]. split; [exact Hstored|exact Htake].
Defined.
End witness.
