(* ===== verification/Tools.v ===== *)
(** The two tools beside the programs: the administrator's command line
    (tools/adminctl/adminctl_main.cpp), which is the other end of [Admin]'s
    socket, and the offline generation of keys (tools/keygen/keygen_main.cpp),
    of which the server and the clients read the files. *)

From S2P Require Import Prelude.
From S2P Require Import TextTools.
From S2P Require Import Hex.
From S2P Require Import Wire.
From S2P Require Import Sodium.
From S2P Require Import Noise.
From S2P Require Import Config.
From S2P Require Import DirectMessages.
From S2P Require Import Files.
From S2P Require Import Keystore.
From S2P Require Import Connection.
From S2P Require Import Database.
From S2P Require Import Startup.
From S2P Require Import Admin.
From S2P Require Import EventLoop.
From S2P Require Import Scenario.

(** What a run leaves: its exit code and its two streams. *)
Record tool_run := ToolRun { exit_code : Z; standard_output : bytes; standard_error : bytes }.

(** ** adminctl_main.cpp *)

Definition DEFAULT_SOCKET_PATH : bytes := lit "run/hypercom-admin.sock".
Definition EXIT_USAGE : Z := 2.
Definition EXIT_CONNECTION : Z := 3.

Definition print_usage : bytes :=
  concat (map (λ line, line ++ newline)
    [ lit "usage : hypercom_adminctl [--socket <chemin>] <commande> [args]";
      [];
      lit "  hypercom_adminctl stats";
      lit "  hypercom_adminctl sessions";
      lit "  hypercom_adminctl sessions close 12";
      lit "  hypercom_adminctl motd set " ++ quoted (lit "maintenance samedi 14h");
      lit "  hypercom_adminctl motd clear";
      lit "  hypercom_adminctl backup /sauvegardes/hypercom.db";
      lit "  hypercom_adminctl help";
      [];
      lit "Defaut du socket : " ++ DEFAULT_SOCKET_PATH ]).

(** A space or a tab. *)
Definition needs_quotes (argument : bytes) : bool := existsb is_space_or_tab argument.

Definition quote_if_needed (argument : bytes) : bytes :=
  if negb (needs_quotes argument) then argument else quoted argument.

(** A word is separated from what the line holds already, if anything. *)
Definition append_word (line argument : bytes) : bytes :=
  (if decide (line = []) then [] else line ++ lit " ") ++ quote_if_needed argument.

Definition request_line (arguments : list bytes) : bytes := fold_left append_word arguments [] ++ newline.

(** Whether a descriptor comes back: the path must fit its array, and the
    system answer. *)
Definition connect_to_socket (connects : bytes → bool) (path : bytes) : bool :=
  negb (SUN_PATH_SIZE <=? size_of path) && connects path.

(** What was sent, and whether it was everything. Anything but some bytes sent
    ends it. *)
Fixpoint send_all (answers : list send_result) (payload : bytes) : bool * bytes :=
  match payload with
  | [] => (true, [])
  | _ :: _ =>
      match answers with
      | Sent (S size) :: answers' =>
          let '(ok, sent) := send_all answers' (drop (S size) payload) in (ok, take (S size) payload ++ sent)
      | _ => (false, [])
      end
  end.

(** An end, an error or an interruption ends it alike. *)
Fixpoint copy_response_to_output (answers : list recv_result) : bytes :=
  match answers with
  | Received chunk :: answers' => chunk ++ copy_response_to_output answers'
  | _ => []
  end.

Definition socket_arguments (arguments : list bytes) : bytes * list bytes :=
  match arguments with
  | option :: path :: rest => if decide (option = lit "--socket") then (path, rest) else (DEFAULT_SOCKET_PATH, arguments)
  | _ => (DEFAULT_SOCKET_PATH, arguments)
  end.

(** [main], of the arguments after the program's name: the run and what was
    sent to the server. *)
Definition run_adminctl (connects : bytes → bool) (sends : list send_result) (answers : list recv_result)
    (arguments : list bytes) : tool_run * bytes :=
  let '(socket_path, words) := socket_arguments arguments in
  match words with
  | [] => (ToolRun EXIT_USAGE [] print_usage, [])
  | _ :: _ =>
      let line := request_line words in
      if negb (connect_to_socket connects socket_path) then
        (ToolRun EXIT_CONNECTION [] (lit "connexion impossible au socket d'admin : " ++ socket_path ++ newline ++
                                     lit "Le serveur tourne-t-il, et le chemin est-il le bon ?" ++ newline), [])
      else
        let '(ok, sent) := send_all sends line in
        if negb ok then (ToolRun EXIT_CONNECTION [] (lit "envoi de la commande impossible" ++ newline), sent)
        else (ToolRun 0 (copy_response_to_output answers) [], sent)
  end.

(** ** keygen_main.cpp *)

Section keygen.
Context `{Sodium} `{FileSystem}.

(** The bytes fit the stream's buffer and are written when it is closed: only
    the opening is looked at. *)
Definition write_binary_file (path content : bytes) : state disk bool :=
  let* opened := open_truncated path in
  if negb opened then sret false else do* write_contents path content in sret true.

(** [drawn] is what [generate_x25519_keypair] draws. *)
Definition generate_server_key (path : bytes) (drawn : option (bytes * bytes)) : state disk tool_run :=
  match drawn with
  | None => sret (ToolRun 1 [] (lit "generation impossible" ++ newline))
  | Some (public_key, secret_key) =>
      let* written := write_binary_file path secret_key in
      if negb written then sret (ToolRun 1 [] (lit "ecriture impossible : " ++ path ++ newline))
      else
        sret (ToolRun 0
          ((lit "cle privee ecrite dans " ++ path ++ newline ++ lit "METTRE LES DROITS A 0600 : chmod 600 " ++ path ++ newline ++
            newline ++ lit "cle publique a communiquer aux clients :" ++ newline) ++
           encode_hex public_key ++ newline ++ newline ++
           lit "Elle doit voyager par un canal de confiance. La faire recuperer" ++ newline ++
           lit "depuis le serveur lui-meme annulerait tout l'interet de l'epinglage." ++ newline) [])
  end.

(** [input] is the line [std::getline] reads, if it reads one; [drawn] is what
    [generate_random] gives. *)
Definition generate_identity (path : bytes) (input : option bytes) (salt nonce : bytes) (drawn : option identity_keypair)
    : state disk tool_run :=
  let prompt := lit "passphrase : " in
  match default [] input with
  | [] => sret (ToolRun 1 prompt (lit "passphrase requise" ++ newline))
  | (_ :: _) as passphrase =>
      match drawn with
      | None => sret (ToolRun 1 prompt (lit "generation impossible" ++ newline))
      | Some owner =>
          let failure := ToolRun 1 prompt (lit "ecriture impossible : " ++ path ++ newline) in
          match seal_identity_secret salt nonce passphrase (secret_key_ owner) with
          | None => sret failure
          | Some sealed =>
              let* written := write_binary_file path sealed in
              if negb written then sret failure
              else
                sret (ToolRun 0
                  ((prompt ++ lit "identite ecrite dans " ++ path ++ newline ++ lit "cle publique :" ++ newline) ++
                   encode_hex (public_key_ owner) ++ newline ++ newline ++
                   lit "Cette cle EST le compte. Perdue, elle ne se recupere pas :" ++ newline ++
                   lit "aucun administrateur ne peut la reinitialiser." ++ newline) [])
          end
      end
  end.

(** What the program draws and reads. *)
Record keygen_inputs := KeygenInputs {
  sodium_ready : bool;
  drawn_pair : option (bytes * bytes);
  typed_passphrase : option bytes;
  drawn_keystore : bytes * bytes;
  drawn_identity : option identity_keypair;
}.

(** [main], of the arguments after the program's name; more than two are
    allowed and ignored. *)
Definition run_keygen (inputs : keygen_inputs) (arguments : list bytes) : state disk tool_run :=
  if negb (sodium_ready inputs) then sret (ToolRun 1 [] (lit "libsodium n'a pas pu s'initialiser" ++ newline))
  else
    match arguments with
    | mode :: path :: _ =>
        if decide (mode = lit "server") then generate_server_key path (drawn_pair inputs)
        else if decide (mode = lit "identity") then
          generate_identity path (typed_passphrase inputs) (drawn_keystore inputs).1 (drawn_keystore inputs).2
            (drawn_identity inputs)
        else sret (ToolRun 2 [] (lit "mode inconnu : " ++ mode ++ newline))
    | _ => sret (ToolRun 2 [] (lit "usage : hypercom_keygen <server|identity> <chemin>" ++ newline))
    end.
End keygen.

(** ** A command through the tool and the server's parser *)

(** A word the tool can deliver: without quotes or newlines, and without a
    carriage return unless quotes will protect it. *)
Definition deliverable (word : bytes) : bool :=
  forallb (λ b, negb (is_quote b) && negb (byte_val b =? 10)) word &&
  (needs_quotes word || forallb (λ b, negb (byte_val b =? 13)) word).

(** The words after the first. *)
Definition following_words (words : list bytes) : bytes := concat (map (λ word, lit " " ++ quote_if_needed word) words).

Definition not_empty (word : bytes) : bool := negb (bool_decide (word = [])).

Lemma appended_words line words : line ≠ [] → fold_left append_word words line = line ++ following_words words.
Proof.
  revert line. induction words as [|word words IH]; intros line Hline; [by rewrite app_nil_r|].
  cbn [fold_left]. unfold append_word at 2. rewrite decide_False by done.
  rewrite IH by (by destruct line). unfold following_words. cbn [map concat]. by rewrite <-!app_assoc.
Qed.

Lemma space_is_blank b : is_space_or_tab b = true → is_blank b = true.
Proof. unfold is_space_or_tab, is_blank. change (chr " ") with 32. by intros ->. Qed.

(** What ends a word: a blank, or the end of the line. *)
Definition bounded (rest : bytes) : Prop := match rest with [] => True | b :: _ => is_blank b = true end.

Lemma following_bounded words : bounded (following_words words).
Proof. by destruct words. Qed.

Lemma take_bare_word word rest : forallb (λ b, negb (is_blank b)) word = true → bounded rest →
  take_bare (word ++ rest) = (word, rest).
Proof.
  intros Hword Hrest. induction word as [|b word IH].
  - destruct rest as [|b rest]; [done|]. cbn in *. by rewrite Hrest.
  - cbn in *. apply andb_true_iff in Hword as [Hb Hword]. apply negb_true_iff in Hb. by rewrite Hb, (IH Hword).
Qed.

Lemma deliverable_quotable word : deliverable word = true → quotable word.
Proof.
  intros [Hall _]%andb_true_iff. rewrite forallb_forall in Hall. apply Forall_forall. intros b Hb.
  apply list_elem_of_In in Hb. specialize (Hall b Hb). apply andb_true_iff in Hall as [Hq _]. by apply negb_true_iff.
Qed.

(** A word without a space, a tab or a carriage return has no blank. *)
Lemma bare_has_no_blank word : deliverable word = true → needs_quotes word = false →
  forallb (λ b, negb (is_blank b)) word = true.
Proof.
  unfold deliverable. intros [_ Hcr]%andb_true_iff Hneeds. rewrite Hneeds in Hcr. cbn [orb] in Hcr.
  rewrite forallb_forall in *. intros b Hb. specialize (Hcr b Hb). apply negb_true_iff in Hcr.
  apply negb_true_iff. unfold is_blank. change (chr " ") with 32. rewrite Hcr, orb_false_r.
  change (is_space_or_tab b = false). apply not_true_is_false. intros Hspace.
  assert (needs_quotes word = true) as Htrue by (apply existsb_exists; by exists b). congruence.
Qed.

(** The word [quote_if_needed] writes is the word the server takes. *)
Lemma token_taken word rest tokens fuel : deliverable word = true → word ≠ [] → bounded rest →
  split_tokens (S fuel) (quote_if_needed word ++ rest) tokens =
    if MAX_COMMAND_TOKENS <=? size_of tokens then None else split_tokens fuel rest (tokens ++ [word]).
Proof.
  intros Hword Hne Hrest. unfold quote_if_needed. destruct (needs_quotes word) eqn:Hneeds; cbn [negb].
  - unfold quoted. cbn [app split_tokens take_token]. change (is_blank (byte_of 34)) with false.
    change (is_quote (byte_of 34)) with true. cbv iota. rewrite <-app_assoc.
    change ([byte_of 34] ++ rest) with (byte_of 34 :: rest). rewrite take_quoted_closed by by apply deliverable_quotable. done.
  - pose proof (bare_has_no_blank word Hword Hneeds) as Hblank.
    pose proof (deliverable_quotable word Hword) as Hquotable.
    pose proof (take_bare_word word rest Hblank Hrest) as Htake.
    destruct word as [|b word]; [done|]. cbn [app split_tokens take_token] in *.
    apply Forall_cons_1 in Hquotable as [-> _]. cbn [forallb] in Hblank. apply andb_true_iff in Hblank as [Hb _].
    apply negb_true_iff in Hb. rewrite Hb, Htake. done.
Qed.

Lemma quoted_longer word : (length word <= length (quote_if_needed word))%nat.
Proof. unfold quote_if_needed, quoted. destruct (negb _); [lia|]. cbn. rewrite length_app. cbn. lia. Qed.

(** The words the server is to see: those that are not empty, if they are few
    enough. *)
Definition seen_words (tokens words : list bytes) : option (list bytes) :=
  let seen := List.filter not_empty words in
  if size_of tokens + size_of seen <=? MAX_COMMAND_TOKENS then Some (tokens ++ seen) else None.

Lemma seen_nothing tokens : size_of tokens <= MAX_COMMAND_TOKENS → seen_words tokens [] = Some tokens.
Proof.
  intros Hn. unfold seen_words. cbn [List.filter]. rewrite size_of_nil, app_nil_r.
  by destruct (Z.leb_spec (size_of tokens + 0) MAX_COMMAND_TOKENS); [|lia].
Qed.

Lemma seen_word tokens word words : word ≠ [] →
  (if MAX_COMMAND_TOKENS <=? size_of tokens then None else seen_words (tokens ++ [word]) words) =
    seen_words tokens (word :: words).
Proof.
  intros Hne. destruct word as [|b word]; [done|]. unfold seen_words. cbn [List.filter].
  change (not_empty (b :: word)) with true. cbv iota.
  rewrite size_of_app, !size_of_cons, size_of_nil, <-app_assoc. cbn [app].
  pose proof (size_of_nonneg (List.filter not_empty words)).
  destruct (Z.leb_spec MAX_COMMAND_TOKENS (size_of tokens)).
  - by destruct (Z.leb_spec (size_of tokens + (1 + size_of (List.filter not_empty words))) MAX_COMMAND_TOKENS); [lia|].
  - by rewrite <-Z.add_assoc, Z.add_0_r.
Qed.

Lemma seen_empty tokens words : seen_words tokens ([] :: words) = seen_words tokens words.
Proof. done. Qed.

Lemma split_following words fuel tokens : forallb deliverable words = true → size_of tokens <= MAX_COMMAND_TOKENS →
  (length (following_words words) <= fuel)%nat →
  split_tokens fuel (following_words words) tokens = seen_words tokens words.
Proof.
  revert fuel tokens. induction words as [|word words IH]; intros fuel tokens Hall Hn Hfuel.
  { rewrite seen_nothing by done. by destruct fuel. }
  cbn [forallb] in Hall. apply andb_true_iff in Hall as [Hword Hall].
  unfold following_words in *. cbn [map concat] in *. rewrite <-!app_assoc in *. rewrite !length_app in Hfuel.
  change (length (lit " ")) with 1%nat in Hfuel. pose proof (quoted_longer word).
  destruct fuel as [|fuel]; [lia|]. change (lit " ") with [byte_of 32] in *. cbn [app split_tokens].
  change (is_blank (byte_of 32)) with true. cbv iota.
  destruct (decide (word = [])) as [->|Hne].
  - rewrite seen_empty. apply IH; [done..|lia].
  - destruct fuel as [|fuel]; [destruct word; cbn in *; [done|lia]|].
    rewrite token_taken by (done || apply following_bounded). rewrite <-seen_word by done.
    destruct (Z.leb_spec MAX_COMMAND_TOKENS (size_of tokens)); [done|].
    destruct word; [done|]. apply IH; [done|rewrite size_of_app, size_of_cons, size_of_nil; lia|cbn in *; lia].
Qed.

Lemma split_request words fuel : forallb deliverable words = true →
  (length (fold_left append_word words []) <= fuel)%nat →
  split_tokens fuel (fold_left append_word words []) [] = seen_words [] words.
Proof.
  revert fuel. induction words as [|word words IH]; intros fuel Hall Hfuel; [by destruct fuel|].
  cbn [forallb] in Hall. apply andb_true_iff in Hall as [Hword Hall]. cbn [fold_left] in *.
  destruct (decide (word = [])) as [->|Hne]; [by apply IH|].
  change (append_word [] word) with (quote_if_needed word) in *. pose proof (quoted_longer word).
  assert (quote_if_needed word ≠ []) as Hq by (intros Hq; rewrite Hq in *; by destruct word; cbn in *; [|lia]).
  rewrite appended_words in * by done. rewrite length_app in Hfuel.
  destruct fuel as [|fuel]; [destruct word; cbn in *; [done|lia]|].
  rewrite token_taken by (done || apply following_bounded). rewrite <-seen_word by done.
  change (MAX_COMMAND_TOKENS <=? size_of []) with false. cbv iota.
  apply split_following; [done|vm_compute; discriminate|destruct word; cbn in *; [done|lia]].
Qed.

(** The words of the line the tool sends are the words the server takes: all
    of them but the empty ones, which the tool does not quote; and none when
    there are more than the server allows. *)
Theorem operator_words_arrive (words : list bytes) (Hwords : forallb deliverable words = true) :
  parse_admin_command (fold_left append_word words []) =
    match List.filter not_empty words with
    | [] => None
    | verb :: arguments =>
        if size_of (verb :: arguments) <=? MAX_COMMAND_TOKENS then Some (AdminCommand verb arguments) else None
    end.
Proof.
  unfold parse_admin_command. rewrite split_request by done. unfold seen_words. rewrite size_of_nil, Z.add_0_l.
  destruct (List.filter not_empty words) as [|verb arguments]; [done|]. by destruct (_ <=? _).
Qed.

(** *** The line on its way *)

Lemma first_line_found line rest : forallb (λ b, negb (byte_val b =? 10)) line = true →
  first_line (line ++ byte_of 10 :: rest) = Some line.
Proof.
  induction line as [|b line IH]; [done|]. cbn [forallb app first_line]. intros [Hb Hline]%andb_true_iff.
  apply negb_true_iff in Hb. by rewrite Hb, IH.
Qed.

Lemma quoted_one_line word : deliverable word = true →
  forallb (λ b, negb (byte_val b =? 10)) (quote_if_needed word) = true.
Proof.
  intros [Hall _]%andb_true_iff. assert (forallb (λ b, negb (byte_val b =? 10)) word = true) as Hword.
  { rewrite forallb_forall in *. intros b Hb. by apply Hall, andb_true_iff in Hb as [_ ?]. }
  unfold quote_if_needed, quoted. destruct (negb _); [done|]. cbn [forallb]. by rewrite forallb_app, Hword.
Qed.

Lemma request_one_line words line : forallb deliverable words = true →
  forallb (λ b, negb (byte_val b =? 10)) line = true →
  forallb (λ b, negb (byte_val b =? 10)) (fold_left append_word words line) = true.
Proof.
  revert line. induction words as [|word words IH]; [done|]. intros line [Hword Hall]%andb_true_iff Hline.
  apply IH; [done|]. unfold append_word. rewrite forallb_app, quoted_one_line by done.
  case_decide; [done|]. by rewrite forallb_app, Hline.
Qed.

Lemma read_chunks chunks buffer : size_of buffer + size_of (concat chunks) <= MAX_REQUEST_BYTES →
  read_into_buffer (map Received chunks) buffer = (true, buffer ++ concat chunks).
Proof.
  revert buffer. induction chunks as [|chunk chunks IH]; intros buffer Hsize; [by rewrite app_nil_r|].
  cbn [map concat read_into_buffer] in *. rewrite size_of_app in Hsize. pose proof (size_of_nonneg (concat chunks)).
  destruct (Z.ltb_spec MAX_REQUEST_BYTES (size_of buffer + size_of chunk)); [lia|].
  rewrite IH by (rewrite size_of_app; lia). by rewrite <-app_assoc.
Qed.

Lemma copy_chunks chunks rest :
  copy_response_to_output (map Received chunks ++ EndOfStream :: rest) = concat chunks.
Proof. induction chunks as [|chunk chunks IH]; [done|]. cbn. by rewrite IH. Qed.

Lemma send_all_sends answers payload sent : send_all answers payload = (true, sent) → sent = payload.
Proof.
  revert payload sent. induction answers as [|answer answers IH]; intros [|b payload] sent; cbn; try by intros [= <-].
  destruct answer as [[|size]| |]; try done. destruct (send_all answers _) as [ok rest] eqn:E. intros [= -> <-].
  apply IH in E as ->. by rewrite take_drop.
Qed.

(** C23: what an operator types is what the server executes, and what it answers is
    what the operator reads. For words the tool can deliver, that are not too
    many or too long for the server, the line it sends, cut in any way on its
    way, makes a fresh connection of the administration socket execute the
    command of the words that are not empty; and the answer, cut in any way,
    is the tool's standard output, with exit code 0. *)
Theorem operator_commands_are_run `{Environment} (config : server_config) (backup : bytes → option bytes)
    (registry : connection_registry) (started_at descriptor : Z) (service : gmap Z admin_connection) (w : world)
    (connects : bytes → bool) (sends replies : list send_result) (watched : bool)
    (arguments words args : list bytes) (path name : bytes) (chunks : list bytes)
    (Harguments : socket_arguments arguments = (path, words)) (Hwords : forallb deliverable words = true)
    (Hseen : List.filter not_empty words = name :: args) (Hfew : size_of (name :: args) <= MAX_COMMAND_TOKENS)
    (Hconnects : connect_to_socket connects path = true) (Hsends : (send_all sends (request_line words)).1 = true)
    (Hservice : service !! descriptor = Some new_admin_connection)
    (Hchunks : concat chunks = request_line words) (Hsize : size_of (request_line words) <= MAX_REQUEST_BYTES) :
  let '((text, closed), w') :=
    execute_admin_command config backup registry started_at (AdminCommand name args) w in
  service_admin_connection config backup registry started_at descriptor (map Received chunks) replies watched service w =
    ((answer_admin_connection descriptor replies watched (AdminConnection [] text true) service, closed), w') ∧
  ∀ parts, concat parts = text →
    run_adminctl connects sends (map Received parts ++ [EndOfStream]) arguments =
      (ToolRun 0 text [], request_line words).
Proof.
  destruct (execute_admin_command _ _ _ _ _ w) as [[text closed] w'] eqn:Eexecute. split.
  - unfold service_admin_connection. rewrite Hservice. cbn [new_admin_connection response_ready input].
    rewrite read_chunks by (rewrite size_of_nil, Hchunks; lia). cbn [negb app]. rewrite Hchunks.
    unfold sbind at 1, build_response. cbn [input]. unfold request_line, newline.
    rewrite first_line_found by by apply request_one_line. rewrite operator_words_arrive by done. rewrite Hseen.
    destruct (Z.leb_spec (size_of (name :: args)) MAX_COMMAND_TOKENS); [|lia].
    unfold sbind. rewrite Eexecute. done.
  - intros parts Hparts. unfold run_adminctl. rewrite Harguments.
    assert (words ≠ []) as Hne by (by intros ->). destruct words as [|word words]; [done|].
    rewrite Hconnects. cbn [negb]. destruct (send_all sends _) as [ok sent] eqn:Es. cbn [fst] in Hsends. subst ok.
    apply send_all_sends in Es as ->. cbn [negb]. by rewrite copy_chunks, Hparts.
Qed.

(** ** The files of the offline generator *)

Section generated.
Context `{SodiumLaws} `{FileSystem}.
Context (Hsystem : no_failure).

Lemma write_binary_succeeds path content d :
  ∃ d', write_binary_file path content d = (true, d') ∧ files d' = <[path := content]> (files d).
Proof.
  unfold write_binary_file, open_truncated, write_contents, set_file, smodify, io_call, sbind, sret. cbn.
  rewrite !Hsystem. cbn. rewrite !Hsystem. eexists. split; [done|]. cbn. by rewrite insert_insert_eq.
Qed.

(** C36: the key the tool writes is the key the server uses, and the one it shows is
    the one to give to clients: after [hypercom_keygen server], every start of
    a server on that file loads the pair that was drawn, whatever it would
    draw itself, and the hexadecimal the tool printed decodes, as an option or
    in an invite, to its public key. *)
Theorem generated_key_starts_the_server (inputs : keygen_inputs) (path public secret : bytes) (extra : list bytes) (d : disk)
    (Hready : sodium_ready inputs = true) (Hdrawn : drawn_pair inputs = Some (public, secret))
    (Hsecret : size_of secret = X25519_SECRET_KEY_SIZE) (Hpublic : size_of public = X25519_PUBLIC_KEY_SIZE)
    (Hpair : compute_public_from_secret secret = Some public) :
  let '(run, d1) := run_keygen inputs (lit "server" :: path :: extra) d in
  exit_code run = 0 ∧
  (∃ before after, standard_output run = before ++ encode_hex public ++ after) ∧
  decode_key (encode_hex public) = Some public ∧
  ∀ drawn, (load_or_create_server_key path drawn d1).1 = inr (public, secret).
Proof.
  unfold run_keygen. rewrite Hready. cbn [negb]. rewrite decide_True by done. unfold generate_server_key. rewrite Hdrawn.
  unfold sbind at 1. destruct (write_binary_succeeds path secret d) as (d1 & -> & Hfile). cbn [negb].
  unfold sret. split_and!; [done| | |].
  - eexists _, _. reflexivity.
  - unfold decode_key. by rewrite decode_hex_encode, Hpublic, Z.eqb_refl.
  - intros drawn. assert (take 32 secret = secret) as Htake.
    { apply take_ge. unfold size_of in Hsecret. change X25519_SECRET_KEY_SIZE with 32 in Hsecret. lia. }
    rewrite (load_stored_key path drawn d1 secret public); [by rewrite Htake|done| |by rewrite Hsecret|by rewrite Htake].
    rewrite Hfile. by rewrite lookup_insert_eq.
Qed.

(** The identity the tool seals is the one its passphrase unlocks, and the
    public key it shows is that account's. Unlike the client, the tool writes
    over an identity that is there, which is then lost. *)
Theorem generated_identity_unlocks (inputs : keygen_inputs) (path passphrase : bytes) (owner : identity_keypair)
    (seed : bytes) (extra : list bytes) (d : disk)
    (Hready : sodium_ready inputs = true) (Htyped : typed_passphrase inputs = Some passphrase) (Hpassphrase : passphrase ≠ [])
    (Hdrawn : drawn_identity inputs = Some owner) (Hseed : size_of seed = ED25519_SEED_SIZE)
    (Hidentity : derive_from_seed seed = Some owner) (Hkeystore : drawn_ok (drawn_keystore inputs).1 (drawn_keystore inputs).2) :
  let '(run, d1) := run_keygen inputs (lit "identity" :: path :: extra) d in
  exit_code run = 1 ∧ files d1 = files d ∨
  exit_code run = 0 ∧
  (∃ before after, standard_output run = before ++ encode_hex (public_key_ owner) ++ after) ∧
  (unlock_identity path passphrase d1).1 = inr owner ∧
  (∀ salt nonce drawn, is_Some (files d !! path) →
     ∃ refusal, (create_identity path salt nonce passphrase drawn d).1 = inl refusal).
Proof.
  unfold run_keygen. rewrite Hready. cbn [negb]. rewrite decide_False, decide_True by done.
  unfold generate_identity. rewrite Htyped. cbn [default from_option id]. destruct passphrase as [|b p]; [done|].
  set (passphrase := b :: p) in *. rewrite Hdrawn.
  destruct (seal_identity_secret _ _ _ _) as [sealed|] eqn:Es; [|unfold sret; cbv beta iota; by left].
  unfold sbind at 1. destruct (write_binary_succeeds path sealed d) as (d1 & -> & Hfile). cbn [negb]. unfold sret.
  right. split_and!; [done|eexists _, _; reflexivity| |].
  - pose proof (open_sealed_blob _ _ _ _ _ Hkeystore Es) as Hopen.
    unfold derive_from_seed in Hidentity. destruct (crypto_sign_seed_keypair seed) as [[public secret]|] eqn:Ek; [|done].
    destruct (seed_keypair_shape _ _ _ Ek) as [-> Hp]. injection Hidentity as <-. cbn [secret_key_] in Hopen.
    unfold unlock_identity, sbind. rewrite (read_sealed_file_eq path d1 sealed);
      [|done|by rewrite Hfile, lookup_insert_eq|intros ->; by unfold open_blob in Hopen].
    unfold open_identity_secret. rewrite Hopen, size_of_app, Hseed, Hp, Z.eqb_refl.
    change ED25519_SEED_SIZE with 32 in Hseed.
    rewrite take_app_exact by (unfold size_of in Hseed; lia). unfold derive_from_seed. by rewrite Ek.
  - intros salt nonce drawn Hstored. unfold create_identity, sbind. rewrite is_regular_file_eq by done.
    rewrite bool_decide_true by done. by eexists.
Qed.

End generated.

(** The tool does not look at how its write ends: on a disk that takes nothing
    more it leaves an empty key file behind, says it has written it, and shows
    the public key of a secret nobody has. *)
Theorem keygen_misses_a_full_disk `{Sodium} `{FileSystem} (inputs : keygen_inputs) (path public secret : bytes) (d : disk)
    (Hready : sodium_ready inputs = true) (Hdrawn : drawn_pair inputs = Some (public, secret))
    (Hopened : io_fails (io_calls d) = false) (Hfull : io_fails (S (io_calls d)) = true)
    (Hnothing : io_written (S (io_calls d)) = O) :
  let '(run, d1) := run_keygen inputs [lit "server"; path] d in
  exit_code run = 0 ∧ standard_error run = [] ∧ files d1 !! path = Some [].
Proof.
  unfold run_keygen. rewrite Hready. cbn [negb]. rewrite decide_True by done. unfold generate_server_key. rewrite Hdrawn.
  unfold write_binary_file, open_truncated, write_contents, set_file, smodify, io_call, sbind, sret. cbn.
  rewrite Hopened. cbn. rewrite Hfull, Hnothing. cbn. by rewrite lookup_insert_eq.
Qed.

(** ** Witnesses *)

Section witnesses.
#[local] Existing Instance toy_sodium.
#[local] Existing Instance toy_sodium_laws.
#[local] Existing Instance sound_system.

Definition tool_inputs : keygen_inputs :=
  KeygenInputs true (Some (pad 32 (lit "server"), pad 32 (lit "server"))) (Some (lit "pass")) (drawn_salt, drawn_nonce)
    (derive_from_seed (pad 32 (lit "seed"))).

Lemma operator_words_arrive_witness :
  parse_admin_command (fold_left append_word [lit "motd"; lit "set"; lit "see you at 8"; []] []) =
    Some (AdminCommand (lit "motd") [lit "set"; lit "see you at 8"]).
Proof. exact (operator_words_arrive [lit "motd"; lit "set"; lit "see you at 8"; []] eq_refl). Defined.

Lemma generated_key_starts_the_server_witness :
  let '(run, d1) := run_keygen tool_inputs [lit "server"; lit "server.key"] empty_disk in
  exit_code run = 0 ∧
  (load_or_create_server_key (lit "server.key") None d1).1 = inr (pad 32 (lit "server"), pad 32 (lit "server")).
Proof.
  pose proof (generated_key_starts_the_server (λ _, eq_refl) tool_inputs (lit "server.key") (pad 32 (lit "server"))
                (pad 32 (lit "server")) [] empty_disk eq_refl eq_refl eq_refl eq_refl eq_refl) as Hrun.
  destruct (run_keygen tool_inputs [lit "server"; lit "server.key"] empty_disk) as [run d1].
  destruct Hrun as (Hcode & _ & _ & Hload). split; [exact Hcode|exact (Hload None)].
Defined.

Lemma generated_identity_unlocks_witness : ∃ owner,
  derive_from_seed (pad 32 (lit "seed")) = Some owner ∧
  let '(run, d1) := run_keygen tool_inputs [lit "identity"; lit "alice.key"] empty_disk in
  exit_code run = 0 ∧ (unlock_identity (lit "alice.key") (lit "pass") d1).1 = inr owner.
Proof.
  destruct (derive_from_seed (pad 32 (lit "seed"))) as [owner|] eqn:Eowner; [|vm_compute in Eowner; discriminate Eowner].
  exists owner. split; [reflexivity|].
  pose proof (generated_identity_unlocks (λ _, eq_refl) tool_inputs (lit "alice.key") (lit "pass") owner (pad 32 (lit "seed")) []
                empty_disk eq_refl eq_refl ltac:(discriminate) Eowner eq_refl Eowner (conj eq_refl eq_refl)) as Hrun.
  assert (exit_code (run_keygen tool_inputs [lit "identity"; lit "alice.key"] empty_disk).1 = 0) as Hcode
    by (vm_compute; reflexivity).
  destruct (run_keygen tool_inputs [lit "identity"; lit "alice.key"] empty_disk) as [run d1].
  destruct Hrun as [[Hfailed _]|(_ & _ & Hunlocked & _)]; [cbn in Hcode; rewrite Hcode in Hfailed; discriminate Hfailed|].
  split; [exact Hcode|exact Hunlocked].
Defined.
End witnesses.

(** The disk is full after the file was opened. *)
Section full_disk.
#[local] Existing Instance toy_sodium.
#[local] Instance full_system : FileSystem := {| io_fails := λ n, bool_decide (0 < n)%nat; io_written := λ _, O |}.

Lemma keygen_misses_a_full_disk_witness :
  let '(run, d1) := run_keygen tool_inputs [lit "server"; lit "server.key"] empty_disk in
  exit_code run = 0 ∧ standard_error run = [] ∧ files d1 !! lit "server.key" = Some [].
Proof.
  exact (keygen_misses_a_full_disk tool_inputs (lit "server.key") (pad 32 (lit "server")) (pad 32 (lit "server"))
           empty_disk eq_refl eq_refl eq_refl eq_refl eq_refl).
Defined.
End full_disk.

(** An operator publishes an announcement. *)
Section operator.
#[local] Existing Instance calm.

Definition announcement : list bytes := [lit "motd"; lit "set"; []; lit "see you at 8"].
Definition one_operator : gmap Z admin_connection := {[ 7 := new_admin_connection ]}.
Definition announced_line : bytes := request_line announcement.

Lemma operator_commands_are_run_witness : ∃ registry text closed w',
  service_admin_connection default_config (λ _, None) registry 0 7
    (map Received [take 5 announced_line; drop 5 announced_line]) [Sent 100] true one_operator (fresh_world populated) =
    ((answer_admin_connection 7 [Sent 100] true (AdminConnection [] text true) one_operator, closed), w') ∧
  run_adminctl (λ _, true) [Sent 3; Sent 100] [Received text; EndOfStream] announcement =
    (ToolRun 0 text [], announced_line) ∧
  text = lit "annonce publiee, active des la prochaine connexion" ++ newline.
Proof.
  set (registry := ConnectionRegistry 10 10 ∅ ∅).
  pose proof (operator_commands_are_run default_config (λ _, None) registry 0 7 one_operator (fresh_world populated)
                (λ _, true) [Sent 3; Sent 100] [Sent 100] true announcement announcement [lit "set"; lit "see you at 8"]
                DEFAULT_SOCKET_PATH (lit "motd") [take 5 announced_line; drop 5 announced_line]) as Hrun.
  destruct (execute_admin_command default_config (λ _, None) registry 0
              (AdminCommand (lit "motd") [lit "set"; lit "see you at 8"]) (fresh_world populated)) as [[text closed] w'] eqn:E.
  assert (text = lit "annonce publiee, active des la prochaine connexion" ++ newline) as Htext.
  { change text with (text, closed, w').1.1. rewrite <-E. vm_compute. reflexivity. }
  destruct Hrun as [Hserver Htool]; [vm_compute; try reflexivity; discriminate..|].
  exists registry, text, closed, w'. split; [exact Hserver|]. split; [|exact Htext].
  exact (Htool [text] (app_nil_r text)).
Defined.
End operator.
